(* ===== verification/_CoqProject ===== *)
-Q . S2P
Prelude.v
Text.v
TextFacts.v
Numerals.v
NetAddr.v
NetAddrFacts.v
Normalize.v
NormalizeFacts.v
NormalizeSpace.v
Protocol.v
Crypto.v
Keys.v
Seal.v
SpaPacket.v
Fs.v
AuthKeys.v
Verifier.v
VerifierFacts.v
Replay.v
Xdp.v
XdpFacts.v
XdpLimits.v
Runtime.v
RuntimeFacts.v
Tunnel.v
TunnelFacts.v
Decoy.v
DecoyFacts.v
DecoyServe.v
System.v
Watch.v
Revocation.v
RelayWire.v
RelayEngine.v
RelayJobs.v
Config.v
Startup.v
StartupFacts.v
Privilege.v
RelayWireFacts.v
RelayPaths.v
RelayFacts.v
RelayJobFacts.v
RelayPool.v
RelayPoolFacts.v
RelayTunnel.v
ProxyListener.v
ProxyListenerFacts.v
Client.v
ClientFacts.v
Schedule.v
ScheduleFacts.v
ClientRelay.v
ClientSetup.v
ClientSetupFacts.v
Xtask.v
ClientTunnel.v
ClientTunnelFacts.v
XtaskSmoke.v
XtaskFacts.v
XtaskDeploy.v
ClientMain.v
ClientMainFacts.v
ClientListener.v
ClientListenerFacts.v
ServerMain.v
ServerFacts.v
ServerGate.v
Stealth.v
HttpsKnock.v
RelaySession.v
Examples.v
TunnelExamples.v
RelayExamples.v
WebExamples.v
ClientExamples.v
SessionExamples.v
XtaskExamples.v
ServerExamples.v
