(* ===== verification/Prelude.v ===== *)
(** * A verification of ghostbro

    ghostbro hides a proxy behind single packet authorization (SPA).  A client
    knocks with one sealed and signed packet, over UDP or inside a POST request
    to a web server that looks idle; an XDP program in the kernel drops
    everything for the proxy port except from sources whose knock the server has
    accepted, for a limited time; an accepted client then opens a Noise tunnel,
    through which it uses a SOCKS5 proxy or a content relay that fetches pages,
    git mirrors and packages on its behalf.

    ** Parts of the program and where they are modelled

    - Rust's standard library, as far as the program uses it: [str] and its
      panicking slices in [Text] (facts in [TextFacts]), numerals in [Numerals],
      [std::net] in [NetAddr] ([NetAddrFacts]), paths and file operations in [Fs].
    - [ghostbro-common/src/protocol.rs], [ghostbro-bpf-common/src/lib.rs]: wire
      constants and shared structures, in [Protocol].
    - [ghostbro-common/src/keys.rs]: encodings of keys and key ids, in [Keys];
      [seal.rs]: sealing to the server's key, in [Seal]; [spa.rs]: building,
      opening and verifying packets, in [SpaPacket].
    - [ghostbro-server/src/keys.rs]: the enrolment file, in [AuthKeys].
    - [ghostbro-server/src/spa.rs]: [SpaVerifier], in [Verifier] ([verify],
      [reload_clients], [save_counter_state], [load_counter_state]).  Its state
      is the record [SpaVerifier]; file operations are returned as a list of
      [fs_op], which can be run, cut off at any point, or turned into the disk
      images a power failure may leave.
    - [ghostbro-ebpf/src/main.rs]: the XDP program, in [Xdp], over the bytes of a
      frame and the BPF maps ([xdp_maps]); an access outside of the frame or of
      the reserved event makes the model stuck ([None]).
    - [ghostbro-server/src/ebpf.rs]: the user-space side, in [Runtime]: allowing,
      purging and reaping sources in the kernel map and its mirror, and one turn
      of the loop [run_spa] ([run_spa_turn]); the watcher of the enrolment file in
      [Watch].
    - [ghostbro-server/src/decoy.rs]: the web server with the knock's route, in
      [Decoy]; its TLS listener and [serve_decoy] of [main.rs] in [DecoyServe].
    - [ghostbro-server/src/noise.rs]: the tunnel, in [Tunnel]: session slots,
      frames, the polled stream [NoiseFramedStream], admission of connections,
      the identity file; [handle_ghost_relay] in [RelayTunnel]; in [ProxyListener]
      [run_proxy_listener] with its connections, each a task whose turns - lookup,
      handshake, first message, service - interleave with those of the others.
    - [ghostbro-server/src/relay.rs]: the relay, in [RelayWire] (cursor,
      responses, validators, SSRF guard, package specifications, digests),
      [RelayEngine] (the six operations over the spool directory, a map from
      client directories to files; a download or a deletion joins the id it is
      sent to a path, which is resolved component by component and may lead to
      any client's files or out of the spool), [RelayJobs] (the three kinds of
      job, package resolution, requests with their redirects hop by hop,
      processing of a job in its atomic parts, expiry and recovery)
      and [RelayPool] (the engine at work: workers, requests, the reaper, the
      recovery scan, disk faults and crashes as the steps of a relation on
      [pool], labelled with the jobs a fault makes it give up);
      [relay/normalize.rs], HTML to text, in [Normalize].
    - [ghostbro-server/src/config.rs], [main.rs], [privilege.rs]: in [Config],
      [Startup] ([boot] is [main] up to serving) and [Privilege]; the running server,
      all tasks that [main] selects over on the state they share, in [ServerMain].
    - [ghostbro-client/src/main.rs]: the client, in [Client] (counter file,
      identity file, knock payload, clock drift, choice of servers and failover,
      relay requests and the download loop), [ClientSetup] (key generation,
      enrolment, resolving of servers, revocation notices), [ClientTunnel]
      (sending knocks, the initiator's handshake, frames, SOCKS5, the two relay
      threads, a refresh), [ClientMain] (every command of [main] over the client's
      files and the sessions it makes) and [ClientListener] ([connect]: the accept
      loop, the refresh thread and the threads of the local connections, over the
      lock of the counter file and the active candidate; a thread that waits for
      the answer of a silent server has no turn).  A write of the counter file may
      fail after truncating it ([fs_write]).
    - [xtask/src/main.rs], the build tasks and smoke tests: in [Xtask] (the
      fixture's files, the command lines, the parsing of outputs) and [XtaskSmoke]
      (the tasks over files, clock and a trace of processes; a call without a time
      limit may never return).

    How they interact: the kernel filter puts events into a ring that [Runtime]
    reads; [Decoy] hands it the candidates it was sent over HTTPS; [Runtime] asks
    [Verifier] and writes the allow map and the mirror; [Tunnel] admits
    connections from the mirror and hands relay requests to [RelayEngine], which
    queues jobs for the workers of [RelayPool], whose turns are the parts of
    [RelayJobs].  [Startup] builds the first state of all these from the files
    that [ClientSetup] and the operator write.

    Composition: [System] is filter, event loop and admission as one transition
    system, [Schedule] the same as an executable function of what happens;
    [HttpsKnock] goes from the client's POST request through the decoy and the
    loop to an admitted connection; [RelaySession] joins the client's knock and
    command with the server's loop, listener and relay, byte by byte;
    [Revocation] goes from the watched file to filter, tunnel and verifier;
    [ServerMain] runs all the server's tasks and its filter as one machine, whose
    gate [ServerGate] shows to be [System]'s; [ServerFacts] goes from a session
    back to the packet that opened it; [Stealth] looks at the machine from
    outside; [ClientFacts] composes the client's knock with the verifier,
    [ClientRelay] the client's requests with the relay, [ClientSetupFacts] the
    set-up commands with both programs, [XtaskDeploy] the fixture of the smoke
    tests with both.

    ** What the theorems show

    Each property's theorem has a comment that starts with its number.
    - Packets and knocks.  [spa_build_open_verify], [spa_verify_covers_wire],
      [spa_signed_message_binds]: packets round trip, and the signature covers
      and binds what is transmitted.  [verify_accept_sound],
      [verify_accepts_honest], [verify_reject_state], [verify_no_oracle]:
      acceptance is sound and complete, rejection fails closed and is no oracle.
      [no_replay]: none over any run with faults, restarts and crashes;
      [save_crash_atomic], [counter_state_roundtrip]: the counter file.
      [reload_revokes], [revocation_takes_effect]: hot reloads.
    - The gate.  [xdp_refines_spec]: the filter is memory safe and refines a
      declarative semantics of frames; [xdp_gate], [global_flood_bound],
      [source_rate_bound]: what passes and what the rate limits admit.
      [purge_closes_key], [reap_exact], [live_sources_mirrored]: kernel map and
      mirror.  [gate_requires_recent_knock], [knock_opens_gate],
      [gate_open_exactly], [refresh_keeps_open]: a source can reach the proxy
      exactly from an accepted knock until its time is up.
    - The server as a whole.  [sessions_trace_back]: every session of every run
      goes back to a packet on the wire.  [strangers_see_a_web_server]: without an
      accepted knock one sees the web server and nothing else.
      [only_enrolled_served]: at every moment only enrolled keys are admitted.
    - The web server.  [decoy_confined]: it serves its own files only;
      [https_knock_opens_own_source]; [https_knock_end_to_end].
    - The tunnel.  [handle_connection_gate], [sessions_within_cap],
      [session_cap_exact]: who gets one, and how many; [relay_request_end_to_end]:
      a relay request from the client's command to the engine and back;
      [poll_read_delivers], [writes_arrive]: the polled reader and writer against
      the blocking ones; [identity_stable]; on the client's side
      [tunnel_transparent] and [socks5_request_exact].
    - The relay.  [relay_isolation]: of clients from each other, whatever ids
      they send (that a valid id stays in the client's directories is in
      [RelayPaths]); [no_job_forgotten], [pool_drains]: every job is in line or
      settles, but for those that faults of the disk cost, which are named;
      [process_job_settles], [enqueue_quota], [recover_exact],
      [relay_reap_exact]: the life of jobs; [package_integrity],
      [pinned_addresses_public], [spec_roundtrip]: what is fetched, and from
      where; [normalize_total], [strip_element_exact], [plain_text_roundtrip],
      [collapse_normal_form]: the normalizer.
    - Start-up and set-up.  [boot_fails_closed]; [deployment_admits]: the files of
      the set-up commands fit together; [into_clients_spec],
      [identity_file_roundtrip].
    - The client.  [client_knock_accepted], [next_counter_increases],
      [client_counters_increase]: its knocks; [ordered_servers_spec],
      [failover_exhaustive]; [local_connection_atomic], [lock_given_back]: the
      threads of [connect], the lock being given back unless a server keeps
      silent; [submissions_understood], [download_reassembles].
    - The build tasks.  [tasks_end_clean]: they end, if the calls without a time
      limit return, and leave nothing running that they could kill;
      [fixture_deploys]: what they write is a working deployment.
    - Theorems without a number that state behaviour worth knowing which is not
      what the program intends: [expired_probe_stops_server],
      [oversized_counter_blocks_all], [save_may_lose_rename], [quota_race],
      [deleted_job_reappears], [scan_sends_twice] and [late_failure_spoils],
      [mapped_addresses_pass], [spec_decode_ambiguous],
      [oversized_response_lost], [nested_element_leaks],
      [revoke_notice_ignored], [bind_port_unfiltered], [enroll_v6_unusable],
      [open_session_ignores_mirror], [session_limit_silent],
      [too_many_connections_stop_server], [stalled_handshake_blocks],
      [watch_ignores_kind], [refresh_follows_last] and [active_is_last],
      [redirect_hop_unpinned], [ex_failure_lost], [ex_counter_torn], [local_client_waits],
      [ex_smoke_leaves_unkillable], [ex_listener_leaves_server]; and the second
      half of [lock_given_back].
    - [Examples], [TunnelExamples], [RelayExamples], [WebExamples],
      [ClientExamples], [SessionExamples], [XtaskExamples] and [ServerExamples] run the model with concrete instances of all parameters,
      from a knock to the open gate and from a submission to the download, and
      apply the theorems there.

    ** Conventions

    A Rust integer is a [Z]; the width is written out where the code can exceed
    it ([wrap] for wrapping, [sat_add] and the like for saturating, [try_from]
    for checked operations; plain additions are those of a release build).  Bytes
    are [list byte], strings byte strings that the source checks for UTF-8 where
    it does.  Fallible code returns [result]; [?] is the bind of its monad.
    Clock readings, random numbers, outcomes of system calls and what other
    parties send are arguments.  Third-party code is a parameter: [Crypto]
    (hashes, X25519, ChaCha20-Poly1305, Ed25519, base64), [CounterToml],
    [RelayToml], [IdentityLib], [ClientToml] (serde formats, argon2), [Noise],
    [NoiseHandshake] and [NoiseDuplex] (snow; [NoiseXKLaws]: the XK pattern leads
    to paired transports that know each other's keys), [Socks5Lib] (fast-socks5),
    [TlsLib] (rustls), the environment [xt_env] of the build tasks (what processes
    and the clock do), [UrlLib] (reqwest's URLs and name
    resolution), [HttpLib] (axum, ipnet), [RelayWorld] (the answer to one HTTP
    request, pinned or not; git, JSON), with the laws used in the classes named
    after them.

    Fuel.  The loops of [Normalize] take one unit per turn and are given the
    length of the text, which [normalize_total] shows to suffice; so do trimming
    and splitting at white space, of which each step consumes at least a byte.
    The loops of [Tunnel] that fill a buffer, flush and read are given the bytes
    still to come; [poll_read_delivers] and [writes_arrive] show that they end.
    The client's download loop needs one request per 8 KiB plus one
    ([download_reassembles]); [client_main] takes its fuel for that loop.  The listener's
    loops need none: [lock_given_back] counts their turns.  The
    waiting loops of the build tasks give up after 5 or 10 seconds with pauses of
    50 ms, or after 30 seconds with pauses of 200 ms, so 201 turns are enough
    ([tasks_end_clean]).

    ** Not modelled

    Parsing of the command lines (clap) and printing; poisoned locks and panics in
    threads; the latency probe of the client, which is an input of the ordering;
    the TCP stack between the packet filter and the listener's accept, so that
    [ServerMain] lets connections arrive whether or not their frames would pass;
    the async runtime and its channels, other than as interleavings of turns; and
    third-party code.  Name resolution answers the guard by a fixed function; the
    addresses that a request goes to when it is not pinned are the request's own
    affair ([http_hop]).  A reload is one turn of the loop ([handle_reload]),
    although the filter and the other tasks run while it purges.  The files that
    the client's set-up commands write are written as a whole or not at all; and a
    prompt for a passphrase is always answered.  After the lock is given back, the
    SOCKS5 negotiation of a local connection reads a script that ends, as do the
    one-shot commands.  The XDP program is modelled sequentially, as on one CPU;
    relay workers interleave at the atomic parts of [RelayJobs], and in
    [ServerMain] may change the relay's state in any way.

    This file holds what all others share: results and their monad, integers of
    fixed width, bytes and their encodings, strings, and the automation. *)

From stdpp Require Export base gmap strings list fin_maps pretty.
From Stdlib Require Export ZArith Lia.
From Stdlib Require Export Strings.Byte.

#[global] Open Scope Z_scope.

(** * Results

    Rust's [Result<T, E>], with the monad operations of the [?] operator. *)

Inductive result (E A : Type) : Type :=
| Ok (a : A)
| Err (e : E).
Arguments Ok {E A} a.
Arguments Err {E A} e.

#[global] Instance result_ret E : MRet (result E) := fun A a => Ok a.
#[global] Instance result_bind E : MBind (result E) := fun A B f m =>
  match m with Ok a => f a | Err e => Err e end.
#[global] Instance result_fmap E : FMap (result E) := fun A B f m =>
  match m with Ok a => Ok (f a) | Err e => Err e end.

#[global] Instance result_eq_dec `{EqDecision E, EqDecision A} : EqDecision (result E A).
Proof. solve_decision. Defined.

(** [Option::ok_or], [Result::ok], [Result::map_err]. *)
Definition ok_or {E A} (e : E) (o : option A) : result E A :=
  match o with Some a => Ok a | None => Err e end.
Definition to_option {E A} (r : result E A) : option A :=
  match r with Ok a => Some a | Err _ => None end.
Definition map_err {E F A} (f : E -> F) (r : result E A) : result F A :=
  match r with Ok a => Ok a | Err e => Err (f e) end.
Definition unwrap_or {E A} (d : A) (r : result E A) : A :=
  match r with Ok a => a | Err _ => d end.
Definition is_ok {E A} (r : result E A) : bool :=
  match r with Ok _ => true | Err _ => false end.

(** [Iterator::collect::<Result<Vec<_>, _>>] over a mapped iterator. *)
Fixpoint result_map {E A B} (f : A -> result E B) (l : list A) : result E (list B) :=
  match l with
  | [] => Ok []
  | x :: l' => y ← f x; ys ← result_map f l'; Ok (y :: ys)
  end.

Lemma bind_Ok_inv {E A B} (m : result E A) (f : A -> result E B) b :
  m ≫= f = Ok b -> exists a, m = Ok a /\ f a = Ok b.
Proof. destruct m; simpl; [eauto | discriminate]. Qed.

Lemma bind_Err_inv {E A B} (m : result E A) (f : A -> result E B) e :
  m ≫= f = Err e -> m = Err e \/ exists a, m = Ok a /\ f a = Err e.
Proof. destruct m; simpl; [eauto | intros [= ->]; eauto]. Qed.

Lemma ok_or_Ok {E A} (e : E) (o : option A) a : ok_or e o = Ok a <-> o = Some a.
Proof. destruct o; simpl; split; congruence. Qed.

Lemma result_map_Forall2 {E A B} (f : A -> result E B) l ys :
  result_map f l = Ok ys -> Forall2 (fun x y => f x = Ok y) l ys.
Proof.
  revert ys; induction l as [|x l IH]; simpl; intros ys H.
  - injection H as <-; constructor.
  - apply bind_Ok_inv in H as (y & Hy & H).
    apply bind_Ok_inv in H as (ys' & Hys & H). injection H as <-.
    constructor; auto.
Qed.

Lemma result_map_Ok {E A B} (f : A -> result E B) l ys :
  Forall2 (fun x y => f x = Ok y) l ys -> result_map f l = Ok ys.
Proof. induction 1 as [|x y l ys H _ IH]; simpl; [done|]. by rewrite H; simpl; rewrite IH. Qed.

(** * Machine integers

    A [u8]/[u16]/[u32]/[u64]/[usize] is a [Z] in the range of its width; the
    operations below are the saturating, checked and wrapping operations of the
    Rust integer types at width [w]. *)

Definition umax (w : Z) : Z := 2 ^ w - 1.
Definition in_u (w z : Z) : Prop := 0 <= z <= umax w.

Definition sat_add (w a b : Z) : Z := Z.min (a + b) (umax w).
Definition sat_mul (w a b : Z) : Z := Z.min (a * b) (umax w).
Definition sat_sub (a b : Z) : Z := Z.max 0 (a - b).
Definition abs_diff (a b : Z) : Z := Z.abs (a - b).
Definition checked_add (w a b : Z) : option Z :=
  if a + b <=? umax w then Some (a + b) else None.
Definition wrap (w a : Z) : Z := a mod 2 ^ w.
(** [u16::try_from] and friends. *)
Definition try_from (w a : Z) : option Z :=
  if (0 <=? a) && (a <=? umax w) then Some a else None.

Lemma umax_eq w : umax w = 2 ^ w - 1.
Proof. done. Qed.

Lemma sat_add_range w a b : 0 <= w -> 0 <= a -> 0 <= b -> in_u w (sat_add w a b).
Proof. unfold in_u, sat_add, umax. pose proof (Z.pow_pos_nonneg 2 w). lia. Qed.

Lemma sat_mul_range w a b : 0 <= w -> 0 <= a -> 0 <= b -> in_u w (sat_mul w a b).
Proof.
  unfold in_u, sat_mul, umax. pose proof (Z.pow_pos_nonneg 2 w).
  pose proof (Z.mul_nonneg_nonneg a b). lia.
Qed.

Lemma checked_add_Some w a b c :
  checked_add w a b = Some c <-> c = a + b /\ a + b <= umax w.
Proof. unfold checked_add. destruct (Z.leb_spec (a + b) (umax w)); split; intros; naive_solver lia. Qed.

Lemma checked_add_None w a b : checked_add w a b = None <-> umax w < a + b.
Proof. unfold checked_add. destruct (Z.leb_spec (a + b) (umax w)); split; done || lia. Qed.

(** Assembling a word from parts that do not overlap. *)
Lemma lor_shiftl a b n :
  0 <= n -> 0 <= b < 2 ^ n -> Z.lor (Z.shiftl a n) b = a * 2 ^ n + b.
Proof.
  intros Hn Hb. rewrite <- Z.shiftl_mul_pow2 by done. symmetry. apply Z.add_nocarry_lor.
  apply Z.bits_inj'. intros i Hi. rewrite Z.land_spec, Z.bits_0.
  destruct (Z.lt_ge_cases i n) as [Hlt|Hge].
  - rewrite Z.shiftl_spec_low by done. done.
  - destruct (Z.eq_dec b 0) as [->|Hb0]; [by rewrite Z.bits_0, andb_false_r|].
    rewrite (Z.bits_above_log2 b i), andb_false_r; [done|lia|].
    apply Z.log2_lt_pow2; [lia|]. eapply Z.lt_le_trans; [apply Hb|]. apply Z.pow_le_mono_r; lia.
Qed.

(** * Bytes *)

Abbreviation bytes := (list byte).

#[global] Instance byte_eq_decision : EqDecision byte := Byte.byte_eq_dec.

Definition b2z (b : byte) : Z := Z.of_N (Byte.to_N b).
Definition z2b (z : Z) : byte :=
  match Byte.of_N (Z.to_N (z mod 256)) with Some b => b | None => x00 end.

Lemma b2z_range b : 0 <= b2z b < 256.
Proof. unfold b2z. pose proof (Byte.to_N_bounded b). lia. Qed.

Lemma z2b_b2z b : z2b (b2z b) = b.
Proof.
  unfold z2b. rewrite Z.mod_small by apply b2z_range.
  unfold b2z. rewrite N2Z.id. by rewrite Byte.of_to_N.
Qed.

Lemma b2z_z2b_mod z : b2z (z2b z) = z mod 256.
Proof.
  unfold z2b. pose proof (Z.mod_pos_bound z 256 ltac:(lia)) as Hb.
  destruct (Byte.of_N (Z.to_N (z mod 256))) as [b|] eqn:E.
  - apply Byte.to_of_N in E. unfold b2z. rewrite E. lia.
  - apply Byte.of_N_None_iff in E. lia.
Qed.

Lemma b2z_z2b z : 0 <= z < 256 -> b2z (z2b z) = z.
Proof. intros H. rewrite b2z_z2b_mod. by apply Z.mod_small. Qed.

Lemma b2z_inj a b : b2z a = b2z b -> a = b.
Proof. intros H. by rewrite <- (z2b_b2z a), <- (z2b_b2z b), H. Qed.

#[global] Instance byte_countable : Countable byte.
Proof.
  refine (inj_countable' (fun b => Byte.to_N b) (fun n => z2b (Z.of_N n)) _).
  intros b. apply (z2b_b2z b).
Defined.

(** Big-endian encodings: [to_be_bytes] and [from_be_bytes] at [n] bytes. *)
Fixpoint be_bytes (n : nat) (z : Z) : bytes :=
  match n with
  | O => []
  | S m => z2b (z / 256 ^ Z.of_nat m) :: be_bytes m z
  end.

Fixpoint from_be (l : bytes) : Z :=
  match l with
  | [] => 0
  | b :: l' => b2z b * 256 ^ Z.of_nat (length l') + from_be l'
  end.

Definition le_bytes (n : nat) (z : Z) : bytes := reverse (be_bytes n z).
Definition from_le (l : bytes) : Z := from_be (reverse l).

Lemma length_be_bytes n z : length (be_bytes n z) = n.
Proof. induction n; simpl; auto. Qed.

Lemma length_le_bytes n z : length (le_bytes n z) = n.
Proof. unfold le_bytes. by rewrite length_reverse, length_be_bytes. Qed.

Lemma pow256_S n : 256 ^ Z.of_nat (S n) = 256 * 256 ^ Z.of_nat n.
Proof. rewrite Nat2Z.inj_succ, Z.pow_succ_r; lia. Qed.

Lemma pow256_pos n : 0 < 256 ^ Z.of_nat n.
Proof. apply Z.pow_pos_nonneg; lia. Qed.

Lemma from_be_range l : 0 <= from_be l < 256 ^ Z.of_nat (length l).
Proof.
  induction l as [|b l IH]; cbn [from_be length]; [lia|].
  rewrite pow256_S. pose proof (b2z_range b). nia.
Qed.

Lemma from_be_in_u n l : length l = n -> in_u (8 * Z.of_nat n) (from_be l).
Proof.
  intros <-. pose proof (from_be_range l) as H. unfold in_u, umax.
  replace (2 ^ (8 * Z.of_nat (length l))) with (256 ^ Z.of_nat (length l)); [lia|].
  rewrite Z.pow_mul_r by lia. done.
Qed.

Lemma be_bytes_mod n m z :
  (m <= n)%nat -> be_bytes m (z mod 256 ^ Z.of_nat n) = be_bytes m z.
Proof.
  induction m as [|m IH]; intros Hm; cbn [be_bytes]; [done|].
  f_equal; [|apply IH; lia]. apply b2z_inj. rewrite !b2z_z2b_mod.
  pose proof (pow256_pos m). pose proof (pow256_pos n).
  assert (Hn : 256 ^ Z.of_nat n = 256 ^ Z.of_nat m * (256 * 256 ^ Z.of_nat (n - S m))).
  { rewrite <- pow256_S, <- Z.pow_add_r by lia. f_equal. lia. }
  pose proof (pow256_pos (n - S m)).
  rewrite Hn, Z.rem_mul_r by lia. rewrite (Z.mul_comm (256 ^ Z.of_nat m)).
  rewrite Z.div_add by lia. rewrite (Z.div_small (z mod _)) by (apply Z.mod_pos_bound; lia).
  rewrite Z.add_0_l, Z.rem_mul_r by lia.
  rewrite (Z.mul_comm 256), Z.mod_add by lia. by rewrite Z.mod_mod by lia.
Qed.

Lemma from_be_bytes n z : from_be (be_bytes n z) = z mod 256 ^ Z.of_nat n.
Proof.
  induction n as [|n IH]; cbn [be_bytes from_be]; [by rewrite Z.mod_1_r|].
  rewrite length_be_bytes, IH, b2z_z2b_mod, pow256_S.
  rewrite (Z.mul_comm 256), Z.rem_mul_r by (pose proof (pow256_pos n); lia). lia.
Qed.

Lemma be_bytes_from_be l : be_bytes (length l) (from_be l) = l.
Proof.
  induction l as [|b l IH]; cbn [length be_bytes from_be]; [done|].
  pose proof (from_be_range l) as Hr. pose proof (pow256_pos (length l)).
  f_equal.
  - rewrite Z.add_comm, Z.div_add, (Z.div_small (from_be l)), Z.add_0_l by lia.
    apply z2b_b2z.
  - rewrite <- (be_bytes_mod (length l)) by lia.
    rewrite Z.add_comm, Z.mod_add, Z.mod_small by lia. done.
Qed.

Lemma from_be_inj l k : length l = length k -> from_be l = from_be k -> l = k.
Proof.
  intros Hl Hf. by rewrite <- (be_bytes_from_be l), <- (be_bytes_from_be k), Hf, Hl.
Qed.

Lemma from_le_bytes n z : from_le (le_bytes n z) = z mod 256 ^ Z.of_nat n.
Proof. unfold from_le, le_bytes. by rewrite reverse_involutive, from_be_bytes. Qed.

Lemma from_be_small n z : 0 <= z < 256 ^ Z.of_nat n -> from_be (be_bytes n z) = z.
Proof. intros H. rewrite from_be_bytes. by apply Z.mod_small. Qed.

Lemma from_be_u n z : in_u (8 * Z.of_nat n) z -> from_be (be_bytes n z) = z.
Proof.
  intros H. apply from_be_small. unfold in_u, umax in H.
  rewrite Z.pow_mul_r in H by lia. change (2 ^ 8) with 256 in H. lia.
Qed.

Lemma from_le_small n z : 0 <= z < 256 ^ Z.of_nat n -> from_le (le_bytes n z) = z.
Proof. intros H. rewrite from_le_bytes. by apply Z.mod_small. Qed.

(** * Slices

    [&buf[lo..hi]]; where the source indexes out of range it panics, so every
    use below is guarded by the source's own length check. *)

Definition slice {A} (lo hi : nat) (l : list A) : list A := take (hi - lo) (drop lo l).

Definition blen {A} (l : list A) : Z := Z.of_nat (length l).

Lemma length_slice {A} lo hi (l : list A) :
  (lo <= hi)%nat -> (hi <= length l)%nat -> length (slice lo hi l) = (hi - lo)%nat.
Proof. intros. unfold slice. rewrite length_take, length_drop. lia. Qed.

Lemma slice_app_l {A} hi (l k : list A) :
  hi = length l -> slice 0 hi (l ++ k) = l.
Proof. intros ->. unfold slice. rewrite drop_0, Nat.sub_0_r. by rewrite take_app_length. Qed.

Lemma slice_app_mid {A} lo hi (p l k : list A) :
  lo = length p -> hi = (lo + length l)%nat -> slice lo hi (p ++ l ++ k) = l.
Proof.
  intros -> ->. unfold slice. rewrite drop_app_length.
  replace (length p + length l - length p)%nat with (length l) by lia.
  by rewrite take_app_length.
Qed.

Lemma slice_app_r {A} lo hi (p l : list A) :
  lo = length p -> hi = (lo + length l)%nat -> slice lo hi (p ++ l) = l.
Proof.
  intros. rewrite <- (app_nil_r l) at 1. by apply slice_app_mid.
Qed.

Lemma slice_full {A} lo hi n (l : list A) :
  (lo <= hi)%nat -> (hi <= n)%nat -> slice lo hi (take n l) = slice lo hi l.
Proof.
  intros. unfold slice. rewrite skipn_firstn_comm, take_take. f_equal. lia.
Qed.

(** * Strings

    A Rust [String] is a UTF-8 byte string; a Rocq [string] is a byte string. *)

Definition str_bytes (s : string) : bytes := String.list_byte_of_string s.
Definition bytes_str (l : bytes) : string := String.string_of_list_byte l.

Lemma bytes_str_bytes s : bytes_str (str_bytes s) = s.
Proof. apply String.string_of_list_byte_of_string. Qed.

Lemma str_bytes_str l : str_bytes (bytes_str l) = l.
Proof. apply String.list_byte_of_string_of_list_byte. Qed.

Lemma str_bytes_inj s t : str_bytes s = str_bytes t -> s = t.
Proof. intros H. by rewrite <- (bytes_str_bytes s), H, bytes_str_bytes. Qed.

Lemma str_bytes_app s t : str_bytes (s +:+ t) = str_bytes s ++ str_bytes t.
Proof.
  unfold str_bytes, String.list_byte_of_string. rewrite <- map_app. f_equal.
  induction s as [|c s IH]; [done|].
  change (String c s +:+ t) with (String c (s +:+ t)). cbn [String.list_ascii_of_string app]. by rewrite IH.
Qed.

(** [str::from_utf8]: the well-formedness table of UTF-8. *)
Definition in_range (lo hi : Z) (b : byte) : bool := (lo <=? b2z b) && (b2z b <=? hi).
Definition utf8_cont (b : byte) : bool := in_range 0x80 0xBF b.

Fixpoint utf8_valid (l : bytes) : bool :=
  match l with
  | [] => true
  | b0 :: l1 =>
      if in_range 0x00 0x7F b0 then utf8_valid l1
      else match l1 with
      | [] => false
      | b1 :: l2 =>
          if in_range 0xC2 0xDF b0 then utf8_cont b1 && utf8_valid l2
          else match l2 with
          | [] => false
          | b2 :: l3 =>
              if in_range 0xE0 0xE0 b0 then in_range 0xA0 0xBF b1 && utf8_cont b2 && utf8_valid l3
              else if in_range 0xE1 0xEC b0 || in_range 0xEE 0xEF b0
              then utf8_cont b1 && utf8_cont b2 && utf8_valid l3
              else if in_range 0xED 0xED b0 then in_range 0x80 0x9F b1 && utf8_cont b2 && utf8_valid l3
              else match l3 with
              | [] => false
              | b3 :: l4 =>
                  if in_range 0xF0 0xF0 b0
                  then in_range 0x90 0xBF b1 && utf8_cont b2 && utf8_cont b3 && utf8_valid l4
                  else if in_range 0xF1 0xF3 b0
                  then utf8_cont b1 && utf8_cont b2 && utf8_cont b3 && utf8_valid l4
                  else if in_range 0xF4 0xF4 b0
                  then in_range 0x80 0x8F b1 && utf8_cont b2 && utf8_cont b3 && utf8_valid l4
                  else false
              end
          end
      end
  end.

Lemma utf8_valid_ascii l : Forall (fun b => in_range 0 0x7F b = true) l -> utf8_valid l = true.
Proof. induction 1 as [|b l Hb _ IH]; cbn [utf8_valid]; [done|]. by rewrite Hb. Qed.

(** Decimal rendering of an unsigned integer ([format!("{n}")]). *)
Definition dec (z : Z) : string := pretty (Z.to_N z).

(** [char::to_digit] and [<uN>::from_str_radix]: an optional leading [+], at
    least one digit, and an error on overflow of the type's maximum. *)
Definition to_digit (radix : Z) (b : byte) : option Z :=
  let z := b2z b in
  let d := if (48 <=? z) && (z <=? 57) then Some (z - 48)
           else if (97 <=? z) && (z <=? 122) then Some (z - 97 + 10)
           else if (65 <=? z) && (z <=? 90) then Some (z - 65 + 10)
           else None in
  match d with Some v => if v <? radix then Some v else None | None => None end.

Fixpoint radix_digits (radix max acc : Z) (l : bytes) : option Z :=
  match l with
  | [] => Some acc
  | b :: l' =>
      match to_digit radix b with
      | Some d => let a := acc * radix + d in
                  if a <=? max then radix_digits radix max a l' else None
      | None => None
      end
  end.

Definition from_str_radix (radix max : Z) (l : bytes) : option Z :=
  match l with
  | [] => None
  | [b] => radix_digits radix max 0 [b]
  | b :: l' => if b2z b =? 43 then radix_digits radix max 0 l' else radix_digits radix max 0 l
  end.

(** [u8::is_ascii_whitespace]-free byte classes used by the validators. *)
Definition is_ascii_digit (b : byte) : bool := in_range 48 57 b.
Definition is_ascii_alphabetic (b : byte) : bool := in_range 65 90 b || in_range 97 122 b.
Definition is_ascii_alphanumeric (b : byte) : bool := is_ascii_digit b || is_ascii_alphabetic b.
Definition is_ascii_hexdigit (b : byte) : bool :=
  is_ascii_digit b || in_range 65 70 b || in_range 97 102 b.
Definition to_ascii_lower (b : byte) : byte :=
  if in_range 65 90 b then z2b (b2z b + 32) else b.

(** [str::trim]: the encodings of the Unicode [White_Space] characters. *)
Definition ws_chars : list bytes :=
  [[x09]; [x0a]; [x0b]; [x0c]; [x0d]; [x20]; [xc2; x85]; [xc2; xa0]; [xe1; x9a; x80];
   [xe2; x80; x80]; [xe2; x80; x81]; [xe2; x80; x82]; [xe2; x80; x83]; [xe2; x80; x84];
   [xe2; x80; x85]; [xe2; x80; x86]; [xe2; x80; x87]; [xe2; x80; x88]; [xe2; x80; x89];
   [xe2; x80; x8a]; [xe2; x80; xa8]; [xe2; x80; xa9]; [xe2; x80; xaf]; [xe2; x81; x9f];
   [xe3; x80; x80]].

Fixpoint strip_prefix (p l : bytes) : option bytes :=
  match p, l with
  | [], _ => Some l
  | a :: p', b :: l' => if bool_decide (a = b) then strip_prefix p' l' else None
  | _ :: _, [] => None
  end.

Fixpoint strip_any (ps : list bytes) (l : bytes) : option bytes :=
  match ps with
  | [] => None
  | p :: ps' => match strip_prefix p l with Some l' => Some l' | None => strip_any ps' l end
  end.

Fixpoint strip_while (fuel : nat) (ps : list bytes) (l : bytes) : bytes :=
  match fuel with
  | O => l
  | S fuel' => match strip_any ps l with Some l' => strip_while fuel' ps l' | None => l end
  end.

Definition trim_start (l : bytes) : bytes := strip_while (length l) ws_chars l.
Definition trim_end (l : bytes) : bytes :=
  reverse (strip_while (length l) (map (@reverse byte) ws_chars) (reverse l)).
Definition trim (l : bytes) : bytes := trim_end (trim_start l).

(** Visible ASCII: no white space starts or ends with such a byte. *)
Definition is_graphic (b : byte) : bool := in_range 33 126 b.

Lemma strip_prefix_head a p b l : a <> b -> strip_prefix (a :: p) (b :: l) = None.
Proof. intros H. simpl. by rewrite bool_decide_eq_false_2. Qed.

Lemma strip_any_graphic ps b l :
  Forall (fun p => match p with a :: _ => is_graphic a = false | [] => False end) ps ->
  is_graphic b = true -> strip_any ps (b :: l) = None.
Proof.
  intros H Hb. induction H as [|p ps Hp _ IH]; [done|]. destruct p as [|a p]; [done|].
  cbn [strip_any]. rewrite strip_prefix_head; [apply IH|]. intros ->. congruence.
Qed.

Lemma ws_chars_heads :
  Forall (fun p => match p with a :: _ => is_graphic a = false | [] => False end) ws_chars /\
  Forall (fun p => match p with a :: _ => is_graphic a = false | [] => False end) (map (@reverse byte) ws_chars).
Proof. split; repeat constructor. Qed.

(** A line of visible ASCII, with its newline, trims to itself. *)
Lemma trim_line l :
  Forall (fun b => is_graphic b = true) l -> trim (l ++ [x0a]) = l.
Proof.
  intros Hg. destruct ws_chars_heads as [H1 H2]. unfold trim.
  assert (Hs : trim_start (l ++ [x0a]) = if bool_decide (l = []) then [] else l ++ [x0a]).
  { destruct l as [|b l]; [reflexivity|]. inversion Hg as [|? ? Hb _]; subst.
    unfold trim_start. simpl app. cbn [length strip_while]. by rewrite strip_any_graphic. }
  rewrite Hs. destruct l as [|b l' _] using rev_ind; [reflexivity|].
  rewrite bool_decide_eq_false_2 by (by destruct l'). apply Forall_app in Hg as [_ Hb].
  inversion Hb as [|? ? Hb' _]; subst. unfold trim_end.
  rewrite <- app_assoc, reverse_app, length_app. cbn [app length].
  replace (length l' + 2)%nat with (S (S (length l'))) by lia. cbn [strip_while].
  change (reverse [b; x0a]) with [x0a; b]. cbn [app].
  assert (Hnl : forall r, strip_any (map (@reverse byte) ws_chars) (x0a :: r) = Some r) by done.
  rewrite Hnl. rewrite strip_any_graphic by done.
  by rewrite reverse_cons, reverse_involutive.
Qed.

(** * Automation *)

Create HintDb ghost.
#[export] Hint Resolve b2z_range length_be_bytes length_le_bytes from_be_range : ghost.

(** Break the boolean tests of the source into their propositions. *)
Ltac bool_props :=
  repeat match goal with
  | H : (_ && _)%bool = true |- _ => apply andb_prop in H as [? ?]
  | H : (_ || _)%bool = false |- _ => apply orb_false_elim in H as [? ?]
  | H : negb _ = true |- _ => apply negb_true_iff in H
  | H : negb _ = false |- _ => apply negb_false_iff in H
  | H : (_ <=? _) = true |- _ => apply Z.leb_le in H
  | H : (_ <=? _) = false |- _ => apply Z.leb_gt in H
  | H : (_ <? _) = true |- _ => apply Z.ltb_lt in H
  | H : (_ <? _) = false |- _ => apply Z.ltb_ge in H
  | H : (_ =? _) = true |- _ => apply Z.eqb_eq in H
  | H : (_ =? _) = false |- _ => apply Z.eqb_neq in H
  | H : bool_decide _ = true |- _ => apply bool_decide_eq_true in H
  | H : bool_decide _ = false |- _ => apply bool_decide_eq_false in H
  end.

(** Invert a successful chain of [?] steps. *)
Ltac inv_ok :=
  repeat match goal with
  | H : mbind _ _ = Ok _ |- _ => apply bind_Ok_inv in H as (? & ? & H)
  | H : ok_or _ _ = Ok _ |- _ => apply ok_or_Ok in H
  | H : Ok _ = Ok _ |- _ => injection H; clear H; intros; subst
  | H : Err _ = Ok _ |- _ => discriminate H
  | H : Ok _ = Err _ |- _ => discriminate H
  end.

(** Case analysis on the next test or match of a hypothesis or of the goal. *)
Ltac case_test :=
  match goal with
  | H : context [if ?c then _ else _] |- _ => destruct c eqn:?
  | |- context [if ?c then _ else _] => destruct c eqn:?
  end.

(** * Ranges of parsed numbers *)

Lemma to_digit_nonneg radix b d : to_digit radix b = Some d -> 0 <= d.
Proof. unfold to_digit. intros H. repeat case_match; simplify_eq; bool_props; lia. Qed.

Lemma radix_digits_range radix max acc l z :
  0 <= radix -> 0 <= acc <= max -> radix_digits radix max acc l = Some z -> 0 <= z <= max.
Proof.
  intros Hr. revert acc; induction l as [|b l IH]; intros acc Ha; simpl; [by intros [= <-]|].
  destruct (to_digit radix b) as [d|] eqn:E; [|done]. apply to_digit_nonneg in E.
  destruct (Z.leb_spec (acc * radix + d) max); [|done]. apply IH. nia.
Qed.

Lemma from_str_radix_range radix max l z :
  0 <= radix -> 0 <= max -> from_str_radix radix max l = Some z -> 0 <= z <= max.
Proof.
  intros Hr Hm. unfold from_str_radix. repeat case_match; try done; intros Hz; eapply radix_digits_range in Hz; lia.
Qed.

(** * Sums over lists *)

Lemma sum_list_with_insert {A} (f : A -> nat) l i x y :
  l !! i = Some x -> (sum_list_with f (<[i := y]> l) + f x = sum_list_with f l + f y)%nat.
Proof.
  revert i; induction l as [|z l IH]; intros [|i]; cbn; [done..|intros [= ->]; lia|].
  intros H%IH. rewrite <-!Nat.add_assoc. f_equal. exact H.
Qed.

Lemma sum_list_with_mono {A} (f g : A -> nat) l :
  (forall x, (f x <= g x)%nat) -> (sum_list_with f l <= sum_list_with g l)%nat.
Proof. intros Hf. induction l as [|x l IH]; cbn; [done|]. specialize (Hf x). lia. Qed.
