(* ===== verification/Text.v ===== *)
(** Rust's [str]: the operations of the standard library on UTF-8 text that the
    program uses, and the facts on UTF-8 that its slicing relies on.

    A [str] is its bytes.  A [char] is represented by its encoding.  Slicing at a
    position that is not a character boundary panics in Rust; [str_range] is
    [None] there. *)

From S2P Require Import Prelude.

(** * Searching and splitting *)

(** [str::contains], and [slice::windows] containing a needle. *)
Fixpoint contains_sub (needle b : bytes) : bool :=
  match strip_prefix needle b with
  | Some _ => true
  | None => match b with [] => false | _ :: b' => contains_sub needle b' end
  end.

(** [str::find]: the offset of the first occurrence. *)
Fixpoint find_sub (needle b : bytes) : option nat :=
  match strip_prefix needle b with
  | Some _ => Some O
  | None => match b with [] => None | _ :: b' => S <$> find_sub needle b' end
  end.

(** [str::split_once] and [str::rsplit_once] at an ASCII character. *)
Fixpoint split_once (c : byte) (b : bytes) : option (bytes * bytes) :=
  match b with
  | [] => None
  | x :: b' => if bool_decide (x = c) then Some ([], b')
               else match split_once c b' with Some (l, r) => Some (x :: l, r) | None => None end
  end.

Definition rsplit_once (c : byte) (b : bytes) : option (bytes * bytes) :=
  match split_once c (reverse b) with
  | Some (l, r) => Some (reverse r, reverse l)
  | None => None
  end.

(** [str.split(p).next()] for a predicate on ASCII characters. *)
Fixpoint split_first (p : byte -> bool) (b : bytes) : bytes :=
  match b with
  | [] => []
  | x :: b' => if p x then [] else x :: split_first p b'
  end.

(** [str::starts_with] *)
Definition starts_with (p b : bytes) : bool := bool_decide (is_Some (strip_prefix p b)).

Definition ascii_lower (b : bytes) : bytes := map to_ascii_lower b.

(** [str::eq_ignore_ascii_case] *)
Definition eq_ignore_ascii_case (a b : string) : bool :=
  bool_decide (ascii_lower (str_bytes a) = ascii_lower (str_bytes b)).

(** [u8::is_ascii_whitespace] *)
Definition is_ascii_whitespace (b : byte) : bool :=
  let z := b2z b in (z =? 32) || (z =? 9) || (z =? 10) || (z =? 12) || (z =? 13).

(** [str::lines]: lines end at a line feed, a carriage return before it is
    dropped, and a last line without line feed is kept as it is. *)
Definition strip_cr (line : bytes) : bytes :=
  match reverse line with
  | b :: r => if bool_decide (b = x0d) then reverse r else line
  | [] => line
  end.

Fixpoint lines_from (acc b : bytes) : list bytes :=
  match b with
  | [] => if bool_decide (acc = []) then [] else [reverse acc]
  | x :: b' => if bool_decide (x = x0a) then strip_cr (reverse acc) :: lines_from [] b'
               else lines_from (x :: acc) b'
  end.

Definition lines (b : bytes) : list bytes := lines_from [] b.

(** [[T]::join] *)
Fixpoint join (sep : bytes) (ls : list bytes) : bytes :=
  match ls with
  | [] => []
  | [l] => l
  | l :: ls' => l ++ sep ++ join sep ls'
  end.

(** * Slices of text *)

(** [str::is_char_boundary] *)
Definition is_char_boundary (s : bytes) (i : nat) : bool :=
  if (i =? 0)%nat || (i =? length s)%nat then true
  else match s !! i with Some b => negb (utf8_cont b) | None => false end.

(** [&s[lo..hi]], [None] where it panics. *)
Definition str_range (s : bytes) (lo hi : nat) : option bytes :=
  if (lo <=? hi)%nat && is_char_boundary s lo && is_char_boundary s hi
  then Some (slice lo hi s) else None.

Definition str_to (s : bytes) (hi : nat) : option bytes := str_range s 0 hi.
Definition str_from (s : bytes) (lo : nat) : option bytes := str_range s lo (length s).

(** * Characters *)

(** The second byte that may follow a lead byte of three or four. *)
Definition utf8_second (b0 b1 : byte) : bool :=
  if in_range 0xE0 0xE0 b0 then in_range 0xA0 0xBF b1
  else if in_range 0xED 0xED b0 then in_range 0x80 0x9F b1
  else if in_range 0xF0 0xF0 b0 then in_range 0x90 0xBF b1
  else if in_range 0xF4 0xF4 b0 then in_range 0x80 0x8F b1
  else utf8_cont b1.

(** One step of decoding: whether the text starts with a character, and how many
    bytes it takes, or how many to skip. *)
Definition utf8_scan (l : bytes) : bool * nat :=
  let get i := nth i l x00 in
  match l with
  | [] => (true, O)
  | b0 :: _ =>
      if in_range 0x00 0x7F b0 then (true, 1%nat)
      else if in_range 0xC2 0xDF b0 then if utf8_cont (get 1%nat) then (true, 2%nat) else (false, 1%nat)
      else if in_range 0xE0 0xEF b0 then
        if negb (utf8_second b0 (get 1%nat)) then (false, 1%nat)
        else if negb (utf8_cont (get 2%nat)) then (false, 2%nat)
        else (true, 3%nat)
      else if in_range 0xF0 0xF4 b0 then
        if negb (utf8_second b0 (get 1%nat)) then (false, 1%nat)
        else if negb (utf8_cont (get 2%nat)) then (false, 2%nat)
        else if negb (utf8_cont (get 3%nat)) then (false, 3%nat)
        else (true, 4%nat)
      else (false, 1%nat)
  end.

(** The encoding of one character. *)
Definition is_char (c : bytes) : bool :=
  bool_decide (c <> []) && bool_decide (utf8_scan c = (true, length c)).

(** [str::chars] and [str::char_indices] of UTF-8 text; the fuel is its length. *)
Fixpoint chars_fuel (fuel : nat) (s : bytes) : list bytes :=
  match fuel with
  | O => []
  | S fuel' =>
      match s with
      | [] => []
      | _ => let n := (utf8_scan s).2 in take n s :: chars_fuel fuel' (drop n s)
      end
  end.

Definition chars (s : bytes) : list bytes := chars_fuel (length s) s.

Fixpoint indexed (i : nat) (cs : list bytes) : list (nat * bytes) :=
  match cs with
  | [] => []
  | c :: cs' => (i, c) :: indexed (i + length c) cs'
  end.

Definition char_indices (s : bytes) : list (nat * bytes) := indexed 0 (chars s).

(** [char::is_whitespace] *)
Definition is_whitespace (c : bytes) : bool := bool_decide (c ∈ ws_chars).

(** [char::from_u32] followed by [encode_utf8]. *)
Definition from_u32 (code : Z) : option bytes :=
  let cont c := z2b (128 + c mod 64) in
  if code <? 0x80 then Some [z2b code]
  else if code <? 0x800 then Some [z2b (192 + code / 64); cont code]
  else if (0xD800 <=? code) && (code <=? 0xDFFF) then None
  else if code <? 0x10000 then Some [z2b (224 + code / 4096); cont (code / 64); cont code]
  else if code <=? 0x10FFFF
       then Some [z2b (240 + code / 262144); cont (code / 4096); cont (code / 64); cont code]
  else None.

(** [String::from_utf8_lossy] *)
Definition REPLACEMENT : bytes := [xef; xbf; xbd].

Fixpoint lossy_fuel (fuel : nat) (l : bytes) : bytes :=
  match fuel with
  | O => []
  | S fuel' =>
      match l with
      | [] => []
      | _ => let '(ok, n) := utf8_scan l in
             (if ok then take n l else REPLACEMENT) ++ lossy_fuel fuel' (drop n l)
      end
  end.

Definition from_utf8_lossy (l : bytes) : bytes := lossy_fuel (length l) l.
