(* ===== verification/TextFacts.v ===== *)
(** Facts on UTF-8 text: characters, boundaries, and which slices stay text. *)

From S2P Require Import Prelude Text.

(** * Characters *)

Lemma in_range_spec lo hi b : in_range lo hi b = true <-> lo <= b2z b <= hi.
Proof. unfold in_range. rewrite andb_true_iff, !Z.leb_le. done. Qed.

Lemma in_range_false lo hi b : in_range lo hi b = false <-> b2z b < lo \/ hi < b2z b.
Proof. unfold in_range. rewrite andb_false_iff, !Z.leb_gt. done. Qed.

(** Turn the byte tests of hypotheses and goal into inequalities. *)
Ltac byte_props :=
  repeat match goal with
  | H : in_range _ _ _ = true |- _ => apply in_range_spec in H
  | H : in_range _ _ _ = false |- _ => apply in_range_false in H
  | |- in_range _ _ _ = true => apply in_range_spec
  | |- in_range _ _ _ = false => apply in_range_false
  end.

(** Case analysis on the tests of [utf8_scan] in a hypothesis. *)
Ltac scan_cases H :=
  repeat match type of H with
  | context [if negb ?c then _ else _] => destruct c eqn:?; cbn [negb] in H
  | context [if ?c then _ else _] => destruct c eqn:?
  end; try discriminate H.

Lemma utf8_scan_pos b l : (1 <= (utf8_scan (b :: l)).2)%nat.
Proof. unfold utf8_scan. repeat case_match; simpl; lia. Qed.

Lemma nth_cont i (l : bytes) : utf8_cont (nth i l x00) = true -> (i < length l)%nat.
Proof.
  intros H. destruct (decide (i < length l)%nat) as [|Hn]; [done|].
  rewrite nth_overflow in H by lia. discriminate.
Qed.

Lemma utf8_second_cont b0 b1 : utf8_second b0 b1 = true -> utf8_cont b1 = true.
Proof. unfold utf8_second, utf8_cont. repeat case_match; intros; byte_props; lia. Qed.

(** Skipping never runs past the end, whatever the bytes are. *)
Lemma utf8_scan_le l : ((utf8_scan l).2 <= length l)%nat.
Proof.
  destruct l as [|b0 l]; [done|]. unfold utf8_scan.
  repeat (case_match; simpl; try lia); bool_props;
    repeat match goal with
    | H : utf8_second _ _ = true |- _ => apply utf8_second_cont in H
    | H : utf8_cont (nth _ _ _) = true |- _ => apply nth_cont in H; simpl in H
    end; lia.
Qed.

(** The four forms of a character. *)
Inductive char_form : bytes -> Prop :=
| form1 b0 : in_range 0x00 0x7F b0 = true -> char_form [b0]
| form2 b0 b1 : in_range 0xC2 0xDF b0 = true -> utf8_cont b1 = true -> char_form [b0; b1]
| form3 b0 b1 b2 : in_range 0xE0 0xEF b0 = true -> utf8_second b0 b1 = true ->
    utf8_cont b2 = true -> char_form [b0; b1; b2]
| form4 b0 b1 b2 b3 : in_range 0xF0 0xF4 b0 = true -> utf8_second b0 b1 = true ->
    utf8_cont b2 = true -> utf8_cont b3 = true -> char_form [b0; b1; b2; b3].

Lemma in_range_disjoint lo hi lo' hi' b :
  in_range lo hi b = true -> hi < lo' \/ hi' < lo -> in_range lo' hi' b = false.
Proof. intros H Hd. byte_props. lia. Qed.

(** Rewrite with the outcome of a test wherever it occurs. *)
Ltac use_tests :=
  repeat match goal with
  | H : in_range ?a ?b ?x = _ |- context [in_range ?a ?b ?x] => rewrite H
  | H : utf8_second ?a ?b = _ |- context [utf8_second ?a ?b] => rewrite H
  | H : utf8_cont ?a = _ |- context [utf8_cont ?a] => rewrite H
  | H : in_range ?lo ?hi ?x = true |- context [in_range ?lo' ?hi' ?x] =>
      rewrite (in_range_disjoint lo hi lo' hi' x H) by lia
  end.

Lemma char_form_scan c r : char_form c -> utf8_scan (c ++ r) = (true, length c).
Proof. intros H. destruct H; simpl; use_tests; done. Qed.

Lemma char_form_ne c : char_form c -> c <> [].
Proof. by destruct 1. Qed.

Lemma scan_char_form l n :
  l <> [] -> utf8_scan l = (true, n) -> char_form (take n l) /\ length (take n l) = n.
Proof.
  intros Hne H. destruct l as [|b0 l]; [done|].
  pose proof (utf8_scan_le (b0 :: l)) as Hle. rewrite H in Hle. simpl in Hle.
  split; [|rewrite length_take; simpl in *; lia].
  unfold utf8_scan in H. scan_cases H; injection H as <-;
    destruct l as [|b1 [|b2 [|b3 l]]]; simpl in *; try lia; by constructor.
Qed.

Lemma is_char_form c : is_char c = true <-> char_form c.
Proof.
  unfold is_char. rewrite andb_true_iff, !bool_decide_eq_true. split.
  - intros [Hne H]. destruct (scan_char_form c _ Hne H) as [Hf _].
    by rewrite firstn_all in Hf.
  - intros H. split; [by apply char_form_ne|].
    pose proof (char_form_scan c [] H) as Hs. by rewrite app_nil_r in Hs.
Qed.

Lemma char_len_pos c : char_form c -> (1 <= length c)%nat.
Proof. destruct 1; simpl; lia. Qed.

(** * Text as a sequence of characters *)

(** Decide a goal about the tests of [utf8_valid] from the ranges of the bytes. *)
Ltac solve_ranges :=
  repeat match goal with
  | |- context [in_range ?a ?b ?c] => destruct (in_range a b c) eqn:?; cbn [orb andb]
  end; try reflexivity; bool_props; byte_props; lia.

Lemma utf8_valid_scan c l : char_form c -> utf8_valid (c ++ l) = utf8_valid l.
Proof.
  destruct 1 as [b0 H0|b0 b1 H0 H1|b0 b1 b2 H0 H1 H2|b0 b1 b2 b3 H0 H1 H2 H3];
    cbn [utf8_valid app]; use_tests; try done;
    unfold utf8_second in H1; repeat case_match; use_tests; unfold utf8_cont in *; solve_ranges.
Qed.

Lemma scan_of_valid b l : utf8_valid (b :: l) = true -> (utf8_scan (b :: l)).1 = true.
Proof.
  intros H. unfold utf8_scan. cbn [utf8_valid] in H. unfold utf8_cont, utf8_second in *.
  destruct l as [|b1 [|b2 [|b3 l]]]; cbn [nth];
  repeat match goal with
  | H : context [if ?c then _ else _] |- _ => destruct c eqn:?
  | H : (_ && _)%bool = true |- _ => apply andb_prop in H as [? ?]
  end; try discriminate;
  repeat match goal with |- context [if ?c then _ else _] => destruct c eqn:? end; try reflexivity; bool_props;
  repeat match goal with H : (_ || _)%bool = true |- _ => apply orb_prop in H as [?|?] end;
  byte_props; try lia; change (b2z x00) with 0 in *; try lia;
  repeat match goal with H : context [if ?c then _ else _] |- _ => destruct c eqn:? end;
  unfold utf8_cont in *; byte_props; lia.
Qed.

(** Text is a sequence of characters. *)
Inductive text : bytes -> Prop :=
| text_nil : text []
| text_cons c s : char_form c -> text s -> text (c ++ s).

Lemma utf8_valid_text s : utf8_valid s = true <-> text s.
Proof.
  split.
  - remember (length s) as n eqn:Hn. revert s Hn.
    induction (lt_wf n) as [n _ IH]. intros [|b l] -> H; [constructor|].
    pose proof (scan_of_valid _ _ H) as Hs. destruct (utf8_scan (b :: l)) as [ok k] eqn:E. simpl in Hs. subst ok.
    destruct (scan_char_form (b :: l) k ltac:(done) E) as [Hf Hk].
    rewrite <- (take_drop k (b :: l)). constructor; [done|].
    rewrite <- (take_drop k (b :: l)), utf8_valid_scan in H by done.
    apply (IH (length (drop k (b :: l)))); [|done|done].
    rewrite length_drop. apply char_len_pos in Hf. rewrite Hk in Hf. simpl. lia.
  - induction 1 as [|c s Hc _ IH]; [done|]. by rewrite utf8_valid_scan.
Qed.

Lemma text_char c : char_form c -> text c.
Proof. intros H. rewrite <- (app_nil_r c). constructor; [done|constructor]. Qed.

Lemma text_app a b : text a -> text b -> text (a ++ b).
Proof. induction 1 as [|c s Hc _ IH]; [done|]. intros Hb. rewrite <- app_assoc. constructor; auto. Qed.

(** Where a continuation byte may stand. *)
Definition starts_char (s : bytes) : Prop := match s with [] => True | b :: _ => utf8_cont b = false end.

Lemma char_form_tail c a x b :
  char_form c -> c = a ++ x :: b -> a <> [] -> utf8_cont x = true.
Proof.
  destruct 1; destruct a as [|a0 [|a1 [|a2 [|a3 a]]]]; intros; simplify_list_eq; try done;
    eauto using utf8_second_cont; destruct a; simplify_eq.
Qed.

Lemma text_starts s : text s -> starts_char s.
Proof.
  destruct 1 as [|c s Hc _]; [done|]. destruct Hc; simpl; unfold utf8_cont; byte_props; lia.
Qed.

(** Text splits into texts wherever the right part does not start with a
    continuation byte. *)
Lemma text_split a b : text (a ++ b) -> starts_char b -> text a /\ text b.
Proof.
  intros H. remember (a ++ b) as s eqn:Hs. revert a Hs.
  induction H as [|c s Hc Ht IH]; intros a Hs Hb.
  - symmetry in Hs. apply app_nil in Hs as [-> ->]. split; constructor.
  - destruct a as [|x a]; [simpl in Hs; subst b; split; [constructor|by constructor]|].
    apply app_eq_inv in Hs as [(k & -> & ->)|(k & Hs & ->)].
    + destruct k as [|y k].
      * rewrite app_nil_r in Hc. split; [by apply text_char|done].
      * pose proof (char_form_tail _ _ _ _ Hc eq_refl ltac:(done)). simpl in Hb. congruence.
    + destruct (IH k eq_refl Hb) as [Hk ?]. split; [|done]. rewrite Hs. by constructor.
Qed.

Lemma text_drop_char c s : char_form c -> text (c ++ s) -> text s.
Proof.
  intros Hc H. inversion H as [Hn|c' s' Hc' Hs' Heq].
  - symmetry in Hn. apply app_nil in Hn as [-> ->]. constructor.
  - pose proof (char_form_scan c s Hc) as E. rewrite <- Heq, char_form_scan in E by done.
    injection E as Hl. apply app_inj_1 in Heq as [-> ->]; done.
Qed.

(** ** ASCII *)

Definition ascii (b : byte) : bool := in_range 0x00 0x7F b.

Lemma ascii_starts b s : ascii b = true -> starts_char (b :: s).
Proof. intros H. simpl. unfold utf8_cont, ascii in *. byte_props. lia. Qed.

Lemma text_ascii n : forallb ascii n = true -> text n.
Proof.
  induction n as [|b n IH]; simpl; [constructor|]. intros [Hb Hn]%andb_prop.
  apply (text_cons [b]); [by constructor|auto].
Qed.

Lemma text_drop_ascii n s : forallb ascii n = true -> text (n ++ s) -> text s.
Proof.
  induction n as [|b n IH]; simpl; [done|]. intros [Hb Hn]%andb_prop H.
  apply IH; [done|]. apply (text_drop_char [b]); [by constructor|done].
Qed.

(** Around an ASCII needle everything is text. *)
Lemma text_around a n b :
  n <> [] -> forallb ascii n = true -> text (a ++ n ++ b) -> text a /\ text (n ++ b) /\ text b.
Proof.
  intros Hn Ha H. apply text_split in H as [H1 H2].
  - split_and!; [done|done|by eapply text_drop_ascii].
  - destruct n as [|x n]; [done|]. apply andb_prop in Ha as [Hx _]. by apply ascii_starts.
Qed.

(** * Boundaries *)

Lemma boundary_app a b : starts_char b -> is_char_boundary (a ++ b) (length a) = true.
Proof.
  intros Hb. unfold is_char_boundary. destruct b as [|x b].
  - by rewrite app_nil_r, Nat.eqb_refl, orb_true_r.
  - case_match; [done|]. rewrite lookup_app_r, Nat.sub_diag by lia. simpl in *. by rewrite Hb.
Qed.

Lemma boundary_text s i : text s -> is_char_boundary s i = true -> text (take i s) /\ text (drop i s) /\ (i <= length s)%nat.
Proof.
  intros Ht Hb. assert (Hs : starts_char (drop i s) /\ (i <= length s)%nat).
  { unfold is_char_boundary in Hb. destruct (i =? 0)%nat eqn:E0; simpl in Hb.
    { apply Nat.eqb_eq in E0 as ->. split; [by apply text_starts|lia]. }
    destruct (i =? length s)%nat eqn:E1.
    { apply Nat.eqb_eq in E1 as ->. rewrite drop_all. split; [done|lia]. }
    destruct (s !! i) as [b|] eqn:E; [|done]. apply lookup_lt_Some in E as Hl.
    split; [|lia]. rewrite (drop_S _ _ _ E). simpl. by apply negb_true_iff in Hb. }
  destruct Hs as [Hs Hi]. rewrite <- (take_drop i s) in Ht. by apply text_split in Ht as [? ?].
Qed.

Lemma slice_app {A} (a m b : list A) lo hi :
  lo = length a -> hi = (length a + length m)%nat -> slice lo hi (a ++ m ++ b) = m.
Proof. intros -> ->. by apply slice_app_mid. Qed.

(** Slicing at boundaries gives what stands there. *)
Lemma str_range_app a m b lo hi :
  starts_char (m ++ b) -> starts_char b -> lo = length a -> hi = (length a + length m)%nat ->
  str_range (a ++ m ++ b) lo hi = Some m.
Proof.
  intros Hm Hb -> ->. unfold str_range.
  rewrite (boundary_app a (m ++ b)) by done.
  assert (Hhi : is_char_boundary (a ++ m ++ b) (length a + length m) = true).
  { rewrite app_assoc, <- length_app. by apply boundary_app. }
  rewrite Hhi, slice_app by done. replace (_ <=? _)%nat with true; [done|]. symmetry. apply Nat.leb_le. lia.
Qed.

Lemma str_to_app a b hi : text (a ++ b) -> starts_char b -> hi = length a -> str_to (a ++ b) hi = Some a.
Proof.
  intros Ht Hb ->. unfold str_to. apply (str_range_app [] a b); [by apply text_starts|done|done|done].
Qed.

Lemma str_from_app a b lo : starts_char b -> lo = length a -> str_from (a ++ b) lo = Some b.
Proof.
  intros Hb ->. unfold str_from. rewrite <- (app_nil_r b) at 1.
  apply str_range_app; rewrite ?app_nil_r; try done. by rewrite length_app.
Qed.

(** * Searching *)

Lemma strip_prefix_Some p l r : strip_prefix p l = Some r <-> l = p ++ r.
Proof.
  revert l; induction p as [|a p IH]; intros l; simpl; [split; congruence|].
  destruct l as [|b l]; [done|]. case_bool_decide as E; [subst b|].
  - rewrite IH. split; [by intros ->|intros [= ->]; done].
  - split; [done|]. intros [= -> ->]. done.
Qed.

Lemma strip_prefix_app p r : strip_prefix p (p ++ r) = Some r.
Proof. by apply strip_prefix_Some. Qed.

(** Whether the needle occurs at a position. *)
Definition occurs_at (n s : bytes) (i : nat) : Prop := exists r, drop i s = n ++ r.

Lemma find_sub_Some n s i :
  find_sub n s = Some i <->
  occurs_at n s i /\ (i <= length s)%nat /\ forall j, (j < i)%nat -> ~ occurs_at n s j.
Proof.
  revert i; induction s as [|x s IH]; intros i; cbn [find_sub].
  - destruct (strip_prefix n []) as [r|] eqn:E.
    + apply strip_prefix_Some in E. split.
      * intros [= <-]. split_and!; [by exists r|done|lia].
      * intros (_ & Hi & _). simpl in Hi. f_equal. lia.
    + split; [done|]. intros ([r Hr] & Hi & _). simpl in Hi. replace i with O in Hr by lia.
      rewrite drop_0 in Hr. apply strip_prefix_Some in Hr. congruence.
  - destruct (strip_prefix n (x :: s)) as [r|] eqn:E.
    + apply strip_prefix_Some in E. split.
      * intros [= <-]. split_and!; [by exists r|lia|lia].
      * intros (_ & _ & Hmin). destruct i as [|i]; [done|].
        destruct (Hmin O); [lia|]. by exists r.
    + assert (H0 : ~ occurs_at n (x :: s) 0).
      { intros [r Hr]. rewrite drop_0 in Hr. apply strip_prefix_Some in Hr. congruence. }
      destruct i as [|i].
      * split; [by destruct (find_sub n s)|tauto].
      * assert (Heq : forall j, occurs_at n (x :: s) (S j) <-> occurs_at n s j) by done.
        transitivity (find_sub n s = Some i).
        { destruct (find_sub n s); simpl; split; congruence. }
        rewrite IH, Heq. cbn [length]. split; intros (? & ? & Hmin); split_and!; auto with lia.
        -- intros [|j] Hj; [done|]. rewrite Heq. apply Hmin. lia.
        -- intros j Hj. rewrite <- Heq. apply Hmin. lia.
Qed.

Lemma find_sub_None n s : find_sub n s = None <-> forall i, (i <= length s)%nat -> ~ occurs_at n s i.
Proof.
  induction s as [|x s IH]; cbn [find_sub].
  - destruct (strip_prefix n []) as [r|] eqn:E; split; try done.
    + intros H. destruct (H O); [done|]. apply strip_prefix_Some in E. by exists r.
    + intros _ i Hi [r Hr]. simpl in Hi. replace i with O in Hr by lia.
      apply strip_prefix_Some in Hr. simpl in Hr. congruence.
  - destruct (strip_prefix n (x :: s)) as [r|] eqn:E.
    + split; [done|]. intros H. destruct (H O); [lia|]. apply strip_prefix_Some in E. by exists r.
    + transitivity (find_sub n s = None); [by destruct (find_sub n s)|]. rewrite IH. split; intros H i Hi.
      * destruct i as [|i]; [|apply (H i); simpl in Hi; lia].
        intros [r Hr]. apply strip_prefix_Some in Hr. simpl in Hr. congruence.
      * apply (H (S i)). simpl. lia.
Qed.

(** A first occurrence splits the text. *)
Lemma find_sub_split n s i :
  find_sub n s = Some i -> exists r, s = take i s ++ n ++ r /\ length (take i s) = i.
Proof.
  intros ([r Hr] & Hi & _)%find_sub_Some. exists r. rewrite <- Hr, take_drop. split; [done|].
  rewrite length_take. lia.
Qed.

Lemma find_sub_none_char c s : find_sub [c] s = None <-> c ∉ s.
Proof.
  induction s as [|x s IH]; [split; [set_solver|done]|]. cbn [find_sub strip_prefix].
  rewrite elem_of_cons. case_bool_decide as E; [subst; split; [done|naive_solver]|].
  destruct (find_sub [c] s); split; simpl; naive_solver.
Qed.

Lemma find_sub_char_app c a b : c ∉ a -> find_sub [c] (a ++ c :: b) = Some (length a).
Proof.
  induction a as [|x a IH]; intros H; cbn [app find_sub strip_prefix].
  - by rewrite bool_decide_eq_true_2.
  - apply not_elem_of_cons in H as [Hx Ha]. rewrite bool_decide_eq_false_2 by done. by rewrite IH.
Qed.

Lemma find_sub_char_Some c s i :
  find_sub [c] s = Some i -> exists a b, s = a ++ c :: b /\ length a = i /\ c ∉ a.
Proof.
  revert i; induction s as [|x s IH]; intros i; [done|]. cbn [find_sub strip_prefix].
  case_bool_decide as E; [subst x; intros [= <-]; exists [], s; split_and!; [done|done|set_solver]|].
  intros (j & Hj & ->)%fmap_Some. destruct (IH j Hj) as (a & b & -> & <- & Ha).
  exists (x :: a), b. split_and!; [done|done|set_solver].
Qed.

(** * ASCII case *)

Lemma length_ascii_lower s : length (ascii_lower s) = length s.
Proof. apply length_map. Qed.

Lemma ascii_lower_app a b : ascii_lower (a ++ b) = ascii_lower a ++ ascii_lower b.
Proof. apply map_app. Qed.

Lemma to_ascii_lower_high b : 128 <= b2z b -> to_ascii_lower b = b.
Proof. intros H. unfold to_ascii_lower. case_match; [|done]. byte_props. lia. Qed.

Lemma to_ascii_lower_ascii b : ascii b = true -> ascii (to_ascii_lower b) = true.
Proof.
  unfold to_ascii_lower, ascii. case_match; [|done]. intros. byte_props. rewrite b2z_z2b; lia.
Qed.

Lemma char_form_lower c : char_form c -> char_form (ascii_lower c).
Proof.
  destruct 1; simpl.
  - constructor. by apply to_ascii_lower_ascii.
  - rewrite !to_ascii_lower_high; [by constructor|..]; unfold utf8_cont in *; byte_props; lia.
  - assert (utf8_cont b1 = true) by eauto using utf8_second_cont.
    rewrite !to_ascii_lower_high; [by constructor|..]; unfold utf8_cont in *; byte_props; lia.
  - assert (utf8_cont b1 = true) by eauto using utf8_second_cont.
    rewrite !to_ascii_lower_high; [by constructor|..]; unfold utf8_cont in *; byte_props; lia.
Qed.

Lemma text_lower s : text s -> text (ascii_lower s).
Proof.
  induction 1 as [|c s Hc _ IH]; [constructor|]. rewrite ascii_lower_app.
  constructor; [by apply char_form_lower|done].
Qed.

Lemma starts_char_lower s : starts_char (ascii_lower s) <-> starts_char s.
Proof.
  destruct s as [|b s]; [done|]. simpl. unfold to_ascii_lower. case_match eqn:E; [|done].
  unfold utf8_cont, in_range in *. bool_props. rewrite b2z_z2b by lia.
  split; intros _; lia.
Qed.

(** * White space *)

Lemma ws_chars_form : Forall char_form ws_chars.
Proof. repeat constructor. Qed.

Lemma strip_any_Some ps l r : strip_any ps l = Some r -> exists p, p ∈ ps /\ l = p ++ r.
Proof.
  induction ps as [|p ps IH]; simpl; [done|]. destruct (strip_prefix p l) as [r'|] eqn:E.
  - intros [= <-]. apply strip_prefix_Some in E. exists p. set_solver.
  - intros (p' & ? & ?)%IH. exists p'. set_solver.
Qed.

Lemma strip_any_None ps l : strip_any ps l = None <-> forall p r, p ∈ ps -> l <> p ++ r.
Proof.
  induction ps as [|p ps IH]; simpl; [split; [by intros _ ? ? ?%not_elem_of_nil|done]|]. destruct (strip_prefix p l) as [r'|] eqn:E.
  - apply strip_prefix_Some in E. split; [done|]. intros H. destruct (H p r'); set_solver.
  - rewrite IH. split.
    + intros H q r [->|Hq]%elem_of_cons; [|by apply H].
      intros Hl. apply strip_prefix_Some in Hl. congruence.
    + intros H q r Hq. apply H. set_solver.
Qed.

Lemma strip_while_text fuel s : text s -> text (strip_while fuel ws_chars s).
Proof.
  revert s; induction fuel as [|fuel IH]; intros s Hs; cbn [strip_while]; [done|].
  destruct (strip_any ws_chars s) as [r|] eqn:E; [|done].
  apply strip_any_Some in E as (p & Hp & ->). apply IH.
  eapply text_drop_char; [|done]. pose proof ws_chars_form as H. rewrite Forall_forall in H. auto.
Qed.

Lemma text_trim_start s : text s -> text (trim_start s).
Proof. apply strip_while_text. Qed.

Lemma strip_while_rev_text fuel s :
  text (reverse s) -> text (reverse (strip_while fuel (map (@reverse byte) ws_chars) s)).
Proof.
  revert s; induction fuel as [|fuel IH]; intros s Hs; cbn [strip_while]; [done|].
  destruct (strip_any _ s) as [r|] eqn:E; [|done].
  apply strip_any_Some in E as (p & (q & -> & Hq)%list_elem_of_fmap & ->). apply IH.
  rewrite reverse_app, reverse_involutive in Hs.
  pose proof ws_chars_form as H. rewrite Forall_forall in H.
  apply text_split in Hs as [? ?]; [done|]. apply text_starts, text_char. auto.
Qed.

Lemma text_trim_end s : text s -> text (trim_end s).
Proof. intros H. apply strip_while_rev_text. by rewrite reverse_involutive. Qed.

Lemma text_trim s : text s -> text (trim s).
Proof. intros H. by apply text_trim_end, text_trim_start. Qed.

(** * Iterating over characters *)

Lemma mjoin_cons {A} (c : list A) cs : mjoin (c :: cs) = c ++ mjoin cs.
Proof. done. Qed.

Lemma mjoin_app {A} (a b : list (list A)) : mjoin (a ++ b) = mjoin a ++ mjoin b.
Proof. induction a as [|x a IH]; [done|]. by rewrite <- app_comm_cons, !mjoin_cons, IH, app_assoc. Qed.

Lemma chars_fuel_text fuel s :
  text s -> (length s <= fuel)%nat -> mjoin (chars_fuel fuel s) = s /\ Forall char_form (chars_fuel fuel s).
Proof.
  revert s; induction fuel as [|fuel IH]; intros s Hs Hl.
  - destruct s; [by split|simpl in Hl; lia].
  - destruct Hs as [|c s Hc Hs]; [by split|]. cbn [chars_fuel].
    pose proof (char_len_pos c Hc). rewrite length_app in Hl.
    destruct (c ++ s) as [|x l] eqn:E.
    { apply app_nil in E as [-> _]. by apply char_form_ne in Hc. }
    rewrite <- E, char_form_scan by done. cbn [snd].
    rewrite take_app_length, drop_app_length. destruct (IH s Hs ltac:(lia)) as [Hj Hf].
    split; [by rewrite mjoin_cons, Hj|by constructor].
Qed.

Lemma chars_text s : text s -> mjoin (chars s) = s /\ Forall char_form (chars s).
Proof. intros. by apply chars_fuel_text. Qed.

Lemma text_mjoin cs : Forall char_form cs -> text (mjoin cs).
Proof. induction 1; [constructor|]. rewrite mjoin_cons. by constructor. Qed.

Lemma text_mjoin_text ls : Forall text ls -> text (mjoin ls).
Proof. induction 1; [constructor|]. rewrite mjoin_cons. by apply text_app. Qed.

(** Characters are determined by their concatenation. *)
Lemma chars_mjoin cs : Forall char_form cs -> chars (mjoin cs) = cs.
Proof.
  intros H. unfold chars. assert (Hl : (length (mjoin cs) <= length (mjoin cs))%nat) by lia. revert Hl.
  generalize (length (mjoin cs)) at 2 3 as fuel. induction H as [|c cs Hc _ IH]; intros fuel Hl.
  - by destruct fuel.
  - pose proof (char_len_pos c Hc). rewrite mjoin_cons in *. rewrite length_app in Hl.
    destruct fuel as [|fuel]; [lia|]. cbn [chars_fuel].
    destruct (c ++ mjoin cs) as [|x l] eqn:E.
    { apply app_nil in E as [-> _]. by apply char_form_ne in Hc. }
    rewrite <- E, char_form_scan by done. cbn [snd].
    rewrite take_app_length, drop_app_length. f_equal. apply IH. lia.
Qed.

(** * Encoding *)

Lemma cont_byte z : utf8_cont (z2b (128 + z mod 64)) = true.
Proof. unfold utf8_cont. byte_props. pose proof (Z.mod_pos_bound z 64). rewrite b2z_z2b; lia. Qed.

(** [lia] with division by constants. *)
Ltac divlia := Z.to_euclidean_division_equations; lia.

Lemma from_u32_char code c : 0 <= code -> from_u32 code = Some c -> char_form c.
Proof.
  unfold from_u32. intros H0 H.
  repeat case_match; bool_props; simplify_eq.
  - constructor. byte_props. rewrite b2z_z2b; divlia.
  - constructor; [|apply cont_byte]. byte_props. rewrite b2z_z2b; divlia.
  - constructor; [..|apply cont_byte]; [byte_props; rewrite b2z_z2b; divlia|].
    unfold utf8_second, utf8_cont, in_range. rewrite !b2z_z2b by divlia.
    repeat match goal with |- context [?a <=? ?b] => destruct (Z.leb_spec a b); simpl; try divlia end.
  - constructor; [|..|apply cont_byte|apply cont_byte]; [byte_props; rewrite b2z_z2b; divlia|].
    unfold utf8_second, utf8_cont, in_range. rewrite !b2z_z2b by divlia.
    repeat match goal with |- context [?a <=? ?b] => destruct (Z.leb_spec a b); simpl; try divlia end.
Qed.

(** * Lossy decoding *)

Lemma lossy_fuel_text fuel l : text (lossy_fuel fuel l).
Proof.
  revert l; induction fuel as [|fuel IH]; intros l; cbn [lossy_fuel]; [constructor|].
  destruct l as [|b l]; [constructor|]. destruct (utf8_scan (b :: l)) as [[] n] eqn:E.
  - apply scan_char_form in E as [Hf _]; [|done]. by constructor.
  - constructor; [by constructor|apply IH].
Qed.

Lemma from_utf8_lossy_text l : text (from_utf8_lossy l).
Proof. apply lossy_fuel_text. Qed.

(** Text is decoded to itself. *)
Lemma from_utf8_lossy_id s : text s -> from_utf8_lossy s = s.
Proof.
  intros H. unfold from_utf8_lossy. assert (Hl : (length s <= length s)%nat) by lia. revert Hl.
  generalize (length s) at 2 3 as fuel. induction H as [|c s Hc _ IH]; intros fuel Hl; [by destruct fuel|].
  pose proof (char_len_pos c Hc). rewrite length_app in Hl. destruct fuel as [|fuel]; [lia|].
  cbn [lossy_fuel]. destruct (c ++ s) as [|x l] eqn:E.
  { apply app_nil in E as [-> _]. by apply char_form_ne in Hc. }
  rewrite <- E, char_form_scan by done. rewrite take_app_length, drop_app_length, IH; [done|lia].
Qed.

(** * Automation: what is text *)

Create HintDb text.
#[export] Hint Resolve text_nil text_app text_char text_starts text_lower text_trim_start text_trim_end
  text_trim text_mjoin text_mjoin_text from_utf8_lossy_text : text.
#[export] Hint Extern 1 (text _) => apply text_ascii; reflexivity : text.
