(* ===== verification/Numerals.v ===== *)
(** Decimal numerals: what [format!] writes, [str::parse] reads back. *)

From S2P Require Import Prelude.

Lemma digit_char d : (d < 10)%N ->
  to_digit 10 (Ascii.byte_of_ascii (pretty_N_char d)) = Some (Z.of_N d) /\
  is_graphic (Ascii.byte_of_ascii (pretty_N_char d)) = true /\ (b2z (Ascii.byte_of_ascii (pretty_N_char d)) =? 43) = false.
Proof.
  intros H. assert (Hd : d ∈ [0; 1; 2; 3; 4; 5; 6; 7; 8; 9]%N).
  { rewrite !elem_of_cons. lia. }
  revert Hd. rewrite !elem_of_cons. intros Hd.
  repeat (destruct Hd as [->|Hd]; [vm_compute; done|]). by apply not_elem_of_nil in Hd.
Qed.

Lemma str_bytes_cons c s : str_bytes (String c s) = Ascii.byte_of_ascii c :: str_bytes s.
Proof. done. Qed.

(** Reading the digits of [x] written in front of [s]. *)
Lemma radix_digits_pretty max x s :
  Z.of_N x <= max ->
  radix_digits 10 max 0 (str_bytes (pretty_N_go x s)) = radix_digits 10 max (Z.of_N x) (str_bytes s).
Proof.
  revert s. induction x as [x IH] using (well_founded_induction N.lt_wf_0); intros s Hx.
  destruct (decide (x = 0)%N) as [->|Hne]; [by rewrite pretty_N_go_0|].
  rewrite pretty_N_go_step by lia.
  assert (Hd : (x `mod` 10 < 10)%N) by (apply N.mod_lt; lia).
  assert (Hl : (x `div` 10 < x)%N) by (apply N.div_lt; lia).
  rewrite IH by lia. rewrite str_bytes_cons. cbn [radix_digits].
  destruct (digit_char _ Hd) as (-> & _). cbv zeta.
  replace (Z.of_N (x `div` 10) * 10 + Z.of_N (x `mod` 10)) with (Z.of_N x)
    by (pose proof (N.div_mod x 10); lia).
  by rewrite (proj2 (Z.leb_le _ _) Hx).
Qed.

Lemma pretty_go_graphic x s :
  Forall (fun b => is_graphic b = true /\ (b2z b =? 43) = false) (str_bytes s) ->
  Forall (fun b => is_graphic b = true /\ (b2z b =? 43) = false) (str_bytes (pretty_N_go x s)).
Proof.
  revert s. induction x as [x IH] using (well_founded_induction N.lt_wf_0); intros s Hs.
  destruct (decide (x = 0)%N) as [->|Hne]; [by rewrite pretty_N_go_0|].
  rewrite pretty_N_go_step by lia.
  assert (Hd : (x `mod` 10 < 10)%N) by (apply N.mod_lt; lia).
  apply IH; [apply N.div_lt; lia|]. rewrite str_bytes_cons. constructor; [|done]. by destruct (digit_char _ Hd) as (_ & ? & ?).
Qed.

Lemma from_str_radix_digits radix max b l :
  (b2z b =? 43) = false -> from_str_radix radix max (b :: l) = radix_digits radix max 0 (b :: l).
Proof. intros H. unfold from_str_radix. rewrite H. by destruct l. Qed.

Lemma dec_graphic n : Forall (fun b => is_graphic b = true /\ (b2z b =? 43) = false) (str_bytes (dec n)).
Proof.
  unfold dec, pretty, pretty_N. case_decide; [by repeat constructor|]. by apply pretty_go_graphic.
Qed.

Lemma dec_nonempty n : str_bytes (dec n) <> [].
Proof.
  unfold dec, pretty, pretty_N. case_decide as Hz; [done|]. intros He.
  pose proof (radix_digits_pretty (Z.of_N (Z.to_N n)) (Z.to_N n) "" ltac:(lia)) as H. rewrite He in H.
  cbn in H. injection H. lia.
Qed.

(** A number is read back from its decimal text. *)
Lemma parse_dec max n : 0 <= n <= max -> from_str_radix 10 max (str_bytes (dec n)) = Some n.
Proof.
  intros Hn. pose proof (dec_graphic n) as Hg. pose proof (dec_nonempty n) as Hne.
  assert (Hr : radix_digits 10 max 0 (str_bytes (dec n)) = Some n).
  { unfold dec, pretty, pretty_N. case_decide as Hz.
    - assert (n = 0) as -> by lia. cbn [str_bytes]. unfold str_bytes. cbn.
      change ((if 0 <=? max then Some 0 else None) = Some 0).
      by rewrite (proj2 (Z.leb_le _ _) (proj2 Hn)).
    - rewrite radix_digits_pretty by lia. cbn. f_equal. lia. }
  destruct (str_bytes (dec n)) as [|b l]; [done|]. inversion Hg as [|? ? [_ Hb] _]; subst.
  by rewrite from_str_radix_digits.
Qed.

Lemma parse_dec_line max n :
  0 <= n <= max -> from_str_radix 10 max (trim (str_bytes (dec n +:+ bytes_str [x0a]))) = Some n.
Proof.
  intros Hn. rewrite str_bytes_app, str_bytes_str, trim_line; [by apply parse_dec|].
  eapply Forall_impl; [apply dec_graphic|]. by intros b [? _].
Qed.
