(* ===== verification/NetAddr.v ===== *)
(** Internet addresses of the standard library: [std::net]'s parser and
    formatter for [Ipv4Addr], [Ipv6Addr] and [SocketAddr]. *)

From S2P Require Import Prelude Text.

(** An IPv4 address is its 32-bit, an IPv6 address its 128-bit number. *)
Inductive IpAddr := V4 (ip : Z) | V6 (ip : Z).

#[global] Instance IpAddr_eq_dec : EqDecision IpAddr.
Proof. solve_decision. Defined.

Record SocketAddr := { sa_ip : IpAddr; sa_port : Z }.

#[global] Instance SocketAddr_eq_dec : EqDecision SocketAddr.
Proof. solve_decision. Defined.

(** [Ipv4Addr::octets] and [Ipv6Addr::octets] *)
Definition octets (ip : IpAddr) : bytes :=
  match ip with V4 a => be_bytes 4 a | V6 a => be_bytes 16 a end.

(** * The parser

    A parser takes the text left and gives a value and the text after it; one
    that fails leaves the text as it was. *)

Definition parser (A : Type) : Type := bytes -> option (A * bytes).

Definition read_given_char (c : byte) : parser unit := fun s =>
  match s with x :: s' => if bool_decide (x = c) then Some (tt, s') else None | [] => None end.

(** The digits at the start, at most [max] many, with the value so far. *)
Fixpoint read_digits (radix top : Z) (max : nat) (acc : Z) (count : nat) (s : bytes) : option (Z * nat * bytes) :=
  match max, s with
  | S max', x :: s' =>
      match to_digit radix x with
      | Some d =>
          let a := acc * radix + d in
          if a <=? top then read_digits radix top max' a (S count) s' else None
      | None => Some (acc, count, s)
      end
  | S _, [] => Some (acc, count, s)
  | O, x :: _ => match to_digit radix x with Some _ => None | None => Some (acc, count, s) end
  | O, [] => Some (acc, count, s)
  end.

(** [read_number]: digits up to the type's maximum [top], at most [max] of them,
    and no superfluous leading zero unless allowed. *)
Definition read_number (radix top : Z) (max : option nat) (allow_zero_prefix : bool) : parser Z := fun s =>
  let has_leading_zero := match s with x :: _ => bool_decide (x = x30) | [] => false end in
  match read_digits radix top (default (length s) max) 0 0 s with
  | Some (value, count, s') =>
      if (count =? 0)%nat then None
      else if negb allow_zero_prefix && has_leading_zero && (1 <? count)%nat then None
      else Some (value, s')
  | None => None
  end.

(** [read_separator]: the separator before every element but the first. *)
Definition read_separator {A} (sep : byte) (index : nat) (p : parser A) : parser A := fun s =>
  if (0 <? index)%nat then '(_, s) ← read_given_char sep s; p s else p s.

Definition read_octet (index : nat) : parser Z := read_separator x2e index (read_number 10 255 (Some 3%nat) false).

Definition read_ipv4_addr : parser Z := fun s =>
  '(a, s) ← read_octet 0 s;
  '(b, s) ← read_octet 1 s;
  '(c, s) ← read_octet 2 s;
  '(d, s) ← read_octet 3 s;
  Some (((a * 256 + b) * 256 + c) * 256 + d, s).

(** [read_groups]: at most [n] groups from number [i], the last two of which may
    be an IPv4 address; the groups, and whether there was one. *)
Fixpoint read_groups (n i : nat) (s : bytes) : list Z * bool * bytes :=
  match n with
  | O => ([], false, s)
  | S n' =>
      match (if (0 <? n')%nat then read_separator x3a i read_ipv4_addr s else None) with
      | Some (v4, s') => ([v4 / 65536; v4 mod 65536], true, s')
      | None =>
          match read_separator x3a i (read_number 16 (umax 16) (Some 4%nat) true) s with
          | Some (g, s') => let '(gs, v4, s'') := read_groups n' (S i) s' in (g :: gs, v4, s'')
          | None => ([], false, s)
          end
      end
  end.

Definition groups_value (gs : list Z) : Z := foldl (fun acc g => acc * 65536 + g) 0 gs.

Definition read_ipv6_addr : parser Z := fun s =>
  let '(hd, hd_ipv4, s) := read_groups 8 0 s in
  if (length hd =? 8)%nat then Some (groups_value hd, s)
  else if hd_ipv4 then None
  else
    '(_, s) ← read_given_char x3a s;
    '(_, s) ← read_given_char x3a s;
    let '(tl, _, s) := read_groups (8 - (length hd + 1)) 0 s in
    Some (groups_value (hd ++ repeat 0 (8 - length hd - length tl) ++ tl), s).

Definition read_port : parser Z := fun s =>
  '(_, s) ← read_given_char x3a s; read_number 10 (umax 16) None true s.

(** [read_scope_id], absent or a number. *)
Definition read_scope_id : parser Z := fun s =>
  '(_, s) ← read_given_char x25 s; read_number 10 (umax 32) None true s.

Definition read_socket_addr_v4 : parser SocketAddr := fun s =>
  '(ip, s) ← read_ipv4_addr s;
  '(port, s) ← read_port s;
  Some ({| sa_ip := V4 ip; sa_port := port |}, s).

Definition read_socket_addr_v6 : parser SocketAddr := fun s =>
  '(_, s) ← read_given_char x5b s;
  '(ip, s) ← read_ipv6_addr s;
  let s := match read_scope_id s with Some (_, s') => s' | None => s end in
  '(_, s) ← read_given_char x5d s;
  '(port, s) ← read_port s;
  Some ({| sa_ip := V6 ip; sa_port := port |}, s).

(** [parse_with]: all of the text. *)
Definition parse_with {A} (p : parser A) (s : bytes) : option A :=
  match p s with Some (a, []) => Some a | _ => None end.

(** [str::parse] at [Ipv4Addr], [Ipv6Addr] and [SocketAddr]. *)
Definition parse_ipv4 (s : bytes) : option Z :=
  if (15 <? length s)%nat then None else parse_with read_ipv4_addr s.

Definition parse_socket_addr (s : bytes) : option SocketAddr :=
  match parse_with read_socket_addr_v4 s with
  | Some a => Some a
  | None => parse_with read_socket_addr_v6 s
  end.

(** * The formatter *)

Definition show_ipv4 (ip : Z) : string :=
  match be_bytes 4 ip with
  | [a; b; c; d] => dec (b2z a) +:+ "." +:+ dec (b2z b) +:+ "." +:+ dec (b2z c) +:+ "." +:+ dec (b2z d)
  | _ => ""
  end.

(** The eight segments of an IPv6 address. *)
Definition segments (ip : Z) : list Z :=
  map (fun i => ip / 65536 ^ (7 - Z.of_nat i) mod 65536) (seq 0 8).

(** A segment in lower-case hexadecimal without leading zeros. *)
Definition hex_nibble (d : Z) : byte := if d <? 10 then z2b (48 + d) else z2b (87 + d).
Definition show_segment (g : Z) : bytes :=
  if g <? 16 then [hex_nibble g]
  else if g <? 256 then [hex_nibble (g / 16); hex_nibble (g mod 16)]
  else if g <? 4096 then [hex_nibble (g / 256); hex_nibble (g / 16 mod 16); hex_nibble (g mod 16)]
  else [hex_nibble (g / 4096); hex_nibble (g / 256 mod 16); hex_nibble (g / 16 mod 16); hex_nibble (g mod 16)].

(** The first of the longest runs of zero segments: start and length. *)
Fixpoint zero_run (gs : list Z) (i : nat) (cur best : nat * nat) : nat * nat :=
  match gs with
  | [] => best
  | g :: gs' =>
      if g =? 0 then
        let cur := ((if (cur.2 =? 0)%nat then i else cur.1), S cur.2) in
        zero_run gs' (S i) cur (if (best.2 <? cur.2)%nat then cur else best)
      else zero_run gs' (S i) (O, O) best
  end.

Definition show_ipv6 (ip : Z) : bytes :=
  let gs := segments ip in
  if bool_decide (take 6 gs = [0; 0; 0; 0; 0; 0xffff])
  then str_bytes "::ffff:" ++ str_bytes (show_ipv4 (ip mod 2 ^ 32))
  else
    let '(start, len) := zero_run gs 0 (O, O) (O, O) in
    if (1 <? len)%nat
    then join [x3a] (map show_segment (take start gs)) ++ [x3a; x3a]
         ++ join [x3a] (map show_segment (drop (start + len) gs))
    else join [x3a] (map show_segment gs).

(** [IpAddr::to_string] *)
Definition show_ip (ip : IpAddr) : bytes :=
  match ip with V4 a => str_bytes (show_ipv4 a) | V6 a => show_ipv6 a end.
