(* ===== verification/NetAddrFacts.v ===== *)
(** IPv4 addresses and socket addresses parse back from what is printed, and
    printed IPv6 addresses do not parse as the host of a socket address. *)

From S2P Require Import Prelude Text TextFacts Numerals NetAddr.

(** * Numbers *)

Definition no_digit (s : bytes) : Prop := match s with b :: _ => to_digit 10 b = None | [] => True end.

Lemma read_digits_app top max acc count l v rest :
  radix_digits 10 top acc l = Some v -> (length l <= max)%nat -> no_digit rest ->
  read_digits 10 top max acc count (l ++ rest) = Some (v, (count + length l)%nat, rest).
Proof.
  revert max acc count; induction l as [|b l IH]; intros max acc count; cbn [radix_digits app length].
  - intros [= <-] _ Hr. rewrite Nat.add_0_r. destruct max, rest as [|x rest]; cbn [read_digits]; try done;
      simpl in Hr; by rewrite Hr.
  - intros H Hl Hr. destruct (to_digit 10 b) as [d|] eqn:Ed; [|done]. cbv zeta in H.
    destruct (acc * 10 + d <=? top) eqn:Et; [|done]. destruct max as [|max]; [lia|]. cbn [read_digits].
    rewrite Ed, Et, IH by (done || lia). by rewrite Nat.add_succ_r.
Qed.

Lemma radix_digits_dec top n : 0 <= n <= top -> radix_digits 10 top 0 (str_bytes (dec n)) = Some n.
Proof.
  intros Hn. pose proof (parse_dec top n Hn) as H. pose proof (dec_graphic n) as Hg.
  pose proof (dec_nonempty n). destruct (str_bytes (dec n)) as [|b l]; [done|].
  apply Forall_cons in Hg as [[_ Hb] _]. by rewrite from_str_radix_digits in H.
Qed.

Lemma read_number_dec top max n rest :
  0 <= n <= top -> (forall m, max = Some m -> (length (str_bytes (dec n)) <= m)%nat) -> no_digit rest ->
  read_number 10 top max true (str_bytes (dec n) ++ rest) = Some (n, rest).
Proof.
  intros Hn Hm Hr. unfold read_number. erewrite read_digits_app; [|by apply radix_digits_dec| |done].
  - pose proof (dec_nonempty n). destruct (str_bytes (dec n)); done.
  - destruct max as [m|]; simpl; [by apply Hm|]. rewrite length_app. lia.
Qed.

(** Decimal octets have at most three digits and no superfluous zero. *)
Lemma dec_octet n : 0 <= n < 256 ->
  (length (str_bytes (dec n)) <= 3)%nat /\
  (head (str_bytes (dec n)) = Some x30 -> length (str_bytes (dec n)) = 1%nat).
Proof.
  intros Hn. set (check n := let l := str_bytes (dec (Z.of_nat n)) in
    (length l <=? 3)%nat && (negb (bool_decide (head l = Some x30)) || (length l =? 1)%nat)).
  assert (H : forallb check (seq 0 256) = true) by (vm_compute; reflexivity).
  rewrite forallb_forall in H. specialize (H (Z.to_nat n)). unfold check in H. rewrite Z2Nat.id in H by lia.
  apply andb_prop in H as [H1 H2]; [|apply in_seq; lia]. apply Nat.leb_le in H1. split; [done|].
  intros Hh. rewrite bool_decide_eq_true_2 in H2 by done. by apply Nat.eqb_eq.
Qed.

Lemma read_octet_dec i n rest :
  0 <= n < 256 -> no_digit rest ->
  read_octet i ((if (0 <? i)%nat then [x2e] else []) ++ str_bytes (dec n) ++ rest) = Some (n, rest).
Proof.
  intros Hn Hr. destruct (dec_octet n Hn) as [Hl Hz].
  assert (H : read_number 10 255 (Some 3%nat) false (str_bytes (dec n) ++ rest) = Some (n, rest)).
  { pose proof (dec_nonempty n) as Hne. unfold read_number.
    rewrite (read_digits_app _ _ _ _ _ n) by (done || apply radix_digits_dec; lia).
    destruct (str_bytes (dec n)) as [|b l]; [done|]. cbn [app length Nat.add Nat.eqb negb andb head] in *.
    case_bool_decide; [|done]. subst b. specialize (Hz eq_refl). injection Hz as ->. done. }
  unfold read_octet, read_separator. destruct (0 <? i)%nat; [|done]. cbn [app read_given_char].
  by rewrite bool_decide_eq_true_2.
Qed.

Lemma read_octet_first n rest :
  0 <= n < 256 -> no_digit rest -> read_octet 0 (str_bytes (dec n) ++ rest) = Some (n, rest).
Proof. apply (read_octet_dec 0). Qed.

Lemma read_octet_next i n rest :
  0 <= n < 256 -> no_digit rest -> read_octet (S i) ([x2e] ++ str_bytes (dec n) ++ rest) = Some (n, rest).
Proof. apply (read_octet_dec (S i)). Qed.

(** * IPv4 *)

(** The four octets of an address. *)
Lemma ipv4_octets ip : in_u 32 ip ->
  exists a b c d, be_bytes 4 ip = [z2b a; z2b b; z2b c; z2b d] /\
    0 <= a < 256 /\ 0 <= b < 256 /\ 0 <= c < 256 /\ 0 <= d < 256 /\ ip = ((a * 256 + b) * 256 + c) * 256 + d.
Proof.
  intros Hip. pose proof (from_be_u 4 ip Hip) as Hf. pose proof (length_be_bytes 4 ip) as Hl.
  destruct (be_bytes 4 ip) as [|a [|b [|c [|d [|? ?]]]]]; try discriminate Hl.
  exists (b2z a), (b2z b), (b2z c), (b2z d). rewrite !z2b_b2z.
  split_and!; try apply b2z_range; [done|]. rewrite <- Hf. cbn [from_be length]. lia.
Qed.

Lemma show_ipv4_octets a b c d :
  0 <= a < 256 -> 0 <= b < 256 -> 0 <= c < 256 -> 0 <= d < 256 ->
  forall ip, be_bytes 4 ip = [z2b a; z2b b; z2b c; z2b d] ->
  str_bytes (show_ipv4 ip) = str_bytes (dec a) ++ [x2e] ++ str_bytes (dec b) ++ [x2e] ++ str_bytes (dec c)
                             ++ [x2e] ++ str_bytes (dec d).
Proof.
  intros Ha Hb Hc Hd ip E. unfold show_ipv4. rewrite E, !b2z_z2b, !str_bytes_app by done. by rewrite !app_assoc.
Qed.

Lemma read_ipv4_show ip rest :
  in_u 32 ip -> no_digit rest -> read_ipv4_addr (str_bytes (show_ipv4 ip) ++ rest) = Some (ip, rest).
Proof.
  intros Hip Hr. destruct (ipv4_octets ip Hip) as (a & b & c & d & E & Ha & Hb & Hc & Hd & ->).
  rewrite (show_ipv4_octets a b c d) by done. rewrite <- !app_assoc. unfold read_ipv4_addr.
  rewrite read_octet_first by done. cbn [mbind option_bind].
  do 3 (rewrite read_octet_next by done; cbn [mbind option_bind]). done.
Qed.

Lemma parse_ipv4_show ip : in_u 32 ip -> parse_ipv4 (str_bytes (show_ipv4 ip)) = Some ip.
Proof.
  intros Hip. unfold parse_ipv4, parse_with.
  assert (Hl : (length (str_bytes (show_ipv4 ip)) <= 15)%nat).
  { destruct (ipv4_octets ip Hip) as (a & b & c & d & E & Ha & Hb & Hc & Hd & _).
    rewrite (show_ipv4_octets a b c d) by done. rewrite !length_app. simpl.
    destruct (dec_octet a Ha), (dec_octet b Hb), (dec_octet c Hc), (dec_octet d Hd). lia. }
  replace (15 <? _)%nat with false by (symmetry; apply Nat.ltb_ge; lia).
  pose proof (read_ipv4_show ip [] Hip I) as H. rewrite app_nil_r in H. by rewrite H.
Qed.

(** A printed IPv4 socket address parses back. *)
Lemma parse_socket_v4 ip port :
  in_u 32 ip -> in_u 16 port ->
  parse_socket_addr (str_bytes (show_ipv4 ip +:+ ":" +:+ dec port)) = Some {| sa_ip := V4 ip; sa_port := port |}.
Proof.
  intros Hip Hp. unfold parse_socket_addr, parse_with, read_socket_addr_v4. rewrite !str_bytes_app.
  rewrite (read_ipv4_show ip) by done. cbn [mbind option_bind]. unfold read_port.
  change (str_bytes ":" ++ str_bytes (dec port)) with (x3a :: str_bytes (dec port)). cbn [read_given_char].
  rewrite bool_decide_eq_true_2 by done. cbn [mbind option_bind].
  pose proof (read_number_dec (umax 16) None port [] Hp ltac:(done) I) as H. rewrite app_nil_r in H. by rewrite H.
Qed.

(** * IPv6 *)

Lemma read_digits_suffix radix top max acc count s v c r :
  read_digits radix top max acc count s = Some (v, c, r) -> exists p, s = p ++ r /\ Forall (fun b => is_Some (to_digit radix b)) p.
Proof.
  revert max acc count; induction s as [|x s IH]; intros max acc count H.
  - exists []. destruct max; cbn in H; simplify_eq; done.
  - destruct max as [|max]; cbn [read_digits] in H; destruct (to_digit radix x) as [d|] eqn:Ed; simplify_eq;
      try (exists []; done).
    cbv zeta in H. destruct (_ <=? _); [|done]. destruct (IH _ _ _ H) as (p & -> & Hp).
    exists (x :: p). split; [done|]. constructor; [by rewrite Ed|done].
Qed.

(** Text whose first group of digits ends at a colon is no IPv4 address. *)
Lemma read_ipv4_group seg r : x2e ∉ seg -> read_ipv4_addr (seg ++ x3a :: r) = None.
Proof.
  intros Hs. unfold read_ipv4_addr. destruct (read_octet 0 (seg ++ x3a :: r)) as [[a s]|] eqn:E; [|done].
  cbn [mbind option_bind]. assert (Hd : read_octet 1 s = None); [|by rewrite Hd].
  unfold read_octet, read_separator, read_number in E |- *. cbn [Nat.ltb Nat.leb] in *.
  destruct (read_digits _ _ _ _ _ _) as [[[v c] s']|] eqn:Er; [|done].
  assert (s' = s) as ->. { repeat case_match; by simplify_eq. }
  apply read_digits_suffix in Er as (p & Hp & Hdig).
  destruct s as [|x s]; [done|]. cbn [read_given_char mbind option_bind]. rewrite bool_decide_eq_false_2; [done|].
  intros ->. apply app_eq_inv in Hp as [(k & -> & Hk)|(k & -> & Hk)].
  - destruct k as [|y k]; [|simplify_list_eq; set_solver]. by simplify_list_eq.
  - destruct k as [|y k]; simplify_list_eq. apply Forall_app in Hdig as [_ Hd].
    apply Forall_cons in Hd as [[? Hd] _]. done.
Qed.

(** Bytes of a printed segment. *)
Definition hex_text (l : bytes) : Prop := Forall (fun b => b <> x2e /\ b <> x5b) l.

Lemma hex_nibble_plain d : 0 <= d < 16 -> hex_nibble d <> x2e /\ hex_nibble d <> x5b.
Proof.
  intros Hd. unfold hex_nibble.
  split; intros E; apply (f_equal b2z) in E; [change (b2z x2e) with 46 in E|change (b2z x5b) with 91 in E];
    destruct (d <? 10) eqn:Ed; bool_props; rewrite b2z_z2b in E; lia.
Qed.

Lemma show_segment_hex g : 0 <= g < 65536 -> hex_text (show_segment g).
Proof.
  intros Hg. unfold show_segment. repeat case_match; bool_props;
    repeat (apply Forall_cons; split); try apply Forall_nil_2; apply hex_nibble_plain;
    try apply Z.mod_pos_bound; try lia; Z.to_euclidean_division_equations; lia.
Qed.

Lemma segments_range ip : Forall (fun g => 0 <= g < 65536) (segments ip) /\ length (segments ip) = 8%nat.
Proof.
  split; [|done]. apply Forall_forall. intros g (i & -> & _)%list_elem_of_fmap. by apply Z.mod_pos_bound.
Qed.

(** A printed IPv6 address starts with a group and a colon. *)
Lemma show_ipv6_shape ip : exists seg r, show_ipv6 ip = seg ++ x3a :: r /\ hex_text seg.
Proof.
  unfold show_ipv6. case_bool_decide; [by exists [], (drop 1 (str_bytes "::ffff:") ++ str_bytes (show_ipv4 (ip mod 2 ^ 32))); split; [|constructor]|].
  destruct (segments_range ip) as [Hs Hl].
  destruct (zero_run _ _ _ _) as [start len]. destruct (1 <? len)%nat.
  - destruct (segments ip) as [|g gs]; [done|]. apply Forall_cons in Hs as [Hg _].
    destruct start as [|start]; [eexists [], _; split; [done|constructor]|]. cbn [take map].
    exists (show_segment g). destruct (map show_segment (take start gs)) as [|l ls].
    + eexists. split; [done|by apply show_segment_hex].
    + change (join [x3a] (show_segment g :: l :: ls)) with (show_segment g ++ [x3a] ++ join [x3a] (l :: ls)).
      eexists. rewrite <- !app_assoc. split; [done|by apply show_segment_hex].
  - destruct (segments ip) as [|g [|g2 gs]]; [done|done|]. apply Forall_cons in Hs as [Hg _].
    exists (show_segment g). eexists. split; [done|by apply show_segment_hex].
Qed.

(** Whatever follows, a printed IPv6 address without brackets is no socket
    address. *)
Lemma show_ipv6_no_socket ip t : parse_socket_addr (show_ipv6 ip ++ t) = None.
Proof.
  destruct (show_ipv6_shape ip) as (seg & r & -> & Hs). rewrite <- app_assoc. cbn [app].
  unfold parse_socket_addr, parse_with, read_socket_addr_v4. rewrite read_ipv4_group.
  - cbn [mbind option_bind]. unfold read_socket_addr_v6. destruct seg as [|b seg].
    + reflexivity.
    + apply Forall_cons in Hs as [[_ Hb] _]. cbn [app read_given_char]. by rewrite bool_decide_eq_false_2.
  - intros Hin. unfold hex_text in Hs. rewrite Forall_forall in Hs. by destruct (Hs _ Hin).
Qed.

(** * Ranges *)

Lemma read_digits_range radix top max acc count s v n s' :
  0 <= radix -> 0 <= acc <= top -> read_digits radix top max acc count s = Some (v, n, s') -> 0 <= v <= top.
Proof.
  intros Hr. revert acc count s. induction max as [|max IH]; intros acc count s Ha H; destruct s as [|x s]; cbn [read_digits] in H.
  - by simplify_eq.
  - destruct (to_digit radix x); by simplify_eq.
  - by simplify_eq.
  - destruct (to_digit radix x) as [d|] eqn:Ed; [|by simplify_eq]. apply to_digit_nonneg in Ed.
    destruct (Z.leb_spec (acc * radix + d) top); [|done]. eapply IH; [|exact H]. nia.
Qed.

Lemma read_octet_range i s v s' : read_octet i s = Some (v, s') -> 0 <= v <= 255.
Proof.
  assert (Hn : forall t, read_number 10 255 (Some 3%nat) false t = Some (v, s') -> 0 <= v <= 255).
  { intros t. unfold read_number. destruct (read_digits _ _ _ _ _ t) as [[[v' n] t']|] eqn:E; [|done].
    intros H. assert (v = v') as -> by (repeat case_match; by simplify_eq).
    eapply read_digits_range in E; [done|lia..]. }
  unfold read_octet, read_separator. destruct (0 <? i)%nat; [|apply Hn].
  destruct (read_given_char x2e s) as [[[] t]|]; [apply Hn|done].
Qed.

Lemma read_ipv4_range s ip s' : read_ipv4_addr s = Some (ip, s') -> in_u 32 ip.
Proof.
  unfold read_ipv4_addr. intros H.
  apply bind_Some in H as ([a s1] & Ha & H). apply bind_Some in H as ([b s2] & Hb & H).
  apply bind_Some in H as ([c s3] & Hc & H). apply bind_Some in H as ([d s4] & Hd & H). injection H as <- _.
  apply read_octet_range in Ha, Hb, Hc, Hd. unfold in_u. change (umax 32) with 4294967295. lia.
Qed.

Lemma read_number_range radix top max z s v s' :
  0 <= radix -> 0 <= top -> read_number radix top max z s = Some (v, s') -> 0 <= v <= top.
Proof.
  intros Hr Ht. unfold read_number. destruct (read_digits _ _ _ _ _ s) as [[[v' n] t']|] eqn:E; [|done].
  intros H. assert (v = v') as -> by (repeat case_match; by simplify_eq). eapply read_digits_range in E; [done|lia..].
Qed.

Lemma read_groups_range n i s gs v4 s' :
  read_groups n i s = (gs, v4, s') -> Forall (fun g => 0 <= g <= 65535) gs /\ (length gs <= n)%nat.
Proof.
  revert i s gs v4 s'. induction n as [|n IH]; intros i s gs v4 s'; cbn [read_groups]; [intros [= <- <- <-]; by split|].
  destruct (if (0 <? n)%nat then _ else _) as [[ip s1]|] eqn:E4.
  - destruct (Nat.ltb_spec 0 n); [|done]. intros [= <- <- <-].
    assert (Hip : in_u 32 ip).
    { unfold read_separator in E4. destruct (0 <? i)%nat; [|by eapply read_ipv4_range].
      apply bind_Some in E4 as ([[] t] & _ & E4). by eapply read_ipv4_range. }
    unfold in_u in Hip. change (umax 32) with 4294967295 in Hip. split; [|cbn; lia].
    repeat constructor; try (apply Z.div_pos; lia); try (apply Z.mod_pos_bound; lia).
    + assert (ip / 65536 < 65536) by (apply Z.div_lt_upper_bound; lia). lia.
    + pose proof (Z.mod_pos_bound ip 65536). lia.
  - clear E4. destruct (read_separator x3a i _ s) as [[g s1]|] eqn:Eg; [|intros [= <- <- <-]; split; [done|cbn; lia]].
    destruct (read_groups n (S i) s1) as [[gs1 b1] s2] eqn:Er. intros [= <- <- <-]. apply IH in Er as [Hf Hl].
    assert (Hg : 0 <= g <= 65535).
    { change 65535 with (umax 16). unfold read_separator in Eg. destruct (0 <? i)%nat.
      - apply bind_Some in Eg as ([[] t] & _ & Eg). by eapply read_number_range in Eg.
      - by eapply read_number_range in Eg. }
    split; [by constructor|cbn; lia].
Qed.

Lemma groups_value_range gs :
  Forall (fun g => 0 <= g <= 65535) gs -> 0 <= groups_value gs < 65536 ^ blen gs.
Proof.
  unfold groups_value, blen. induction gs as [|g gs IH] using rev_ind; intros H; [cbn; lia|].
  apply Forall_app in H as [H1 H2]. apply Forall_cons in H2 as [H2 _]. specialize (IH H1).
  rewrite foldl_app, length_app. cbn [foldl length]. rewrite Nat2Z.inj_add, Z.pow_add_r by lia.
  change (65536 ^ Z.of_nat 1) with 65536. nia.
Qed.

Lemma read_ipv6_range s ip s' : read_ipv6_addr s = Some (ip, s') -> in_u 128 ip.
Proof.
  unfold read_ipv6_addr. destruct (read_groups 8 0 s) as [[hd b] s1] eqn:E. apply read_groups_range in E as [Hh Hl].
  assert (Hv : forall gs, Forall (fun g => 0 <= g <= 65535) gs -> length gs = 8%nat -> in_u 128 (groups_value gs)).
  { intros gs Hf Hlen. apply groups_value_range in Hf. unfold blen in Hf. rewrite Hlen in Hf.
    change (65536 ^ Z.of_nat 8) with (2 ^ 128) in Hf. unfold in_u, umax. lia. }
  destruct (Nat.eqb_spec (length hd) 8); [intros [= <- _]; by apply Hv|]. destruct b; [done|].
  intros H. apply bind_Some in H as ([[] s2] & _ & H). apply bind_Some in H as ([[] s3] & _ & H).
  destruct (read_groups (8 - (length hd + 1)) 0 s3) as [[tl b2] s4] eqn:E2. apply read_groups_range in E2 as [Ht Hlt].
  injection H as <- _. apply Hv.
  - apply Forall_app. split; [done|]. apply Forall_app. split; [|done]. apply Forall_forall. intros x Hx.
    apply list_elem_of_In, repeat_spec in Hx. lia.
  - rewrite !length_app, repeat_length. lia.
Qed.

Definition addr_range (a : SocketAddr) : Prop :=
  match sa_ip a with V4 ip => in_u 32 ip | V6 ip => in_u 128 ip end /\ in_u 16 (sa_port a).

Lemma read_port_range s p s' : read_port s = Some (p, s') -> in_u 16 p.
Proof. unfold read_port. intros H. apply bind_Some in H as ([[] t] & _ & H). unfold in_u. by eapply read_number_range in H. Qed.

(** A socket address that parses has numbers of its widths. *)
Lemma parse_socket_range s a : parse_socket_addr s = Some a -> addr_range a.
Proof.
  assert (H4 : forall r, read_socket_addr_v4 s = Some (a, r) -> addr_range a).
  { intros r E. unfold read_socket_addr_v4 in E. apply bind_Some in E as ([ip s1] & Hi & E). apply bind_Some in E as ([p s2] & Hp & E).
    injection E as <- _. split; [by eapply read_ipv4_range|by eapply read_port_range]. }
  assert (H6 : forall r, read_socket_addr_v6 s = Some (a, r) -> addr_range a).
  { intros r E. unfold read_socket_addr_v6 in E. apply bind_Some in E as ([[] s0] & _ & E). apply bind_Some in E as ([ip s1] & Hi & E).
    apply bind_Some in E as ([[] s2] & _ & E). apply bind_Some in E as ([p s3] & Hp & E).
    injection E as <- _. split; [by eapply read_ipv6_range|by eapply read_port_range]. }
  unfold parse_socket_addr, parse_with. destruct (read_socket_addr_v4 s) as [[a' [|x r]]|] eqn:E; [intros [= ->]; by eapply H4| |];
    (destruct (read_socket_addr_v6 s) as [[a2 [|y r2]]|] eqn:E2; [intros [= ->]; by eapply H6|done..]).
Qed.
