(* ===== verification/Normalize.v ===== *)
(** The HTML normalizer: [ghostbro-server/src/relay/normalize.rs].

    Text is UTF-8 bytes as in [Text]; every slice of the source is a [str_range],
    which is [None] where the slice would panic.  The [while] loops run on fuel,
    one unit per turn, and are [None] when it runs out: what the functions return
    when they do not panic is [Some]. *)

From S2P Require Import Prelude Text.

(** * Removing comments and noise elements *)

Fixpoint strip_comments_loop (fuel : nat) (output rest : bytes) : option bytes :=
  match fuel with
  | O => None
  | S fuel' =>
      match find_sub (str_bytes "<!--") rest with
      | None => Some (output ++ rest)
      | Some start =>
          before ← str_to rest start;
          let output := output ++ before in
          from ← str_from rest start;
          match find_sub (str_bytes "-->") from with
          | Some e => rest ← str_from rest (start + e + 3); strip_comments_loop fuel' output rest
          | None => Some output
          end
      end
  end.

Definition strip_comments (input : bytes) : option bytes :=
  strip_comments_loop (S (length input)) [] input.

(** What may follow a tag's name. *)
Definition is_boundary (after : option byte) : bool :=
  match after with
  | None => true
  | Some b => bool_decide (b ∈ [x3e; x20; x2f; x09; x0a; x0d])
  end.

Section strip_element.
Context (tag : bytes).

Definition open_tag : bytes := x3c :: tag.
Definition close_tag : bytes := x3c :: x2f :: tag ++ [x3e].

Fixpoint strip_element_loop (fuel : nat) (input lowered output : bytes) (idx : nat) : option bytes :=
  if (idx <? length input)%nat then
    match fuel with
    | O => None
    | S fuel' =>
        low ← str_from lowered idx;
        match find_sub open_tag low with
        | Some rel =>
            let open_at := (idx + rel)%nat in
            let after := lowered !! (open_at + length open_tag)%nat in
            if negb (is_boundary after) then
              kept ← str_range input idx (open_at + length open_tag);
              strip_element_loop fuel' input lowered (output ++ kept) (open_at + length open_tag)
            else
              kept ← str_range input idx open_at;
              let output := output ++ kept in
              low ← str_from lowered open_at;
              match find_sub close_tag low with
              | Some crel => strip_element_loop fuel' input lowered output (open_at + crel + length close_tag)
              | None => strip_element_loop fuel' input lowered output (length input)
              end
        | None => kept ← str_from input idx; Some (output ++ kept)
        end
    end
  else Some output.

Definition strip_element (input : bytes) : option bytes :=
  strip_element_loop (length input) input (ascii_lower input) [] 0.

End strip_element.

Definition noise_tags : list bytes :=
  map str_bytes ["script"; "style"; "head"; "noscript"; "svg"]%string.

Definition strip_noise_blocks (input : bytes) : option bytes :=
  output ← strip_comments input;
  foldl (fun output tag => output ← output; strip_element tag output) (Some output) noise_tags.

(** * Entities *)

Definition decode_entity (entity : bytes) : option bytes :=
  let named s := bool_decide (entity = str_bytes s) in
  if named "amp"%string then Some (str_bytes "&")
  else if named "lt"%string then Some (str_bytes "<")
  else if named "gt"%string then Some (str_bytes ">")
  else if named "quot"%string then Some [x22]
  else if named "apos"%string || named "#39"%string then Some (str_bytes "'")
  else if named "nbsp"%string then Some (str_bytes " ")
  else if named "mdash"%string then from_u32 0x2014
  else if named "ndash"%string then from_u32 0x2013
  else if named "hellip"%string then from_u32 0x2026
  else if named "copy"%string then from_u32 0x00A9
  else
    code ← match strip_any [str_bytes "#x"; str_bytes "#X"] entity with
           | Some hex => from_str_radix 16 (umax 32) hex
           | None => digits ← strip_prefix (str_bytes "#") entity; from_str_radix 10 (umax 32) digits
           end;
    from_u32 code.

Fixpoint decode_entities_loop (fuel : nat) (output rest : bytes) : option bytes :=
  match fuel with
  | O => None
  | S fuel' =>
      match find_sub [x26] rest with
      | None => Some (output ++ rest)
      | Some amp =>
          before ← str_to rest amp;
          let output := output ++ before in
          tail ← str_from rest amp;
          match find_sub [x3b] tail with
          | Some semi =>
              if (semi <=? 10)%nat then
                entity ← str_range tail 1 semi;
                output ← match decode_entity entity with
                         | Some decoded => Some (output ++ decoded)
                         | None => raw ← str_to tail (semi + 1); Some (output ++ raw)
                         end;
                rest ← str_from tail (semi + 1);
                decode_entities_loop fuel' output rest
              else rest ← str_from tail 1; decode_entities_loop fuel' (output ++ [x26]) rest
          | None => rest ← str_from tail 1; decode_entities_loop fuel' (output ++ [x26]) rest
          end
      end
  end.

Definition decode_entities (input : bytes) : option bytes :=
  if negb (contains_sub [x26] input) then Some input
  else decode_entities_loop (S (length input)) [] input.

(** * Tags *)

Definition heading_level (name : bytes) : option nat :=
  level ← strip_prefix (str_bytes "h") name;
  if bool_decide (level = str_bytes "1") then Some 1%nat
  else if bool_decide (level = str_bytes "2") then Some 2%nat
  else if bool_decide (level = str_bytes "3") then Some 3%nat
  else if bool_decide (level = str_bytes "4") then Some 4%nat
  else if bool_decide (level = str_bytes "5") then Some 5%nat
  else if bool_decide (level = str_bytes "6") then Some 6%nat
  else None.

Definition tag_name (raw_tag : bytes) : bytes * bool :=
  let trimmed := trim raw_tag in
  let '(closing, rest) := match strip_prefix (str_bytes "/") trimmed with
                          | Some rest => (true, rest)
                          | None => (false, trimmed)
                          end in
  (ascii_lower (split_first (fun ch => negb (is_ascii_alphanumeric ch)) rest), closing).

Definition parse_attr_value (region : bytes) : option bytes :=
  let region := trim_start region in
  match strip_prefix [x22] region with
  | Some rest => decode_entities (split_first (fun ch => bool_decide (ch = x22)) rest)
  | None =>
      match strip_prefix [x27] region with
      | Some rest => decode_entities (split_first (fun ch => bool_decide (ch = x27)) rest)
      | None => decode_entities (split_first (fun ch => is_ascii_whitespace ch || bool_decide (ch = x3e)) region)
      end
  end.

(** The outer option is a panic or lack of fuel, the inner one the result. *)
Fixpoint attr_value_loop (fuel : nat) (raw_tag lowered attr : bytes) (search_from : nat) : option (option bytes) :=
  match fuel with
  | O => None
  | S fuel' =>
      low ← str_from lowered search_from;
      match find_sub attr low with
      | None => Some None
      | Some rel =>
          let at_ := (search_from + rel)%nat in
          before_ok ← (if (at_ =? 0)%nat then Some true
                       else b ← lowered !! (at_ - 1)%nat; Some (is_ascii_whitespace b));
          after ← str_from lowered (at_ + length attr);
          let after := trim_start after in
          if before_ok && starts_with [x3d] after then
            match strip_prefix [x3d] after with
            | None => Some None
            | Some after_eq =>
                let after_eq := trim_start after_eq in
                let value_offset := (length raw_tag - length after_eq)%nat in
                value_region ← str_from raw_tag value_offset;
                value ← parse_attr_value value_region;
                Some (Some value)
            end
          else attr_value_loop fuel' raw_tag lowered attr (at_ + length attr)
      end
  end.

Definition attr_value (raw_tag attr : bytes) : option (option bytes) :=
  attr_value_loop (S (length raw_tag)) raw_tag (ascii_lower raw_tag) attr 0.

(** * Rendering *)

(** The inner loop over a run of text, from its end so far. *)
Fixpoint text_run (chars : list (nat * bytes)) (e : nat) : nat * list (nat * bytes) :=
  match chars with
  | (next_idx, next_ch) :: chars' =>
      if bool_decide (next_ch = [x3c]) then (e, chars) else text_run chars' (next_idx + length next_ch)
  | [] => (e, [])
  end.

(** The loop over a tag's body. *)
Fixpoint tag_run (chars : list (nat * bytes)) (tag_end : nat) : nat * list (nat * bytes) :=
  match chars with
  | (next_idx, next_ch) :: chars' =>
      if bool_decide (next_ch = [x3e]) then (next_idx, chars') else tag_run chars' (next_idx + length next_ch)
  | [] => (tag_end, [])
  end.

Definition block_tags : list bytes :=
  map str_bytes ["p"; "div"; "section"; "article"; "tr"; "ul"; "ol"; "table"; "header"; "footer";
                 "blockquote"; "pre"]%string.

Definition newlines : bytes := [x0a; x0a].

(** What a tag writes, and the pending target of a link afterwards. *)
Definition render_tag (raw_tag : bytes) (anchor_href : option bytes) : option (bytes * option bytes) :=
  let '(name, closing) := tag_name raw_tag in
  match heading_level name with
  | Some level =>
      if closing then Some (newlines, anchor_href)
      else Some (newlines ++ repeat x23 level ++ [x20], anchor_href)
  | None =>
      if bool_decide (name = str_bytes "li") && negb closing then Some (x0a :: str_bytes "- ", anchor_href)
      else if bool_decide (name = str_bytes "br") then Some ([x0a], anchor_href)
      else if bool_decide (name ∈ block_tags) then Some (newlines, anchor_href)
      else if bool_decide (name = str_bytes "a") then
        if closing then
          match anchor_href with
          | Some href => if negb (bool_decide (href = [])) then Some (str_bytes "](" ++ href ++ str_bytes ")", None)
                         else Some ([], None)
          | None => Some ([], None)
          end
        else
          href ← attr_value raw_tag (str_bytes "href");
          let href := default [] href in
          Some (if negb (bool_decide (href = [])) then str_bytes "[" else [], Some href)
      else Some ([], anchor_href)
  end.

Fixpoint render_loop (fuel : nat) (input output : bytes) (anchor_href : option bytes)
    (chars : list (nat * bytes)) : option bytes :=
  match chars with
  | [] => Some output
  | (idx, ch) :: chars' =>
      match fuel with
      | O => None
      | S fuel' =>
          if negb (bool_decide (ch = [x3c])) then
            let '(e, chars') := text_run chars' (idx + length ch) in
            run ← str_range input idx e;
            decoded ← decode_entities run;
            render_loop fuel' input (output ++ decoded) anchor_href chars'
          else
            let tag_start := (idx + 1)%nat in
            let '(tag_end, chars') := tag_run chars' tag_start in
            raw_tag ← str_range input tag_start tag_end;
            '(written, anchor_href) ← render_tag raw_tag anchor_href;
            render_loop fuel' input (output ++ written) anchor_href chars'
      end
  end.

Definition render_tokens (input : bytes) : option bytes :=
  render_loop (length input) input [] None (char_indices input).

(** * White space *)

Fixpoint collapse_chars (cs : list bytes) (last_space : bool) : bytes :=
  match cs with
  | [] => []
  | ch :: cs' =>
      if is_whitespace ch then (if last_space then [] else [x20]) ++ collapse_chars cs' true
      else ch ++ collapse_chars cs' false
  end.

Definition collapse_inline_spaces (line : bytes) : bytes := trim (collapse_chars (chars line) false).

(** The loop over the lines: the kept lines, newest first. *)
Fixpoint collapse_lines (raw : list bytes) (kept : list bytes) (blank_run : nat) : list bytes :=
  match raw with
  | [] => kept
  | raw_line :: raw' =>
      let collapsed := collapse_inline_spaces raw_line in
      if bool_decide (collapsed = []) then
        let blank_run := (blank_run + 1)%nat in
        collapse_lines raw' (if (blank_run <=? 1)%nat && negb (bool_decide (kept = [])) then [] :: kept else kept)
          blank_run
      else collapse_lines raw' (collapsed :: kept) 0
  end.

Fixpoint drop_blank (kept : list bytes) : list bytes :=
  match kept with
  | [] :: kept' => drop_blank kept'
  | _ => kept
  end.

Definition collapse_whitespace (input : bytes) : bytes :=
  join [x0a] (reverse (drop_blank (collapse_lines (lines input) [] 0))).

Definition html_to_markdown (html : bytes) : option bytes :=
  stripped ← strip_noise_blocks html;
  rendered ← render_tokens stripped;
  Some (collapse_whitespace rendered).

(** The use of it in [process_job_inner]: the body, lossily decoded. *)
Definition normalize_html (body : bytes) : bytes :=
  default [] (html_to_markdown (from_utf8_lossy body)).
