(* ===== verification/NormalizeFacts.v ===== *)
(** The normalizer never panics and always terminates, removes exactly the noise
    it names, and turns escaped text back into that text. *)

From S2P Require Import Prelude Text TextFacts Normalize.

(** A function that may panic returns text on text. *)
Definition gives_text (o : option bytes) : Prop := exists r, o = Some r /\ text r.

Lemma gives_text_Some r : text r -> gives_text (Some r).
Proof. intros H. by exists r. Qed.

(** ** Occurrences of an ASCII needle in text *)

Section needle.
Context (n : bytes).
Hypotheses (Hne : n <> []) (Hascii : forallb ascii n = true).

Lemma find_sub_text s i :
  text s -> find_sub n s = Some i ->
  exists a b, s = a ++ n ++ b /\ i = length a /\ text a /\ text (n ++ b) /\ text b.
Proof.
  intros Ht H. destruct (find_sub_split _ _ _ H) as (b & Hs & Hl).
  exists (take i s), b. rewrite Hs in Ht. by destruct (text_around _ _ _ Hne Hascii Ht) as (? & ? & ?).
Qed.

End needle.

(** ** Comments *)

Lemma strip_comments_loop_text fuel output rest :
  text output -> text rest -> (length rest < fuel)%nat -> gives_text (strip_comments_loop fuel output rest).
Proof.
  revert output rest; induction fuel as [|fuel IH]; intros output rest Ho Hr Hf; [lia|].
  cbn [strip_comments_loop]. destruct (find_sub _ rest) as [start|] eqn:E;
    [|by apply gives_text_Some, text_app].
  destruct (find_sub_text (str_bytes "<!--") ltac:(done) eq_refl _ _ Hr E) as (a & b & -> & -> & Ha & Hnb & Hb).
  rewrite str_to_app, str_from_app by auto using text_starts. cbn [mbind option_bind].
  destruct (find_sub (str_bytes "-->") _) as [e|] eqn:E2; [|by apply gives_text_Some, text_app].
  destruct (find_sub_text (str_bytes "-->") ltac:(done) eq_refl _ _ Hnb E2) as (c & d & Hcd & -> & Hc & _ & Hd).
  rewrite Hcd in Hf |- *. rewrite !length_app in Hf. cbn [length str_bytes] in Hf.
  replace (a ++ c ++ str_bytes "-->" ++ d) with ((a ++ c ++ str_bytes "-->") ++ d) by (by rewrite <- !app_assoc).
  rewrite str_from_app; [|by apply text_starts|rewrite !length_app; simpl; lia]. cbn [mbind option_bind].
  apply IH; [by apply text_app|done|simpl in Hf; lia].
Qed.

Lemma strip_comments_text input : text input -> gives_text (strip_comments input).
Proof. intros. apply strip_comments_loop_text; [constructor|done|lia]. Qed.

(** ** Entities *)

(** A decoded entity is one character. *)
Lemma decode_entity_char entity c : decode_entity entity = Some c -> char_form c.
Proof.
  unfold decode_entity.
  repeat (case_match; [intros [= <-]; by constructor|]).
  repeat (case_match; [apply from_u32_char; lia|]).
  intros (code & Hc & Hu)%bind_Some. apply (from_u32_char code); [|done].
  destruct (strip_any _ entity) as [hex|].
  - eapply from_str_radix_range in Hc; [lia|done..].
  - apply bind_Some in Hc as (d & _ & Hc). eapply from_str_radix_range in Hc; [lia|done..].
Qed.

(** The slices around the entity at the start of a tail. *)
Lemma entity_slices c d :
  text c -> text d -> let tail := [x26] ++ c ++ [x3b] ++ d in let semi := length (x26 :: c) in
  str_range tail 1 semi = Some c /\ str_to tail (semi + 1) = Some ([x26] ++ c ++ [x3b]) /\
  str_from tail (semi + 1) = Some d.
Proof.
  intros Hc Hd tail semi.
  assert (Hsd : starts_char (c ++ [x3b] ++ d)).
  { apply text_starts, text_app; [done|]. by apply text_app; [apply text_ascii|]. }
  assert (Heq : tail = ([x26] ++ c ++ [x3b]) ++ d) by (unfold tail; by rewrite <- !app_assoc).
  assert (Hl : (semi + 1)%nat = length ([x26] ++ c ++ [x3b])).
  { unfold semi. simpl. rewrite length_app. simpl. lia. }
  split_and!.
  - by apply (str_range_app [x26] c ([x3b] ++ d)).
  - rewrite Heq. apply str_to_app; [|by apply text_starts|done].
    rewrite <- Heq. unfold tail. auto 6 with text.
  - rewrite Heq. apply str_from_app; [by apply text_starts|done].
Qed.

Lemma decode_entities_loop_text fuel output rest :
  text output -> text rest -> (length rest < fuel)%nat -> gives_text (decode_entities_loop fuel output rest).
Proof.
  revert output rest; induction fuel as [|fuel IH]; intros output rest Ho Hr Hf; [lia|].
  cbn [decode_entities_loop]. destruct (find_sub [x26] rest) as [amp|] eqn:E;
    [|by apply gives_text_Some, text_app].
  destruct (find_sub_text [x26] ltac:(done) eq_refl _ _ Hr E) as (a & b & -> & -> & Ha & Hnb & Hb).
  rewrite !length_app in Hf. cbn [length] in Hf.
  rewrite str_to_app, str_from_app by auto using text_starts. cbn [mbind option_bind].
  assert (Hskip : gives_text (rest ← str_from ([x26] ++ b) 1; decode_entities_loop fuel ((output ++ a) ++ [x26]) rest)).
  { rewrite str_from_app by auto using text_starts. cbn [mbind option_bind].
    apply IH; [|done|lia]. apply text_app; [by apply text_app|by apply text_ascii]. }
  destruct (find_sub [x3b] ([x26] ++ b)) as [semi|] eqn:E2; [|done].
  destruct (semi <=? 10)%nat; [|done].
  destruct (find_sub_text [x3b] ltac:(done) eq_refl _ _ Hnb E2) as (c & d & Hcd & -> & Hc & Hnd & Hd).
  destruct c as [|x c]; [by simplify_list_eq|]. simpl in Hcd. injection Hcd as <- ->.
  apply (text_drop_ascii [x26]) in Hc as Hc'; [|done].
  change ([x26] ++ c ++ x3b :: d) with ([x26] ++ c ++ [x3b] ++ d).
  destruct (entity_slices c d Hc' Hd) as (Hr1 & Hr2 & Hr3). rewrite Hr1. cbn [mbind option_bind].
  rewrite Hr2, Hr3. simpl in Hf. rewrite length_app in Hf. simpl in Hf.
  destruct (decode_entity c) as [decoded|] eqn:Ed; cbn [mbind option_bind].
  - apply IH; [|done|lia]. apply text_app; [by apply text_app|].
    apply text_char. by eapply decode_entity_char.
  - apply IH; [|done|lia]. apply text_app; [by apply text_app|].
    apply text_app; [by apply text_ascii|]. apply text_app; [done|by apply text_ascii].
Qed.

Lemma decode_entities_text input : text input -> gives_text (decode_entities input).
Proof.
  intros H. unfold decode_entities. case_match; [by apply gives_text_Some|].
  apply decode_entities_loop_text; [constructor|done|lia].
Qed.

(** ** Attributes *)

Lemma strip_while_suffix fuel ps s : exists p, s = p ++ strip_while fuel ps s.
Proof.
  revert s; induction fuel as [|fuel IH]; intros s; cbn [strip_while]; [by exists []|].
  destruct (strip_any ps s) as [r|] eqn:E; [|by exists []].
  apply strip_any_Some in E as (p & _ & ->). destruct (IH r) as (q & Hq). exists (p ++ q).
  by rewrite <- app_assoc, <- Hq.
Qed.

Lemma trim_start_suffix s : exists p, s = p ++ trim_start s.
Proof. apply strip_while_suffix. Qed.

Lemma split_first_prefix p s : exists r, s = split_first p s ++ r /\ match r with b :: _ => p b = true | [] => True end.
Proof.
  induction s as [|b s IH]; simpl; [by exists []|]. destruct (p b) eqn:E; [by exists (b :: s)|].
  destruct IH as (r & Hr & ?). exists r. by rewrite <- app_comm_cons, <- Hr.
Qed.

(** Cutting text before an ASCII character leaves text. *)
Lemma split_first_text p s : (forall b, p b = true -> ascii b = true) -> text s -> text (split_first p s).
Proof.
  intros Hp Hs. destruct (split_first_prefix p s) as (r & Hr & Hb). rewrite Hr in Hs.
  apply text_split in Hs as [? _]; [done|]. destruct r as [|b r]; [done|]. apply ascii_starts. auto.
Qed.

Lemma ascii_whitespace_ascii b : is_ascii_whitespace b = true -> ascii b = true.
Proof.
  unfold is_ascii_whitespace, ascii. rewrite !orb_true_iff, !Z.eqb_eq. intros. byte_props. lia.
Qed.

Lemma parse_attr_value_text region : text region -> gives_text (parse_attr_value region).
Proof.
  intros H. apply text_trim_start in H. unfold parse_attr_value.
  destruct (strip_prefix [x22] _) as [r|] eqn:E1; [|destruct (strip_prefix [x27] _) as [r|] eqn:E2].
  - apply strip_prefix_Some in E1. rewrite E1 in H. apply decode_entities_text, split_first_text.
    + intros b Hb%bool_decide_eq_true. by subst.
    + by eapply (text_drop_ascii [x22]).
  - apply strip_prefix_Some in E2. rewrite E2 in H. apply decode_entities_text, split_first_text.
    + intros b Hb%bool_decide_eq_true. by subst.
    + by eapply (text_drop_ascii [x27]).
  - apply decode_entities_text, split_first_text; [|done].
    intros b [Hb|Hb%bool_decide_eq_true]%orb_true_iff; [by apply ascii_whitespace_ascii|by subst].
Qed.

(** The suffix of a tag at the length of a suffix of its lower-cased form. *)
Lemma lowered_suffix raw p q :
  text raw -> ascii_lower raw = p ++ q -> text q ->
  exists r, str_from raw (length raw - length q) = Some r /\ text r.
Proof.
  intros Hraw Heq Hq.
  assert (Hl : length raw = (length p + length q)%nat) by (by rewrite <- length_ascii_lower, Heq, length_app).
  replace (length raw - length q)%nat with (length p) by lia.
  assert (Hs : starts_char (drop (length p) raw)).
  { apply starts_char_lower. unfold ascii_lower. rewrite <- skipn_map. fold (ascii_lower raw).
    rewrite Heq, drop_app_length. by apply text_starts. }
  rewrite <- (take_drop (length p) raw) in Hraw. apply text_split in Hraw as [_ Hr]; [|done].
  exists (drop (length p) raw). split; [|done].
  rewrite <- (take_drop (length p) raw) at 1. apply str_from_app; [done|]. rewrite length_take. lia.
Qed.

Lemma attr_value_loop_text attr fuel raw pre suf :
  attr <> [] -> forallb ascii attr = true -> text raw -> ascii_lower raw = pre ++ suf -> text suf ->
  (length suf < fuel)%nat ->
  exists o, attr_value_loop fuel raw (ascii_lower raw) attr (length pre) = Some o /\
            match o with Some v => text v | None => True end.
Proof.
  intros Hne Ha Hraw. revert pre suf.
  induction fuel as [|fuel IH]; intros pre suf Heq Hsuf Hf; [lia|]. cbn [attr_value_loop].
  rewrite Heq, str_from_app by (done || by apply text_starts). cbn [mbind option_bind].
  destruct (find_sub attr suf) as [rel|] eqn:E; [|by exists None].
  destruct (find_sub_text attr Hne Ha _ _ Hsuf E) as (a & b & -> & -> & Ht1 & _ & Hb).
  replace (length pre + length a)%nat with (length (pre ++ a)) by (by rewrite length_app).
  match goal with |- exists o, mbind ?k ?before = _ /\ _ =>
    assert (exists ok, before = Some ok) as [ok ->]
  end.
  { destruct (length (pre ++ a)) as [|m] eqn:Em; [by eexists|]. cbn [Nat.eqb].
    destruct ((pre ++ a ++ attr ++ b) !! (S m - 1)%nat) as [x|] eqn:El; [by eexists|].
    apply lookup_ge_None in El. rewrite !length_app in El. rewrite length_app in Em. lia. }
  cbn [mbind option_bind].
  assert (Hpre : pre ++ a ++ attr ++ b = (pre ++ a ++ attr) ++ b) by (by rewrite <- !app_assoc).
  rewrite Hpre, str_from_app; [|by apply text_starts|by rewrite !length_app, Nat.add_assoc].
  cbn [mbind option_bind].
  destruct (ok && starts_with [x3d] (trim_start b)) eqn:Ec.
  - apply andb_prop in Ec as [_ Hs]. unfold starts_with in Hs. apply bool_decide_eq_true in Hs as [after Hs].
    rewrite Hs. destruct (trim_start_suffix b) as [p1 Hp1]. destruct (trim_start_suffix after) as [p2 Hp2].
    apply strip_prefix_Some in Hs. apply text_trim_start in Hb as Htb. rewrite Hs in Htb.
    apply (text_drop_ascii [x3d]) in Htb; [|done]. apply text_trim_start in Htb.
    destruct (lowered_suffix raw (((pre ++ a ++ attr) ++ p1 ++ [x3d]) ++ p2) (trim_start after) Hraw)
      as (r & Hr & Htr); [|done|].
    { rewrite Heq, Hpre. rewrite Hp1 at 1. rewrite Hs. rewrite Hp2 at 1. by rewrite <- !app_assoc. }
    rewrite Hr. cbn [mbind option_bind]. destruct (parse_attr_value_text r Htr) as (v & -> & Hv).
    by exists (Some v).
  - rewrite <- Hpre, <- Heq. replace (length (pre ++ a) + length attr)%nat with (length (pre ++ a ++ attr))
      by (rewrite !length_app; lia).
    apply (IH _ b); [by rewrite Heq, Hpre|done|]. rewrite !length_app in Hf.
    destruct attr; [done|]. simpl in Hf. lia.
Qed.

Lemma attr_value_text raw attr :
  attr <> [] -> forallb ascii attr = true -> text raw ->
  exists o, attr_value raw attr = Some o /\ match o with Some v => text v | None => True end.
Proof.
  intros. apply (attr_value_loop_text attr (S (length raw)) raw [] (ascii_lower raw)); try done.
  - by apply text_lower.
  - rewrite length_ascii_lower. lia.
Qed.

(** ** Tags *)

Definition text_opt (o : option bytes) : Prop := match o with Some v => text v | None => True end.

Lemma text_repeat b n : ascii b = true -> text (repeat b n).
Proof. intros Hb. apply text_ascii. induction n; simpl; [done|]. by rewrite Hb. Qed.

Lemma render_tag_text raw href :
  text raw -> text_opt href ->
  exists w href', render_tag raw href = Some (w, href') /\ text w /\ text_opt href'.
Proof.
  intros Hraw Hh. unfold render_tag. destruct (tag_name raw) as [name closing].
  destruct (heading_level name) as [level|].
  { destruct closing; do 2 eexists; (split; [done|]); (split; [|done]); [auto with text|].
    apply text_app; [auto with text|]. apply text_app; [by apply text_repeat|auto with text]. }
  repeat (case_match; [do 2 eexists; split; [done|]; split; auto with text|]).
  case_match; [|do 2 eexists; split; [done|]; split; auto with text].
  destruct closing.
  - destruct href as [href|]; [|do 2 eexists; split; [done|]; split; auto with text].
    case_match; do 2 eexists; (split; [done|]); split; auto 6 with text; done.
  - destruct (attr_value_text raw (str_bytes "href") ltac:(done) eq_refl Hraw) as (o & -> & Ho).
    cbn [mbind option_bind]. do 2 eexists. split; [done|]. split.
    + destruct (bool_decide (default [] o = [])); auto with text.
    + destruct o; simpl; [done|constructor].
Qed.

(** ** Rendering *)

Lemma text_run_split i cs :
  exists run rest, cs = run ++ rest /\ text_run (indexed i cs) i = ((i + length (mjoin run))%nat,
    indexed (i + length (mjoin run)) rest) /\
  Forall (fun c => c <> [x3c]) run /\ match rest with c :: _ => c = [x3c] | [] => True end.
Proof.
  revert i; induction cs as [|c cs IH]; intros i; cbn [indexed text_run].
  - exists [], []. rewrite Nat.add_0_r. by repeat constructor.
  - case_bool_decide as E.
    + exists [], (c :: cs). cbn. rewrite Nat.add_0_r. by repeat constructor.
    + destruct (IH (i + length c)%nat) as (run & rest & -> & -> & Hr & Hh).
      exists (c :: run), rest. rewrite mjoin_cons, length_app, Nat.add_assoc. split_and!; [done|done| |done].
      by constructor.
Qed.

Lemma tag_run_split i cs :
  exists run rest, tag_run (indexed i cs) i = ((i + length (mjoin run))%nat, rest) /\
    Forall (fun c => c <> [x3e]) run /\
    ((cs = run /\ rest = []) \/
     exists cs', cs = run ++ [x3e] :: cs' /\ rest = indexed (i + length (mjoin run) + 1) cs').
Proof.
  revert i; induction cs as [|c cs IH]; intros i; cbn [indexed tag_run].
  - exists [], []. rewrite Nat.add_0_r. split_and!; [done|by constructor|by left].
  - case_bool_decide as E.
    + subst c. exists [], (indexed (i + 1) cs). cbn. rewrite Nat.add_0_r. split_and!; [done|by constructor|].
      right. by exists cs.
    + destruct (IH (i + length c)%nat) as (run & rest & -> & Hf & Hc).
      exists (c :: run), rest. rewrite mjoin_cons, length_app, Nat.add_assoc. split_and!; [done|by constructor|].
      destruct Hc as [[-> ->]|(cs' & -> & ->)]; [by left|right; by exists cs'].
Qed.

Lemma length_indexed i cs : length (indexed i cs) = length cs.
Proof. revert i; induction cs; intros; simpl; auto. Qed.

Lemma starts_chars cs : Forall char_form cs -> starts_char (mjoin cs).
Proof. auto with text. Qed.

Lemma render_loop_text fuel output href pre cs :
  text output -> text_opt href -> Forall char_form cs -> (length cs <= fuel)%nat ->
  gives_text (render_loop fuel (pre ++ mjoin cs) output href (indexed (length pre) cs)).
Proof.
  revert output href pre cs; induction fuel as [|fuel IH]; intros output href pre cs Ho Hh Hcs Hf;
    (destruct cs as [|c cs]; [simpl; by apply gives_text_Some|]); [simpl in Hf; lia|].
  cbn [indexed render_loop]. apply Forall_cons in Hcs as [Hc Hcs]. cbn [length] in Hf.
  case_bool_decide as E; cbn [negb].
  - subst c. cbn [length].
    destruct (tag_run_split (length pre + 1) cs) as (run & rest & -> & Hrun & Hrest).
    assert (Hsplit : exists tl, mjoin cs = mjoin run ++ tl /\ starts_char tl /\ Forall char_form run).
    { destruct Hrest as [[-> ->]|(cs' & -> & ->)].
      - exists []. by rewrite app_nil_r.
      - apply Forall_app in Hcs as [? ?]. exists (mjoin ([x3e] :: cs')). by rewrite mjoin_app. }
    destruct Hsplit as (tl & Htl & Hst & Hfr).
    rewrite mjoin_cons, Htl. rewrite (app_assoc pre [x3c]).
    rewrite (str_range_app (pre ++ [x3c]) (mjoin run) tl) by
      (try done; try (rewrite length_app; simpl; lia); rewrite <- Htl; auto using starts_chars).
    cbn [mbind option_bind].
    destruct (render_tag_text (mjoin run) href) as (w & href' & -> & Hw & Hh'); [by apply text_mjoin|done|].
    cbn [mbind option_bind]. rewrite <- Htl.
    destruct Hrest as [[-> ->]|(cs' & -> & ->)].
    + destruct fuel; apply gives_text_Some; by apply text_app.
    + replace ((pre ++ [x3c]) ++ mjoin (run ++ [x3e] :: cs')) with ((pre ++ [x3c] ++ mjoin run ++ [x3e]) ++ mjoin cs')
        by (rewrite mjoin_app, mjoin_cons, <- !app_assoc; done).
      replace (length pre + 1 + length (mjoin run) + 1)%nat with (length (pre ++ [x3c] ++ mjoin run ++ [x3e]))
        by (rewrite !length_app; simpl; lia).
      rewrite length_app in Hf. simpl in Hf. apply Forall_app in Hcs as [_ [_ Hcs]%Forall_cons].
      apply IH; [by apply text_app|done|done|lia].
  - destruct (text_run_split (length pre + length c) cs) as (run & rest & -> & -> & Hrun & Hrest).
    apply Forall_app in Hcs as [Hcr Hcs].
    replace (length pre + length c + length (mjoin run))%nat with (length (pre ++ c ++ mjoin run))
      by (rewrite !length_app; lia).
    rewrite mjoin_cons, mjoin_app.
    replace (pre ++ c ++ mjoin run ++ mjoin rest) with (pre ++ (c ++ mjoin run) ++ mjoin rest)
      by (by rewrite <- !app_assoc).
    assert (Hcr' : text (c ++ mjoin run)) by auto with text.
    rewrite (str_range_app pre (c ++ mjoin run) (mjoin rest)); [|auto with text|auto with text|done|by rewrite length_app].
    cbn [mbind option_bind]. destruct (decode_entities_text _ Hcr') as (d & -> & Hd). cbn [mbind option_bind].
    rewrite (app_assoc pre). rewrite length_app in Hf. apply IH; [by apply text_app|done|done|lia].
Qed.

Lemma length_mjoin_chars cs : Forall char_form cs -> (length cs <= length (mjoin cs))%nat.
Proof.
  induction 1 as [|c cs Hc _ IH]; [done|]. rewrite mjoin_cons, length_app. apply char_len_pos in Hc. simpl. lia.
Qed.

Lemma render_tokens_text input : text input -> gives_text (render_tokens input).
Proof.
  intros H. destruct (chars_text input H) as [Hj Hf]. unfold render_tokens, char_indices.
  rewrite <- Hj at 2. apply (render_loop_text _ [] None [] (chars input)); [constructor|done|done|].
  rewrite <- Hj at 2. by apply length_mjoin_chars.
Qed.

(** ** Noise elements

    What removing the elements of a name means, without positions, fuel or
    panics.  Comparison of names ignores ASCII case. *)

(** [n] occurs in [s] at [i] and not before. *)
Definition first_at (n s : bytes) (i : nat) : Prop :=
  occurs_at n s i /\ forall j, (j < i)%nat -> ~ occurs_at n s j.

Inductive excises (tag : bytes) : bytes -> bytes -> Prop :=
| excise_none q :
    (forall i, ~ occurs_at (open_tag tag) (ascii_lower q) i) -> excises tag q q
| excise_other a o q out :
    first_at (open_tag tag) (ascii_lower (a ++ o ++ q)) (length a) -> length o = length (open_tag tag) ->
    is_boundary (head (ascii_lower q)) = false -> excises tag q out -> excises tag (a ++ o ++ q) (a ++ o ++ out)
| excise_element a o e q out :
    first_at (open_tag tag) (ascii_lower (a ++ o ++ e)) (length a) -> length o = length (open_tag tag) ->
    is_boundary (head (ascii_lower e)) = true ->
    (exists body, o ++ e = body ++ q /\ (length (close_tag tag) <= length body)%nat /\
       first_at (close_tag tag) (ascii_lower (o ++ e)) (length body - length (close_tag tag))) ->
    excises tag q out -> excises tag (a ++ o ++ e) (a ++ out)
| excise_unclosed a o e :
    first_at (open_tag tag) (ascii_lower (a ++ o ++ e)) (length a) -> length o = length (open_tag tag) ->
    is_boundary (head (ascii_lower e)) = true ->
    (forall i, ~ occurs_at (close_tag tag) (ascii_lower (o ++ e)) i) ->
    excises tag (a ++ o ++ e) a.

Lemma first_at_unique n s i j : first_at n s i -> first_at n s j -> i = j.
Proof.
  intros [Hi Hmi] [Hj Hmj]. destruct (Nat.lt_trichotomy i j) as [H|[H|H]]; [|done|].
  - by destruct (Hmj i H).
  - by destruct (Hmi j H).
Qed.

Lemma occurs_le n s i : n <> [] -> occurs_at n s i -> (i + length n <= length s)%nat.
Proof.
  intros Hn [r Hr]. apply (f_equal length) in Hr. rewrite length_drop, length_app in Hr.
  destruct n; [done|]. simpl in *. lia.
Qed.

Lemma find_sub_first n s i : n <> [] -> find_sub n s = Some i <-> first_at n s i.
Proof.
  intros Hn. rewrite find_sub_Some. split; [intros (? & _ & ?); done|].
  intros [H ?]. split_and!; [done| |done]. apply occurs_le in H; [lia|done].
Qed.

Lemma find_sub_never n s : n <> [] -> find_sub n s = None <-> forall i, ~ occurs_at n s i.
Proof.
  intros Hn. rewrite find_sub_None. split; intros H i; [|auto].
  intros Ho. apply occurs_le in Ho as Hl; [|done]. apply (H i); [lia|done].
Qed.

(** The first opening tag splits the text in one way. *)
Lemma open_split tag s (a o e a' o' e' : bytes) :
  a ++ o ++ e = a' ++ o' ++ e' -> first_at (open_tag tag) s (length a) -> first_at (open_tag tag) s (length a') ->
  length o = length (open_tag tag) -> length o' = length (open_tag tag) -> a = a' /\ o = o' /\ e = e'.
Proof.
  intros E H H' Ho Ho'. pose proof (first_at_unique _ _ _ _ H H') as Hl.
  apply app_inj_1 in E as [-> E]; [|done]. apply app_inj_1 in E as [-> ->]; [done|congruence].
Qed.

(** The result is determined. *)
Lemma excises_fun tag q out out' : excises tag q out -> excises tag q out' -> out = out'.
Proof.
  intros H. revert out'.
  induction H as [q Hn|a o q out Hf Ho Hb _ IH|a o e q out Hf Ho Hb (body & Hbody & Hl & Hc) _ IH|a o e Hf Ho Hb Hc];
    intros out' H';
    [inversion H' as [|? ? ? ? []|? ? ? ? ? []|? ? ? []]; subst; try done; exfalso; by eapply Hn|..];
    match type of H' with excises _ ?s _ => remember s as s0 eqn:Es end; symmetry in Es;
    (destruct H' as [q' Hn|a' o' q' out1 Hf' Ho' Hb' Hr|a' o' e' q' out1 Hf' Ho' Hb' (body' & Hbody' & Hl' & Hc') Hr
      |a' o' e' Hf' Ho' Hb' Hc'];
     [subst; destruct Hf as [Hf _]; by destruct (Hn _ Hf)|..]);
    destruct (open_split _ _ _ _ _ _ _ _ Es Hf Hf' Ho Ho') as (<- & <- & <-); try congruence.
  - do 2 f_equal. by apply IH.
  - pose proof (first_at_unique _ _ _ _ Hc Hc') as Hbl. rewrite Hbody in Hbody'.
    apply app_inj_1 in Hbody' as [-> ->]; [|lia]. f_equal. by apply IH.
  - destruct Hc as [Hc _]. by destruct (Hc' _ Hc).
  - destruct Hc' as [Hc' _]. by destruct (Hc _ Hc').
Qed.

(** Cutting the text where its lower-cased form is cut. *)
Lemma cut_lowered s x y : ascii_lower s = x ++ y -> exists a b, s = a ++ b /\ ascii_lower a = x /\ ascii_lower b = y.
Proof.
  intros H. exists (take (length x) s), (drop (length x) s). rewrite take_drop. split; [done|].
  unfold ascii_lower. rewrite <- firstn_map, <- skipn_map. fold (ascii_lower s).
  by rewrite H, take_app_length, drop_app_length.
Qed.

Section element.
Context (tag : bytes).
Hypothesis (Htag : forallb ascii tag = true).

Lemma open_tag_ascii : forallb ascii (open_tag tag) = true.
Proof. simpl. by rewrite Htag. Qed.

Lemma close_tag_ascii : forallb ascii (close_tag tag) = true.
Proof. simpl. rewrite forallb_app, Htag. done. Qed.

(** A needle found in the lower-cased text, in terms of the text. *)
Lemma find_lowered n s i :
  n <> [] -> forallb ascii n = true -> text s -> find_sub n (ascii_lower s) = Some i ->
  exists a o q, s = a ++ o ++ q /\ i = length a /\ length o = length n /\
    text a /\ text (o ++ q) /\ text q.
Proof.
  intros Hne Ha Hs Hf. destruct (find_sub_text n Hne Ha _ _ (text_lower _ Hs) Hf) as (x & y & Hl & -> & _ & Hny & Hy).
  destruct (cut_lowered _ _ _ Hl) as (a & b & -> & <- & Hb). destruct (cut_lowered _ _ _ Hb) as (o & q & -> & <- & <-).
  exists a, o, q. rewrite !length_ascii_lower.
  apply text_split in Hs as [Hsa Hsb]; [|apply starts_char_lower; rewrite ascii_lower_app; by apply text_starts].
  apply text_split in Hsb as Hsq; [|by apply starts_char_lower, text_starts]. by destruct Hsq.
Qed.

Lemma lookup_after (s : bytes) n : s !! n = head (drop n s).
Proof. revert s; induction n as [|n IH]; intros [|b s]; simpl; auto. Qed.

Lemma strip_element_loop_excises fuel pre suf output :
  text output -> text suf -> (length suf <= fuel)%nat ->
  exists out, strip_element_loop tag fuel (pre ++ suf) (ascii_lower (pre ++ suf)) output (length pre)
              = Some (output ++ out) /\ excises tag suf out /\ text out.
Proof.
  assert (Hno : forall q, ascii_lower q = [] -> excises tag q q).
  { intros q Hq. constructor. intros i H. apply occurs_le in H; [|done]. rewrite Hq in H. simpl in H. lia. }
  revert pre suf output; induction fuel as [|fuel IH]; intros pre suf output Ho Hs Hf.
  { destruct suf; [|simpl in Hf; lia]. exists []. rewrite app_nil_r. cbn [strip_element_loop].
    rewrite Nat.ltb_irrefl, app_nil_r. split_and!; [done|by apply Hno|constructor]. }
  cbn [strip_element_loop]. rewrite length_app.
  destruct (length pre <? length pre + length suf)%nat eqn:Elt.
  2:{ apply Nat.ltb_ge in Elt. destruct suf; [|simpl in Elt; lia]. exists []. rewrite app_nil_r.
      split_and!; [done|by apply Hno|constructor]. }
  rewrite ascii_lower_app, (str_from_app (ascii_lower pre)); [|auto with text|by rewrite length_ascii_lower].
  cbn [mbind option_bind].
  destruct (find_sub (open_tag tag) (ascii_lower suf)) as [rel|] eqn:Ef.
  2:{ rewrite str_from_app by (done || auto with text). cbn [mbind option_bind]. exists suf. split_and!; [done| |done].
      constructor. by apply find_sub_never. }
  destruct (find_lowered (open_tag tag) _ _ ltac:(done) open_tag_ascii Hs Ef) as (a & o & q & -> & -> & Hol & Ha & Hoq & Hq).
  apply find_sub_first in Ef; [|done].
  assert (Hafter : (ascii_lower pre ++ ascii_lower (a ++ o ++ q)) !! (length pre + length a + length (open_tag tag))%nat
                   = head (ascii_lower q)).
  { rewrite <- ascii_lower_app, <- Hol, lookup_after, !app_assoc, ascii_lower_app, drop_app_ge;
      rewrite length_ascii_lower, !length_app; [|lia].
    by replace (_ - _)%nat with O by lia. }
  rewrite Hafter. rewrite !length_app in Hf. assert (Ho1 : (1 <= length o)%nat) by (rewrite Hol; simpl; lia).
  destruct (is_boundary (head (ascii_lower q))) eqn:Eb; cbn [negb].
  - rewrite (str_range_app pre a (o ++ q)) by auto with text. cbn [mbind option_bind].
    assert (Hlow : str_from (ascii_lower pre ++ ascii_lower (a ++ o ++ q)) (length pre + length a)
                   = Some (ascii_lower (o ++ q))).
    { rewrite (ascii_lower_app a), app_assoc.
      apply str_from_app; [auto with text|]. by rewrite length_app, !length_ascii_lower. }
    rewrite Hlow. cbn [mbind option_bind]. rewrite <- ascii_lower_app.
    destruct (find_sub (close_tag tag) (ascii_lower (o ++ q))) as [crel|] eqn:Ec.
    + destruct (find_lowered (close_tag tag) _ _ ltac:(done) close_tag_ascii Hoq Ec) as (c & cl & d & Hcd & -> & Hcl & Hc & _ & Hd).
      apply find_sub_first in Ec; [|done]. assert (Hld : (length d < length o + length q)%nat).
      { rewrite <- length_app, Hcd, !length_app, Hcl. simpl. lia. }
      destruct (IH (pre ++ a ++ c ++ cl) d (output ++ a)) as (out & Hout & Hex & Ht); [auto with text|done|lia|].
      exists (a ++ out). rewrite (app_assoc output a out), <- Hout. split_and!; [|econstructor; eauto|auto with text].
      * rewrite Hcd. f_equal; [by rewrite <- !app_assoc|by rewrite <- !app_assoc|rewrite !length_app; lia].
      * exists (c ++ cl). rewrite <- app_assoc, length_app. split_and!; [done|lia|].
        by replace (length c + length cl - length (close_tag tag))%nat with (length c) by lia.
    + exists a. split_and!; [|constructor; auto; by apply find_sub_never|done].
      assert (Hend : forall f, strip_element_loop tag f (pre ++ a ++ o ++ q) (ascii_lower (pre ++ a ++ o ++ q))
                (output ++ a) (length (pre ++ a ++ o ++ q)) = Some (output ++ a)).
      { intros [|f]; cbn [strip_element_loop]; by rewrite Nat.ltb_irrefl. }
      by rewrite <- Hend with (f := fuel), !length_app.
  - replace (pre ++ a ++ o ++ q) with (pre ++ (a ++ o) ++ q) by (by rewrite <- !app_assoc).
    rewrite (str_range_app pre (a ++ o) q);
      [|rewrite <- app_assoc; by apply text_starts, text_app|auto with text|done|rewrite length_app; lia].
    cbn [mbind option_bind].
    destruct (IH (pre ++ a ++ o) q (output ++ a ++ o)) as (out & Hout & Hex & Ht).
    { apply text_split in Hoq as [? _]; auto with text. }
    { done. }
    { lia. }
    apply text_split in Hoq as [Hto _]; [|auto with text].
    exists (a ++ o ++ out). split_and!; [|by constructor|auto with text].
    rewrite (app_assoc a o out), (app_assoc output (a ++ o) out), <- Hout, <- !ascii_lower_app.
    f_equal; [by rewrite <- !app_assoc|by rewrite <- !app_assoc|rewrite !length_app; lia].
Qed.

End element.

Lemma strip_element_excises tag input :
  forallb ascii tag = true -> text input ->
  exists out, strip_element tag input = Some out /\ excises tag input out /\ text out.
Proof.
  intros Ht Hi. destruct (strip_element_loop_excises tag Ht (length input) [] input []) as (out & H & ?);
    [constructor|done|lia|]. by exists out.
Qed.

Lemma strip_noise_blocks_text input : text input -> gives_text (strip_noise_blocks input).
Proof.
  intros H. unfold strip_noise_blocks. destruct (strip_comments_text input H) as (out & -> & Ht). cbn [mbind option_bind].
  assert (Ha : Forall (fun tag => forallb ascii tag = true) noise_tags) by (repeat constructor).
  revert out Ht. induction Ha as [|tag tags Htag _ IH]; intros out Ht; cbn [foldl]; [by apply gives_text_Some|].
  cbn [mbind option_bind]. destruct (strip_element_excises tag out Htag Ht) as (out' & -> & _ & Ht'). auto.
Qed.

(** ** Lines *)

Lemma text_reverse_lines acc b :
  text (reverse acc ++ b) -> Forall text (lines_from acc b).
Proof.
  revert acc; induction b as [|x b IH]; intros acc H; cbn [lines_from].
  - rewrite app_nil_r in H. case_bool_decide; by repeat constructor.
  - case_bool_decide as E.
    + subst x. destruct (text_around (reverse acc) [x0a] b ltac:(done) eq_refl H) as (Ha & _ & Hb).
      constructor; [|by apply IH]. unfold strip_cr.
      destruct (reverse (reverse acc)) as [|y r] eqn:Er; [done|]. case_bool_decide as Ey; [|done]. subst y.
      apply (f_equal reverse) in Er. rewrite reverse_involutive, reverse_cons in Er. rewrite Er in Ha.
      rewrite <- (app_nil_r (reverse r ++ _)), <- app_assoc in Ha.
      by destruct (text_around (reverse r) [x0d] [] ltac:(done) eq_refl Ha) as (? & _).
    + apply IH. by rewrite reverse_cons, <- app_assoc.
Qed.

Lemma text_lines s : text s -> Forall text (lines s).
Proof. intros. by apply text_reverse_lines. Qed.

Lemma text_join sep ls : text sep -> Forall text ls -> text (join sep ls).
Proof.
  intros Hs. induction 1 as [|l ls Hl Hls IH]; [constructor|]. destruct ls as [|l2 ls]; [done|].
  change (join sep (l :: l2 :: ls)) with (l ++ sep ++ join sep (l2 :: ls)). auto with text.
Qed.

Lemma collapse_chars_text cs last : Forall char_form cs -> text (collapse_chars cs last).
Proof.
  intros H. revert last; induction H as [|c cs Hc _ IH]; intros last; cbn [collapse_chars]; [constructor|].
  case_match; [destruct last|]; auto with text.
Qed.

Lemma collapse_inline_text line : text line -> text (collapse_inline_spaces line).
Proof. intros H. apply text_trim, collapse_chars_text. by apply chars_text. Qed.

Lemma collapse_lines_text raw kept blank :
  Forall text raw -> Forall text kept -> Forall text (collapse_lines raw kept blank).
Proof.
  intros H. revert kept blank; induction H as [|l raw Hl _ IH]; intros kept blank Hk; cbn [collapse_lines]; [done|].
  case_match; apply IH; [case_match|]; auto using collapse_inline_text, text_nil.
Qed.

Lemma drop_blank_suffix kept : exists p, kept = p ++ drop_blank kept /\ Forall (fun l => l = []) p.
Proof.
  induction kept as [|[|b l] kept IH]; cbn [drop_blank]; [by exists []| |by exists []].
  destruct IH as (p & Hp & Hb). exists ([] :: p). rewrite <- app_comm_cons, <- Hp. by auto.
Qed.

Lemma collapse_whitespace_text input : text input -> text (collapse_whitespace input).
Proof.
  intros H. apply text_join; [auto with text|]. apply Forall_reverse.
  destruct (drop_blank_suffix (collapse_lines (lines input) [] 0)) as (p & Hp & _).
  assert (Hk : Forall text (collapse_lines (lines input) [] 0)) by (by apply collapse_lines_text; [apply text_lines|]).
  rewrite Hp in Hk. by apply Forall_app in Hk as [_ ?].
Qed.

Lemma html_to_markdown_text html : text html -> gives_text (html_to_markdown html).
Proof.
  intros H. unfold html_to_markdown.
  destruct (strip_noise_blocks_text html H) as (s & -> & Hs). cbn [mbind option_bind].
  destruct (render_tokens_text s Hs) as (r & -> & Hr). cbn [mbind option_bind].
  by apply gives_text_Some, collapse_whitespace_text.
Qed.

(** ** Escaped text *)

(** How a page writes text: the markup characters as entities. *)
Definition escape_name (b : byte) : option bytes :=
  if bool_decide (b = x26) then Some (str_bytes "amp")
  else if bool_decide (b = x3c) then Some (str_bytes "lt")
  else if bool_decide (b = x3e) then Some (str_bytes "gt")
  else None.

Definition escape_byte (b : byte) : bytes :=
  match escape_name b with Some c => [x26] ++ c ++ [x3b] | None => [b] end.

Definition escape_html (s : bytes) : bytes := flat_map escape_byte s.

Lemma escape_html_app a b : escape_html (a ++ b) = escape_html a ++ escape_html b.
Proof. apply flat_map_app. Qed.

Lemma escape_html_plain a : Forall (fun b => escape_name b = None) a -> escape_html a = a.
Proof.
  induction 1 as [|b a Hb _ IH]; [done|]. simpl. rewrite IH. unfold escape_byte. by rewrite Hb.
Qed.

(** The names of the three entities decode to their characters. *)
Lemma escape_name_spec b c :
  escape_name b = Some c ->
  decode_entity c = Some [b] /\ (x3b ∉ c) /\ (length c <= 3)%nat /\ forallb ascii c = true /\ ascii b = true.
Proof.
  unfold escape_name. repeat case_bool_decide; intros [= <-]; subst;
    (split_and!; [reflexivity| |simpl; lia|reflexivity|reflexivity]); by apply find_sub_none_char.
Qed.

Lemma escape_plain_high b : ascii b = false -> escape_name b = None.
Proof. unfold escape_name. repeat case_bool_decide; intros; subst; done. Qed.

Lemma escape_char c : char_form c -> text (escape_html c).
Proof.
  intros Hc. destruct (decide (Forall (fun b => escape_name b = None) c)) as [Hp|Hn].
  - rewrite escape_html_plain by done. auto with text.
  - destruct Hc as [b0 H0|b0 b1 H0 H1|b0 b1 b2 H0 H1 H2|b0 b1 b2 b3 H0 H1 H2 H3].
    + unfold escape_html, escape_byte. simpl. rewrite app_nil_r.
      destruct (escape_name b0) as [c|] eqn:E; [|by apply text_char; constructor].
      apply escape_name_spec in E as (_ & _ & _ & Ha & _).
      apply text_ascii. simpl. by rewrite forallb_app, Ha.
    + destruct Hn. repeat (apply Forall_cons; split); [..|done]; apply escape_plain_high;
        unfold ascii, utf8_cont in *; byte_props; lia.
    + destruct Hn. apply utf8_second_cont in H1. repeat (apply Forall_cons; split); [..|done];
        apply escape_plain_high; unfold ascii, utf8_cont in *; byte_props; lia.
    + destruct Hn. apply utf8_second_cont in H1. repeat (apply Forall_cons; split); [..|done];
        apply escape_plain_high; unfold ascii, utf8_cont in *; byte_props; lia.
Qed.

Lemma escape_text s : text s -> text (escape_html s).
Proof.
  induction 1 as [|c s Hc _ IH]; [constructor|]. rewrite escape_html_app. apply text_app; [by apply escape_char|done].
Qed.

(** Text up to its first markup character. *)
Lemma escape_split s :
  Forall (fun b => escape_name b = None) s \/
  exists a x b c, s = a ++ x :: b /\ Forall (fun b => escape_name b = None) a /\ escape_name x = Some c.
Proof.
  induction s as [|y s IH]; [by left; constructor|]. destruct (escape_name y) as [c|] eqn:E.
  - right. by exists [], y, s, c.
  - destruct IH as [IH|(a & x & b & c & -> & Ha & Hx)]; [left; by constructor|].
    right. exists (y :: a), x, b, c. split_and!; [done|by constructor|done].
Qed.

Lemma plain_no_amp a : Forall (fun b => escape_name b = None) a -> (x26 ∉ a) /\ (x3c ∉ a).
Proof. induction 1 as [|b a Hb _ IH]; [set_solver|]. rewrite !elem_of_cons. split; intros [<-|?]; naive_solver. Qed.

Lemma decode_escaped_loop fuel output s :
  text s -> (length (escape_html s) < fuel)%nat ->
  decode_entities_loop fuel output (escape_html s) = Some (output ++ s).
Proof.
  revert output s; induction fuel as [|fuel IH]; intros output s Hs Hf; [lia|]. cbn [decode_entities_loop].
  destruct (escape_split s) as [Hp|(a & x & b & c & -> & Ha & Hx)].
  - rewrite escape_html_plain by done. apply plain_no_amp in Hp as [Hp _].
    apply find_sub_none_char in Hp. by rewrite Hp.
  - destruct (escape_name_spec x c Hx) as (Hd & Hsemi & Hlen & Hca & Hxa).
    destruct (text_around a [x] b ltac:(done) ltac:(by simpl; rewrite Hxa) Hs) as (Hta & _ & Htb).
    assert (Heq : escape_html (a ++ x :: b) = a ++ [x26] ++ c ++ [x3b] ++ escape_html b).
    { rewrite escape_html_app, escape_html_plain by done. simpl. unfold escape_byte at 1. rewrite Hx.
      by rewrite <- !app_assoc. }
    rewrite Heq in *. apply plain_no_amp in Ha as [Hamp _].
    assert (Hc : text c) by (by apply text_ascii).
    assert (Htail : text ([x26] ++ c ++ [x3b] ++ escape_html b)) by (auto 7 using escape_text with text).
    rewrite (find_sub_char_app x26 a (c ++ [x3b] ++ escape_html b) Hamp : find_sub [x26] (a ++ [x26] ++ _) = _).
    rewrite str_to_app, str_from_app by auto with text. cbn [mbind option_bind].
    assert (Hfind : find_sub [x3b] ([x26] ++ c ++ [x3b] ++ escape_html b) = Some (length (x26 :: c))).
    { apply (find_sub_char_app x3b (x26 :: c)). set_solver. }
    rewrite Hfind. replace (length (x26 :: c) <=? 10)%nat with true by (symmetry; apply Nat.leb_le; simpl; lia).
    destruct (entity_slices c (escape_html b) Hc (escape_text b Htb)) as (-> & _ & ->).
    cbn [mbind option_bind]. rewrite Hd. cbn [mbind option_bind].
    rewrite IH; [by rewrite <- !app_assoc|done|]. rewrite !length_app in Hf. simpl in Hf. lia.
Qed.

Lemma contains_find n s : contains_sub n s = bool_decide (is_Some (find_sub n s)).
Proof.
  induction s as [|x s IH]; cbn [contains_sub find_sub]; destruct (strip_prefix n _); try done.
  rewrite IH. apply bool_decide_ext. by rewrite fmap_is_Some.
Qed.

Lemma decode_entities_escape s : text s -> decode_entities (escape_html s) = Some s.
Proof.
  intros Hs. unfold decode_entities. rewrite contains_find. case_bool_decide as E; cbn [negb].
  - rewrite decode_escaped_loop by (done || lia). done.
  - destruct (escape_split s) as [Hp|(a & x & b & c & -> & Ha & Hx)]; [by rewrite escape_html_plain|].
    destruct E. rewrite escape_html_app, escape_html_plain by done. simpl. unfold escape_byte. rewrite Hx. simpl.
    rewrite find_sub_char_app; [by eexists|]. by apply plain_no_amp in Ha as [? _].
Qed.

(** ** Text without tags *)

Lemma to_ascii_lower_lt b : to_ascii_lower b = x3c -> b = x3c.
Proof.
  unfold to_ascii_lower. case_match eqn:E; [|done]. intros H. apply (f_equal b2z) in H.
  byte_props. rewrite b2z_z2b in H by lia. change (b2z x3c) with 60 in H. lia.
Qed.

Lemma no_tag_occurs n s i : x3c ∉ s -> ~ occurs_at (x3c :: n) (ascii_lower s) i.
Proof.
  intros Hs [r Hr]. apply Hs. assert (Hin : x3c ∈ ascii_lower s).
  { rewrite <- (take_drop i (ascii_lower s)), Hr. set_solver. }
  apply list_elem_of_fmap in Hin as (b & Hb & Hin). symmetry in Hb. by apply to_ascii_lower_lt in Hb as ->.
Qed.

Lemma strip_noise_plain s : text s -> x3c ∉ s -> strip_noise_blocks s = Some s.
Proof.
  intros Ht Hs. unfold strip_noise_blocks, strip_comments. cbn [strip_comments_loop].
  assert (Hc : find_sub (str_bytes "<!--") s = None).
  { apply find_sub_None. intros i _ [r Hr]. apply Hs. rewrite <- (take_drop i s), Hr. set_solver. }
  rewrite Hc. cbn [mbind option_bind app].
  assert (Ha : Forall (fun tag => forallb ascii tag = true) noise_tags) by (repeat constructor).
  induction Ha as [|tag tags Htag _ IH]; [done|]. cbn [foldl mbind option_bind].
  destruct (strip_element_excises tag s Htag Ht) as (out & -> & Hex & _).
  replace out with s; [done|]. eapply excises_fun; [|done]. constructor. intros i. by apply no_tag_occurs.
Qed.

Lemma render_plain s : text s -> x3c ∉ s -> render_tokens s = decode_entities s.
Proof.
  intros Ht Hs. destruct (chars_text s Ht) as [Hj Hf]. unfold render_tokens, char_indices.
  destruct (chars s) as [|c cs] eqn:Ec; [by rewrite <- Hj|].
  assert (Hno : Forall (fun c => c <> [x3c]) (c :: cs)).
  { apply Forall_forall. intros x Hx ->. apply Hs. rewrite <- Hj. apply list_elem_of_join. exists [x3c]. set_solver. }
  apply Forall_cons in Hno as [Hc Hno]. destruct s as [|b s']; [done|]. cbn [length].
  cbn [indexed render_loop]. rewrite bool_decide_eq_false_2 by done. cbn [negb].
  destruct (text_run_split (0 + length c) cs) as (run & rest & -> & -> & _ & Hrest).
  assert (rest = []) as ->.
  { destruct rest as [|x rest]; [done|]. subst x. apply Forall_app in Hno as [_ [? _]%Forall_cons]. done. }
  rewrite app_nil_r in *. rewrite mjoin_cons in Hj. rewrite Nat.add_0_l, <- length_app, Hj.
  assert (Hr : str_range (b :: s') 0 (length (b :: s')) = Some (b :: s')).
  { pose proof (str_range_app [] (b :: s') [] 0 (length (b :: s'))) as Hr. rewrite !app_nil_r in Hr.
    apply Hr; auto with text. }
  rewrite Hr. cbn [mbind option_bind]. destruct (decode_entities (b :: s')) as [d|]; [|done]. cbn.
  by destruct (length s').
Qed.

Lemma escape_no_tag s : x3c ∉ escape_html s.
Proof.
  induction s as [|b s IH]; [set_solver|]. simpl. rewrite elem_of_app. intros [H|H]; [|done].
  unfold escape_byte, escape_name in H. repeat case_bool_decide; revert H; try (by apply find_sub_none_char).
  set_solver.
Qed.

(** C29: normalizing always succeeds: whatever bytes a server sends, no slice of
    the normalizer panics, every loop ends, and the result is valid UTF-8. *)
Theorem normalize_total body :
  html_to_markdown (from_utf8_lossy body) = Some (normalize_html body) /\
  utf8_valid (normalize_html body) = true.
Proof.
  unfold normalize_html. destruct (html_to_markdown_text _ (from_utf8_lossy_text body)) as (md & -> & Ht).
  split; [done|]. by apply utf8_valid_text.
Qed.

(** ** Elements that are not nested *)

(** At [i] there is an opening tag of the name, in any case and not of a longer
    name; a closing tag. *)
Definition opens (tag s : bytes) (i : nat) : Prop :=
  occurs_at (open_tag tag) (ascii_lower s) i /\ is_boundary (ascii_lower s !! (i + length (open_tag tag))%nat) = true.
Definition closes (tag s : bytes) (i : nat) : Prop := occurs_at (close_tag tag) (ascii_lower s) i.

(** No element of the name is inside another: between two opening tags is a
    closing one. *)
Definition flat (tag s : bytes) : Prop :=
  forall i j, (i < j)%nat -> opens tag s i -> opens tag s j -> exists k, (i < k < j)%nat /\ closes tag s k.

(** The text outside of the elements of the name; none of them has another
    inside, and one that is never closed reaches to the end. *)
Inductive outside (tag : bytes) : bytes -> bytes -> Prop :=
| outside_none s : (forall i, ~ opens tag s i) -> outside tag s s
| outside_element a inside c q out :
    let s := a ++ inside ++ c ++ q in
    length c = length (close_tag tag) ->
    opens tag s (length a) -> (forall i, opens tag s i -> (length a <= i)%nat) ->
    closes tag s (length a + length inside) ->
    (forall k, (length a <= k)%nat -> closes tag s k -> (length a + length inside <= k)%nat) ->
    (forall i, (length a < i < length a + length inside)%nat -> ~ opens tag s i) ->
    outside tag q out -> outside tag s (a ++ out)
| outside_unclosed a e :
    opens tag (a ++ e) (length a) -> (forall i, opens tag (a ++ e) i -> i = length a) ->
    (forall k, (length a <= k)%nat -> ~ closes tag (a ++ e) k) ->
    outside tag (a ++ e) a.

Lemma occurs_suffix n p q i : occurs_at n (p ++ q) (length p + i) <-> occurs_at n q i.
Proof. unfold occurs_at. by rewrite drop_app_add. Qed.

Lemma opens_suffix tag p q i : opens tag (p ++ q) (length p + i) <-> opens tag q i.
Proof.
  unfold opens. rewrite ascii_lower_app, <-(length_ascii_lower p), occurs_suffix.
  rewrite lookup_app_r by lia. by replace (length (ascii_lower p) + i + length (open_tag tag) - length (ascii_lower p))%nat
    with (i + length (open_tag tag))%nat by lia.
Qed.

Lemma closes_suffix tag p q i : closes tag (p ++ q) (length p + i) <-> closes tag q i.
Proof. unfold closes. by rewrite ascii_lower_app, <-(length_ascii_lower p), occurs_suffix. Qed.

Lemma flat_suffix tag p q : flat tag (p ++ q) -> flat tag q.
Proof.
  intros H i j Hij Hi Hj. destruct (H (length p + i)%nat (length p + j)%nat) as (k & Hk & Hc); [lia|by apply opens_suffix..|].
  exists (k - length p)%nat. split; [lia|]. apply (closes_suffix tag p). by replace (length p + (k - length p))%nat with k by lia.
Qed.

Lemma outside_prefix tag p q out :
  (forall i, (i < length p)%nat -> ~ opens tag (p ++ q) i) -> outside tag q out -> outside tag (p ++ q) (p ++ out).
Proof.
  intros Hp H. assert (Hs : forall i, opens tag (p ++ q) i -> (length p <= i)%nat /\ opens tag q (i - length p)).
  { intros i Hi. destruct (decide (i < length p)%nat) as [Hlt|Hge]; [by destruct (Hp i Hlt)|]. split; [lia|].
    apply (opens_suffix tag p). by replace (length p + (i - length p))%nat with i by lia. }
  assert (Hc : forall k, (length p <= k)%nat -> closes tag (p ++ q) k -> closes tag q (k - length p)).
  { intros k Hk Hc. apply (closes_suffix tag p). by replace (length p + (k - length p))%nat with k by lia. }
  destruct H as [q Hn|a inside c q out s Hl Ho Hf Hcl Hcf Hn Hq|a e Ho Hf Hn].
  - constructor. intros i [_ Hi]%Hs. by apply (Hn _ Hi).
  - rewrite (app_assoc p a out). subst s. rewrite (app_assoc p a) in *.
    apply outside_element; rewrite ?length_app, <-?(app_assoc p a) in *; [done| | | | | |done].
    + by apply opens_suffix.
    + intros i [Hi Hi']%Hs. specialize (Hf _ Hi'). lia.
    + rewrite <-Nat.add_assoc. by apply closes_suffix.
    + intros k Hk Hk'%Hc; [|lia]. specialize (Hcf (k - length p)%nat ltac:(lia) Hk'). lia.
    + intros i Hi [_ Hi']%Hs. apply (Hn (i - length p)%nat); [lia|done].
  - rewrite (app_assoc p a) in *. apply outside_unclosed; rewrite ?length_app, <-?(app_assoc p a) in *.
    + by apply opens_suffix.
    + intros i [Hi Hi']%Hs. specialize (Hf _ Hi'). lia.
    + intros k Hk Hk'%Hc; [|lia]. apply (Hn (k - length p)%nat); [lia|done].
Qed.

Lemma outside_fun tag s out out' : outside tag s out -> outside tag s out' -> out = out'.
Proof.
  intros H. revert out'. induction H as [s Hn|a inside c q out s Hl Ho Hf Hc Hcf Hn _ IH|a e Ho Hf Hn]; intros out' H'.
  - revert Hn. destruct H' as [s Hn'|a inside c q out' s Hl Ho|a e Ho]; intros Hn; [done|by apply Hn in Ho..].
  - remember s as s0 eqn:E. destruct H' as [s0 Hn'|a' inside' c' q' out' s0 Hl' Ho' Hf' Hc' Hcf' Hn' Hq'|a' e' Ho' Hf' Hn'].
    + by apply Hn' in Ho.
    + subst s s0. assert (Hla : length a' = length a) by (apply Hf in Ho'; apply Hf' in Ho; lia).
      assert (Hli : length inside' = length inside).
      { apply Hcf in Hc'; [|lia]. apply Hcf' in Hc; [|lia]. lia. }
      apply app_inj_1 in E as [<- E]; [|done]. apply app_inj_1 in E as [<- E]; [|done].
      apply app_inj_1 in E as [<- <-]; [|congruence]. f_equal. by apply IH.
    + subst s. assert (Hla : length a' = length a) by (symmetry; by apply Hf').
      destruct (Hn' (length a + length inside)%nat); [lia|done].
  - remember (a ++ e) as s0 eqn:E. destruct H' as [s0 Hn'|a' inside' c' q' out' s0 Hl' Ho' Hf' Hc' Hcf' Hn' Hq'|a' e' Ho' Hf' Hn'].
    + by apply Hn' in Ho.
    + destruct (Hn (length a' + length inside')%nat); [|done]. apply Hf in Ho'. lia.
    + apply Hf in Ho'. by apply app_inj_1 in E as [? _].
Qed.

(** The first place where an opening tag's text occurs, with a boundary after it. *)
Lemma first_opens tag a o e :
  first_at (open_tag tag) (ascii_lower (a ++ o ++ e)) (length a) -> length o = length (open_tag tag) ->
  is_boundary (head (ascii_lower e)) = true ->
  opens tag (a ++ o ++ e) (length a) /\ (forall i, opens tag (a ++ o ++ e) i -> (length a <= i)%nat).
Proof.
  intros [Hf Hm] Ho Hb. split.
  - split; [done|]. rewrite <-Ho, lookup_after, <-length_app, app_assoc, ascii_lower_app, <-(length_ascii_lower (a ++ o)).
    by rewrite drop_app_length.
  - intros i [Hi _]. destruct (decide (i < length a)%nat) as [Hlt|?]; [by destruct (Hm i Hlt)|lia].
Qed.

(** On text without nested elements, what the loop does is that. *)
Lemma excises_outside tag s out :
  x3c ∉ tag -> excises tag s out -> flat tag s -> outside tag s out.
Proof.
  intros Ht. induction 1 as [q Hn|a o q out [Hf Hfm] Ho Hb _ IH|a o e q out [Hf Hfm] Ho Hb (body & Hbody & Hl & Hc & Hcm) _ IH|a o e [Hf Hfm] Ho Hb Hc];
    intros Hflat.
  - constructor. intros i [Hi _]. by apply (Hn i).
  - rewrite !app_assoc. apply outside_prefix; [|apply IH; rewrite app_assoc in Hflat; by apply flat_suffix in Hflat].
    rewrite <-app_assoc, length_app. intros i Hi [Hoc Hbd].
    destruct (Nat.lt_trichotomy i (length a)) as [Hlt|[->|Hgt]]; [by apply (Hfm i)| |].
    + rewrite <-Ho in Hbd. rewrite !app_assoc, ascii_lower_app, lookup_app_r in Hbd by (rewrite length_ascii_lower, length_app; lia).
      rewrite length_ascii_lower, length_app, Nat.sub_diag in Hbd. destruct (ascii_lower q); cbn in *; congruence.
    + destruct Hf as [r Hr], Hoc as [r' Hr'].
      assert (H0 : ascii_lower (a ++ o ++ q) !! i = Some x3c) by (rewrite lookup_after, app_assoc, <-app_assoc, Hr'; done).
      assert (Hd : ascii_lower (a ++ o ++ q) !! i = open_tag tag !! (i - length a)%nat).
      { replace i with (length a + (i - length a))%nat at 1 by lia. rewrite <-lookup_drop, Hr. apply lookup_app_l. lia. }
      rewrite H0 in Hd. unfold open_tag in Hd. destruct (i - length a)%nat as [|d] eqn:Ed; [lia|]. cbn in Hd.
      apply Ht. by eapply list_elem_of_lookup_2.
  - destruct (first_opens tag a o e) as [Hop Hfirst]; [done..|].
    set (n := (length body - length (close_tag tag))%nat) in *.
    assert (Hs : a ++ o ++ e = a ++ take n body ++ drop n body ++ q) by (rewrite Hbody, (app_assoc (take n body)); by rewrite take_drop).
    assert (Hn : length (take n body) = n) by (rewrite length_take; lia).
    assert (Hcl : closes tag (a ++ o ++ e) (length a + n)) by by apply closes_suffix.
    assert (Hcf : forall k, (length a <= k)%nat -> closes tag (a ++ o ++ e) k -> (length a + n <= k)%nat).
    { intros k Hk Hkc. replace k with (length a + (k - length a))%nat in Hkc by lia. apply closes_suffix in Hkc.
      destruct (decide (k - length a < n)%nat) as [Hlt|?]; [by destruct (Hcm _ Hlt)|lia]. }
    assert (Hno : forall i, (length a < i < length a + n)%nat -> ~ opens tag (a ++ o ++ e) i).
    { intros i Hi Hio. destruct (Hflat (length a) i) as (k & Hk & Hkc); [lia|done..|]. apply Hcf in Hkc; lia. }
    assert (Hq : flat tag q) by (rewrite Hbody, app_assoc in Hflat; by apply flat_suffix in Hflat).
    rewrite Hs in *. apply outside_element; rewrite ?Hn; [rewrite length_drop; lia|done..|by apply IH].
  - destruct (first_opens tag a o e) as [Hop Hfirst]; [done..|].
    assert (Hcl : forall k, (length a <= k)%nat -> ~ closes tag (a ++ o ++ e) k).
    { intros k Hk Hkc. replace k with (length a + (k - length a))%nat in Hkc by lia. apply closes_suffix in Hkc. by apply (Hc _ Hkc). }
    apply outside_unclosed; [done| |done]. intros i Hi. pose proof (Hfirst i Hi) as Hle.
    destruct (decide (i = length a)) as [->|Hne]; [done|]. destruct (Hflat (length a) i) as (k & Hk & Hkc); [lia|done..|].
    destruct (Hcl k); [lia|done].
Qed.

(** C31: removing the elements of a name from text, where no element of that
    name is inside another, leaves exactly the text outside of them: an element
    is from an opening tag of that name, in any case and not a longer name, to
    the closing tag after it or, without one, to the end. *)
Theorem strip_element_exact tag input :
  tag ∈ noise_tags -> utf8_valid input = true -> flat tag input ->
  exists out, strip_element tag input = Some out /\ utf8_valid out = true /\
    forall out', outside tag input out' <-> out' = out.
Proof.
  intros Htag Ht%utf8_valid_text Hflat.
  assert (Ha : forallb ascii tag = true /\ (x3c ∉ tag)).
  { assert (Hall : Forall (fun tag => forallb ascii tag = true /\ (x3c ∉ tag)) noise_tags)
      by (apply (bool_decide_eq_true_1 _); vm_compute; reflexivity). rewrite Forall_forall in Hall. by apply Hall. }
  destruct (strip_element_excises tag input (proj1 Ha) Ht) as (out & Hs & Hex & Hto). exists out.
  apply excises_outside in Hex; [|by apply Ha|done].
  split_and!; [done|by apply utf8_valid_text|]. intros out'. split; [|by intros ->].
  intros Hex'. by eapply outside_fun.
Qed.

(** The text of an element nested in another of its name is not removed: the
    first closing tag ends the outer element. *)
Theorem nested_element_leaks :
  html_to_markdown (str_bytes "<svg><svg></svg>inner text</svg>") = Some (str_bytes "inner text").
Proof. vm_compute. reflexivity. Qed.

(** Text that a page carries in escaped form comes out of the normalizer as
    that text, with its white space collapsed and nothing else changed. *)
Theorem plain_text_roundtrip s :
  utf8_valid s = true -> html_to_markdown (escape_html s) = Some (collapse_whitespace s).
Proof.
  intros Ht%utf8_valid_text. unfold html_to_markdown.
  rewrite strip_noise_plain by auto using escape_text, escape_no_tag. cbn [mbind option_bind].
  rewrite render_plain by auto using escape_text, escape_no_tag.
  by rewrite decode_entities_escape.
Qed.
