(* ===== verification/NormalizeSpace.v ===== *)
(** White space in the normalizer: a line becomes its words with single spaces, a
    document keeps its words in order, and collapsing twice changes nothing. *)

From S2P Require Import Prelude Text TextFacts Normalize NormalizeFacts.

(** * Words *)

(** The maximal runs of characters that are not white space, reading [acc] as the
    run so far, newest first. *)
Fixpoint split_words (acc cs : list bytes) : list (list bytes) :=
  match cs with
  | [] => if bool_decide (acc = []) then [] else [reverse acc]
  | c :: cs' =>
      if is_whitespace c then (if bool_decide (acc = []) then [] else [reverse acc]) ++ split_words [] cs'
      else split_words (c :: acc) cs'
  end.

Definition words_of (s : bytes) : list bytes := map mjoin (split_words [] (chars s)).

(** A word of characters. *)
Definition word (w : list bytes) : Prop :=
  w <> [] /\ Forall (fun c => char_form c /\ is_whitespace c = false) w.

Lemma split_words_word acc cs :
  Forall (fun c => char_form c /\ is_whitespace c = false) acc -> Forall char_form cs ->
  Forall word (split_words acc cs).
Proof.
  intros Ha H. revert acc Ha. induction H as [|c cs Hc _ IH]; intros acc Ha; cbn [split_words].
  - case_bool_decide as E; [done|]. repeat constructor; [|by apply Forall_reverse].
    intros H. apply E. by apply (f_equal reverse) in H; rewrite reverse_involutive in H.
  - destruct (is_whitespace c) eqn:Ew; [|apply IH; by constructor].
    apply Forall_app. split; [|by apply IH]. case_bool_decide as E; [done|].
    repeat constructor; [|by apply Forall_reverse].
    intros H. apply E. by apply (f_equal reverse) in H; rewrite reverse_involutive in H.
Qed.

(** White space separates words, wherever they are. *)
Lemma split_words_app acc a w b :
  is_whitespace w = true -> split_words acc (a ++ w :: b) = split_words acc a ++ split_words [] b.
Proof.
  intros Hw. revert acc; induction a as [|c a IH]; intros acc; cbn [app split_words]; [by rewrite Hw|].
  case_match; [by rewrite IH, app_assoc|apply IH].
Qed.

Lemma split_words_run acc w :
  Forall (fun c => is_whitespace c = false) w ->
  split_words acc w = if bool_decide (reverse w ++ acc = []) then [] else [reverse acc ++ w].
Proof.
  intros H. revert acc; induction H as [|c w Hc _ IH]; intros acc; cbn [split_words].
  - by rewrite app_nil_r.
  - by rewrite Hc, IH, !reverse_cons, <- !app_assoc.
Qed.

(** * Lines of characters *)

(** [collapse_chars] as a list of characters. *)
Fixpoint squeeze (cs : list bytes) (last_space : bool) : list bytes :=
  match cs with
  | [] => []
  | ch :: cs' =>
      if is_whitespace ch then (if last_space then [] else [[x20]]) ++ squeeze cs' true
      else ch :: squeeze cs' false
  end.

Lemma collapse_chars_squeeze cs last : collapse_chars cs last = mjoin (squeeze cs last).
Proof.
  revert last; induction cs as [|c cs IH]; intros last; cbn [collapse_chars squeeze]; [done|].
  case_match; [destruct last|]; rewrite IH; done.
Qed.

(** Words joined by single spaces, as characters. *)
Fixpoint unwords (ws : list (list bytes)) : list bytes :=
  match ws with
  | [] => []
  | [w] => w
  | w :: ws' => w ++ [x20] :: unwords ws'
  end.

Lemma unwords_cons w ws : ws <> [] -> unwords (w :: ws) = w ++ [x20] :: unwords ws.
Proof. by destruct ws. Qed.

(** At most one space. *)
Definition pad (t : list bytes) : Prop := t = [] \/ t = [[x20]].

Lemma squeeze_words cs :
  (split_words [] cs = [] -> squeeze cs true = []) /\
  (split_words [] cs <> [] -> exists t, pad t /\ squeeze cs true = unwords (split_words [] cs) ++ t) /\
  (forall acc, acc <> [] -> exists t, pad t /\
     reverse acc ++ squeeze cs false = unwords (split_words acc cs) ++ t /\ split_words acc cs <> []).
Proof.
  induction cs as [|c cs (IH0 & IH1 & IH2)]; cbn [split_words squeeze].
  - split_and!; [done|done|]. intros acc Ha. exists []. rewrite bool_decide_eq_false_2 by done.
    split_and!; [by left|done|done].
  - destruct (is_whitespace c) eqn:Ew; cbn [app].
    + rewrite bool_decide_eq_true_2 by done. split_and!; [done|done|].
      intros acc Ha. rewrite bool_decide_eq_false_2 by done. cbn [app].
      destruct (decide (split_words [] cs = [])) as [E|E].
      * exists [[x20]]. rewrite E, (IH0 E). split_and!; [by right|done|done].
      * destruct (IH1 E) as (t & Ht & ->). exists t. rewrite unwords_cons by done.
        split_and!; [done|by rewrite <- app_assoc|done].
    + destruct (IH2 [c] ltac:(done)) as (t & Ht & Heq & Hne). cbn in Heq.
      split_and!; [by intros ?|intros _; by exists t|]. intros acc Ha.
      destruct (IH2 (c :: acc) ltac:(done)) as (t' & Ht' & Heq' & Hne'). exists t'.
      split_and!; [done| |done]. by rewrite <- Heq', reverse_cons, <- app_assoc.
Qed.

(** * Trimming, by characters *)

Fixpoint drop_ws (cs : list bytes) : list bytes :=
  match cs with
  | [] => []
  | c :: cs' => if is_whitespace c then drop_ws cs' else cs
  end.

Lemma ws_char_form p : p ∈ ws_chars -> char_form p.
Proof. revert p. apply Forall_forall, ws_chars_form. Qed.

Lemma first_char_unique c p x y : char_form c -> char_form p -> c ++ x = p ++ y -> c = p /\ x = y.
Proof.
  intros Hc Hp E. pose proof (char_form_scan c x Hc) as Hs. rewrite E, char_form_scan in Hs by done.
  injection Hs as Hl. by apply app_inj_1 in E.
Qed.

Lemma last_char_unique c p x y : text x -> char_form c -> char_form p -> x ++ c = y ++ p -> x = y /\ c = p.
Proof.
  intros Hx Hc Hp E. assert (Hy : text y).
  { assert (H : text (y ++ p)) by (rewrite <- E; auto with text). apply text_split in H; auto with text. by destruct H. }
  destruct (chars_text x Hx) as [Jx Fx], (chars_text y Hy) as [Jy Fy].
  assert (Hch : chars (mjoin (chars x ++ [c])) = chars (mjoin (chars y ++ [p]))).
  { rewrite !mjoin_app, Jx, Jy, !mjoin_cons. change (mjoin []) with (@nil byte). by rewrite !app_nil_r, E. }
  rewrite !chars_mjoin in Hch by (apply Forall_app; auto). apply app_inj_2 in Hch as [Hxy [= ->]]; [|done].
  by rewrite <- Jx, <- Jy, Hxy.
Qed.

Lemma strip_any_char c r : char_form c -> strip_any ws_chars (c ++ r) = if is_whitespace c then Some r else None.
Proof.
  intros Hc. unfold is_whitespace. destruct (strip_any ws_chars (c ++ r)) as [r'|] eqn:E.
  - apply strip_any_Some in E as (p & Hp & E). apply first_char_unique in E as [-> ->]; auto using ws_char_form.
    by rewrite bool_decide_eq_true_2.
  - case_bool_decide as Hw; [|done]. rewrite strip_any_None in E. by destruct (E c r Hw).
Qed.

Lemma strip_any_last x c :
  text x -> char_form c ->
  strip_any (map (@reverse byte) ws_chars) (reverse (x ++ c)) = if is_whitespace c then Some (reverse x) else None.
Proof.
  intros Hx Hc. unfold is_whitespace. destruct (strip_any _ (reverse (x ++ c))) as [r|] eqn:E.
  - apply strip_any_Some in E as (p' & (p & -> & Hp)%list_elem_of_fmap & E).
    apply (f_equal reverse) in E. rewrite reverse_involutive, reverse_app, reverse_involutive in E.
    apply last_char_unique in E as [-> ->]; auto using ws_char_form.
    rewrite bool_decide_eq_true_2 by done. by rewrite reverse_involutive.
  - case_bool_decide as Hw; [|done]. rewrite strip_any_None in E.
    destruct (E (reverse c) (reverse x)); [by apply list_elem_of_fmap_2|]. by rewrite reverse_app.
Qed.

Lemma trim_start_chars cs : Forall char_form cs -> trim_start (mjoin cs) = mjoin (drop_ws cs).
Proof.
  intros H. unfold trim_start. assert (Hl : (length cs <= length (mjoin cs))%nat) by (by apply length_mjoin_chars).
  revert Hl. generalize (length (mjoin cs)) as fuel. induction H as [|c cs Hc Hcs IH]; intros fuel Hl.
  - by destruct fuel.
  - destruct fuel as [|fuel]; [simpl in Hl; lia|]. cbn [strip_while drop_ws].
    rewrite mjoin_cons, strip_any_char by done. destruct (is_whitespace c); [|done].
    apply IH. simpl in Hl. lia.
Qed.

Lemma trim_end_chars cs :
  Forall char_form cs -> trim_end (mjoin cs) = mjoin (reverse (drop_ws (reverse cs))).
Proof.
  intros H. unfold trim_end. assert (Hl : (length cs <= length (mjoin cs))%nat) by (by apply length_mjoin_chars).
  revert Hl. generalize (length (mjoin cs)) as fuel. induction cs as [|c cs IH] using rev_ind; intros fuel Hl.
  - by destruct fuel.
  - apply Forall_app in H as [Hcs [Hc _]%Forall_cons]. rewrite length_app in Hl. simpl in Hl.
    destruct fuel as [|fuel]; [lia|]. rewrite reverse_snoc. cbn [strip_while drop_ws].
    rewrite mjoin_app, mjoin_cons. change (mjoin []) with (@nil byte). rewrite app_nil_r.
    rewrite strip_any_last by auto with text. destruct (is_whitespace c); [apply IH; [done|lia]|].
    rewrite reverse_involutive, reverse_cons, reverse_involutive, mjoin_app, mjoin_cons. by rewrite app_nil_r.
Qed.

Lemma drop_ws_pad t cs : pad t -> match cs with c :: _ => is_whitespace c = false | [] => True end ->
  drop_ws (t ++ cs) = cs.
Proof. intros [->| ->] Hc; destruct cs as [|c cs]; simpl; try rewrite Hc; done. Qed.

Lemma reverse_pad t : pad t -> pad (reverse t).
Proof. intros [->| ->]; [by left|by right]. Qed.

(** The first and the last character of joined words are not white space. *)
Lemma unwords_ends ws :
  Forall word ws -> ws <> [] ->
  exists a m z, is_whitespace a = false /\ is_whitespace z = false /\
    head (unwords ws) = Some a /\ unwords ws = m ++ [z].
Proof.
  induction 1 as [|w ws [Hne Hw] Hws IH]; intros Hn; [done|].
  destruct w as [|c w]; [done|]. apply Forall_cons in Hw as [[Hcf Hc] Hw].
  assert (Hlast : exists m z, c :: w = m ++ [z] /\ is_whitespace z = false).
  { destruct (exists_last (l := c :: w)) as (m & z & E); [done|]. exists m, z. split; [done|].
    assert (Hall : Forall (fun c => is_whitespace c = false) (c :: w)).
    { constructor; [done|]. eapply Forall_impl; [done|]. by intros ? [_ ?]. }
    rewrite E in Hall. apply Forall_app in Hall as [_ Hz]. by apply Forall_inv in Hz. }
  destruct ws as [|w2 ws].
  - destruct Hlast as (m & z & E & Hz). exists c, m, z. by split_and!.
  - destruct (IH ltac:(done)) as (a & m & z & Ha & Hz & _ & Hu).
    exists c, ((c :: w) ++ [x20] :: m), z. rewrite unwords_cons, Hu by done. split_and!; try done.
    by rewrite <- app_assoc.
Qed.

(** A line becomes its words with single spaces. *)
Lemma collapse_inline_words line :
  text line -> collapse_inline_spaces line = mjoin (unwords (split_words [] (chars line))).
Proof.
  intros Hl. destruct (chars_text line Hl) as [_ Hf]. unfold collapse_inline_spaces.
  rewrite collapse_chars_squeeze. set (ws := split_words [] (chars line)).
  assert (Hsq : Forall char_form (squeeze (chars line) false)).
  { generalize false. induction Hf as [|c cs Hc _ IH]; intros last; cbn [squeeze]; [done|].
    case_match; [destruct last; [apply IH|constructor; [by constructor|apply IH]]|by constructor]. }
  assert (Hsh : exists h t, pad h /\ pad t /\ squeeze (chars line) false = h ++ unwords ws ++ t).
  { unfold ws. destruct (chars line) as [|c cs]; [by exists [], []; split_and!; [left|left|]|].
    destruct (squeeze_words cs) as (H0 & H1 & H2). cbn [squeeze split_words].
    destruct (is_whitespace c) eqn:Ec; cbn [app].
    - rewrite bool_decide_eq_true_2 by done. cbn [app]. exists [[x20]].
      destruct (decide (split_words [] cs = [])) as [E|E].
      + exists []. rewrite E, (H0 E). split_and!; [by right|by left|done].
      + destruct (H1 E) as (t & Ht & ->). exists t. split_and!; [by right|done|done].
    - destruct (H2 [c] ltac:(done)) as (t & Ht & Heq & _). exists [], t. split_and!; [by left|done|done]. }
  destruct Hsh as (h & t & Hh & Ht & Heq). unfold trim. rewrite Heq in Hsq |- *.
  rewrite trim_start_chars by done.
  assert (Hw : Forall word ws) by (by apply split_words_word).
  destruct (decide (ws = [])) as [E|E].
  - rewrite E. simpl. destruct Hh as [->| ->], Ht as [->| ->]; reflexivity.
  - destruct (unwords_ends ws Hw E) as (a & m & z & Ha & Hz & Hhd & Hlast).
    rewrite drop_ws_pad; [|done|].
    2:{ destruct (unwords ws) as [|x u]; simpl in *; [done|]. by injection Hhd as ->. }
    rewrite trim_end_chars by (apply Forall_app in Hsq as [_ ?]; done).
    rewrite reverse_app, drop_ws_pad; [by rewrite reverse_involutive|by apply reverse_pad|].
    by rewrite Hlast, reverse_snoc.
Qed.

(** * The words of a document *)

Lemma chars_app a b : text a -> text b -> chars (a ++ b) = chars a ++ chars b.
Proof.
  intros Ha Hb. destruct (chars_text a Ha) as [Ja Fa], (chars_text b Hb) as [Jb Fb].
  rewrite <- Ja, <- Jb at 1. rewrite <- mjoin_app. apply chars_mjoin. by apply Forall_app.
Qed.

Lemma words_of_app a w b :
  text a -> text b -> w ∈ ws_chars -> words_of (a ++ w ++ b) = words_of a ++ words_of b.
Proof.
  intros Ha Hb Hw. unfold words_of. pose proof (ws_char_form w Hw) as Hwf.
  rewrite !chars_app by auto with text.
  pose proof (chars_mjoin [w] ltac:(by repeat constructor)) as Hc.
  rewrite mjoin_cons in Hc. change (mjoin []) with (@nil byte) in Hc. rewrite app_nil_r in Hc. rewrite Hc.
  cbn [app]. rewrite split_words_app, map_app; [done|]. by apply bool_decide_eq_true.
Qed.

Lemma x0a_ws : [x0a] ∈ ws_chars.
Proof. apply list_elem_of_In. simpl. tauto. Qed.
Lemma x0d_ws : [x0d] ∈ ws_chars.
Proof. apply list_elem_of_In. simpl. tauto. Qed.

Lemma words_of_newline a b : text a -> text b -> words_of (a ++ x0a :: b) = words_of a ++ words_of b.
Proof. intros. by apply (words_of_app a [x0a] b); auto using x0a_ws. Qed.

Lemma words_strip_cr l : text l -> words_of (strip_cr l) = words_of l.
Proof.
  intros Hl. unfold strip_cr. destruct (reverse l) as [|b r] eqn:E; [done|]. case_bool_decide; [subst b|done].
  apply (f_equal reverse) in E. rewrite reverse_involutive, reverse_cons in E. rewrite E in Hl |- *.
  destruct (text_around (reverse r) [x0d] [] ltac:(done) eq_refl) as (Hr & _); [by rewrite app_nil_r|].
  pose proof (words_of_app (reverse r) [x0d] [] Hr text_nil x0d_ws) as H.
  rewrite app_nil_r in H. rewrite H. by rewrite app_nil_r.
Qed.

Lemma words_lines_from acc b :
  text (reverse acc ++ b) -> words_of (reverse acc ++ b) = mjoin (map words_of (lines_from acc b)).
Proof.
  revert acc; induction b as [|x b IH]; intros acc H; cbn [lines_from].
  - rewrite app_nil_r in *. case_bool_decide as E; [by subst|]. cbn. by rewrite app_nil_r.
  - case_bool_decide as E.
    + subst x. destruct (text_around (reverse acc) [x0a] b ltac:(done) eq_refl H) as (Ha & _ & Hb).
      rewrite words_of_newline by done. cbn [map]. rewrite mjoin_cons, words_strip_cr by done. f_equal. by apply (IH []).
    + rewrite <- IH; rewrite reverse_cons, <- app_assoc; done.
Qed.

Lemma words_lines s : text s -> words_of s = mjoin (map words_of (lines s)).
Proof. apply (words_lines_from []). Qed.

Lemma words_join ls : Forall text ls -> words_of (join [x0a] ls) = mjoin (map words_of ls).
Proof.
  induction 1 as [|l ls Hl Hls IH]; [done|]. destruct ls as [|l2 ls]; [cbn; by rewrite app_nil_r|].
  change (join [x0a] (l :: l2 :: ls)) with (l ++ x0a :: join [x0a] (l2 :: ls)).
  rewrite words_of_newline, IH by (auto; apply text_join; auto with text). done.
Qed.

(** Words joined by spaces split into themselves. *)
Lemma split_unwords ws : Forall word ws -> split_words [] (unwords ws) = ws.
Proof.
  induction 1 as [|w ws [Hne Hw] Hws IH]; [done|].
  assert (Hns : split_words [] w = [w]).
  { rewrite split_words_run by (eapply Forall_impl; [done|]; by intros ? [_ ?]). rewrite app_nil_r.
    rewrite bool_decide_eq_false_2; [done|]. intros E. apply (f_equal reverse) in E.
    by rewrite reverse_involutive in E. }
  destruct ws as [|w2 ws]; [done|]. rewrite unwords_cons, split_words_app, IH, Hns by done. done.
Qed.

Lemma unwords_chars ws : Forall word ws -> Forall char_form (unwords ws).
Proof.
  induction 1 as [|w ws [_ Hw] _ IH]; [done|].
  assert (Forall char_form w) by (eapply Forall_impl; [done|]; by intros ? [? _]).
  destruct ws as [|w2 ws]; [done|]. rewrite unwords_cons by done. apply Forall_app. split; [done|].
  constructor; [by constructor|done].
Qed.

Lemma words_unwords ws : Forall word ws -> words_of (mjoin (unwords ws)) = map mjoin ws.
Proof. intros H. unfold words_of. by rewrite chars_mjoin, split_unwords by auto using unwords_chars. Qed.

(** * Tidy documents *)

Definition tidy_line (l : bytes) : Prop := exists ws, Forall word ws /\ l = mjoin (unwords ws).

(** No two blank lines in a row. *)
Fixpoint no_double (ls : list bytes) : Prop :=
  match ls with
  | [] => True
  | l :: ls' => ~ (l = [] /\ head ls' = Some []) /\ no_double ls'
  end.

Definition tidy_doc (ls : list bytes) : Prop :=
  Forall tidy_line ls /\ no_double ls /\ head ls <> Some [] /\ last ls <> Some [].

Lemma collapse_inline_tidy l : text l -> tidy_line (collapse_inline_spaces l).
Proof.
  intros Hl. exists (split_words [] (chars l)). split; [|by apply collapse_inline_words].
  apply split_words_word; [done|]. by apply chars_text.
Qed.

Lemma tidy_line_text l : tidy_line l -> text l.
Proof. intros (ws & Hws & ->). by apply text_mjoin, unwords_chars. Qed.

(** Collapsing a tidy line changes nothing. *)
Lemma collapse_tidy_line l : tidy_line l -> collapse_inline_spaces l = l.
Proof.
  intros Hl. rewrite collapse_inline_words by (by apply tidy_line_text). destruct Hl as (ws & Hws & ->).
  by rewrite chars_mjoin, split_unwords by auto using unwords_chars.
Qed.

Lemma words_collapse_inline l : text l -> words_of (collapse_inline_spaces l) = words_of l.
Proof.
  intros Hl. rewrite collapse_inline_words by done. unfold words_of at 2.
  apply words_unwords, split_words_word; [done|]. by apply chars_text.
Qed.

(** The lines kept so far, newest first. *)
Definition kept_ok (kept : list bytes) (blank : nat) : Prop :=
  Forall tidy_line kept /\ no_double kept /\ last kept <> Some [] /\
  (blank = 0%nat -> head kept <> Some []).

Lemma collapse_lines_ok raw kept blank :
  Forall text raw -> kept_ok kept blank -> exists blank', kept_ok (collapse_lines raw kept blank) blank'.
Proof.
  intros H. revert kept blank; induction H as [|l raw Hl _ IH]; intros kept blank Hk; cbn [collapse_lines];
    [by exists blank|]. destruct Hk as (Ht & Hd & Hla & Hhe).
  case_bool_decide as E.
  - apply IH. destruct (blank + 1 <=? 1)%nat eqn:Eb; [|by repeat split; auto; lia].
    apply Nat.leb_le in Eb. assert (blank = 0)%nat as -> by lia. case_bool_decide as Ek; cbn [negb andb].
    + subst kept. by repeat split; auto.
    + destruct kept as [|k kept]; [done|]. split_and!; [|split; [|done]|done|lia].
      * constructor; [|done]. exists []. by repeat constructor.
      * intros [_ H]. by apply (Hhe eq_refl).
  - apply IH. split_and!; [|split; [by intros [? _]|done]|..].
    + constructor; [by apply collapse_inline_tidy|done].
    + destruct kept; simpl; [congruence|done].
    + simpl. congruence.
Qed.

Lemma words_collapse_lines raw kept blank :
  Forall text raw ->
  mjoin (map words_of (reverse (collapse_lines raw kept blank)))
  = mjoin (map words_of (reverse kept)) ++ mjoin (map words_of raw).
Proof.
  intros H. revert kept blank; induction H as [|l raw Hl _ IH]; intros kept blank; cbn [collapse_lines map];
    [by rewrite app_nil_r|]. rewrite mjoin_cons, <- (words_collapse_inline l Hl).
  case_bool_decide as E; rewrite IH.
  - rewrite E. case_match; [|done]. rewrite reverse_cons, map_app, mjoin_app. by rewrite <- app_assoc.
  - rewrite reverse_cons, map_app, mjoin_app. cbn [map]. rewrite mjoin_cons, app_nil_r. by rewrite <- app_assoc.
Qed.

Lemma no_double_app a b : no_double (a ++ b) -> no_double b.
Proof. induction a as [|x a IH]; [done|]. intros [_ H]. auto. Qed.

Lemma no_double_reverse ls : no_double ls -> no_double (reverse ls).
Proof.
  induction ls as [|l ls IH]; intros H; [done|]. destruct H as [Hl H]. rewrite reverse_cons.
  specialize (IH H). destruct ls as [|l2 ls]; [simpl; split; [naive_solver|done]|].
  rewrite reverse_cons in *. clear H. induction (reverse ls) as [|y ys IHy]; simpl in *.
  - split_and!; [|naive_solver|done]. intros [-> [= ->]]. by apply Hl.
  - destruct IH as [Hy IH]. split; [|by apply IHy]. intros [-> Hh]. apply Hy. split; [done|].
    by destruct ys.
Qed.

Lemma drop_blank_ok kept blank :
  kept_ok kept blank -> tidy_doc (reverse (drop_blank kept)).
Proof.
  intros (Ht & Hd & Hl & _). destruct (drop_blank_suffix kept) as (p & Hp & _).
  rewrite Hp in Ht, Hd, Hl. apply Forall_app in Ht as [_ Ht]. apply no_double_app in Hd.
  split_and!; [by apply Forall_reverse|by apply no_double_reverse| |].
  - destruct (drop_blank kept) as [|k ks] using rev_ind; [done|]. rewrite reverse_snoc. simpl.
    by rewrite app_assoc, last_snoc in Hl.
  - rewrite last_reverse. clear. induction kept as [|[|b l] kept IH]; simpl; congruence || auto.
Qed.

(** The two halves of the loop, together. *)
Lemma collapse_doc s :
  text s -> exists ls, collapse_whitespace s = join [x0a] ls /\ tidy_doc ls /\
                       mjoin (map words_of ls) = words_of s.
Proof.
  intros Hs. exists (reverse (drop_blank (collapse_lines (lines s) [] 0))). split; [done|].
  destruct (collapse_lines_ok (lines s) [] 0 (text_lines s Hs)) as (blank & Hk).
  { repeat split; simpl; auto. }
  split; [by eapply drop_blank_ok|]. rewrite (words_lines s Hs).
  pose proof (words_collapse_lines (lines s) [] 0 (text_lines s Hs)) as Hw.
  change (mjoin (map words_of (reverse []))) with (@nil bytes) in Hw. cbn [app] in Hw. rewrite <- Hw.
  destruct (drop_blank_suffix (collapse_lines (lines s) [] 0)) as (p & Hp & Hb). rewrite Hp at 2.
  rewrite reverse_app, map_app, mjoin_app.
  assert (Hpw : mjoin (map words_of (reverse p)) = []).
  { apply Forall_reverse in Hb. induction Hb as [|l q -> _ IH]; [done|]. cbn [map]. by rewrite mjoin_cons, IH. }
  by rewrite Hpw, app_nil_r.
Qed.

(** ** Lines of a tidy document *)

(** A byte below 0x80 occurs in a character only as that character. *)
Lemma char_ascii_elem c b : char_form c -> ascii b = true -> b ∈ c -> c = [b].
Proof.
  intros Hc Hb Hin. assert (Hhigh : forall x, x ∈ c -> c <> [x] -> ascii x = false).
  { clear -Hc. intros x Hx Hn. destruct Hc as [b0 H0|b0 b1 H0 H1|b0 b1 b2 H0 H1 H2|b0 b1 b2 b3 H0 H1 H2 H3];
      [by apply list_elem_of_singleton in Hx as ->|..];
      try apply utf8_second_cont in H1;
      repeat (apply elem_of_cons in Hx as [->|Hx]; [unfold ascii, utf8_cont in *; byte_props; lia|]);
      by apply not_elem_of_nil in Hx. }
  destruct (decide (c = [b])); [done|]. by rewrite (Hhigh b) in Hb.
Qed.

Lemma tidy_line_plain l b : tidy_line l -> ascii b = true -> [b] ∈ ws_chars -> b <> x20 -> b ∉ l.
Proof.
  intros (ws & Hws & ->) Hb Hwb Hne Hin. apply list_elem_of_join in Hin as (c & Hbc & Hc).
  assert (Hall : Forall (fun c => char_form c /\ (is_whitespace c = false \/ c = [x20])) (unwords ws)).
  { clear -Hws. induction Hws as [|w ws [_ Hw] _ IH]; [done|].
    assert (Forall (fun c => char_form c /\ (is_whitespace c = false \/ c = [x20])) w).
    { eapply Forall_impl; [done|]. intros ? [? ?]. auto. }
    destruct ws as [|w2 ws]; [done|]. rewrite unwords_cons by done. apply Forall_app. split; [done|].
    constructor; [split; [by constructor|by right]|done]. }
  rewrite Forall_forall in Hall. destruct (Hall c Hc) as [Hcf Hcw].
  apply (char_ascii_elem c b Hcf Hb) in Hbc as ->. destruct Hcw as [Hcw|[= ->]]; [|done].
  apply bool_decide_eq_false in Hcw. done.
Qed.

Lemma strip_cr_tidy l : tidy_line l -> strip_cr l = l.
Proof.
  intros Hl. unfold strip_cr. destruct (reverse l) as [|b r] eqn:E; [done|]. case_bool_decide; [subst b|done].
  exfalso. apply (tidy_line_plain l x0d Hl); [done|apply x0d_ws|done|].
  apply (f_equal reverse) in E. rewrite reverse_involutive, reverse_cons in E. rewrite E. set_solver.
Qed.

Lemma lines_from_line acc l rest : x0a ∉ l ->
  lines_from acc (l ++ x0a :: rest) = strip_cr (reverse acc ++ l) :: lines_from [] rest.
Proof.
  revert acc; induction l as [|x l IH]; intros acc Hl; cbn [app lines_from].
  - rewrite bool_decide_eq_true_2 by done. by rewrite app_nil_r.
  - apply not_elem_of_cons in Hl as [Hx Hl]. rewrite bool_decide_eq_false_2 by done.
    rewrite IH, reverse_cons, <- app_assoc by done. done.
Qed.

Lemma lines_from_last acc l : x0a ∉ l -> reverse acc ++ l <> [] -> lines_from acc l = [reverse acc ++ l].
Proof.
  revert acc; induction l as [|x l IH]; intros acc Hl Hne; cbn [lines_from].
  - rewrite app_nil_r in *. rewrite bool_decide_eq_false_2; [done|]. by intros ->.
  - apply not_elem_of_cons in Hl as [Hx Hl]. rewrite bool_decide_eq_false_2 by done.
    rewrite IH; rewrite ?reverse_cons, <- ?app_assoc; [done|done|by destruct (reverse acc)].
Qed.

Lemma lines_join ls : Forall tidy_line ls -> last ls <> Some [] -> lines (join [x0a] ls) = ls.
Proof.
  induction 1 as [|l ls Hl Hls IH]; intros Hla; [done|].
  assert (Hn : x0a ∉ l) by (apply tidy_line_plain; [done|done|apply x0a_ws|done]).
  destruct ls as [|l2 ls].
  - cbn [join]. apply (lines_from_last []); [done|]. intros E. change (l = []) in E. by subst l.
  - change (join [x0a] (l :: l2 :: ls)) with (l ++ x0a :: join [x0a] (l2 :: ls)). unfold lines.
    rewrite lines_from_line by done. change (reverse [] ++ l) with l. rewrite strip_cr_tidy by done. f_equal. by apply IH.
Qed.

Lemma collapse_lines_tidy ls kept blank :
  Forall tidy_line ls -> no_double ls ->
  (head ls = Some [] -> blank = 0%nat /\ kept <> []) ->
  collapse_lines ls kept blank = reverse ls ++ kept.
Proof.
  intros H. revert kept blank; induction H as [|l ls Hl _ IH]; intros kept blank Hd Hh; cbn [collapse_lines]; [done|].
  destruct Hd as [Hd1 Hd]. rewrite collapse_tidy_line by done. rewrite reverse_cons, <- app_assoc. cbn [app].
  case_bool_decide as E.
  - subst l. destruct (Hh eq_refl) as [-> Hk]. rewrite (bool_decide_eq_false_2 (kept = [])) by done. cbn [negb andb Nat.leb Nat.add].
    apply IH; [done|]. intros Hh2. by destruct Hd1.
  - apply IH; [done|]. done.
Qed.

Lemma collapse_tidy ls : tidy_doc ls -> collapse_whitespace (join [x0a] ls) = join [x0a] ls.
Proof.
  intros (Ht & Hd & Hh & Hl). unfold collapse_whitespace. rewrite lines_join by done.
  rewrite collapse_lines_tidy, app_nil_r by (done || naive_solver).
  replace (drop_blank (reverse ls)) with (reverse ls); [by rewrite reverse_involutive|].
  destruct ls as [|l ls _] using rev_ind; [done|]. rewrite reverse_snoc. rewrite last_snoc in Hl. by destruct l.
Qed.

(** Collapsing white space keeps every word of a text in its order, leaves
    lines of words with single spaces and no two blank lines in a row nor at an
    end, and collapsing again changes nothing. *)
Theorem collapse_normal_form s :
  utf8_valid s = true ->
  words_of (collapse_whitespace s) = words_of s /\
  (exists ls, collapse_whitespace s = join [x0a] ls /\ tidy_doc ls) /\
  collapse_whitespace (collapse_whitespace s) = collapse_whitespace s.
Proof.
  intros Hs%utf8_valid_text. destruct (collapse_doc s Hs) as (ls & E & Hd & Hw). split_and!.
  - rewrite E, words_join; [done|]. destruct Hd as [Ht _]. eapply Forall_impl; [done|]. apply tidy_line_text.
  - by exists ls.
  - rewrite E. by apply collapse_tidy.
Qed.
