(* ===== verification/Protocol.v ===== *)
(** Wire constants: [ghostbro-common/src/protocol.rs] and the kernel/user shared
    constants and structures of [ghostbro-bpf-common/src/lib.rs]. *)

From S2P Require Import Prelude.

(** * ghostbro-common/src/protocol.rs *)

Definition VERSION_PREFIX : bytes := [z2b 0x47; z2b 0x50].
Definition VERSION_LEN : nat := 2.
Definition SPA_FLAGS_LEN : nat := 1.
Definition KEY_ID_LEN : nat := 8.
Definition TIMESTAMP_LEN : nat := 8.
Definition COUNTER_LEN : nat := 8.
Definition ALLOW_IP_LEN : nat := 4.
Definition SIGNATURE_LEN : nat := 64.

Definition SPA_INNER_SIGNED_LEN : nat :=
  VERSION_LEN + SPA_FLAGS_LEN + KEY_ID_LEN + TIMESTAMP_LEN + COUNTER_LEN + ALLOW_IP_LEN.
Definition SPA_INNER_LEN : nat := SPA_INNER_SIGNED_LEN + SIGNATURE_LEN.

Definition SPA_EPHEMERAL_LEN : nat := 32.
Definition SPA_AEAD_TAG_LEN : nat := 16.
Definition SPA_SEALED_CORE_LEN : nat := SPA_EPHEMERAL_LEN + SPA_INNER_LEN + SPA_AEAD_TAG_LEN.

Definition SPA_MIN_LEN : nat := SPA_SEALED_CORE_LEN.
Definition SPA_MAX_LEN : nat := 176.
Definition SPA_MAX_PADDING : nat := SPA_MAX_LEN - SPA_MIN_LEN.

Definition SPA_FLAG_HTTPS : Z := 1.
Definition SPA_FLAG_USE_PACKET_SOURCE : Z := 2.
(** [!(a | b)] on a [u8]. *)
Definition SPA_RESERVED_FLAGS : Z :=
  Z.lxor 0xFF (Z.lor SPA_FLAG_HTTPS SPA_FLAG_USE_PACKET_SOURCE).

Definition PROTOCOL_SOCKS5 : Z := 0x05.
Definition PROTOCOL_GHOST_RELAY : Z := 0x47.
Definition GHOST_RELAY_VERSION : Z := 1.
Definition GHOST_RELAY_OP_SUBMIT_WEB : Z := 1.
Definition GHOST_RELAY_OP_LIST : Z := 2.
Definition GHOST_RELAY_OP_DOWNLOAD : Z := 3.
Definition GHOST_RELAY_OP_DELETE : Z := 4.
Definition GHOST_RELAY_OP_SUBMIT_GIT : Z := 5.
Definition GHOST_RELAY_OP_SUBMIT_PACKAGE : Z := 6.
Definition GHOST_RELAY_STATUS_OK : Z := 0.
Definition GHOST_RELAY_STATUS_PENDING : Z := 1.
Definition GHOST_RELAY_STATUS_NOT_FOUND : Z := 2.
Definition GHOST_RELAY_STATUS_INVALID : Z := 3.
Definition GHOST_RELAY_STATUS_FAILED : Z := 4.
Definition GHOST_RELAY_STATUS_TOO_LARGE : Z := 5.
Definition GHOST_RELAY_STATUS_QUOTA : Z := 6.
Definition GHOST_RELAY_STATUS_UNSUPPORTED : Z := 0x7f.
Definition GHOST_RELAY_ARTIFACT_PRIMARY : Z := 0.
Definition GHOST_RELAY_ARTIFACT_NORMALIZED : Z := 1.
Definition DEFAULT_ALLOW_TTL_SECONDS : Z := 14400.
Definition DEFAULT_TIME_WINDOW_SECONDS : Z := 300.

(** * ghostbro-bpf-common/src/lib.rs *)

Definition BPF_SPA_MAX_LEN : Z := 176.
Definition BPF_SPA_MIN_LEN : Z := 143.
Definition DEFAULT_SPA_PORT : Z := 53.
Definition DEFAULT_PROXY_PORT : Z := 8443.
Definition DEFAULT_RATE_LIMIT_PER_MINUTE : Z := 5.
Definition SPA_MODE_UDP : Z := 1.
Definition SPA_MODE_HTTPS : Z := 2.
Definition SPA_MODE_BOTH : Z := Z.lor SPA_MODE_UDP SPA_MODE_HTTPS.

Record BpfConfig := {
  spa_port : Z;
  proxy_port : Z;
  rate_limit_per_minute : Z;
  spa_mode : Z
}.

(** [_pad] carries no information and is always written as zero. *)
Record AllowEntry := {
  expiry_ns : Z;
  ae_key_id : bytes;
  ae_client_id : Z
}.

Record RateState := {
  tokens : Z;
  last_ns : Z
}.

Record SpaEvent := {
  ev_src_ip : Z;
  ev_src_port : Z;
  ev_payload_len : Z;
  ev_payload : bytes
}.

#[global] Instance BpfConfig_eq_dec : EqDecision BpfConfig.
Proof. solve_decision. Defined.
#[global] Instance AllowEntry_eq_dec : EqDecision AllowEntry.
Proof. solve_decision. Defined.
#[global] Instance RateState_eq_dec : EqDecision RateState.
Proof. solve_decision. Defined.
#[global] Instance SpaEvent_eq_dec : EqDecision SpaEvent.
Proof. solve_decision. Defined.

(** The kernel pre-filter and the packet parser agree on the length window:
    "must match ghostbro-common::protocol". *)
Lemma bpf_lengths_match :
  Z.of_nat SPA_MIN_LEN = BPF_SPA_MIN_LEN /\ Z.of_nat SPA_MAX_LEN = BPF_SPA_MAX_LEN.
Proof. done. Qed.

#[export] Hint Unfold SPA_MIN_LEN SPA_SEALED_CORE_LEN SPA_INNER_LEN SPA_INNER_SIGNED_LEN
  SPA_EPHEMERAL_LEN SPA_AEAD_TAG_LEN SIGNATURE_LEN ALLOW_IP_LEN COUNTER_LEN TIMESTAMP_LEN
  KEY_ID_LEN SPA_FLAGS_LEN VERSION_LEN SPA_MAX_LEN SPA_MAX_PADDING : ghost.
