(* ===== verification/Crypto.v ===== *)
(** Third-party primitives the program calls, as parameters of the model.

    [Crypto] lists the operations of the crates [sha2], [x25519-dalek],
    [chacha20poly1305], [ed25519-dalek] and [base64] that the sources use, and
    [CryptoLaws] the documented facts the code relies on.  [toy_crypto] is a
    concrete instance used to evaluate the model on inputs. *)

From S2P Require Import Prelude.

Class Crypto := {
  (** [Sha256::digest], [Sha512::digest] *)
  sha256 : bytes -> bytes;
  sha512 : bytes -> bytes;
  (** [PublicKey::from(&StaticSecret::from(private)).to_bytes()] *)
  x25519_base : bytes -> bytes;
  (** [StaticSecret::diffie_hellman] *)
  x25519_dh : bytes -> bytes -> bytes;
  (** [ChaCha20Poly1305::encrypt]/[decrypt]: key, nonce, associated data, message *)
  aead_encrypt : bytes -> bytes -> bytes -> bytes -> bytes;
  aead_decrypt : bytes -> bytes -> bytes -> bytes -> option bytes;
  (** [SigningKey::verifying_key], [sign], [VerifyingKey::verify],
      [VerifyingKey::from_bytes] accepting the encoding *)
  ed_verifying_key : bytes -> bytes;
  ed_sign : bytes -> bytes -> bytes;
  ed_verify : bytes -> bytes -> bytes -> bool;
  ed_valid_point : bytes -> bool;
  (** [base64::engine::general_purpose::STANDARD] *)
  b64_encode : bytes -> string;
  b64_decode : string -> option bytes
}.

Class CryptoLaws (C : Crypto) : Prop := {
  sha256_length : forall m, length (sha256 m) = 32%nat;
  x25519_base_length : forall s, length (x25519_base s) = 32%nat;
  (** Diffie-Hellman agreement *)
  x25519_agree : forall a b, x25519_dh a (x25519_base b) = x25519_dh b (x25519_base a);
  (** a ciphertext is the message plus a 16-byte tag *)
  aead_encrypt_length : forall k n ad m, length (aead_encrypt k n ad m) = (length m + 16)%nat;
  aead_decrypt_encrypt : forall k n ad m, aead_decrypt k n ad (aead_encrypt k n ad m) = Some m;
  ed_sign_length : forall sk m, length (ed_sign sk m) = 64%nat;
  ed_verifying_key_length : forall sk, length (ed_verifying_key sk) = 32%nat;
  ed_verify_sign : forall sk m, ed_verify (ed_verifying_key sk) m (ed_sign sk m) = true;
  ed_valid_verifying_key : forall sk, ed_valid_point (ed_verifying_key sk) = true;
  b64_decode_encode : forall m, b64_decode (b64_encode m) = Some m;
  (** the alphabet is visible ASCII *)
  b64_graphic : forall m, Forall (fun b => is_graphic b = true) (str_bytes (b64_encode m))
}.

(** * A concrete instance

    Not cryptography: functions with the shapes and the algebraic laws above
    that also separate distinct short inputs, so that the model can be run. *)

Module Toy.

Definition pad (n : nat) (m : bytes) : bytes := take n (m ++ repeat x00 n).

Definition checksum (m : bytes) : Z :=
  foldr (fun b acc => Z.land (131 * acc + b2z b + 7) 0xFFFFFFFF) 1 m.

Definition digest (n : nat) (m : bytes) : bytes := pad n (be_bytes 4 (checksum m)).

Definition xor_bytes (a b : bytes) : bytes :=
  zip_with (fun x y => z2b (Z.lxor (b2z x) (b2z y))) a b.

Definition base (s : bytes) : bytes := pad 32 s.
Definition dh (a b : bytes) : bytes := xor_bytes (pad 32 a) (pad 32 b).

Definition tag (k n ad m : bytes) : bytes := digest 16 (k ++ n ++ ad ++ m).
Definition encrypt (k n ad m : bytes) : bytes := m ++ tag k n ad m.
Definition decrypt (k n ad c : bytes) : option bytes :=
  let m := take (length c - 16) c in
  if bool_decide (c = encrypt k n ad m) then Some m else None.

Definition sign (sk m : bytes) : bytes := digest 64 (pad 32 sk ++ m).
Definition verify (vk m s : bytes) : bool := bool_decide (s = sign vk m).

(** Two letters from [a] to [p] per byte. *)
Fixpoint letters (m : bytes) : bytes :=
  match m with
  | [] => []
  | b :: m' => z2b (97 + b2z b / 16) :: z2b (97 + b2z b mod 16) :: letters m'
  end.

Fixpoint unletters (l : bytes) : option bytes :=
  match l with
  | [] => Some []
  | a :: b :: l' => m ← unletters l'; Some (z2b ((b2z a - 97) * 16 + (b2z b - 97)) :: m)
  | _ => None
  end.

Definition b64_enc (m : bytes) : string := bytes_str (letters m).
Definition b64_dec (s : string) : option bytes := unletters (str_bytes s).

End Toy.

Definition toy_crypto : Crypto := {|
  sha256 := Toy.digest 32;
  sha512 := Toy.digest 64;
  x25519_base := Toy.base;
  x25519_dh := Toy.dh;
  aead_encrypt := Toy.encrypt;
  aead_decrypt := Toy.decrypt;
  ed_verifying_key := Toy.pad 32;
  ed_sign := Toy.sign;
  ed_verify := Toy.verify;
  ed_valid_point := fun k => (length k =? 32)%nat;
  b64_encode := Toy.b64_enc;
  b64_decode := Toy.b64_dec
|}.

Lemma toy_pad_length n m : length (Toy.pad n m) = n.
Proof.
  unfold Toy.pad. rewrite length_take, length_app, repeat_length. lia.
Qed.

Lemma toy_pad_pad n m : Toy.pad n (Toy.pad n m) = Toy.pad n m.
Proof.
  unfold Toy.pad at 1. rewrite take_app_le by (by rewrite toy_pad_length).
  apply take_ge. by rewrite toy_pad_length.
Qed.

Lemma toy_xor_comm a b : Toy.xor_bytes a b = Toy.xor_bytes b a.
Proof.
  unfold Toy.xor_bytes. revert b; induction a as [|x a IH]; intros [|y b]; simpl; try done.
  rewrite IH. f_equal. by rewrite Z.lxor_comm.
Qed.

Lemma toy_decrypt_encrypt k n ad m : Toy.decrypt k n ad (Toy.encrypt k n ad m) = Some m.
Proof.
  unfold Toy.decrypt.
  assert (H : take (length (Toy.encrypt k n ad m) - 16) (Toy.encrypt k n ad m) = m).
  { unfold Toy.encrypt, Toy.tag, Toy.digest. rewrite length_app, toy_pad_length.
    replace (length m + 16 - 16)%nat with (length m) by lia. apply take_app_length. }
  rewrite H. by rewrite bool_decide_eq_true_2.
Qed.

Lemma toy_nibbles b : 0 <= b2z b / 16 < 16 /\ 0 <= b2z b mod 16 < 16.
Proof.
  pose proof (b2z_range b). split; [|apply Z.mod_pos_bound; lia].
  split; [apply Z.div_pos; lia | apply Z.div_lt_upper_bound; lia].
Qed.

Lemma toy_unletters m : Toy.unletters (Toy.letters m) = Some m.
Proof.
  induction m as [|b m IH]; [done|]. cbn [Toy.letters Toy.unletters]. rewrite IH. simpl.
  destruct (toy_nibbles b). rewrite !b2z_z2b by lia. do 2 f_equal.
  rewrite <- (z2b_b2z b) at 3. f_equal. pose proof (Z.div_mod (b2z b) 16). lia.
Qed.

Lemma toy_letters_graphic m : Forall (fun b => is_graphic b = true) (Toy.letters m).
Proof.
  induction m as [|b m IH]; [constructor|]. destruct (toy_nibbles b).
  repeat constructor; [..|done]; unfold is_graphic, in_range; rewrite b2z_z2b by lia; lia.
Qed.

Lemma toy_crypto_laws : CryptoLaws toy_crypto.
Proof.
  split; intros; try apply toy_pad_length.
  - change (Toy.dh a (Toy.base b) = Toy.dh b (Toy.base a)).
    unfold Toy.dh, Toy.base. rewrite !toy_pad_pad. apply toy_xor_comm.
  - change (length (Toy.encrypt k n ad m) = (length m + 16)%nat).
    unfold Toy.encrypt, Toy.tag. rewrite length_app. unfold Toy.digest.
    by rewrite toy_pad_length.
  - change (Toy.decrypt k n ad (Toy.encrypt k n ad m) = Some m). apply toy_decrypt_encrypt.
  - change (Toy.verify (Toy.pad 32 sk) m (Toy.sign sk m) = true).
    unfold Toy.verify, Toy.sign. rewrite toy_pad_pad. by apply bool_decide_eq_true_2.
  - change ((length (Toy.pad 32 sk) =? 32)%nat = true). by rewrite toy_pad_length.
  - change (Toy.b64_dec (Toy.b64_enc m) = Some m).
    unfold Toy.b64_dec, Toy.b64_enc. rewrite str_bytes_str. apply toy_unletters.
  - change (Forall (fun b => is_graphic b = true) (str_bytes (Toy.b64_enc m))).
    unfold Toy.b64_enc. rewrite str_bytes_str. apply toy_letters_graphic.
Qed.

#[export] Hint Resolve sha256_length x25519_base_length ed_sign_length
  ed_verifying_key_length : ghost.
