(* ===== verification/Keys.v ===== *)
(** Key handling: [ghostbro-common/src/keys.rs]. *)

From S2P Require Import Prelude Protocol Crypto.

(** [KeyId = [u8; KEY_ID_LEN]]; the length is an invariant of its producers. *)
#[global] Abbreviation KeyId := bytes (only parsing).

(** The payloads of the wrapped third-party errors are dropped. *)
Inductive KeyError :=
| InvalidBase64
| InvalidPublicKeyLength (n : Z)
| InvalidPrivateKeyLength (n : Z)
| InvalidNoisePublicKeyLength (n : Z)
| InvalidPublicKey.

(** * Hexadecimal key ids *)

Definition hex_digit (n : Z) : byte := z2b (if n <? 10 then 48 + n else 87 + n).
(** [format!("{byte:02x}")] *)
Definition hex_byte (b : byte) : bytes := [hex_digit (b2z b / 16); hex_digit (b2z b mod 16)].
Definition hex_encode (l : bytes) : bytes := l ≫= hex_byte.

Definition key_id_hex (key_id : KeyId) : string := bytes_str (hex_encode key_id).

(** [chunks_exact(2)] *)
Fixpoint chunks_exact_2 (l : bytes) : list bytes :=
  match l with
  | a :: b :: l' => [a; b] :: chunks_exact_2 l'
  | _ => []
  end.

Definition hex_chunk (chunk : bytes) : option byte :=
  if utf8_valid chunk then z2b <$> from_str_radix 16 255 chunk else None.

Definition key_id_from_hex (hex : string) : option KeyId :=
  let hex := str_bytes hex in
  if negb (length hex =? KEY_ID_LEN * 2)%nat then None
  else mapM hex_chunk (chunks_exact_2 hex).

Lemma hex_digit_range n : 0 <= n < 16 -> in_range 0 0x7F (hex_digit n) = true.
Proof.
  intros H. unfold in_range, hex_digit. rewrite b2z_z2b by (destruct (n <? 10); lia).
  destruct (Z.ltb_spec n 10); lia.
Qed.

Lemma to_digit_hex n : 0 <= n < 16 -> to_digit 16 (hex_digit n) = Some n.
Proof.
  intros H. unfold to_digit, hex_digit. rewrite b2z_z2b by (destruct (n <? 10); lia).
  destruct (Z.ltb_spec n 10); repeat case_bool_decide;
    repeat match goal with |- context [?a <=? ?b] => destruct (Z.leb_spec a b) end;
    simpl; try lia.
  all: match goal with |- context [?v <? 16] => destruct (Z.ltb_spec v 16) end; f_equal; lia.
Qed.

Lemma hex_digit_not_plus n : 0 <= n < 16 -> (b2z (hex_digit n) =? 43) = false.
Proof.
  intros H. unfold hex_digit. rewrite b2z_z2b by (destruct (n <? 10); lia).
  destruct (Z.ltb_spec n 10); lia.
Qed.

Lemma nibbles b : 0 <= b2z b / 16 < 16 /\ 0 <= b2z b mod 16 < 16.
Proof.
  pose proof (b2z_range b). split; [|apply Z.mod_pos_bound; lia].
  split; [apply Z.div_pos; lia | apply Z.div_lt_upper_bound; lia].
Qed.

Lemma hex_chunk_byte b : hex_chunk (hex_byte b) = Some b.
Proof.
  destruct (nibbles b) as [H1 H2]. unfold hex_chunk, hex_byte.
  rewrite utf8_valid_ascii by (repeat constructor; by apply hex_digit_range).
  unfold from_str_radix. rewrite hex_digit_not_plus by done.
  cbn [radix_digits]. rewrite !to_digit_hex by done.
  destruct (Z.leb_spec (0 * 16 + b2z b / 16) 255); [|lia].
  replace ((0 * 16 + b2z b / 16) * 16 + b2z b mod 16) with (b2z b)
    by (pose proof (Z.div_mod (b2z b) 16); lia).
  pose proof (b2z_range b). destruct (Z.leb_spec (b2z b) 255); [|lia].
  simpl. by rewrite z2b_b2z.
Qed.

Lemma length_hex_encode l : length (hex_encode l) = (2 * length l)%nat.
Proof. induction l as [|b l IH]; simpl; [done|]. simpl in IH. lia. Qed.

Lemma mapM_hex_chunks l : mapM hex_chunk (chunks_exact_2 (hex_encode l)) = Some l.
Proof.
  induction l as [|b l IH]; [done|].
  change (mapM hex_chunk (hex_byte b :: chunks_exact_2 (hex_encode l)) = Some (b :: l)).
  cbn [mapM mbind]. rewrite hex_chunk_byte. simpl. by rewrite IH.
Qed.

Lemma key_id_from_hex_hex key_id :
  length key_id = KEY_ID_LEN -> key_id_from_hex (key_id_hex key_id) = Some key_id.
Proof.
  intros H. unfold key_id_from_hex, key_id_hex. rewrite str_bytes_str, length_hex_encode, H.
  simpl negb. cbn iota. apply mapM_hex_chunks.
Qed.

Lemma length_chunks_exact_2 n l : length l = (2 * n)%nat -> length (chunks_exact_2 l) = n.
Proof.
  revert l; induction n as [|n IH]; intros [|a [|b l]] H; simpl in *; try lia.
  f_equal. apply IH. lia.
Qed.

Lemma key_id_from_hex_length hex kid :
  key_id_from_hex hex = Some kid -> length kid = KEY_ID_LEN.
Proof.
  unfold key_id_from_hex. destruct (Nat.eqb_spec (length (str_bytes hex)) (KEY_ID_LEN * 2)) as [E|];
    simpl; [|discriminate].
  intros H. apply length_mapM in H. rewrite <- H. apply length_chunks_exact_2. lia.
Qed.

#[global] Instance key_id_hex_inj : Inj (=) (=) key_id_hex.
Proof.
  intros k1 k2 H. unfold key_id_hex in H. apply (f_equal str_bytes) in H.
  rewrite !str_bytes_str in H. apply (f_equal (fun l => mapM hex_chunk (chunks_exact_2 l))) in H.
  rewrite !mapM_hex_chunks in H. by injection H.
Qed.

(** * Keys and their encodings *)

Section keys.
Context `{C : Crypto}.

Definition key_id_for_public_key (public_key : bytes) : KeyId :=
  take KEY_ID_LEN (sha256 public_key).

Definition encode_public_key (public_key : bytes) : string := b64_encode public_key.
Definition encode_signing_key (signing_key : bytes) : string := b64_encode signing_key.

Definition derive_noise_static_private_key (signing_key : bytes) : bytes :=
  sha256 (str_bytes "ghostbro client noise static v1" ++ signing_key).

Definition derive_noise_static_public_key (signing_key : bytes) : bytes :=
  x25519_base (derive_noise_static_private_key signing_key).

Definition derive_noise_public_from_private (private_key : bytes) : bytes :=
  x25519_base private_key.

Definition encode_noise_public_key (public_key : bytes) : string := b64_encode public_key.

Definition decode_noise_public_key (encoded : string) : result KeyError bytes :=
  b ← ok_or InvalidBase64 (b64_decode encoded);
  if (length b =? 32)%nat then Ok b else Err (InvalidNoisePublicKeyLength (blen b)).

Definition decode_signing_key (encoded : string) : result KeyError bytes :=
  b ← ok_or InvalidBase64 (b64_decode encoded);
  if (length b =? 32)%nat then Ok b else Err (InvalidPrivateKeyLength (blen b)).

Definition decode_public_key (encoded : string) : result KeyError bytes :=
  b ← ok_or InvalidBase64 (b64_decode encoded);
  if (length b =? 32)%nat
  then if ed_valid_point b then Ok b else Err InvalidPublicKey
  else Err (InvalidPublicKeyLength (blen b)).

Context {L : CryptoLaws C}.

Lemma key_id_length pk : length (key_id_for_public_key pk) = KEY_ID_LEN.
Proof. unfold key_id_for_public_key. rewrite length_take, sha256_length. done. Qed.

Lemma decode_public_key_Ok s k :
  decode_public_key s = Ok k -> length k = 32%nat /\ ed_valid_point k = true.
Proof.
  unfold decode_public_key. intros H. inv_ok.
  destruct (Nat.eqb_spec (length x) 32); [|discriminate].
  destruct (ed_valid_point x) eqn:E; [|discriminate]. by injection H as <-.
Qed.

Lemma decode_noise_public_key_Ok s k :
  decode_noise_public_key s = Ok k -> length k = 32%nat.
Proof.
  unfold decode_noise_public_key. intros H. inv_ok.
  destruct (Nat.eqb_spec (length x) 32); [|discriminate]. by injection H as <-.
Qed.

(** The three base64 encodings read back ([public_key_round_trips_through_base64],
    [signing_key_round_trips_through_base64] of the test module). *)
Lemma decode_encode_public_key sk :
  decode_public_key (encode_public_key (ed_verifying_key sk)) = Ok (ed_verifying_key sk).
Proof.
  unfold decode_public_key, encode_public_key. rewrite b64_decode_encode. simpl.
  by rewrite ed_verifying_key_length, ed_valid_verifying_key.
Qed.

Lemma decode_encode_signing_key sk :
  length sk = 32%nat -> decode_signing_key (encode_signing_key sk) = Ok sk.
Proof.
  intros H. unfold decode_signing_key, encode_signing_key. rewrite b64_decode_encode. simpl.
  by rewrite H.
Qed.

Lemma decode_encode_noise_key k :
  length k = 32%nat -> decode_noise_public_key (encode_noise_public_key k) = Ok k.
Proof.
  intros H. unfold decode_noise_public_key, encode_noise_public_key.
  rewrite b64_decode_encode. simpl. by rewrite H.
Qed.

End keys.

#[export] Hint Resolve key_id_length : ghost.
