(* ===== verification/Seal.v ===== *)
(** The anonymous sealed box of SPA payloads: [ghostbro-common/src/seal.rs]. *)

From S2P Require Import Prelude Protocol Crypto.

Definition KEY_LABEL : bytes := str_bytes "ghostbro-spa-seal-key-v1".
Definition NONCE_LABEL : bytes := str_bytes "ghostbro-spa-seal-nonce-v1".

Record Opened := {
  plaintext : bytes;
  opened_ephemeral_pub : bytes
}.

Section seal.
Context `{C : Crypto}.

Definition x25519_public_from_private (private_key : bytes) : bytes := x25519_base private_key.

Definition derive_key_nonce (shared ephemeral_pub server_pub : bytes) : bytes * bytes :=
  let key := sha256 (KEY_LABEL ++ shared ++ ephemeral_pub ++ server_pub) in
  let nonce := sha256 (NONCE_LABEL ++ ephemeral_pub ++ server_pub) in
  (key, take 12 nonce).

Definition ephemeral_public (ephemeral_secret : bytes) : bytes := x25519_base ephemeral_secret.

Definition seal_with_ephemeral (msg server_pub ephemeral_secret : bytes) : bytes :=
  let ephemeral_pub := x25519_base ephemeral_secret in
  let shared := x25519_dh ephemeral_secret server_pub in
  let '(key, nonce) := derive_key_nonce shared ephemeral_pub server_pub in
  let ciphertext := aead_encrypt key nonce ephemeral_pub msg in
  ephemeral_pub ++ ciphertext.

(** [generate_ephemeral] is a fresh 32-byte random string, an argument here. *)
Definition seal (msg server_pub fresh_ephemeral : bytes) : bytes :=
  seal_with_ephemeral msg server_pub fresh_ephemeral.

Definition seal_open (sealed_core server_private : bytes) : option Opened :=
  if (length sealed_core <? SPA_EPHEMERAL_LEN + SPA_AEAD_TAG_LEN)%nat then None
  else
    let ephemeral_pub := take SPA_EPHEMERAL_LEN sealed_core in
    let ciphertext := drop SPA_EPHEMERAL_LEN sealed_core in
    let server_pub := x25519_base server_private in
    let shared := x25519_dh server_private ephemeral_pub in
    let '(key, nonce) := derive_key_nonce shared ephemeral_pub server_pub in
    match aead_decrypt key nonce ephemeral_pub ciphertext with
    | Some plaintext => Some {| plaintext := plaintext; opened_ephemeral_pub := ephemeral_pub |}
    | None => None
    end.

Context {L : CryptoLaws C}.

Lemma length_seal msg server_pub eph :
  length (seal_with_ephemeral msg server_pub eph)
  = (SPA_EPHEMERAL_LEN + length msg + SPA_AEAD_TAG_LEN)%nat.
Proof.
  unfold seal_with_ephemeral. destruct (derive_key_nonce _ _ _) as [key nonce].
  rewrite length_app, x25519_base_length, aead_encrypt_length.
  unfold SPA_EPHEMERAL_LEN, SPA_AEAD_TAG_LEN. lia.
Qed.

Lemma seal_open_seal msg server_private eph :
  seal_open (seal_with_ephemeral msg (x25519_base server_private) eph) server_private
  = Some {| plaintext := msg; opened_ephemeral_pub := x25519_base eph |}.
Proof.
  unfold seal_open. rewrite length_seal.
  destruct (Nat.ltb_spec (SPA_EPHEMERAL_LEN + length msg + SPA_AEAD_TAG_LEN)
                         (SPA_EPHEMERAL_LEN + SPA_AEAD_TAG_LEN)); [lia|].
  unfold seal_with_ephemeral. rewrite (x25519_agree eph server_private).
  destruct (derive_key_nonce (x25519_dh server_private (x25519_base eph))
              (x25519_base eph) (x25519_base server_private)) as [key nonce] eqn:E.
  rewrite take_app_le, drop_app_ge by (rewrite x25519_base_length; done).
  rewrite take_ge by (rewrite x25519_base_length; done).
  rewrite x25519_base_length, E. cbn [Nat.sub SPA_EPHEMERAL_LEN]. rewrite drop_0.
  by rewrite aead_decrypt_encrypt.
Qed.

Lemma seal_open_ephemeral core sk o :
  seal_open core sk = Some o -> opened_ephemeral_pub o = take SPA_EPHEMERAL_LEN core.
Proof.
  unfold seal_open. destruct (_ <? _)%nat; [done|].
  destruct (derive_key_nonce _ _ _). destruct (aead_decrypt _ _ _ _); [|done].
  by intros [= <-].
Qed.

Lemma seal_open_ephemeral_length core sk o :
  seal_open core sk = Some o -> length (opened_ephemeral_pub o) = SPA_EPHEMERAL_LEN.
Proof.
  intros H. rewrite (seal_open_ephemeral _ _ _ H), length_take.
  unfold seal_open in H. destruct (Nat.ltb_spec (length core) (SPA_EPHEMERAL_LEN + SPA_AEAD_TAG_LEN));
    [done|]. unfold SPA_EPHEMERAL_LEN in *. lia.
Qed.

End seal.
