(* ===== verification/SpaPacket.v ===== *)
(** The SPA packet: [ghostbro-common/src/spa.rs].

    Building, opening and verifying a sealed single-packet-authorization
    record.  Randomness ([OsRng]) is an argument of [build]. *)

From S2P Require Import Prelude Protocol Crypto Keys Seal.

Inductive SpaMode := Udp | Https.

#[global] Instance SpaMode_eq_dec : EqDecision SpaMode.
Proof. solve_decision. Defined.

Definition mode_flag_bit (m : SpaMode) : Z :=
  match m with Udp => 0 | Https => SPA_FLAG_HTTPS end.

Definition mode_from_flags (flags : Z) : SpaMode :=
  if Z.land flags SPA_FLAG_HTTPS =? 0 then Udp else Https.

(** An [Ipv4Addr] is its [u32] value; [octets] and [from] are big-endian. *)
Definition octets (ip : Z) : bytes := be_bytes ALLOW_IP_LEN ip.

Inductive SpaAllowIp :=
| Explicit (ip : Z)
| PacketSource.

Definition allow_flag_bit (a : SpaAllowIp) : Z :=
  match a with Explicit _ => 0 | PacketSource => SPA_FLAG_USE_PACKET_SOURCE end.

Definition ip_bytes (a : SpaAllowIp) : bytes :=
  match a with
  | Explicit ip => octets ip
  | PacketSource => repeat x00 ALLOW_IP_LEN
  end.

Record SpaPacket := {
  mode : SpaMode;
  use_packet_source : bool;
  key_id : KeyId;
  timestamp_ms : Z;
  counter : Z;
  allow_ip : Z;
  signature : bytes;
  ephemeral_pub : bytes
}.

Inductive SpaError :=
| InvalidLength (n : Z)
| SealOpenFailed
| InvalidVersion
| InvalidFlags (flags : Z)
| BadSignature.

#[global] Instance SpaError_eq_dec : EqDecision SpaError.
Proof. solve_decision. Defined.
#[global] Instance SpaPacket_eq_dec : EqDecision SpaPacket.
Proof. solve_decision. Defined.

(** [signed_message] of the source. *)
Definition signed_message (signed_region ephemeral_pub server_static_pubkey : bytes) : bytes :=
  signed_region ++ ephemeral_pub ++ server_static_pubkey.

(** [read_array::<N>(buf, &mut offset)]: the array and the advanced offset. *)
Definition read_array (n : nat) (buf : bytes) (offset : nat) : bytes * nat :=
  (slice offset (offset + n) buf, (offset + n)%nat).

(** [(OsRng.next_u32() as usize) % (SPA_MAX_PADDING + 1)], the draw an argument. *)
Definition random_padding_len (next_u32 : Z) : nat :=
  (Z.to_nat next_u32 mod (SPA_MAX_PADDING + 1))%nat.

Definition flags_byte (p : SpaPacket) : Z :=
  Z.lor (mode_flag_bit (mode p))
        (if use_packet_source p then SPA_FLAG_USE_PACKET_SOURCE else 0).

Section spa.
Context `{C : Crypto}.

(** The signed region of a new packet (everything except the signature). *)
Definition build_signed_region (signing_key : bytes) (m : SpaMode)
    (timestamp_ms counter : Z) (allow_ip : SpaAllowIp) : bytes :=
  let public_key := ed_verifying_key signing_key in
  let key_id := key_id_for_public_key public_key in
  let flags := Z.lor (mode_flag_bit m) (allow_flag_bit allow_ip) in
  VERSION_PREFIX ++ [z2b flags] ++ key_id ++ be_bytes TIMESTAMP_LEN timestamp_ms
    ++ be_bytes COUNTER_LEN counter ++ ip_bytes allow_ip.

(** [SpaPacket::build_with_padding], with the fresh ephemeral secret passed in. *)
Definition build_with_padding (signing_key : bytes) (m : SpaMode) (timestamp_ms counter : Z)
    (allow_ip : SpaAllowIp) (padding server_static_pubkey ephemeral_secret : bytes) : bytes :=
  let signed_region := build_signed_region signing_key m timestamp_ms counter allow_ip in
  let ephemeral_pub := ephemeral_public ephemeral_secret in
  let signature :=
    ed_sign signing_key (signed_message signed_region ephemeral_pub server_static_pubkey) in
  let inner := signed_region ++ signature in
  seal_with_ephemeral inner server_static_pubkey ephemeral_secret ++ padding.

(** [SpaPacket::build]: [next_u32] and [fill] are the random number generator. *)
Definition build (next_u32 : Z) (fill : nat -> bytes) (ephemeral_secret signing_key : bytes)
    (m : SpaMode) (timestamp_ms counter : Z) (allow_ip : SpaAllowIp)
    (server_static_pubkey : bytes) : bytes :=
  let padding := fill (random_padding_len next_u32) in
  build_with_padding signing_key m timestamp_ms counter allow_ip padding
    server_static_pubkey ephemeral_secret.

(** [SpaPacket::open] *)
Definition spa_open (wire server_static_private : bytes) : result SpaError SpaPacket :=
  if negb ((SPA_MIN_LEN <=? length wire) && (length wire <=? SPA_MAX_LEN))%nat
  then Err (InvalidLength (blen wire))
  else
    let sealed_core := take SPA_SEALED_CORE_LEN wire in
    opened ← ok_or SealOpenFailed (seal_open sealed_core server_static_private);
    if negb (length (plaintext opened) =? SPA_INNER_LEN)%nat then Err SealOpenFailed
    else
      let inner := plaintext opened in
      if negb (bool_decide (slice 0 2 inner = VERSION_PREFIX)) then Err InvalidVersion
      else
        let flags := b2z (nth 2 inner x00) in
        if negb (Z.land flags SPA_RESERVED_FLAGS =? 0) then Err (InvalidFlags flags)
        else
          let offset := 3%nat in
          let '(key_id, offset) := read_array KEY_ID_LEN inner offset in
          let '(ts, offset) := read_array TIMESTAMP_LEN inner offset in
          let '(ctr, offset) := read_array COUNTER_LEN inner offset in
          let '(ip, offset) := read_array ALLOW_IP_LEN inner offset in
          let '(sig, offset) := read_array SIGNATURE_LEN inner offset in
          Ok {| mode := mode_from_flags flags;
                use_packet_source := negb (Z.land flags SPA_FLAG_USE_PACKET_SOURCE =? 0);
                key_id := key_id;
                timestamp_ms := from_be ts;
                counter := from_be ctr;
                allow_ip := from_be ip;
                signature := sig;
                ephemeral_pub := opened_ephemeral_pub opened |}.

(** The signed region [SpaPacket::verify] rebuilds from the parsed fields. *)
Definition packet_signed_region (p : SpaPacket) : bytes :=
  VERSION_PREFIX ++ [z2b (flags_byte p)] ++ key_id p ++ be_bytes TIMESTAMP_LEN (timestamp_ms p)
    ++ be_bytes COUNTER_LEN (counter p) ++ octets (allow_ip p).

(** [SpaPacket::verify] *)
Definition spa_verify (p : SpaPacket) (verifying_key server_static_pubkey : bytes)
    : result SpaError unit :=
  if ed_verify verifying_key
       (signed_message (packet_signed_region p) (ephemeral_pub p) server_static_pubkey)
       (signature p)
  then Ok tt else Err BadSignature.

End spa.

(** * Well-formed packets

    The ranges the Rust field types guarantee. *)
Record packet_wf (p : SpaPacket) : Prop := {
  wf_key_id : length (key_id p) = KEY_ID_LEN;
  wf_timestamp : in_u 64 (timestamp_ms p);
  wf_counter : in_u 64 (counter p);
  wf_allow_ip : in_u 32 (allow_ip p);
  wf_signature : length (signature p) = SIGNATURE_LEN;
  wf_ephemeral : length (ephemeral_pub p) = SPA_EPHEMERAL_LEN
}.

(** Splitting an inner record into its fields. *)
Record inner_fields (inner kid ts ctr ip sig : bytes) (flag : byte) : Prop := {
  if_inner : inner = VERSION_PREFIX ++ [flag] ++ kid ++ ts ++ ctr ++ ip ++ sig;
  if_kid : length kid = KEY_ID_LEN;
  if_ts : length ts = TIMESTAMP_LEN;
  if_ctr : length ctr = COUNTER_LEN;
  if_ip : length ip = ALLOW_IP_LEN;
  if_sig : length sig = SIGNATURE_LEN
}.

(** Cut [n] elements off the front of a list of known length. *)
Lemma cut_front {A} (n : nat) (l : list A) :
  (n <= length l)%nat -> exists a b, l = a ++ b /\ length a = n /\ length b = (length l - n)%nat.
Proof.
  intros H. exists (take n l), (drop n l).
  rewrite take_drop, length_take, length_drop. split_and!; [done | lia | done].
Qed.

Lemma inner_split inner :
  length inner = SPA_INNER_LEN -> slice 0 2 inner = VERSION_PREFIX ->
  exists kid ts ctr ip sig flag, inner_fields inner kid ts ctr ip sig flag.
Proof.
  intros Hl Hv.
  destruct (cut_front 2 inner) as (pre & l1 & -> & Hp & H1); [rewrite Hl; cbv; lia|].
  destruct l1 as [|flag l2]; [rewrite Hl in H1; discriminate|].
  rewrite slice_app_l in Hv by done. subst pre.
  assert (H2 : length l2 = 92%nat).
  { rewrite length_app in Hl. cbn in Hl. injection Hl. done. }
  destruct (cut_front 8 l2) as (kid & l3 & -> & ? & E3); [lia|].
  destruct (cut_front 8 l3) as (ts & l4 & -> & ? & E4); [lia|].
  destruct (cut_front 8 l4) as (ctr & l5 & -> & ? & E5); [lia|].
  destruct (cut_front 4 l5) as (ip & sig & -> & ? & E6); [lia|].
  exists kid, ts, ctr, ip, sig, flag. split; try done.
  unfold SIGNATURE_LEN. lia.
Qed.

Lemma inner_read inner kid ts ctr ip sig flag :
  inner_fields inner kid ts ctr ip sig flag ->
  length inner = SPA_INNER_LEN /\ slice 0 2 inner = VERSION_PREFIX /\ nth 2 inner x00 = flag /\
  slice 3 11 inner = kid /\ slice 11 19 inner = ts /\ slice 19 27 inner = ctr /\
  slice 27 31 inner = ip /\ slice 31 95 inner = sig.
Proof.
  intros [-> Hk Ht Hc Hi Hs].
  unfold KEY_ID_LEN, TIMESTAMP_LEN, COUNTER_LEN, ALLOW_IP_LEN, SIGNATURE_LEN in *.
  split_and!; [|done|done|..].
  - rewrite !length_app, Hk, Ht, Hc, Hi, Hs. done.
  - rewrite (app_assoc VERSION_PREFIX). by rewrite slice_app_mid by (simpl; lia).
  - rewrite (app_assoc VERSION_PREFIX), (app_assoc _ kid).
    by rewrite slice_app_mid by (rewrite ?length_app; simpl; lia).
  - rewrite (app_assoc VERSION_PREFIX), (app_assoc _ kid), (app_assoc _ ts).
    by rewrite slice_app_mid by (rewrite ?length_app; simpl; lia).
  - rewrite (app_assoc VERSION_PREFIX), (app_assoc _ kid), (app_assoc _ ts), (app_assoc _ ctr).
    by rewrite slice_app_mid by (rewrite ?length_app; simpl; lia).
  - rewrite (app_assoc VERSION_PREFIX), (app_assoc _ kid), (app_assoc _ ts), (app_assoc _ ctr),
      (app_assoc _ ip).
    by rewrite slice_app_r by (rewrite ?length_app; simpl; lia).
Qed.

(** The two flag bits survive parsing and re-encoding when no reserved bit is set. *)
Lemma flags_reencode flag :
  Z.land (b2z flag) SPA_RESERVED_FLAGS = 0 ->
  z2b (Z.lor (mode_flag_bit (mode_from_flags (b2z flag)))
             (if negb (Z.land (b2z flag) SPA_FLAG_USE_PACKET_SOURCE =? 0)
              then SPA_FLAG_USE_PACKET_SOURCE else 0)) = flag.
Proof. destruct flag; vm_compute; congruence. Qed.

Lemma flags_build m a :
  let flags := Z.lor (mode_flag_bit m) (allow_flag_bit a) in
  b2z (z2b flags) = flags /\ Z.land flags SPA_RESERVED_FLAGS = 0 /\
  mode_from_flags flags = m /\
  negb (Z.land flags SPA_FLAG_USE_PACKET_SOURCE =? 0)
    = match a with Explicit _ => false | PacketSource => true end.
Proof. destruct m, a; vm_compute; auto. Qed.

Section spa_props.
Context `{C : Crypto}.

(** The packet [open] builds from the fields of an opened record. *)
Definition packet_of (kid ts ctr ip sig eph : bytes) (flag : byte) : SpaPacket :=
  {| mode := mode_from_flags (b2z flag);
     use_packet_source := negb (Z.land (b2z flag) SPA_FLAG_USE_PACKET_SOURCE =? 0);
     key_id := kid; timestamp_ms := from_be ts; counter := from_be ctr;
     allow_ip := from_be ip; signature := sig; ephemeral_pub := eph |}.

Lemma spa_open_fields wire sk opened kid ts ctr ip sig flag :
  (SPA_MIN_LEN <= length wire <= SPA_MAX_LEN)%nat ->
  seal_open (take SPA_SEALED_CORE_LEN wire) sk = Some opened ->
  inner_fields (plaintext opened) kid ts ctr ip sig flag ->
  Z.land (b2z flag) SPA_RESERVED_FLAGS = 0 ->
  spa_open wire sk = Ok (packet_of kid ts ctr ip sig (opened_ephemeral_pub opened) flag).
Proof.
  intros Hw Ho Hf Hr. destruct (inner_read _ _ _ _ _ _ _ Hf) as (Hl & Hv & Hn & E1 & E2 & E3 & E4 & E5).
  unfold spa_open. destruct (Nat.leb_spec SPA_MIN_LEN (length wire)); [|lia].
  destruct (Nat.leb_spec (length wire) SPA_MAX_LEN); [|lia]. simpl negb. cbn iota.
  rewrite Ho. cbn [ok_or mbind result_bind]. rewrite Hl, Hv, Hn, Hr.
  rewrite (bool_decide_eq_true_2 (VERSION_PREFIX = VERSION_PREFIX)) by done.
  rewrite Nat.eqb_refl, Z.eqb_refl. subst. reflexivity.
Qed.

Lemma spa_open_inv wire sk p :
  spa_open wire sk = Ok p ->
  exists opened kid ts ctr ip sig flag,
    (SPA_MIN_LEN <= length wire <= SPA_MAX_LEN)%nat /\
    seal_open (take SPA_SEALED_CORE_LEN wire) sk = Some opened /\
    inner_fields (plaintext opened) kid ts ctr ip sig flag /\
    Z.land (b2z flag) SPA_RESERVED_FLAGS = 0 /\
    p = packet_of kid ts ctr ip sig (opened_ephemeral_pub opened) flag.
Proof.
  intros H. pose proof H as H'. unfold spa_open in H.
  destruct (Nat.leb_spec SPA_MIN_LEN (length wire)); [|discriminate].
  destruct (Nat.leb_spec (length wire) SPA_MAX_LEN); [|discriminate].
  cbn [andb negb] in H. apply bind_Ok_inv in H as (opened & Ho & H). apply ok_or_Ok in Ho.
  destruct (Nat.eqb_spec (length (plaintext opened)) SPA_INNER_LEN) as [Hl|]; [|discriminate].
  destruct (bool_decide (slice 0 2 _ = _)) eqn:Hv; [|discriminate].
  apply bool_decide_eq_true in Hv. cbn [negb] in H.
  destruct (Z.eqb_spec (Z.land (b2z (nth 2 (plaintext opened) x00)) SPA_RESERVED_FLAGS) 0) as [Hr|];
    [|discriminate].
  destruct (inner_split _ Hl Hv) as (kid & ts & ctr & ip & sig & flag & Hf).
  destruct (inner_read _ _ _ _ _ _ _ Hf) as (_ & _ & Hn & _). rewrite Hn in Hr.
  exists opened, kid, ts, ctr, ip, sig, flag. split_and!; try done.
  rewrite (spa_open_fields wire sk opened kid ts ctr ip sig flag) in H' by done.
  by injection H'.
Qed.

End spa_props.

(** * Correctness of the packet format *)

Section spa_correct.
Context `{C : Crypto} {L : CryptoLaws C}.

Lemma open_wf wire sk p : spa_open wire sk = Ok p -> packet_wf p.
Proof.
  intros H. apply spa_open_inv in H as (o & kid & ts & ctr & ip & sig & flag & _ & Ho & [? ? Ht Hc Hi ?] & _ & ->).
  split; simpl; try done.
  - by apply (from_be_in_u 8).
  - by apply (from_be_in_u 8).
  - by apply (from_be_in_u 4).
  - by eapply seal_open_ephemeral_length.
Qed.

Lemma length_packet_signed_region p :
  packet_wf p -> length (packet_signed_region p) = SPA_INNER_SIGNED_LEN.
Proof.
  intros Hwf. unfold packet_signed_region, octets.
  by rewrite !length_app, !length_be_bytes, (wf_key_id _ Hwf).
Qed.

Lemma open_signed_region wire sk p :
  spa_open wire sk = Ok p ->
  exists opened, seal_open (take SPA_SEALED_CORE_LEN wire) sk = Some opened /\
    plaintext opened = packet_signed_region p ++ signature p /\
    ephemeral_pub p = take SPA_EPHEMERAL_LEN wire.
Proof.
  intros H. apply spa_open_inv in H as
    (o & kid & ts & ctr & ip & sig & flag & Hw & Ho & [Hin Hk Ht Hc Hi Hs] & Hr & ->).
  exists o. split; [done|]. split.
  - rewrite Hin. unfold packet_signed_region, flags_byte, octets, packet_of.
    cbn [mode use_packet_source key_id timestamp_ms counter allow_ip signature].
    rewrite flags_reencode by done.
    assert (be_bytes TIMESTAMP_LEN (from_be ts) = ts) as -> by (rewrite <- Ht; apply be_bytes_from_be).
    assert (be_bytes COUNTER_LEN (from_be ctr) = ctr) as -> by (rewrite <- Hc; apply be_bytes_from_be).
    assert (be_bytes ALLOW_IP_LEN (from_be ip) = ip) as -> by (rewrite <- Hi; apply be_bytes_from_be).
    by rewrite <- !app_assoc.
  - simpl. by rewrite (seal_open_ephemeral _ _ _ Ho), take_take.
Qed.

Lemma length_build_signed_region sk m ts ctr a :
  length (build_signed_region sk m ts ctr a) = SPA_INNER_SIGNED_LEN.
Proof.
  unfold build_signed_region. rewrite !length_app, key_id_length, !length_be_bytes.
  destruct a; [unfold ip_bytes, octets; rewrite length_be_bytes; done | done].
Qed.

Lemma build_length sk m ts ctr a padding server_pub eph :
  length (build_with_padding sk m ts ctr a padding server_pub eph)
  = (SPA_MIN_LEN + length padding)%nat.
Proof.
  unfold build_with_padding. rewrite length_app, length_seal, length_app,
    length_build_signed_region, ed_sign_length. done.
Qed.

Lemma random_padding_bound r : (random_padding_len r <= SPA_MAX_PADDING)%nat.
Proof.
  unfold random_padding_len.
  pose proof (Nat.mod_upper_bound (Z.to_nat r) (SPA_MAX_PADDING + 1)). lia.
Qed.

Definition built_packet (sk : bytes) (m : SpaMode) (ts ctr : Z) (a : SpaAllowIp)
    (server_pub eph : bytes) : SpaPacket :=
  {| mode := m;
     use_packet_source := match a with Explicit _ => false | PacketSource => true end;
     key_id := key_id_for_public_key (ed_verifying_key sk);
     timestamp_ms := ts; counter := ctr;
     allow_ip := match a with Explicit ip => ip | PacketSource => 0 end;
     signature := ed_sign sk (signed_message (build_signed_region sk m ts ctr a)
                                (ephemeral_public eph) server_pub);
     ephemeral_pub := ephemeral_public eph |}.

Lemma open_build_with_padding sk m ts ctr a padding server_private eph :
  in_u 64 ts -> in_u 64 ctr ->
  (forall ip, a = Explicit ip -> in_u 32 ip) ->
  (length padding <= SPA_MAX_PADDING)%nat ->
  spa_open (build_with_padding sk m ts ctr a padding (x25519_base server_private) eph) server_private
  = Ok (built_packet sk m ts ctr a (x25519_base server_private) eph).
Proof.
  intros Hts Hctr Hip Hpad.
  set (srv := x25519_base server_private).
  set (flags := Z.lor (mode_flag_bit m) (allow_flag_bit a)).
  destruct (flags_build m a) as (Hf & Hr & Hm & Hu). fold flags in Hf, Hr, Hm, Hu.
  set (sig := ed_sign sk (signed_message (build_signed_region sk m ts ctr a) (ephemeral_public eph) srv)).
  rewrite (spa_open_fields _ _
    {| plaintext := build_signed_region sk m ts ctr a ++ sig; opened_ephemeral_pub := x25519_base eph |}
    (key_id_for_public_key (ed_verifying_key sk)) (be_bytes TIMESTAMP_LEN ts) (be_bytes COUNTER_LEN ctr) (ip_bytes a) sig (z2b flags)).
  - unfold packet_of, built_packet. rewrite Hf, Hm, Hu. cbn [opened_ephemeral_pub]. f_equal. f_equal.
    + by apply (from_be_u 8).
    + by apply (from_be_u 8).
    + destruct a as [ip|]; [|done]. by apply (from_be_u 4), Hip.
  - rewrite build_length. change SPA_MAX_LEN with (SPA_MIN_LEN + SPA_MAX_PADDING)%nat. lia.
  - unfold build_with_padding. rewrite take_app_le.
    2: { rewrite length_seal, length_app, length_build_signed_region, ed_sign_length. done. }
    rewrite take_ge.
    2: { rewrite length_seal, length_app, length_build_signed_region, ed_sign_length. done. }
    apply seal_open_seal.
  - cbn [plaintext]. split; [|apply key_id_length|apply length_be_bytes..| |apply ed_sign_length].
    + unfold build_signed_region. by rewrite <- !app_assoc.
    + destruct a; [apply length_be_bytes | done].
  - by rewrite Hf.
Qed.

Lemma build_regions_agree sk m ts ctr a server_pub eph :
  packet_signed_region (built_packet sk m ts ctr a server_pub eph)
  = build_signed_region sk m ts ctr a.
Proof.
  unfold packet_signed_region, build_signed_region, built_packet, flags_byte, octets.
  cbn [mode use_packet_source key_id timestamp_ms counter allow_ip].
  by destruct a.
Qed.

Lemma verify_built sk m ts ctr a server_pub eph :
  spa_verify (built_packet sk m ts ctr a server_pub eph) (ed_verifying_key sk) server_pub = Ok tt.
Proof.
  unfold spa_verify. rewrite build_regions_agree. cbn [ephemeral_pub signature built_packet].
  by rewrite ed_verify_sign.
Qed.

Lemma length_build next_u32 fill eph sk m ts ctr a server_pub :
  (forall n, length (fill n) = n) ->
  (SPA_MIN_LEN <= length (build next_u32 fill eph sk m ts ctr a server_pub) <= SPA_MAX_LEN)%nat.
Proof.
  intros Hfill. unfold build. pose proof (random_padding_bound next_u32) as Hb.
  rewrite build_length, Hfill. change SPA_MAX_LEN with (SPA_MIN_LEN + SPA_MAX_PADDING)%nat. lia.
Qed.

(** C9: a packet built for a server opens there with exactly the fields the
    client put in, its signature verifies under the client's key, and its length
    is inside the window the kernel pre-filter and the parser accept. *)
Theorem spa_build_open_verify next_u32 fill eph sk m ts ctr a server_private :
  in_u 64 ts -> in_u 64 ctr ->
  (forall ip, a = Explicit ip -> in_u 32 ip) ->
  (forall n, length (fill n) = n) ->
  let server_pub := x25519_public_from_private server_private in
  let wire := build next_u32 fill eph sk m ts ctr a server_pub in
  (SPA_MIN_LEN <= length wire <= SPA_MAX_LEN)%nat /\
  exists p, spa_open wire server_private = Ok p /\
    mode p = m /\ timestamp_ms p = ts /\ counter p = ctr /\
    key_id p = key_id_for_public_key (ed_verifying_key sk) /\
    use_packet_source p = (match a with Explicit _ => false | PacketSource => true end) /\
    (forall ip, a = Explicit ip -> allow_ip p = ip) /\
    spa_verify p (ed_verifying_key sk) server_pub = Ok tt.
Proof.
  intros Hts Hctr Hip Hfill server_pub wire. unfold wire, build.
  pose proof (random_padding_bound next_u32) as Hb. split; [by apply length_build|].
  - exists (built_packet sk m ts ctr a server_pub eph).
    unfold server_pub, x25519_public_from_private.
    rewrite open_build_with_padding by (rewrite ?Hfill; done).
    split_and!; try done.
    + by intros ip ->.
    + apply verify_built.
Qed.

(** The signature check covers exactly what was transmitted: for every wire
    payload that opens, the bytes [verify] re-encodes from the parsed fields are
    the sealed record's bytes before the signature, and the ephemeral key in the
    signed message is the one on the wire, so no field can be altered without
    changing the verified message. *)
Theorem spa_verify_covers_wire wire sk p vk server_pub :
  spa_open wire sk = Ok p ->
  packet_wf p /\
  exists opened,
    seal_open (take SPA_SEALED_CORE_LEN wire) sk = Some opened /\
    spa_verify p vk server_pub
    = if ed_verify vk
           (signed_message (take SPA_INNER_SIGNED_LEN (plaintext opened))
              (take SPA_EPHEMERAL_LEN wire) server_pub)
           (drop SPA_INNER_SIGNED_LEN (plaintext opened))
      then Ok tt else Err BadSignature.
Proof.
  intros H. pose proof (open_wf _ _ _ H) as Hwf. split; [done|].
  destruct (open_signed_region _ _ _ H) as (o & Ho & Hin & He).
  pose proof (length_packet_signed_region _ Hwf) as Hl.
  exists o. split; [done|]. unfold spa_verify. rewrite Hin, <- Hl, take_app_length, drop_app_length.
  by rewrite <- He.
Qed.

(** The signed message determines its three parts. *)
Lemma signed_message_inj r1 e1 s1 r2 e2 s2 :
  length r1 = length r2 -> length e1 = length e2 ->
  signed_message r1 e1 s1 = signed_message r2 e2 s2 -> r1 = r2 /\ e1 = e2 /\ s1 = s2.
Proof.
  unfold signed_message. intros Hr He H.
  apply app_inj_1 in H as [-> H]; [|done]. by apply app_inj_1 in H as [-> ->].
Qed.

Lemma packet_signed_region_inj p q :
  packet_wf p -> packet_wf q -> packet_signed_region p = packet_signed_region q ->
  mode p = mode q /\ use_packet_source p = use_packet_source q /\ key_id p = key_id q /\
  timestamp_ms p = timestamp_ms q /\ counter p = counter q /\ allow_ip p = allow_ip q.
Proof.
  intros [Hk1 Ht1 Hc1 Ha1 _ _] [Hk2 Ht2 Hc2 Ha2 _ _] H. unfold packet_signed_region in H.
  apply app_inv_head in H. apply app_inj_1 in H as [Hf H]; [|done]. injection Hf as Hf.
  apply app_inj_1 in H as [Hk H]; [|by rewrite Hk1, Hk2].
  apply app_inj_1 in H as [Ht H]; [|by rewrite !length_be_bytes].
  apply app_inj_1 in H as [Hc Ha]; [|by rewrite !length_be_bytes].
  apply (f_equal from_be) in Ht, Hc, Ha.
  rewrite !(from_be_u 8) in Ht by done. rewrite !(from_be_u 8) in Hc by done.
  unfold octets in Ha. rewrite !(from_be_u 4) in Ha by done.
  assert (mode p = mode q /\ use_packet_source p = use_packet_source q) as [? ?].
  { unfold flags_byte in Hf. destruct (mode p), (mode q), (use_packet_source p), (use_packet_source q);
      auto; discriminate Hf. }
  by split_and!.
Qed.

(** Binding.  A signature message verified for a packet at one server
    determines the packet's every field, the per-packet ephemeral key and the
    server's static key: two well-formed packets with the same signed message
    agree on all of them, so a captured signature cannot be moved to another
    record, another seal or another server. *)
Theorem spa_signed_message_binds p q server1 server2 :
  packet_wf p -> packet_wf q ->
  signed_message (packet_signed_region p) (ephemeral_pub p) server1
  = signed_message (packet_signed_region q) (ephemeral_pub q) server2 ->
  mode p = mode q /\ use_packet_source p = use_packet_source q /\ key_id p = key_id q /\
  timestamp_ms p = timestamp_ms q /\ counter p = counter q /\ allow_ip p = allow_ip q /\
  ephemeral_pub p = ephemeral_pub q /\ server1 = server2.
Proof.
  intros Hp Hq H. apply signed_message_inj in H as (Hr & He & Hs).
  - destruct (packet_signed_region_inj p q Hp Hq Hr) as (? & ? & ? & ? & ? & ?). auto 10.
  - by rewrite !length_packet_signed_region.
  - by rewrite (wf_ephemeral _ Hp), (wf_ephemeral _ Hq).
Qed.

End spa_correct.
