(* ===== verification/Fs.v ===== *)
(** Paths and files of the standard library, as far as the program uses them.

    [std::path] on byte-string paths, and a file store with the operations the
    program performs.  The store has two readings: [fs_apply] is what running
    processes observe, and [crash_images] the disk contents that may be found
    after a crash, where data is durable only once synced and a rename is atomic
    but may still be lost. *)

From S2P Require Import Prelude.

(** * Paths *)

Definition slash : byte := z2b 47.
Definition dot : byte := z2b 46.

(** Drop trailing separators and [.] components (on the reversed path). *)
Fixpoint strip_trailing (r : bytes) : bytes :=
  match r with
  | a :: r' =>
      if bool_decide (a = slash) then strip_trailing r'
      else match r' with
           | b :: r'' =>
               if bool_decide (a = dot) && bool_decide (b = slash) then strip_trailing r'' else r
           | [] => r
           end
  | [] => []
  end.

Fixpoint take_until (c : byte) (r : bytes) : bytes :=
  match r with
  | a :: r' => if bool_decide (a = c) then [] else a :: take_until c r'
  | [] => []
  end.

(** [Path::file_name] together with the path before it. *)
Definition file_name_split (p : bytes) : option (bytes * bytes) :=
  let r := strip_trailing (reverse p) in
  let seg := take_until slash r in
  if bool_decide (seg = []) || bool_decide (seg = [dot]) || bool_decide (seg = [dot; dot])
  then None
  else Some (reverse (drop (length seg) r), reverse seg).

(** [rsplit_file_at_dot]: stem and extension of a file name. *)
Definition stem_ext (name : bytes) : bytes * option bytes :=
  let r := reverse name in
  let after := take_until dot r in
  if (length after =? length r)%nat then (name, None)
  else let before := reverse (drop (S (length after)) r) in
       if bool_decide (before = []) then (name, None) else (before, Some (reverse after)).

Definition extension (p : string) : option string :=
  match file_name_split (str_bytes p) with
  | Some (_, name) => bytes_str <$> snd (stem_ext name)
  | None => None
  end.

(** [Path::with_extension] *)
Definition with_extension (p ext : string) : string :=
  match file_name_split (str_bytes p) with
  | Some (dir, name) =>
      bytes_str (dir ++ fst (stem_ext name)
                 ++ (if bool_decide (ext = ""%string) then [] else dot :: str_bytes ext))
  | None => p
  end.

(** [Path::join] of a path with a component. *)
Definition path_join (base p : string) : string :=
  match str_bytes p with
  | a :: _ => if bool_decide (a = slash) then p
              else match reverse (str_bytes base) with
                   | [] => p
                   | b :: _ => if bool_decide (b = slash) then base +:+ p
                               else base +:+ "/" +:+ p
                   end
  | [] => match reverse (str_bytes base) with
          | [] => ""
          | b :: _ => if bool_decide (b = slash) then base else base +:+ "/"
          end
  end.

(** * Files *)

(** Contents by path. *)
Abbreviation store := (gmap string string).

Inductive fs_op :=
| OpMkdirAll (dir_of : string)          (** [fs::create_dir_all] of a file's directory *)
| OpCreate (p : string)                 (** [File::create]: create or truncate *)
| OpWrite (p : string) (data : string)  (** append to an open file *)
| OpSync (p : string)                   (** [File::sync_all] *)
| OpRename (from to : string)
| OpRemove (p : string).

Definition fs_apply (op : fs_op) (s : store) : store :=
  match op with
  | OpMkdirAll _ | OpSync _ => s
  | OpCreate p => <[p := ""%string]> s
  | OpWrite p data => <[p := default ""%string (s !! p) +:+ data]> s
  | OpRename a b =>
      match s !! a with Some c => <[b := c]> (delete a s) | None => s end
  | OpRemove p => delete p s
  end.

Definition fs_run (ops : list fs_op) (s : store) : store := foldl (fun s op => fs_apply op s) s ops.

(** The disk images a crash may leave, before ([img]) and after an operation,
    when the running system shows [s]: an unsynced write may be torn in any way,
    syncing pins the data, and a rename takes effect atomically or not at all. *)
Definition crash_step (op : fs_op) (s : store) (img : store -> Prop) : store -> Prop :=
  match op with
  | OpMkdirAll _ => img
  | OpCreate p => fun i => img i \/ exists i0, img i0 /\ i = <[p := ""%string]> i0
  | OpWrite p _ => fun i => img i \/ exists i0 c, img i0 /\ i = <[p := c]> i0
  | OpSync p =>
      fun i => exists i0, img i0 /\
        (i = delete p i0 \/ exists c, s !! p = Some c /\ i = <[p := c]> i0)
  | OpRename a b =>
      fun i => img i \/ exists i0 c, img i0 /\ i0 !! a = Some c /\ i = <[b := c]> (delete a i0)
  | OpRemove p => fun i => img i \/ exists i0, img i0 /\ i = delete p i0
  end.

Fixpoint crash_images (ops : list fs_op) (s : store) (img : store -> Prop) : store -> Prop :=
  match ops with
  | [] => img
  | op :: ops' => crash_images ops' (fs_apply op s) (crash_step op s img)
  end.

Lemma fs_run_app o1 o2 s : fs_run (o1 ++ o2) s = fs_run o2 (fs_run o1 s).
Proof. unfold fs_run. by rewrite foldl_app. Qed.

Lemma crash_images_app o1 o2 s img i :
  crash_images (o1 ++ o2) s img i
  <-> crash_images o2 (fs_run o1 s) (crash_images o1 s img) i.
Proof. revert s img; induction o1 as [|op o1 IH]; intros s img; simpl; [done|]. apply IH. Qed.

(** The lookup of a path no operation touches is the same in every image. *)
Definition op_touches (op : fs_op) (p : string) : Prop :=
  match op with
  | OpMkdirAll _ => False
  | OpCreate q | OpWrite q _ | OpSync q | OpRemove q => q = p
  | OpRename a b => a = p \/ b = p
  end.

Lemma crash_step_untouched op s (img : store -> Prop) p (P : option string -> Prop) :
  ~ op_touches op p -> (forall i, img i -> P (i !! p)) ->
  forall i, crash_step op s img i -> P (i !! p).
Proof.
  intros Hn Himg i Hi. destruct op; simpl in *.
  - eauto.
  - destruct Hi as [Hi|(i0 & Hi & ->)]; [eauto|]. rewrite lookup_insert_ne by done. eauto.
  - destruct Hi as [Hi|(i0 & c & Hi & ->)]; [eauto|]. rewrite lookup_insert_ne by done. eauto.
  - destruct Hi as (i0 & Hi & [->|(c & _ & ->)]);
      [rewrite lookup_delete_ne by done | rewrite lookup_insert_ne by done]; eauto.
  - destruct Hi as [Hi|(i0 & c & Hi & _ & ->)]; [eauto|].
    rewrite lookup_insert_ne, lookup_delete_ne by tauto. eauto.
  - destruct Hi as [Hi|(i0 & Hi & ->)]; [eauto|]. rewrite lookup_delete_ne by done. eauto.
Qed.

(** * File names and extensions *)

Lemma take_until_app c l k : Forall (fun b => b <> c) l -> take_until c (l ++ k) = l ++ take_until c k.
Proof. induction 1 as [|b l Hb _ IH]; [done|]. cbn. rewrite bool_decide_eq_false_2 by done. by rewrite IH. Qed.

Lemma take_until_split c l : exists k, l = take_until c l ++ k.
Proof.
  induction l as [|b l [k IH]]; [by exists []|]. cbn. case_bool_decide; [by eexists|]. exists k. cbn. by rewrite <-IH.
Qed.

(** A name without separator at its end and with an extension added. *)
Lemma file_name_split_ext out (ext : bytes) :
  ext <> [] -> Forall (fun b => b <> slash /\ b <> dot) ext -> out <> [] -> last out <> Some slash ->
  exists dir name, name <> [] /\ out = dir ++ name /\
    file_name_split (out ++ dot :: ext) = Some (dir, name ++ dot :: ext).
Proof.
  intros Hext Hf Ho Hl. unfold file_name_split. rewrite reverse_app, reverse_cons, <-app_assoc. cbn [app].
  assert (Hr : Forall (fun b => b <> slash /\ b <> dot) (reverse ext)) by by apply Forall_reverse.
  assert (Hr0 : reverse ext <> []) by (intros H; apply Hext; by rewrite <-(reverse_involutive ext), H).
  assert (Hst : strip_trailing (reverse ext ++ dot :: reverse out) = reverse ext ++ dot :: reverse out).
  { destruct (reverse ext) as [|b r]; [done|]. apply Forall_cons in Hr as [[H1 H2] _]. cbn.
    rewrite !bool_decide_eq_false_2 by done. by destruct (r ++ dot :: reverse out). }
  rewrite Hst. rewrite take_until_app by (eapply Forall_impl; [exact Hr|]; naive_solver).
  cbn [take_until]. rewrite (bool_decide_eq_false_2 (dot = slash)) by done.
  destruct (take_until_split slash (reverse out)) as [k Hk].
  set (t := take_until slash (reverse out)) in *.
  assert (Ht : t <> []).
  { intros E. destruct out as [|x out' _] using rev_ind; [done|]. subst t. rewrite reverse_app in E. cbn in E.
    rewrite last_snoc in Hl. by rewrite bool_decide_eq_false_2 in E by naive_solver. }
  destruct (reverse ext) as [|b r] eqn:Er; [done|].
  apply Forall_cons in Hr as [[Hb1 Hb2] _].
  cbn [app]. rewrite !bool_decide_eq_false_2 by (intros E; simplify_eq). cbn [orb].
  exists (reverse k), (reverse t). split_and!.
  - intros E. apply Ht. by rewrite <-(reverse_involutive t), E.
  - rewrite <-reverse_app, <-Hk. by rewrite reverse_involutive.
  - f_equal. f_equal.
    + f_equal. change (b :: r ++ dot :: t) with ((b :: r) ++ dot :: t). change (b :: r ++ dot :: reverse out) with ((b :: r) ++ dot :: reverse out).
      rewrite length_app. cbn [length]. rewrite Hk.
      replace ((b :: r) ++ dot :: t ++ k) with (((b :: r) ++ dot :: t) ++ k) by by rewrite <-app_assoc.
      apply drop_app_length'. rewrite length_app. done.
    + change (b :: r ++ dot :: t) with ((b :: r) ++ dot :: t). rewrite <-Er, reverse_app, reverse_cons, reverse_involutive.
      by rewrite <-app_assoc.
Qed.

Lemma stem_ext_dot name ext :
  name <> [] -> Forall (fun b => b <> dot) ext -> stem_ext (name ++ dot :: ext) = (name, Some ext).
Proof.
  intros Hn Hf. unfold stem_ext. rewrite reverse_app, reverse_cons, <-app_assoc. cbn [app].
  rewrite take_until_app by by apply Forall_reverse. cbn [take_until]. rewrite bool_decide_eq_true_2, app_nil_r by done.
  rewrite !length_app. cbn [length].
  destruct (Nat.eqb_spec (length (reverse ext)) (length (reverse ext) + S (length (reverse name)))); [lia|].
  replace (reverse ext ++ dot :: reverse name) with ((reverse ext ++ [dot]) ++ reverse name) by by rewrite <-app_assoc.
  rewrite drop_app_length' by (rewrite length_app; cbn; lia). rewrite !reverse_involutive.
  by rewrite bool_decide_eq_false_2.
Qed.

(** A plain name with an extension has this extension. *)
Lemma extension_dot (p ext : string) :
  str_bytes p <> [] -> last (str_bytes p) <> Some slash -> str_bytes ext <> [] ->
  Forall (fun b => b <> slash /\ b <> dot) (str_bytes ext) -> extension (p +:+ "." +:+ ext) = Some ext.
Proof.
  intros Hp Hl He Hf. unfold extension. rewrite str_bytes_app. change (str_bytes ("." +:+ ext)) with (dot :: str_bytes ext).
  destruct (file_name_split_ext _ _ He Hf Hp Hl) as (dir & name & Hn & _ & ->). cbn [snd].
  rewrite stem_ext_dot; [|done|eapply Forall_impl; [exact Hf|]; naive_solver]. cbn. by rewrite bytes_str_bytes.
Qed.
