(* ===== verification/AuthKeys.v ===== *)
(** The enrolled clients: [ghostbro-server/src/keys.rs]. *)

From S2P Require Import Prelude Protocol Crypto Keys.

Inductive ClientTier := Full | Decoy.

#[global] Instance ClientTier_eq_dec : EqDecision ClientTier.
Proof. solve_decision. Defined.

Record AuthorizedClientConfig := {
  cfg_name : string;
  cfg_public_key : string;
  cfg_noise_public_key : string;
  cfg_tier : ClientTier;
  cfg_max_concurrent_sessions : option Z
}.

Record AuthorizedClient := {
  ac_name : string;
  ac_public_key : bytes;
  ac_noise_public_key : bytes;
  ac_key_id : KeyId;
  ac_client_id : Z;
  ac_tier : ClientTier;
  ac_max_concurrent_sessions : option Z
}.

(** [u16::try_from(index + 1).unwrap_or(u16::MAX)] *)
Definition index_to_client_id (index : nat) : Z :=
  default (umax 16) (try_from 16 (Z.of_nat index + 1)).

(** Errors of [AuthorizedKeysFile::load] and of the reload that uses it. *)
Inductive KeysFileError :=
| KeysRead
| KeysParse
| KeysDecode (e : KeyError).

Definition key_id_from_slice (b : bytes) : option KeyId :=
  if negb (length b =? KEY_ID_LEN)%nat then None else Some b.

Section auth_keys.
Context `{C : Crypto}.

Definition from_config (config : AuthorizedClientConfig) (client_id : Z)
    : result KeyError AuthorizedClient :=
  public_key ← decode_public_key (cfg_public_key config);
  noise_public_key ← decode_noise_public_key (cfg_noise_public_key config);
  let key_id := key_id_for_public_key public_key in
  Ok {| ac_name := cfg_name config;
        ac_public_key := public_key;
        ac_noise_public_key := noise_public_key;
        ac_key_id := key_id;
        ac_client_id := client_id;
        ac_tier := cfg_tier config;
        ac_max_concurrent_sessions := cfg_max_concurrent_sessions config |}.

(** [into_iter().enumerate().map(...).collect()] *)
Definition into_clients (configs : list AuthorizedClientConfig)
    : result KeyError (list AuthorizedClient) :=
  result_map (fun '(index, config) => from_config config (index_to_client_id index))
             (imap pair configs).

(** [AuthorizedKeysFile::load]: the file's contents if readable, and the TOML
    reader, are arguments. *)
Definition load_authorized_keys (contents : option string)
    (toml_keys : string -> option (list AuthorizedClientConfig))
    : result KeysFileError (list AuthorizedClientConfig) :=
  text ← ok_or KeysRead contents;
  ok_or KeysParse (toml_keys text).

Lemma index_to_client_id_small i :
  Z.of_nat i < umax 16 -> index_to_client_id i = Z.of_nat i + 1.
Proof.
  intros H. unfold index_to_client_id, try_from.
  destruct (Z.leb_spec 0 (Z.of_nat i + 1)); [|lia].
  destruct (Z.leb_spec (Z.of_nat i + 1) (umax 16)); [done | lia].
Qed.

Lemma index_to_client_id_range i : 1 <= index_to_client_id i <= umax 16.
Proof.
  unfold index_to_client_id, try_from. change (umax 16) with 65535.
  destruct (Z.leb_spec 0 (Z.of_nat i + 1)); destruct (Z.leb_spec (Z.of_nat i + 1) 65535); simpl; lia.
Qed.

Lemma from_config_Ok cfg cid ac :
  from_config cfg cid = Ok ac ->
  ac_name ac = cfg_name cfg /\ ac_client_id ac = cid /\ ac_tier ac = cfg_tier cfg /\
  ac_max_concurrent_sessions ac = cfg_max_concurrent_sessions cfg /\
  decode_public_key (cfg_public_key cfg) = Ok (ac_public_key ac) /\
  decode_noise_public_key (cfg_noise_public_key cfg) = Ok (ac_noise_public_key ac) /\
  ac_key_id ac = key_id_for_public_key (ac_public_key ac).
Proof. unfold from_config. intros H. inv_ok. done. Qed.

Lemma into_clients_lookup configs clients i cfg :
  into_clients configs = Ok clients -> configs !! i = Some cfg ->
  exists ac, clients !! i = Some ac /\ from_config cfg (index_to_client_id i) = Ok ac.
Proof.
  intros H Hi. apply result_map_Forall2 in H.
  destruct (Forall2_lookup_l _ _ _ i (i, cfg) H) as (ac & Hac & Hf); [|eauto].
  rewrite list_lookup_imap, Hi. done.
Qed.

Lemma into_clients_length configs clients :
  into_clients configs = Ok clients -> length clients = length configs.
Proof.
  intros H. apply result_map_Forall2, Forall2_length in H.
  rewrite length_imap in H. done.
Qed.

Lemma into_clients_sound configs clients i ac :
  into_clients configs = Ok clients -> clients !! i = Some ac ->
  exists cfg, configs !! i = Some cfg /\ from_config cfg (index_to_client_id i) = Ok ac.
Proof.
  intros H Hi. pose proof (lookup_lt_Some _ _ _ Hi) as Hlt.
  rewrite (into_clients_length _ _ H) in Hlt.
  apply lookup_lt_is_Some in Hlt as [cfg Hc].
  destruct (into_clients_lookup _ _ _ _ H Hc) as (ac' & Hac & Hf).
  exists cfg. split; [done|]. congruence.
Qed.

(** Loading the enrolment file is entry by entry: the clients are in file
    order, the [i]-th gets client id [i + 1] (saturating at 65535, never 0), its
    key id is derived from its own decoded public key, its keys are 32 bytes, and
    ids of distinct entries differ while the file has fewer than 65535 clients. *)
Theorem into_clients_spec `{L : !CryptoLaws C} configs clients :
  into_clients configs = Ok clients ->
  length clients = length configs /\
  (forall i ac, clients !! i = Some ac ->
     exists cfg, configs !! i = Some cfg /\ ac_name ac = cfg_name cfg /\ ac_tier ac = cfg_tier cfg /\
       1 <= ac_client_id ac <= 65535 /\
       ac_key_id ac = key_id_for_public_key (ac_public_key ac) /\
       length (ac_key_id ac) = KEY_ID_LEN /\
       length (ac_public_key ac) = 32%nat /\ length (ac_noise_public_key ac) = 32%nat) /\
  (forall i j a b, clients !! i = Some a -> clients !! j = Some b ->
     blen configs <= 65534 -> ac_client_id a = ac_client_id b -> i = j).
Proof.
  intros H. split_and!; [by apply into_clients_length| |].
  - intros i ac Hi. destruct (into_clients_sound _ _ _ _ H Hi) as (cfg & Hc & Hf).
    apply from_config_Ok in Hf as (Hn & Hid & Ht & _ & Hpk & Hnk & Hk).
    exists cfg. split_and!; try done.
    + rewrite Hid. apply index_to_client_id_range.
    + rewrite Hid. apply (index_to_client_id_range i).
    + rewrite Hk. apply key_id_length.
    + by apply decode_public_key_Ok in Hpk as [? _].
    + by apply decode_noise_public_key_Ok in Hnk.
  - intros i j a b Hi Hj Hlen Heq.
    pose proof (lookup_lt_Some _ _ _ Hi) as Li. pose proof (lookup_lt_Some _ _ _ Hj) as Lj.
    rewrite (into_clients_length _ _ H) in Li, Lj. unfold blen in Hlen.
    destruct (into_clients_sound _ _ _ _ H Hi) as (ci & _ & Fi).
    destruct (into_clients_sound _ _ _ _ H Hj) as (cj & _ & Fj).
    apply from_config_Ok in Fi as (_ & Ei & _). apply from_config_Ok in Fj as (_ & Ej & _).
    rewrite Ei, Ej, !index_to_client_id_small in Heq by (change (umax 16) with 65535; lia). lia.
Qed.

End auth_keys.
