(* ===== verification/Verifier.v ===== *)
(** SPA verification and the replay counters: [ghostbro-server/src/spa.rs]. *)

From S2P Require Import Prelude Protocol Crypto Keys Seal SpaPacket Fs AuthKeys.

(** * Parameters: the TOML form of [CounterStateFile]

    [toml::to_string_pretty] and [toml::from_str] on [HashMap<String, u64>].
    TOML integers are signed 64-bit, so serialization fails exactly on values
    above [i64::MAX]. *)
Class CounterToml := {
  toml_counters_encode : gmap string Z -> option string;
  toml_counters_decode : string -> option (gmap string Z)
}.

Definition i64_max : Z := 2 ^ 63 - 1.

Class CounterTomlLaws (T : CounterToml) : Prop := {
  toml_counters_roundtrip : forall m s,
    toml_counters_encode m = Some s -> toml_counters_decode s = Some m;
  toml_counters_total : forall m,
    is_Some (toml_counters_encode m) <-> map_Forall (fun _ v => v <= i64_max) m
}.

(** * Data *)

Record SpaVerifier := {
  clients : gmap bytes AuthorizedClient;
  highest_counters : gmap bytes Z;
  time_window_ms : Z;
  counter_state_path : option string;
  server_static_private : bytes;
  server_static_pubkey : bytes
}.

Record SpaAccept := {
  acc_key_id : KeyId;
  acc_client_id : Z;
  acc_client_name : string;
  acc_noise_public_key : bytes;
  acc_mode : SpaMode;
  acc_counter : Z;
  acc_max_concurrent_sessions : option Z
}.

(** The steps at which saving the counters can fail. *)
Inductive PersistError := PSerialize | PMkdir | PCreate | PWrite | PSync | PRename.

Inductive SpaVerifyError :=
| Parse (e : SpaError)
| UnknownKey (hex : string)
| UnauthorizedTier (name : string)
| TimestampOutsideWindow
| SourceIpMismatch
| ReplayedCounter
| Persist (e : PersistError).

(** Outcome of each system call of one save: [io_write] is [Some n] when the
    write fails after [n] bytes. *)
Record save_io := {
  io_mkdir : bool;
  io_create : bool;
  io_write : option nat;
  io_sync : bool;
  io_rename : bool
}.

Definition io_ok : save_io :=
  {| io_mkdir := true; io_create := true; io_write := None; io_sync := true; io_rename := true |}.

(** [Path::parent] is [None] only for an empty path and the root. *)
Definition has_parent (path : string) : bool :=
  negb (bool_decide (Forall (fun b => b = slash) (str_bytes path))).

(** [fs::read_to_string] *)
Inductive read_outcome :=
| RdOk (contents : string)
| RdNotFound
| RdFailed.

Definition read_file (s : store) (path : string) : read_outcome :=
  match s !! path with Some c => RdOk c | None => RdNotFound end.

Inductive LoadError := LoadMissing | LoadRead | LoadParse | LoadKeyId (hex : string).

(** [into_iter().map(|c| (c.key_id, c)).collect()]: a later entry for the same
    key id replaces an earlier one. *)
Definition clients_by_key_id (l : list AuthorizedClient) : gmap bytes AuthorizedClient :=
  foldl (fun m c => <[ac_key_id c := c]> m) ∅ l.

Section verifier.
Context `{C : Crypto} {T : CounterToml}.

(** * Persistence *)

(** [save_counter_state]: the operations performed and the outcome. *)
Definition save_counter_state (io : save_io) (path : string) (counters : gmap bytes Z)
    : list fs_op * result PersistError unit :=
  let state := kmap key_id_hex counters in
  match toml_counters_encode state with
  | None => ([], Err PSerialize)
  | Some contents =>
      let temp_path := with_extension path "tmp" in
      let dirs := if has_parent path then [OpMkdirAll path] else [] in
      if has_parent path && negb (io_mkdir io) then ([], Err PMkdir)
      else if negb (io_create io) then (dirs, Err PCreate)
      else match io_write io with
      | Some n =>
          (dirs ++ [OpCreate temp_path;
                    OpWrite temp_path (bytes_str (take n (str_bytes contents)))], Err PWrite)
      | None =>
          let written := dirs ++ [OpCreate temp_path; OpWrite temp_path contents] in
          if negb (io_sync io) then (written, Err PSync)
          else if negb (io_rename io) then (written ++ [OpSync temp_path], Err PRename)
          else (written ++ [OpSync temp_path; OpRename temp_path path], Ok tt)
      end
  end.

(** The loop of [load_counter_state] over the entries of the file. *)
Fixpoint load_entries (entries : list (string * Z)) (counters : gmap bytes Z)
    : result LoadError (gmap bytes Z) :=
  match entries with
  | [] => Ok counters
  | (hex, counter) :: rest =>
      kid ← ok_or (LoadKeyId hex) (key_id_from_hex hex);
      load_entries rest (<[kid := counter]> counters)
  end.

Definition load_counter_state (contents : read_outcome) (allow_missing_state : bool)
    : result LoadError (gmap bytes Z) :=
  match contents with
  | RdNotFound => if allow_missing_state then Ok ∅ else Err LoadMissing
  | RdFailed => Err LoadRead
  | RdOk contents =>
      state ← ok_or LoadParse (toml_counters_decode contents);
      load_entries (map_to_list state) ∅
  end.

Definition persist_counters (v : SpaVerifier) (io : save_io)
    : list fs_op * result SpaVerifyError unit :=
  match counter_state_path v with
  | None => ([], Ok tt)
  | Some path =>
      let '(ops, r) := save_counter_state io path (highest_counters v) in
      (ops, map_err Persist r)
  end.

(** * Construction and reload *)

Definition from_counters (cs : list AuthorizedClient) (time_window_seconds : Z)
    (highest : gmap bytes Z) (path : option string) (private : bytes) : SpaVerifier :=
  {| clients := clients_by_key_id cs;
     highest_counters := highest;
     time_window_ms := sat_mul 64 time_window_seconds 1000;
     counter_state_path := path;
     server_static_private := private;
     server_static_pubkey := x25519_public_from_private private |}.

Definition new (cs : list AuthorizedClient) (time_window_seconds : Z) (private : bytes) : SpaVerifier :=
  from_counters cs time_window_seconds ∅ None private.

Definition load (cs : list AuthorizedClient) (time_window_seconds : Z) (path : string)
    (contents : read_outcome) (private : bytes) (allow_missing_state : bool)
    : result LoadError SpaVerifier :=
  highest ← load_counter_state contents allow_missing_state;
  Ok (from_counters cs time_window_seconds highest (Some path) private).

Definition with_clients (v : SpaVerifier) (m : gmap bytes AuthorizedClient) : SpaVerifier :=
  {| clients := m; highest_counters := highest_counters v; time_window_ms := time_window_ms v;
     counter_state_path := counter_state_path v; server_static_private := server_static_private v;
     server_static_pubkey := server_static_pubkey v |}.

(** [reload_clients]: the new verifier and the key ids that disappeared. *)
Definition reload_clients (v : SpaVerifier) (cs : list AuthorizedClient) : SpaVerifier * list KeyId :=
  let old_key_ids := (map_to_list (clients v)).*1 in
  let v' := with_clients v (clients_by_key_id cs) in
  (v', filter (fun k => clients v' !! k = None) old_key_ids).

(** * Verification *)

Definition with_counter (v : SpaVerifier) (k : KeyId) (c : Z) : SpaVerifier :=
  {| clients := clients v; highest_counters := <[k := c]> (highest_counters v);
     time_window_ms := time_window_ms v; counter_state_path := counter_state_path v;
     server_static_private := server_static_private v;
     server_static_pubkey := server_static_pubkey v |}.

(** [SpaVerifier::verify]: the verifier afterwards, the file operations
    performed and the verdict. *)
Definition verify (v : SpaVerifier) (io : save_io) (payload : bytes) (observed_src_ip now_ms : Z)
    : SpaVerifier * list fs_op * result SpaVerifyError SpaAccept :=
  match spa_open payload (server_static_private v) with
  | Err e => (v, [], Err (Parse e))
  | Ok packet =>
      match clients v !! key_id packet with
      | None => (v, [], Err (UnknownKey (key_id_hex (key_id packet))))
      | Some client =>
          match spa_verify packet (ac_public_key client) (server_static_pubkey v) with
          | Err e => (v, [], Err (Parse e))
          | Ok _ =>
              if negb (bool_decide (ac_tier client = Full))
              then (v, [], Err (UnauthorizedTier (ac_name client)))
              else if time_window_ms v <? abs_diff now_ms (timestamp_ms packet)
              then (v, [], Err TimestampOutsideWindow)
              else if negb (use_packet_source packet) && negb (allow_ip packet =? observed_src_ip)
              then (v, [], Err SourceIpMismatch)
              else
                let highest_counter := default 0 (highest_counters v !! key_id packet) in
                if counter packet <=? highest_counter then (v, [], Err ReplayedCounter)
                else
                  let v' := with_counter v (key_id packet) (counter packet) in
                  let '(ops, persisted) := persist_counters v' io in
                  match persisted with
                  | Err e => (v', ops, Err e)
                  | Ok _ =>
                      (v', ops,
                       Ok {| acc_key_id := key_id packet;
                             acc_client_id := ac_client_id client;
                             acc_client_name := ac_name client;
                             acc_noise_public_key := ac_noise_public_key client;
                             acc_mode := mode packet;
                             acc_counter := counter packet;
                             acc_max_concurrent_sessions := ac_max_concurrent_sessions client |})
                  end
          end
      end
  end.

End verifier.

(** * A concrete counter file format, to run the model on inputs *)

Module ToyToml.

Definition c0 : Ascii.ascii := Ascii.ascii_of_byte x30.
Definition c1 : Ascii.ascii := Ascii.ascii_of_byte x31.
Definition dot : Ascii.ascii := Ascii.ascii_of_byte x2e.

(** Each value is written in front of the text [s] that follows it. *)
Fixpoint put_pos (p : positive) (s : string) : string :=
  match p with
  | xH => String dot s
  | xO q => String c0 (put_pos q s)
  | xI q => String c1 (put_pos q s)
  end.

Fixpoint get_pos (s : string) : option (positive * string) :=
  match s with
  | EmptyString => None
  | String c s' =>
      if bool_decide (c = dot) then Some (xH, s')
      else p ← get_pos s';
           if bool_decide (c = c0) then Some (xO p.1, p.2)
           else if bool_decide (c = c1) then Some (xI p.1, p.2) else None
  end.

Fixpoint put_key (k : string) (s : string) : string :=
  match k with
  | EmptyString => String dot s
  | String c k' => String c0 (String c (put_key k' s))
  end.

Fixpoint get_key (s : string) : option (string * string) :=
  match s with
  | String d s' =>
      if bool_decide (d = dot) then Some (EmptyString, s')
      else match s' with
           | String c s'' => p ← get_key s''; Some (String c p.1, p.2)
           | EmptyString => None
           end
  | EmptyString => None
  end.

Fixpoint put_entries (l : list (string * Z)) : string :=
  match l with
  | [] => ""
  | (k, v) :: l' => put_key k (put_pos (encode v) (put_entries l'))
  end.

Fixpoint get_entries (fuel : nat) (s : string) : option (list (string * Z)) :=
  match s, fuel with
  | EmptyString, _ => Some []
  | _, O => None
  | _, S fuel' =>
      '(k, s1) ← get_key s; '(p, s2) ← get_pos s1; v ← decode p;
      l ← get_entries fuel' s2; Some ((k, v) :: l)
  end.

Definition encode_counters (m : gmap string Z) : option string :=
  if bool_decide (map_Forall (fun _ v => v <= i64_max) m)
  then Some (put_entries (map_to_list m)) else None.

Definition decode_counters (s : string) : option (gmap string Z) :=
  list_to_map <$> get_entries (String.length s) s.

Lemma get_put_pos p s : get_pos (put_pos p s) = Some (p, s).
Proof. induction p as [p IH|p IH|]; simpl; rewrite ?IH; done. Qed.

Lemma get_put_key k s : get_key (put_key k s) = Some (k, s).
Proof. induction k as [|c k IH]; simpl; rewrite ?IH; done. Qed.

Lemma put_key_cons k s : exists c s', put_key k s = String c s'.
Proof. destruct k; simpl; eauto. Qed.

Lemma length_put_pos p s : (String.length s < String.length (put_pos p s))%nat.
Proof. induction p; simpl; lia. Qed.

Lemma length_put_key k s : (String.length s < String.length (put_key k s))%nat.
Proof. induction k; simpl; lia. Qed.

Lemma get_put_entries l fuel :
  (String.length (put_entries l) <= fuel)%nat -> get_entries fuel (put_entries l) = Some l.
Proof.
  revert fuel. induction l as [|[k v] l IH]; intros fuel Hf; cbn [put_entries]; [by destruct fuel|].
  cbn [put_entries] in Hf. set (tl := put_pos (encode v) (put_entries l)) in *.
  pose proof (length_put_key k tl). pose proof (length_put_pos (encode v) (put_entries l)).
  destruct fuel as [|fuel]; [lia|].
  destruct (put_key_cons k tl) as (c & s' & E). rewrite E. cbn [get_entries]. rewrite <- E.
  rewrite get_put_key. cbn [mbind option_bind]. unfold tl at 1. rewrite get_put_pos. cbn [mbind option_bind].
  rewrite decode_encode. cbn [mbind option_bind]. rewrite IH; [done|]. unfold tl in *. lia.
Qed.

End ToyToml.

Definition toy_toml : CounterToml := {|
  toml_counters_encode := ToyToml.encode_counters;
  toml_counters_decode := ToyToml.decode_counters
|}.

Lemma toy_toml_laws : CounterTomlLaws toy_toml.
Proof.
  split.
  - intros m s. unfold toml_counters_encode, toml_counters_decode. simpl.
    unfold ToyToml.encode_counters, ToyToml.decode_counters. case_bool_decide; [|discriminate].
    intros [= <-]. rewrite ToyToml.get_put_entries by done. simpl. by rewrite list_to_map_to_list.
  - intros m. unfold toml_counters_encode. simpl. unfold ToyToml.encode_counters.
    case_bool_decide as H; [by split; [|eexists]|]. split; [by intros [? [=]] | done].
Qed.
