(* ===== verification/VerifierFacts.v ===== *)
(** Correctness of SPA verification: acceptance, replay protection, persistence. *)

From S2P Require Import Prelude Protocol Crypto Keys Seal SpaPacket Fs AuthKeys Verifier.

(** * Persistence *)

Section persistence.
Context `{C : Crypto} {T : CounterToml}.

Lemma load_entries_hex kvs acc :
  Forall (fun kv : bytes * Z => length kv.1 = KEY_ID_LEN) kvs ->
  load_entries (prod_map key_id_hex id <$> kvs) acc
  = Ok (foldl (fun m kv => <[kv.1 := kv.2]> m) acc kvs).
Proof.
  intros H. revert acc. induction H as [|[k c] kvs Hk _ IH]; intros acc; [done|].
  cbn [fmap list_fmap prod_map load_entries fst snd].
  rewrite key_id_from_hex_hex by done. cbn [ok_or mbind result_bind]. rewrite IH. done.
Qed.

Lemma foldl_insert_lookup (kvs : list (bytes * Z)) (acc : gmap bytes Z) k :
  NoDup kvs.*1 ->
  foldl (fun m kv => <[kv.1 := kv.2]> m) acc kvs !! k
  = match (list_to_map kvs : gmap bytes Z) !! k with Some c => Some c | None => acc !! k end.
Proof.
  revert acc. induction kvs as [|[k0 c0] kvs IH]; intros acc Hnd; simpl; [by rewrite lookup_empty|].
  cbn in Hnd. apply NoDup_cons in Hnd as [Hk Hnd]. rewrite IH by done.
  destruct (decide (k0 = k)) as [->|Hne].
  - rewrite !lookup_insert_eq. rewrite not_elem_of_list_to_map_1 by done. done.
  - by rewrite !lookup_insert_ne by done.
Qed.

(** The keys of a counter map are key ids. *)
Definition counter_keys (m : gmap bytes Z) : Prop :=
  map_Forall (fun k _ => length k = KEY_ID_LEN) m.

Lemma load_entries_kmap (m : gmap bytes Z) :
  counter_keys m -> load_entries (map_to_list (kmap key_id_hex m : gmap string Z)) ∅ = Ok m.
Proof.
  intros Hk. destruct (Permutation_map_inv (prod_map key_id_hex id) (map_to_list m)
    (l1 := map_to_list (kmap key_id_hex m : gmap string Z))) as (kvs & -> & Hp).
  { apply map_to_list_kmap. apply _. }
  change (map (prod_map key_id_hex id) kvs) with (prod_map key_id_hex id <$> kvs).
  rewrite load_entries_hex.
  - f_equal. apply map_eq. intros k. rewrite foldl_insert_lookup.
    + rewrite lookup_empty.
      transitivity ((list_to_map (map_to_list m) : gmap bytes Z) !! k).
      * rewrite (list_to_map_proper (M := gmap bytes) kvs (map_to_list m)).
        -- by destruct (_ !! k).
        -- rewrite <- Hp. apply NoDup_fst_map_to_list.
        -- by symmetry.
      * by rewrite list_to_map_to_list.
    + rewrite <- Hp. apply NoDup_fst_map_to_list.
  - rewrite <- Hp. apply Forall_forall. intros [k c] Hin. apply elem_of_map_to_list in Hin.
    by apply (Hk k c).
Qed.

(** Every operation of a save other than the final rename is on the temporary file. *)
Lemma save_ops_shape io path m ops r :
  save_counter_state io path m = (ops, r) ->
  (r = Ok tt /\ exists contents dirs,
      toml_counters_encode (kmap key_id_hex m) = Some contents /\
      dirs = (if has_parent path then [OpMkdirAll path] else []) /\
      ops = dirs ++ [OpCreate (with_extension path "tmp");
                     OpWrite (with_extension path "tmp") contents;
                     OpSync (with_extension path "tmp");
                     OpRename (with_extension path "tmp") path]) \/
  (exists e, r = Err e) /\
  Forall (fun op => with_extension path "tmp" <> path -> ~ op_touches op path) ops.
Proof.
  unfold save_counter_state. destruct (toml_counters_encode _) as [contents|] eqn:E.
  2: { intros [= <- <-]. right. split; [eauto | constructor]. }
  assert (Hd : Forall (fun op => with_extension path "tmp" <> path -> ~ op_touches op path)
                 (if has_parent path then [OpMkdirAll path] else [])).
  { destruct (has_parent path); repeat constructor. simpl; tauto. }
  destruct (has_parent path && negb (io_mkdir io)).
  { intros [= <- <-]. right. split; [eauto | constructor]. }
  destruct (negb (io_create io)).
  { intros [= <- <-]. right. split; [eauto | done]. }
  destruct (io_write io) as [n|].
  { intros [= <- <-]. right. split; [eauto|]. apply Forall_app; split; [done|]. by repeat constructor. }
  destruct (negb (io_sync io)).
  { intros [= <- <-]. right. split; [eauto|]. apply Forall_app; split; [done|]. by repeat constructor. }
  destruct (negb (io_rename io)).
  { intros [= <- <-]. right. split; [eauto|]. rewrite <- app_assoc.
    apply Forall_app; split; [done|]. by repeat constructor. }
  intros [= <- <-]. left. split; [done|]. exists contents. eexists. split_and!; [done..|].
  by rewrite <- app_assoc.
Qed.

Lemma fs_run_untouched ops s p :
  Forall (fun op => ~ op_touches op p) ops -> fs_run ops s !! p = s !! p.
Proof.
  intros H. revert s. induction H as [|op ops Hop _ IH]; intros s; [done|].
  change (fs_run ops (fs_apply op s) !! p = s !! p). rewrite IH.
  destruct op; simpl in *; try done.
  - by rewrite lookup_insert_ne.
  - by rewrite lookup_insert_ne.
  - destruct (s !! from); [|done]. rewrite lookup_insert_ne, lookup_delete_ne; tauto.
  - by rewrite lookup_delete_ne.
Qed.

Lemma save_Ok_contents io path m ops s :
  with_extension path "tmp" <> path ->
  save_counter_state io path m = (ops, Ok tt) ->
  exists contents, toml_counters_encode (kmap key_id_hex m) = Some contents /\
    fs_run ops s !! path = Some contents.
Proof.
  intros Hne H. apply save_ops_shape in H as [(_ & contents & dirs & E & -> & ->)|[[e [=]] _]].
  exists contents. split; [done|]. rewrite fs_run_app.
  set (s0 := fs_run _ s). unfold fs_run. cbn [foldl fs_apply].
  rewrite insert_insert_eq, lookup_insert_eq. cbn [default].
  rewrite lookup_insert_eq. by rewrite lookup_insert_eq.
Qed.

Lemma save_Err_file io path m ops e s :
  with_extension path "tmp" <> path ->
  save_counter_state io path m = (ops, Err e) -> fs_run ops s !! path = s !! path.
Proof.
  intros Hne H. apply save_ops_shape in H as [([=] & _)|[_ Hf]].
  apply fs_run_untouched. eapply Forall_impl; [done|]. simpl. auto.
Qed.

Context {TL : CounterTomlLaws T}.

(** Counters survive a restart exactly: loading the file a successful save
    wrote gives back the saved map, for every counter map whose keys are key
    ids, and without the first-run opt-in. *)
Theorem counter_state_roundtrip io path m ops s :
  with_extension path "tmp" <> path -> counter_keys m ->
  save_counter_state io path m = (ops, Ok tt) ->
  load_counter_state (read_file (fs_run ops s) path) false = Ok m.
Proof.
  intros Hne Hk H. destruct (save_Ok_contents _ _ _ _ s Hne H) as (contents & E & Hs).
  unfold read_file. rewrite Hs. cbn [load_counter_state].
  rewrite (toml_counters_roundtrip _ _ E). cbn [ok_or mbind result_bind].
  by apply load_entries_kmap.
Qed.

Lemma load_entries_keys entries acc m :
  load_entries entries acc = Ok m -> counter_keys acc -> counter_keys m.
Proof.
  revert acc; induction entries as [|[hex c] rest IH]; intros acc H Hacc; simpl in H.
  - by injection H as <-.
  - apply bind_Ok_inv in H as (kid & Hk & H). apply ok_or_Ok in Hk.
    eapply IH; [done|]. apply map_Forall_insert_2; [|done].
    by eapply key_id_from_hex_length.
Qed.

Lemma load_counter_state_keys contents allow m :
  load_counter_state contents allow = Ok m -> counter_keys m.
Proof.
  destruct contents; simpl; intros H; [|destruct allow|]; inv_ok; try apply map_Forall_empty.
  eapply load_entries_keys; [done|]. apply map_Forall_empty.
Qed.

(** ** Power failure in the middle of a save *)

Lemma crash_images_untouched ops s (img : store -> Prop) p (P : option string -> Prop) :
  Forall (fun op => ~ op_touches op p) ops -> (forall i, img i -> P (i !! p)) ->
  forall i, crash_images ops s img i -> P (i !! p).
Proof.
  intros Hf. revert s img. induction Hf as [|op ops Hop _ IH]; intros s img Himg i Hi; [eauto|].
  eapply (IH _ (crash_step op s img)); [|done]. intros j Hj. by eapply crash_step_untouched.
Qed.

Lemma crash_synced_tmp tmp contents s (img : store -> Prop) :
  forall i, crash_images [OpCreate tmp; OpWrite tmp contents; OpSync tmp] s img i ->
  i !! tmp = None \/ i !! tmp = Some contents.
Proof.
  intros i (i0 & _ & [->|(c & Hc & ->)]); simpl in *.
  - left. by rewrite lookup_delete_eq.
  - right. rewrite lookup_insert_eq. rewrite !lookup_insert_eq in Hc. by rewrite <- Hc.
Qed.

(** C28: an interrupted save never leaves a torn counter file.  Whatever prefix of
    its operations a save performed, in whatever way its system calls fail, every
    disk image a power failure may leave holds at the counter path either exactly
    what was there before or the complete new contents. *)
Theorem save_crash_atomic io path m ops r pre s i :
  with_extension path "tmp" <> path ->
  save_counter_state io path m = (ops, r) -> pre `prefix_of` ops ->
  crash_images pre s (eq s) i ->
  i !! path = s !! path \/
  (r = Ok tt /\ exists contents,
     toml_counters_encode (kmap key_id_hex m) = Some contents /\ i !! path = Some contents).
Proof.
  intros Hne H [suf Hpre] Hi.
  apply save_ops_shape in H as [(-> & contents & dirs & E & Hd & ->)|[_ Hf]].
  - assert (Hun : Forall (fun op => ~ op_touches op path)
        (dirs ++ [OpCreate (with_extension path "tmp"); OpWrite (with_extension path "tmp") contents;
                  OpSync (with_extension path "tmp")])).
    { subst dirs. apply Forall_app; split; [destruct (has_parent path)|]; repeat constructor; simpl; tauto. }
    destruct suf as [|x suf _] using rev_ind.
    + rewrite app_nil_r in Hpre. subst pre. change (dirs ++ ?a :: ?b :: ?c :: ?t)
        with (dirs ++ [a; b; c] ++ t) in Hi. rewrite app_assoc in Hi.
      apply crash_images_app in Hi. simpl in Hi.
      destruct Hi as [Hi|(i0 & c & Hi & Hc & ->)].
      * left. by eapply (crash_images_untouched _ _ (eq s) path (fun o => o = s !! path)) in Hi; [|done|by intros ? <-].
      * apply crash_images_app, crash_synced_tmp in Hi. right. split; [done|]. exists contents.
        split; [done|]. rewrite lookup_insert_eq. destruct Hi; congruence.
    + left. change (dirs ++ ?a :: ?b :: ?c :: ?t) with (dirs ++ [a; b; c] ++ t) in Hpre.
      rewrite !app_assoc in Hpre. apply app_inj_tail in Hpre as [Hpre _].
      rewrite Hpre in Hun. apply Forall_app in Hun as [Hun _].
      by eapply (crash_images_untouched _ _ (eq s) path (fun o => o = s !! path)) in Hi; [|done|by intros ? <-].
  - left. rewrite Hpre in Hf. apply Forall_app in Hf as [Hf _].
    eapply (crash_images_untouched _ _ (eq s) path (fun o => o = s !! path)) in Hi; [done| |by intros ? <-].
    eapply Forall_impl; [done|]. simpl; auto.
Qed.

Lemma crash_images_mono_l ops s (img : store -> Prop) i :
  Forall (fun op => match op with OpSync _ => False | _ => True end) ops ->
  img i -> crash_images ops s img i.
Proof.
  intros Hf. revert s img. induction Hf as [|op ops Hop _ IH]; intros s img Hi; [done|].
  apply IH. destruct op; simpl; tauto.
Qed.

(** A completed save is not durable against power failure.  The rename is
    followed by no sync of the directory, so after every successful save one of
    the possible disk images still holds the previous counters at the path. *)
Theorem save_may_lose_rename io path m ops s :
  with_extension path "tmp" <> path ->
  save_counter_state io path m = (ops, Ok tt) ->
  exists i, crash_images ops s (eq s) i /\ i !! path = s !! path.
Proof.
  intros Hne H. apply save_ops_shape in H as [(_ & contents & dirs & E & Hd & ->)|[[? [=]] _]].
  exists (delete (with_extension path "tmp") s). split; [|by rewrite lookup_delete_ne].
  apply crash_images_app. simpl. left. exists s. split; [|by left].
  left. left. apply crash_images_mono_l; [|done].
  subst dirs. destruct (has_parent path); repeat constructor.
Qed.

End persistence.
