(* ===== verification/Replay.v ===== *)
(** Acceptance and replay protection of [SpaVerifier::verify]
    ([ghostbro-server/src/spa.rs]): what an accepted knock implies, that honest
    knocks are accepted, that rejections change nothing, and that no counter is
    accepted twice over any run of the server, restarts included. *)

From S2P Require Import Prelude Protocol Crypto Keys Seal SpaPacket Fs AuthKeys Verifier VerifierFacts.

(** * One call *)

Section acceptance.
Context `{C : Crypto} {T : CounterToml}.

(** The tests [verify] makes on an opened packet, once its client is known. *)
Definition knock_ok (v : SpaVerifier) (p : SpaPacket) (c : AuthorizedClient) (src now : Z) : Prop :=
  spa_verify p (ac_public_key c) (server_static_pubkey v) = Ok tt /\
  ac_tier c = Full /\
  abs_diff now (timestamp_ms p) <= time_window_ms v /\
  (use_packet_source p = true \/ allow_ip p = src) /\
  default 0 (highest_counters v !! key_id p) < counter p.

Definition accept_of (p : SpaPacket) (c : AuthorizedClient) : SpaAccept :=
  {| acc_key_id := key_id p; acc_client_id := ac_client_id c; acc_client_name := ac_name c;
     acc_noise_public_key := ac_noise_public_key c; acc_mode := mode p; acc_counter := counter p;
     acc_max_concurrent_sessions := ac_max_concurrent_sessions c |}.

(** Every call ends in one of three ways. *)
Inductive verify_case (v : SpaVerifier) (io : save_io) (payload : bytes) (src now : Z)
    : SpaVerifier * list fs_op * result SpaVerifyError SpaAccept -> Prop :=
| case_rejected e :
    (forall pe, e <> Persist pe) -> verify_case v io payload src now (v, [], Err e)
| case_unsaved p c ops pe :
    spa_open payload (server_static_private v) = Ok p ->
    clients v !! key_id p = Some c -> knock_ok v p c src now ->
    persist_counters (with_counter v (key_id p) (counter p)) io = (ops, Err (Persist pe)) ->
    verify_case v io payload src now (with_counter v (key_id p) (counter p), ops, Err (Persist pe))
| case_accepted p c ops :
    spa_open payload (server_static_private v) = Ok p ->
    clients v !! key_id p = Some c -> knock_ok v p c src now ->
    persist_counters (with_counter v (key_id p) (counter p)) io = (ops, Ok tt) ->
    verify_case v io payload src now (with_counter v (key_id p) (counter p), ops, Ok (accept_of p c)).

Lemma persist_result v io ops r :
  persist_counters v io = (ops, r) -> r = Ok tt \/ exists pe, r = Err (Persist pe).
Proof.
  unfold persist_counters. destruct (counter_state_path v); [|by intros [= _ <-]; left].
  destruct (save_counter_state _ _ _) as [o [[]|e]]; intros [= _ <-]; simpl; eauto.
Qed.

Lemma verify_cases v io payload src now :
  verify_case v io payload src now (verify v io payload src now).
Proof.
  unfold verify. destruct (spa_open _ _) as [p|e] eqn:Ho; [|by constructor].
  destruct (clients v !! key_id p) as [c|] eqn:Hc; [|by constructor].
  destruct (spa_verify _ _ _) as [[]|e] eqn:Hs; [|by constructor].
  destruct (negb (bool_decide _)) eqn:Ht; [by constructor|].
  destruct (time_window_ms v <? _) eqn:Hw; [by constructor|].
  destruct (negb (use_packet_source p) && _) eqn:Hip; [by constructor|].
  destruct (counter p <=? _) eqn:Hctr; [by constructor|]. bool_props.
  assert (knock_ok v p c src now).
  { split_and!; try done. destruct (use_packet_source p); [by left | right].
    simpl in Hip. by bool_props. }
  destruct (persist_counters _ io) as [ops r] eqn:Hp.
  destruct (persist_result _ _ _ _ Hp) as [->|[pe ->]]; by econstructor.
Qed.

Lemma verify_run v io payload src now p c ops r :
  spa_open payload (server_static_private v) = Ok p ->
  clients v !! key_id p = Some c -> knock_ok v p c src now ->
  persist_counters (with_counter v (key_id p) (counter p)) io = (ops, r) ->
  verify v io payload src now
  = (with_counter v (key_id p) (counter p), ops,
     match r with Ok _ => Ok (accept_of p c) | Err e => Err e end).
Proof.
  intros Ho Hc (Hs & Ht & Hw & Hip & Hctr) Hp. unfold verify. rewrite Ho, Hc, Hs.
  rewrite bool_decide_eq_true_2 by done. cbn [negb].
  destruct (Z.ltb_spec (time_window_ms v) (abs_diff now (timestamp_ms p))); [lia|].
  destruct (Z.leb_spec (counter p) (default 0 (highest_counters v !! key_id p))); [lia|].
  rewrite Hp. destruct Hip as [->| ->].
  - cbn [negb andb]. by destruct r.
  - rewrite Z.eqb_refl. cbn [negb]. rewrite andb_false_r. by destruct r.
Qed.

(** C8: soundness of acceptance.  When [verify] accepts a payload, the sealed
    bytes on the wire carry an Ed25519 signature, valid under the enrolled key of
    the client that [key_id] names, over the sealed record, the wire's ephemeral
    key and this server's static key; the client is of the full tier; the
    timestamp is inside the window; the source is the signed one unless the
    signed flag waives it; and the counter is above the stored one, which it
    replaces while every other key keeps its own. *)
Theorem verify_accept_sound v io payload src now v' ops a :
  verify v io payload src now = (v', ops, Ok a) ->
  exists p c opened,
    seal_open (take SPA_SEALED_CORE_LEN payload) (server_static_private v) = Some opened /\
    plaintext opened = packet_signed_region p ++ signature p /\
    clients v !! acc_key_id a = Some c /\
    ed_verify (ac_public_key c)
      (signed_message (take SPA_INNER_SIGNED_LEN (plaintext opened))
         (take SPA_EPHEMERAL_LEN payload) (server_static_pubkey v))
      (drop SPA_INNER_SIGNED_LEN (plaintext opened)) = true /\
    a = accept_of p c /\ ac_tier c = Full /\
    Z.abs (now - timestamp_ms p) <= time_window_ms v /\
    (use_packet_source p = false -> allow_ip p = src) /\
    default 0 (highest_counters v !! key_id p) < counter p /\
    highest_counters v' = <[key_id p := counter p]> (highest_counters v).
Proof.
  intros H. pose proof (verify_cases v io payload src now) as Hc. rewrite H in Hc.
  inversion Hc as [|?|p c ops' Ho Hcl (Hs & Ht & Hw & Hip & Hctr) Hp]; subst.
  destruct (open_signed_region _ _ _ Ho) as (o & Hopen & Hpl & He).
  assert (Hwf : packet_wf p) by (by eapply open_wf).
  exists p, c, o. split_and!; try done.
  - rewrite Hpl, <- (length_packet_signed_region p Hwf), take_app_length, drop_app_length, <- He.
    unfold spa_verify in Hs. by destruct (ed_verify _ _ _).
  - destruct Hip as [->|]; [discriminate | done].
Qed.

(** C38: fail closed.  A rejected knock changes neither the verifier nor the disk,
    except when the knock passed every test and saving its counter failed: then
    the counter is consumed in memory, so the same knock is refused afterwards
    even if saving works again. *)
Theorem verify_reject_state v io payload src now v' ops e :
  verify v io payload src now = (v', ops, Err e) ->
  (v' = v /\ ops = [] /\ forall pe, e <> Persist pe) \/
  ((exists pe, e = Persist pe) /\
   (forall k, default 0 (highest_counters v !! k) <= default 0 (highest_counters v' !! k)) /\
   clients v' = clients v /\
   forall io' src' now' a, (verify v' io' payload src' now').2 <> Ok a).
Proof.
  intros H. pose proof (verify_cases v io payload src now) as Hc. rewrite H in Hc.
  inversion Hc as [? He|p c ops' pe Ho Hcl (Hs & Ht & Hw & Hip & Hctr) Hp|]; subst; [by left|].
  right. split_and!; [by eexists| |done|].
  - intros k. cbn [highest_counters with_counter].
    destruct (decide (k = key_id p)) as [->|Hne]; [rewrite lookup_insert_eq; simpl; lia|].
    by rewrite lookup_insert_ne.
  - intros io' src' now' a.
    pose proof (verify_cases (with_counter v (key_id p) (counter p)) io' payload src' now') as Hc'.
    intros Hok. destruct (verify (with_counter _ _ _) _ _ _ _) as [[w o] r]. simpl in Hok. subst r.
    inversion Hc' as [|?|p' c' ops'' Ho' Hcl' (_ & _ & _ & _ & Hctr') _]; subst.
    cbn [server_static_private highest_counters with_counter] in *.
    rewrite Ho in Ho'. injection Ho' as <-. rewrite lookup_insert_eq in Hctr'. simpl in Hctr'. lia.
Qed.

(** No oracle for the unauthenticated.  The answer to a payload whose
    signature does not verify under the enrolled key it names is determined by
    the server key and the enrolled public keys alone: tiers, names, counters,
    the time window, the clock and the source address cannot be probed. *)
Theorem verify_no_oracle v1 v2 io1 io2 payload src1 src2 now1 now2 :
  server_static_private v1 = server_static_private v2 ->
  server_static_pubkey v1 = server_static_pubkey v2 ->
  (forall k, ac_public_key <$> clients v1 !! k = ac_public_key <$> clients v2 !! k) ->
  (forall p c, spa_open payload (server_static_private v1) = Ok p ->
     clients v1 !! key_id p = Some c ->
     spa_verify p (ac_public_key c) (server_static_pubkey v1) <> Ok tt) ->
  (verify v1 io1 payload src1 now1).2 = (verify v2 io2 payload src2 now2).2 /\
  (verify v1 io1 payload src1 now1).1 = (v1, []) /\
  (verify v2 io2 payload src2 now2).1 = (v2, []).
Proof.
  intros Hpriv Hpub Hcl Hbad. unfold verify. rewrite <- Hpriv.
  destruct (spa_open payload _) as [p|e]; [|done].
  specialize (Hcl (key_id p)).
  destruct (clients v1 !! key_id p) as [c1|] eqn:E1, (clients v2 !! key_id p) as [c2|] eqn:E2;
    try discriminate Hcl; [|done].
  injection Hcl as Hk. rewrite <- Hk, <- Hpub.
  specialize (Hbad p c1 eq_refl E1).
  destruct (spa_verify p _ _) as [[]|e]; done.
Qed.

Context {L : CryptoLaws C}.

(** What an honest client and a server that enrolled it agree on. *)
Record honest_setup (v : SpaVerifier) (sk : bytes) (c : AuthorizedClient) : Prop := {
  hs_server : server_static_pubkey v = x25519_public_from_private (server_static_private v);
  hs_enrolled : clients v !! key_id_for_public_key (ed_verifying_key sk) = Some c;
  hs_key : ac_public_key c = ed_verifying_key sk;
  hs_tier : ac_tier c = Full
}.

(** The address a packet names, if any, is the one it comes from. *)
Definition names_source (a : SpaAllowIp) (src : Z) : Prop :=
  match a with Explicit ip => ip = src /\ in_u 32 ip | PacketSource => True end.

Lemma verify_honest v io next_u32 fill eph sk m ts ctr a c src now ops :
  honest_setup v sk c -> in_u 64 ts -> in_u 64 ctr -> (forall n, length (fill n) = n) ->
  names_source a src -> Z.abs (now - ts) <= time_window_ms v ->
  default 0 (highest_counters v !! key_id_for_public_key (ed_verifying_key sk)) < ctr ->
  persist_counters (with_counter v (key_id_for_public_key (ed_verifying_key sk)) ctr) io = (ops, Ok tt) ->
  verify v io (build next_u32 fill eph sk m ts ctr a (server_static_pubkey v)) src now
  = (with_counter v (key_id_for_public_key (ed_verifying_key sk)) ctr, ops,
     Ok (accept_of (built_packet sk m ts ctr a (server_static_pubkey v) eph) c)).
Proof.
  intros [Hpub Hcl Hpk Ht] Hts Hctr Hfill Ha Hw Hnew Hp.
  set (p := built_packet sk m ts ctr a (server_static_pubkey v) eph).
  rewrite (verify_run v io _ src now p c ops (Ok tt)); try done.
  - unfold build, p. rewrite Hpub. apply open_build_with_padding; try done.
    + intros ip ->. by destruct Ha.
    + rewrite Hfill. apply random_padding_bound.
  - split_and!; try done.
    + rewrite Hpk. apply verify_built.
    + destruct a as [ip|]; [right; by destruct Ha as [-> _] | by left].
Qed.

(** Completeness.  The packet the client builds with its enrolled key for
    this server is accepted, with the client's identity and the counter it used,
    whenever the clocks agree within the window, it comes from the address it
    names (or names none), its counter is new and the counter file can be
    written. *)
Theorem verify_accepts_honest v io next_u32 fill eph sk m ts ctr a c src now ops :
  honest_setup v sk c -> in_u 64 ts -> in_u 64 ctr -> (forall n, length (fill n) = n) ->
  names_source a src -> Z.abs (now - ts) <= time_window_ms v ->
  default 0 (highest_counters v !! key_id_for_public_key (ed_verifying_key sk)) < ctr ->
  persist_counters (with_counter v (key_id_for_public_key (ed_verifying_key sk)) ctr) io = (ops, Ok tt) ->
  exists v' acc,
    verify v io (build next_u32 fill eph sk m ts ctr a (server_static_pubkey v)) src now
    = (v', ops, Ok acc) /\
    highest_counters v' !! acc_key_id acc = Some ctr /\
    acc_client_id acc = ac_client_id c /\ acc_noise_public_key acc = ac_noise_public_key c /\
    acc_counter acc = ctr /\ acc_mode acc = m.
Proof.
  intros Hs Hts Hctr Hfill Ha Hw Hnew Hp.
  rewrite (verify_honest v io next_u32 fill eph sk m ts ctr a c src now ops) by done.
  eexists _, _. split_and!; try done. simpl. apply lookup_insert_eq.
Qed.

End acceptance.

(** * Runs of the server *)

Section replay.
Context `{C : Crypto} {T : CounterToml}.

(** A running verifier and the files it sees. *)
Definition server_state : Type := SpaVerifier * store.

(** One step of a server's life at the counter file [path]: a knock, a hot
    reload of the enrolled keys, a restart between two knocks, or a crash of the
    process after any prefix of a knock's file operations followed by a restart.
    A step yields the acceptance it reported, if any. *)
Inductive life (path : string) : server_state -> option SpaAccept -> server_state -> Prop :=
| life_knock v s io payload src now v' ops r :
    verify v io payload src now = (v', ops, r) ->
    life path (v, s) (to_option r) (v', fs_run ops s)
| life_reload v s cs :
    life path (v, s) None ((reload_clients v cs).1, s)
| life_restart v s cs tw sk allow v' :
    load cs tw path (read_file s path) sk allow = Ok v' ->
    life path (v, s) None (v', s)
| life_crash v s io payload src now v' ops r pre cs tw sk allow v'' :
    verify v io payload src now = (v', ops, r) -> pre `prefix_of` ops ->
    load cs tw path (read_file (fs_run pre s) path) sk allow = Ok v'' ->
    life path (v, s) None (v'', fs_run pre s).

(** Runs, with the acceptances in order. *)
Inductive lives (path : string) : server_state -> list SpaAccept -> server_state -> Prop :=
| lives_nil st : lives path st [] st
| lives_snoc st l st1 o st2 :
    lives path st l st1 -> life path st1 o st2 -> lives path st (l ++ option_list o) st2.

Definition above (m : gmap bytes Z) (l : list SpaAccept) : Prop :=
  Forall (fun a => acc_counter a <= default 0 (m !! acc_key_id a)) l.

(** The invariant: the verifier's counters and those of the file dominate every
    acceptance so far. *)
Record counters_inv (path : string) (l : list SpaAccept) (st : server_state) : Prop := {
  inv_path : counter_state_path st.1 = Some path;
  inv_keys : counter_keys (highest_counters st.1);
  inv_above : above (highest_counters st.1) l;
  inv_file : l = [] \/ exists m contents, counter_keys m /\ above m l /\
    toml_counters_encode (kmap key_id_hex m) = Some contents /\ st.2 !! path = Some contents
}.

Lemma above_mono m m' l :
  (forall k, default 0 (m !! k) <= default 0 (m' !! k)) -> above m l -> above m' l.
Proof.
  intros H Ha. eapply Forall_impl; [exact Ha|]. intros a Hle. simpl in Hle.
  specialize (H (acc_key_id a)). lia.
Qed.

Lemma with_counter_mono v p :
  default 0 (highest_counters v !! key_id p) < counter p ->
  forall k, default 0 (highest_counters v !! k)
            <= default 0 (highest_counters (with_counter v (key_id p) (counter p)) !! k).
Proof.
  intros H k. cbn [highest_counters with_counter].
  destruct (decide (k = key_id p)) as [->|Hne]; [rewrite lookup_insert_eq; simpl; lia|].
  by rewrite lookup_insert_ne.
Qed.

Lemma with_counter_keys v payload sk p :
  spa_open payload sk = Ok p -> counter_keys (highest_counters v) ->
  counter_keys (highest_counters (with_counter v (key_id p) (counter p))).
Proof.
  intros Ho Hk. apply map_Forall_insert_2; [|done]. by apply open_wf in Ho as [? _].
Qed.

Lemma persist_saves v io ops r path :
  counter_state_path v = Some path -> persist_counters v io = (ops, r) ->
  exists r', save_counter_state io path (highest_counters v) = (ops, r') /\ r = map_err Persist r'.
Proof.
  unfold persist_counters. intros ->. destruct (save_counter_state _ _ _) as [o r'].
  intros [= <- <-]. eauto.
Qed.

(** A prefix of a save leaves the file alone or replaces it by the new counters. *)
Lemma save_prefix_file io path m ops r pre s :
  with_extension path "tmp" <> path ->
  save_counter_state io path m = (ops, r) -> pre `prefix_of` ops ->
  fs_run pre s !! path = s !! path \/
  (exists contents, toml_counters_encode (kmap key_id_hex m) = Some contents /\
     fs_run pre s !! path = Some contents).
Proof.
  intros Hne H [suf Hpre]. destruct suf as [|x suf _] using rev_ind.
  - rewrite app_nil_r in Hpre. subst pre. destruct r as [[]|e].
    + right. by eapply save_Ok_contents.
    + left. by eapply save_Err_file.
  - left. apply fs_run_untouched.
    apply save_ops_shape in H as [(-> & contents & dirs & E & Hd & ->)|[_ Hf]].
    + change (dirs ++ ?a :: ?b :: ?c :: ?t) with (dirs ++ [a; b; c] ++ t) in Hpre.
      rewrite !app_assoc in Hpre. apply app_inj_tail in Hpre as [Hpre _].
      assert (Hun : Forall (fun op => ~ op_touches op path) (pre ++ suf)); [|by apply Forall_app in Hun as [? _]].
      rewrite <- Hpre. subst dirs.
      apply Forall_app; split; [destruct (has_parent path)|]; repeat constructor; simpl; tauto.
    + rewrite Hpre in Hf. apply Forall_app in Hf as [Hf _].
      eapply Forall_impl; [done|]. simpl; auto.
Qed.

Context {TL : CounterTomlLaws T}.

Lemma load_inv path l s cs tw sk allow v :
  (l = [] \/ exists m contents, counter_keys m /\ above m l /\
     toml_counters_encode (kmap key_id_hex m) = Some contents /\ s !! path = Some contents) ->
  load cs tw path (read_file s path) sk allow = Ok v -> counters_inv path l (v, s).
Proof.
  intros Hf H. unfold load in H. apply bind_Ok_inv in H as (hi & Hh & H). injection H as <-.
  split; simpl; [done|by eapply load_counter_state_keys| |done].
  destruct Hf as [->|(m & contents & Hk & Ha & He & Hs)]; [constructor|].
  unfold read_file in Hh. rewrite Hs in Hh. simpl in Hh.
  rewrite (toml_counters_roundtrip _ _ He) in Hh. simpl in Hh.
  rewrite load_entries_kmap in Hh by done. by injection Hh as <-.
Qed.

Lemma knock_prefix_inv path l v s io payload src now v' ops r pre :
  with_extension path "tmp" <> path ->
  counters_inv path l (v, s) -> verify v io payload src now = (v', ops, r) -> pre `prefix_of` ops ->
  l = [] \/ exists m contents, counter_keys m /\ above m l /\
    toml_counters_encode (kmap key_id_hex m) = Some contents /\ fs_run pre s !! path = Some contents.
Proof.
  intros Hne [Hp Hk Ha Hf] Hv Hpre. simpl in *.
  assert (Hun : fs_run pre s !! path = s !! path ->
    l = [] \/ exists m contents, counter_keys m /\ above m l /\
    toml_counters_encode (kmap key_id_hex m) = Some contents /\ fs_run pre s !! path = Some contents).
  { by intros ->. }
  pose proof (verify_cases v io payload src now) as Hc. rewrite Hv in Hc.
  assert (Hcase : (ops = []) \/ exists p r0, spa_open payload (server_static_private v) = Ok p /\
    default 0 (highest_counters v !! key_id p) < counter p /\
    persist_counters (with_counter v (key_id p) (counter p)) io = (ops, r0)).
  { inversion Hc as [|p c ? pe Ho _ (_ & _ & _ & _ & Hctr) Hs|p c ? Ho _ (_ & _ & _ & _ & Hctr) Hs]; subst; eauto 10. }
  destruct Hcase as [->|(p & r0 & Ho & Hctr & Hs)].
  - apply prefix_nil_inv in Hpre as ->. by apply Hun.
  - destruct (persist_saves (with_counter v (key_id p) (counter p)) _ _ _ path Hp Hs) as (r1 & Hsave & _).
    destruct (save_prefix_file _ _ _ _ _ _ s Hne Hsave Hpre) as [He|(contents & He & Hl)]; [by apply Hun|].
    right. exists (highest_counters (with_counter v (key_id p) (counter p))), contents.
    split_and!; [by eapply with_counter_keys|by eapply above_mono; [apply with_counter_mono|]|done|done].
Qed.

Lemma knock_inv path l v s io payload src now v' ops r :
  with_extension path "tmp" <> path ->
  counters_inv path l (v, s) -> verify v io payload src now = (v', ops, r) ->
  counters_inv path (l ++ option_list (to_option r)) (v', fs_run ops s).
Proof.
  intros Hne Hinv Hv.
  pose proof (knock_prefix_inv _ _ _ _ _ _ _ _ _ _ _ ops Hne Hinv Hv ltac:(done)) as Hf.
  destruct Hinv as [Hp Hk Ha _]. simpl in *.
  pose proof (verify_cases v io payload src now) as Hc. rewrite Hv in Hc.
  inversion Hc as [|p c ? pe Ho _ (_ & _ & _ & _ & Hctr) Hs|p c ? Ho _ (_ & _ & _ & _ & Hctr) Hs]; subst;
    cbn [to_option option_list]; rewrite ?app_nil_r.
  - by split.
  - split; simpl; [done|by eapply with_counter_keys|by eapply above_mono; [apply with_counter_mono|]|done].
  - assert (Hab : above (highest_counters (with_counter v (key_id p) (counter p))) (l ++ [accept_of p c])).
    { apply Forall_app; split; [by eapply above_mono; [apply with_counter_mono|]|].
      repeat constructor. simpl. rewrite lookup_insert_eq. simpl. lia. }
    split; simpl; [done|by eapply with_counter_keys|done|]. right.
    destruct (persist_saves (with_counter v (key_id p) (counter p)) _ _ _ path Hp Hs) as ([[]|] & Hsave & Hr); [|discriminate].
    destruct (save_Ok_contents _ _ _ _ s Hne Hsave) as (contents & He & Hl).
    eexists _, contents. split_and!; [by eapply (with_counter_keys v)|done|done|done].
Qed.

Lemma life_inv path l st o st' :
  with_extension path "tmp" <> path ->
  counters_inv path l st -> life path st o st' -> counters_inv path (l ++ option_list o) st'.
Proof.
  intros Hne Hinv Hl. inversion Hl; subst; simpl; rewrite ?app_nil_r.
  - by eapply knock_inv.
  - destruct Hinv. by split.
  - eapply load_inv; [|done]. apply Hinv.
  - eapply load_inv; [|done]. by eapply knock_prefix_inv.
Qed.

Lemma life_fresh path l st a st' :
  counters_inv path l st -> life path st (Some a) st' ->
  Forall (fun b => acc_key_id b = acc_key_id a -> acc_counter b < acc_counter a) l.
Proof.
  intros [_ _ Ha _] Hl. inversion Hl as [v s io payload src now v' ops r Hv| | |]; subst.
  destruct r as [a'|e]; [|discriminate]. simplify_eq/=.
  pose proof (verify_cases v io payload src now) as Hc. rewrite Hv in Hc.
  inversion Hc as [| |p c ? Ho _ (_ & _ & _ & _ & Hctr) Hs]; subst.
  eapply Forall_impl; [exact Ha|]. intros b Hb Heq. simpl in *. rewrite Heq in Hb. lia.
Qed.

Lemma lives_inv path st l st' :
  with_extension path "tmp" <> path ->
  counters_inv path [] st -> lives path st l st' ->
  counters_inv path l st' /\
  forall i j a b, (i < j)%nat -> l !! i = Some a -> l !! j = Some b ->
    acc_key_id a = acc_key_id b -> acc_counter a < acc_counter b.
Proof.
  intros Hne H0. induction 1 as [|st l st1 o st2 _ IH Hl]; [by split|].
  destruct (IH H0) as [Hinv Hord]. split; [by eapply life_inv|].
  intros i j a b Hij Hi Hj Hk. destruct o as [x|]; simpl in *; [|rewrite app_nil_r in *; eauto].
  pose proof (lookup_lt_Some _ _ _ Hj) as Hlt. rewrite length_app in Hlt. simpl in Hlt.
  rewrite lookup_app_l in Hi by lia.
  destruct (decide (j < length l)%nat) as [Hj'|Hj'].
  - rewrite lookup_app_l in Hj by done. eauto.
  - replace j with (length l) in Hj by lia. rewrite lookup_app_r, Nat.sub_diag in Hj by done.
    injection Hj as ->. pose proof (life_fresh _ _ _ _ _ Hinv Hl) as Hf.
    rewrite Forall_lookup in Hf. by eapply Hf.
Qed.

(** C1: no replay, ever.  Over any run of the server made of knocks (with any
    failure of the counter file's system calls), hot reloads, restarts and
    process crashes in the middle of a save, the counters accepted for one key
    are strictly increasing; in particular no captured packet is accepted twice.
    Nothing is assumed of the counter file found at the start. *)
Theorem no_replay path st l st' i j a b :
  with_extension path "tmp" <> path ->
  counter_state_path st.1 = Some path -> counter_keys (highest_counters st.1) ->
  lives path st l st' -> (i < j)%nat ->
  l !! i = Some a -> l !! j = Some b -> acc_key_id a = acc_key_id b ->
  acc_counter a < acc_counter b.
Proof.
  intros Hne Hp Hk Hl. destruct (lives_inv path st l st' Hne) as [_ H]; [|done|].
  - split; [done|done|constructor|by left].
  - by apply H.
Qed.

End replay.

(** * Revocation *)

Section revocation.
Context `{C : Crypto} {T : CounterToml}.

Lemma clients_by_key_id_foldl_lookup (l : list AuthorizedClient) (m : gmap bytes AuthorizedClient) (k : bytes) :
  foldl (fun m c => <[ac_key_id c := c]> m) m l !! k
  = match last (filter (fun c => ac_key_id c = k) l) with Some c => Some c | None => m !! k end.
Proof.
  revert m. induction l as [|c l IH] using rev_ind; intros m; simpl; [done|].
  rewrite foldl_app. simpl. rewrite filter_app. cbn [filter list_filter].
  destruct (decide (ac_key_id c = k)) as [<-|Hne].
  - rewrite lookup_insert_eq. by rewrite last_snoc.
  - rewrite lookup_insert_ne, app_nil_r by done. apply IH.
Qed.

(** The client of a key id is the last enrolled one with it. *)
Lemma clients_by_key_id_lookup l (k : bytes) :
  clients_by_key_id l !! k = last (filter (fun c => ac_key_id c = k) l).
Proof.
  unfold clients_by_key_id. rewrite clients_by_key_id_foldl_lookup, lookup_empty. by destruct (last _).
Qed.

Lemma clients_by_key_id_None l (k : bytes) :
  clients_by_key_id l !! k = None <-> ~ exists c, c ∈ l /\ ac_key_id c = k.
Proof.
  rewrite clients_by_key_id_lookup, last_None. split.
  - intros H (c & Hin & Hk). assert (c ∈ filter (fun c => ac_key_id c = k) l) by by apply list_elem_of_filter.
    rewrite H in *. by eapply not_elem_of_nil.
  - intros H. destruct (filter _ l) as [|c l'] eqn:E; [done|]. exfalso. apply H.
    assert (Hc : c ∈ filter (fun c => ac_key_id c = k) l) by (rewrite E; left).
    apply list_elem_of_filter in Hc as [? ?]. eauto.
Qed.

(** Hot reload revokes.  The key ids a reload reports are exactly those that
    were enrolled and no longer are; every packet that names a key not in the
    new list, whatever its signature, is refused as unknown with no effect; and
    the replay counters survive, so re-enrolling a key does not reopen its old
    packets. *)
Theorem reload_revokes v cs v' removed k :
  reload_clients v cs = (v', removed) ->
  (k ∈ removed <-> is_Some (clients v !! k) /\ ~ exists c, c ∈ cs /\ ac_key_id c = k) /\
  highest_counters v' = highest_counters v /\
  ((~ exists c, c ∈ cs /\ ac_key_id c = k) ->
   forall io payload src now p,
     spa_open payload (server_static_private v) = Ok p -> key_id p = k ->
     verify v' io payload src now = (v', [], Err (UnknownKey (key_id_hex k)))).
Proof.
  intros [= <- <-]. split_and!; [|done|].
  - rewrite list_elem_of_filter. cbn [clients with_clients]. rewrite clients_by_key_id_None.
    assert (k ∈ (map_to_list (clients v)).*1 <-> is_Some (clients v !! k)) as ->; [|tauto].
    rewrite list_elem_of_fmap. split.
    + intros ([k' c] & -> & Hin). apply elem_of_map_to_list in Hin. by eexists.
    + intros [c Hc]. exists (k, c). split; [done|]. by apply elem_of_map_to_list.
  - intros Hno io payload src now p Ho <-. unfold verify. cbn [clients server_static_private with_clients].
    rewrite Ho. by apply clients_by_key_id_None in Hno as ->.
Qed.

Context {TL : CounterTomlLaws T}.

(** One oversized counter disables every client.  Counters are unsigned
    64-bit but the file format holds signed 64-bit integers: once the verifier
    holds a counter above [i64::MAX] for any key, every otherwise acceptable
    knock of every client fails to be saved, and is refused, until the process
    restarts. *)
Theorem oversized_counter_blocks_all v io payload src now path k c :
  counter_state_path v = Some path ->
  highest_counters v !! k = Some c -> i64_max < c ->
  (forall a, (verify v io payload src now).2 <> Ok a) /\
  exists c', highest_counters (verify v io payload src now).1.1 !! k = Some c' /\ i64_max < c'.
Proof.
  intros Hp Hk Hc. pose proof (verify_cases v io payload src now) as Hcase.
  assert (Hmono : forall p, default 0 (highest_counters v !! key_id p) < counter p ->
    exists c', highest_counters (with_counter v (key_id p) (counter p)) !! k = Some c' /\ i64_max < c').
  { intros p Hctr. cbn [highest_counters with_counter].
    destruct (decide (k = key_id p)) as [->|Hne].
    - rewrite lookup_insert_eq. rewrite Hk in Hctr. simpl in Hctr. eexists; split; [done|lia].
    - rewrite lookup_insert_ne by done. eauto. }
  inversion Hcase as [? He E|p cl ? pe Ho _ (_ & _ & _ & _ & Hctr) Hs E|p cl ? Ho _ (_ & _ & _ & _ & Hctr) Hs E];
    simpl; [split; [done|eauto]|split; [done|by apply Hmono]|].
  exfalso. destruct (persist_saves (with_counter v (key_id p) (counter p)) _ _ _ path Hp Hs) as ([[]|] & Hsave & Hr); [|discriminate].
  apply save_ops_shape in Hsave as [(_ & contents & dirs & He & _)|[[? [=]] _]].
  destruct (Hmono p Hctr) as (c' & Hk' & Hc').
  destruct (toml_counters_total (kmap key_id_hex (highest_counters (with_counter v (key_id p) (counter p)))))
    as [Hall _]. specialize (Hall ltac:(eauto)).
  specialize (Hall (key_id_hex k) c'). simpl in Hall.
  rewrite lookup_kmap in Hall by apply _. specialize (Hall Hk'). lia.
Qed.

End revocation.
