(* ===== verification/Xdp.v ===== *)
(** The kernel packet filter: [ghostbro-ebpf/src/main.rs].

    A frame is a byte list at an address [data]; a dereference outside of it is
    the explicit outcome [XFault], so that memory safety is a theorem.  What the
    kernel decides (clock readings, LRU evictions, ring-buffer space, the
    behaviour of [bpf_xdp_load_bytes]) is an argument. *)

From S2P Require Import Prelude Protocol.

Definition ETH_HDR_LEN : Z := 14.
Definition IPV4_MIN_HDR_LEN : Z := 20.
Definition TCP_MIN_HDR_LEN : Z := 20.
Definition UDP_HDR_LEN : Z := 8.
Definition ETHERTYPE_IPV4 : Z := 0x0800.
Definition IP_PROTO_TCP : Z := 6.
Definition IP_PROTO_UDP : Z := 17.
Definition RATE_REFILL_NS : Z := 60000000000.
Definition GLOBAL_RATE_MULTIPLIER : Z := 256.
Definition GLOBAL_RATE_MAX : Z := 1000000.
(** [size_of::<SpaEvent>()]: 4 + 2 + 2 + 176 bytes at offsets 0, 4, 6 and 8. *)
Definition SPA_EVENT_SIZE : nat := 184.

Inductive xdp_action := XDP_PASS | XDP_DROP.

#[global] Instance xdp_action_eq_dec : EqDecision xdp_action.
Proof. solve_decision. Defined.

(** [Result<A, ()>], plus an access outside of the frame or the event. *)
Inductive xres (A : Type) := XOk (a : A) | XErr | XFault.
Arguments XOk {A} a.
Arguments XErr {A}.
Arguments XFault {A}.

#[global] Instance xres_ret : MRet xres := fun A a => XOk a.
#[global] Instance xres_bind : MBind xres := fun A B f m =>
  match m with XOk a => f a | XErr => XErr | XFault => XFault end.

Definition xok_or {A} (o : option A) : xres A :=
  match o with Some a => XOk a | None => XErr end.

(** * State and environment *)

(** The maps shared with user space. *)
Record xdp_maps := {
  CONFIG : option BpfConfig;
  ALLOW_MAP : gmap Z AllowEntry;
  RATE_LIMIT : gmap Z RateState;
  GLOBAL_RATE : option RateState;
  SPA_RING : list bytes
}.

Definition set_allow (f : gmap Z AllowEntry -> gmap Z AllowEntry) (s : xdp_maps) : xdp_maps :=
  {| CONFIG := CONFIG s; ALLOW_MAP := f (ALLOW_MAP s); RATE_LIMIT := RATE_LIMIT s;
     GLOBAL_RATE := GLOBAL_RATE s; SPA_RING := SPA_RING s |}.
Definition set_rate (m : gmap Z RateState) (s : xdp_maps) : xdp_maps :=
  {| CONFIG := CONFIG s; ALLOW_MAP := ALLOW_MAP s; RATE_LIMIT := m;
     GLOBAL_RATE := GLOBAL_RATE s; SPA_RING := SPA_RING s |}.
Definition set_global (g : option RateState) (s : xdp_maps) : xdp_maps :=
  {| CONFIG := CONFIG s; ALLOW_MAP := ALLOW_MAP s; RATE_LIMIT := RATE_LIMIT s;
     GLOBAL_RATE := g; SPA_RING := SPA_RING s |}.
Definition submit (e : bytes) (s : xdp_maps) : xdp_maps :=
  {| CONFIG := CONFIG s; ALLOW_MAP := ALLOW_MAP s; RATE_LIMIT := RATE_LIMIT s;
     GLOBAL_RATE := GLOBAL_RATE s; SPA_RING := SPA_RING s ++ [e] |}.

(** What the kernel decides while one packet is handled: the clock at each of
    the three call sites of [bpf_ktime_get_ns], the outcome of an LRU insertion
    (whether it succeeds and which keys it evicts), the reserved ring slot with
    whatever it contains, and the bytes [bpf_xdp_load_bytes] yields. *)
Record xdp_env := {
  now_allow : Z;
  now_rate : Z;
  now_global : Z;
  insert_ok : bool;
  evicted : list Z;
  reserve : option bytes;
  xdp_load_bytes : Z -> Z -> option bytes
}.

(** Insertion into an LRU map. *)
Definition lru_insert {V} (env : xdp_env) (k : Z) (v : V) (m : gmap Z V) : gmap Z V :=
  if insert_ok env then <[k := v]> (filter (fun kv => kv.1 ∉ evicted env) m) else m.

(** Documented behaviour of the kernel's services for a frame [pkt]: a reserved
    slot has the requested size, and [bpf_xdp_load_bytes] copies the requested
    range when it lies in the frame, and never a different number of bytes. *)
Record env_wf (env : xdp_env) (pkt : bytes) : Prop := {
  wf_reserve : forall b, reserve env = Some b -> length b = SPA_EVENT_SIZE;
  wf_load : forall off len, 0 <= off -> 0 < len -> off + len <= blen pkt ->
    xdp_load_bytes env off len = Some (slice (Z.to_nat off) (Z.to_nat (off + len)) pkt);
  wf_load_length : forall off len b, xdp_load_bytes env off len = Some b -> blen b = len
}.

(** * Packet access *)

(** The memory of the frame. *)
Definition frame_mem (data : Z) (pkt : bytes) (ptr : Z) : option byte :=
  if data <=? ptr then pkt !! Z.to_nat (ptr - data) else None.

Section access.
Context (mem : Z -> option byte).

Definition has_bytes (data data_end offset len : Z) : bool :=
  let end_ := default (umax 64)
    (match checked_add 64 data offset with
     | Some start => checked_add 64 start len
     | None => None
     end) in
  end_ <=? data_end.

Definition read_u8 (data data_end offset : Z) : xres Z :=
  ptr ← xok_or (checked_add 64 data offset);
  end_ ← xok_or (checked_add 64 ptr 1);
  if data_end <? end_ then XErr
  else match mem ptr with Some b => XOk (b2z b) | None => XFault end.

Definition read_be_u16 (data data_end offset : Z) : xres Z :=
  high ← read_u8 data data_end offset;
  off1 ← xok_or (checked_add 64 offset 1);
  low ← read_u8 data data_end off1;
  XOk (Z.lor (Z.shiftl high 8) low).

Definition read_be_u32 (data data_end offset : Z) : xres Z :=
  b0 ← read_u8 data data_end offset;
  off1 ← xok_or (checked_add 64 offset 1);
  b1 ← read_u8 data data_end off1;
  off2 ← xok_or (checked_add 64 offset 2);
  b2 ← read_u8 data data_end off2;
  off3 ← xok_or (checked_add 64 offset 3);
  b3 ← read_u8 data data_end off3;
  XOk (Z.lor (Z.lor (Z.lor (Z.shiftl b0 24) (Z.shiftl b1 16)) (Z.shiftl b2 8)) b3).

End access.

(** * Ring events *)

(** Native byte order of the machine. *)
Inductive endian := LittleEndian | BigEndian.
Definition ne_bytes (e : endian) (n : nat) (z : Z) : bytes :=
  match e with LittleEndian => le_bytes n z | BigEndian => be_bytes n z end.
Definition from_ne (e : endian) (l : bytes) : Z :=
  match e with LittleEndian => from_le l | BigEndian => from_be l end.

(** [write_u8]: a store into the reserved slot. *)
Definition write_u8 (dst : bytes) (offset : nat) (value : byte) : xres bytes :=
  if (offset <? length dst)%nat then XOk (<[offset := value]> dst) else XFault.

Definition write_u16_ne (en : endian) (dst : bytes) (offset : nat) (value : Z) : xres bytes :=
  let b := ne_bytes en 2 value in
  dst ← write_u8 dst offset (nth 0 b x00);
  write_u8 dst (offset + 1) (nth 1 b x00).

Definition write_u32_ne (en : endian) (dst : bytes) (offset : nat) (value : Z) : xres bytes :=
  let b := ne_bytes en 4 value in
  dst ← write_u8 dst offset (nth 0 b x00);
  dst ← write_u8 dst (offset + 1) (nth 1 b x00);
  dst ← write_u8 dst (offset + 2) (nth 2 b x00);
  write_u8 dst (offset + 3) (nth 3 b x00).

(** The helper's copy of [data] to offset [offset] of the slot. *)
Definition copy_into (dst : bytes) (offset : nat) (data : bytes) : xres bytes :=
  if (offset + length data <=? length dst)%nat
  then XOk (take offset dst ++ data ++ drop (offset + length data) dst)
  else XFault.

Definition emit_spa_event (en : endian) (env : xdp_env) (s : xdp_maps)
    (payload_offset payload_len src_ip src_port : Z) : xres xdp_maps :=
  let copy_len := if BPF_SPA_MAX_LEN <? payload_len then BPF_SPA_MAX_LEN else payload_len in
  if copy_len <? BPF_SPA_MIN_LEN then XOk s
  else match reserve env with
  | None => XOk s
  | Some event =>
      event ← write_u32_ne en event 0 src_ip;
      event ← write_u16_ne en event 4 src_port;
      event ← write_u16_ne en event 6 (wrap 16 copy_len);
      match xdp_load_bytes env (wrap 32 payload_offset) (wrap 32 copy_len) with
      | None => XOk s
      | Some data => event ← copy_into event 8 data; XOk (submit event s)
      end
  end.

(** * Admission *)

Definition is_spa_length (payload_len : Z) : bool :=
  (BPF_SPA_MIN_LEN <=? payload_len) && (payload_len <=? BPF_SPA_MAX_LEN).

Definition is_allowed (env : xdp_env) (s : xdp_maps) (src_ip : Z) : xdp_maps * bool :=
  match ALLOW_MAP s !! src_ip with
  | None => (s, false)
  | Some entry =>
      if expiry_ns entry <=? now_allow env then (set_allow (delete src_ip) s, false) else (s, true)
  end.

Definition rate_limit_allows (env : xdp_env) (s : xdp_maps) (src_ip configured_limit : Z)
    : xdp_maps * bool :=
  let limit := if configured_limit =? 0 then DEFAULT_RATE_LIMIT_PER_MINUTE else configured_limit in
  let now := now_rate env in
  let state := default {| tokens := limit; last_ns := now |} (RATE_LIMIT s !! src_ip) in
  let state := if RATE_REFILL_NS <=? sat_sub now (last_ns state)
               then {| tokens := limit; last_ns := now |} else state in
  if tokens state =? 0
  then (set_rate (lru_insert env src_ip state (RATE_LIMIT s)) s, false)
  else let state := {| tokens := tokens state - 1; last_ns := last_ns state |} in
       (set_rate (lru_insert env src_ip state (RATE_LIMIT s)) s, true).

Definition global_rate_limit_allows (env : xdp_env) (s : xdp_maps) (configured_limit : Z)
    : xdp_maps * bool :=
  let per_ip_limit := if configured_limit =? 0 then DEFAULT_RATE_LIMIT_PER_MINUTE else configured_limit in
  let limit := Z.min (sat_mul 32 per_ip_limit GLOBAL_RATE_MULTIPLIER) GLOBAL_RATE_MAX in
  let now := now_global env in
  match GLOBAL_RATE s with
  | None => (s, false)
  | Some state =>
      let state := if (last_ns state =? 0) || (RATE_REFILL_NS <=? sat_sub now (last_ns state))
                   then {| tokens := limit; last_ns := now |} else state in
      if tokens state =? 0 then (set_global (Some state) s, false)
      else (set_global (Some {| tokens := sat_sub (tokens state) 1; last_ns := last_ns state |}) s, true)
  end.

(** * Handlers *)

Definition load_config (s : xdp_maps) : BpfConfig :=
  default {| spa_port := DEFAULT_SPA_PORT; proxy_port := DEFAULT_PROXY_PORT;
             rate_limit_per_minute := DEFAULT_RATE_LIMIT_PER_MINUTE; spa_mode := SPA_MODE_UDP |}
          (CONFIG s).

Section handlers.
Context (en : endian) (env : xdp_env) (mem : Z -> option byte).

Definition handle_tcp (s : xdp_maps) (data data_end transport_offset src_ip proxy_port : Z)
    : xres (xdp_maps * xdp_action) :=
  if negb (has_bytes data data_end transport_offset TCP_MIN_HDR_LEN) then XOk (s, XDP_PASS)
  else
    off2 ← xok_or (checked_add 64 transport_offset 2);
    dst_port ← read_be_u16 mem data data_end off2;
    if negb (dst_port =? proxy_port) then XOk (s, XDP_PASS)
    else let '(s, allowed) := is_allowed env s src_ip in
         if allowed then XOk (s, XDP_PASS) else XOk (s, XDP_DROP).

Definition handle_udp (s : xdp_maps)
    (data data_end transport_offset src_ip spa_port rate_limit_per_minute : Z)
    : xres (xdp_maps * xdp_action) :=
  if negb (has_bytes data data_end transport_offset UDP_HDR_LEN) then XOk (s, XDP_PASS)
  else
    off2 ← xok_or (checked_add 64 transport_offset 2);
    dst_port ← read_be_u16 mem data data_end off2;
    if negb (dst_port =? spa_port) then XOk (s, XDP_PASS)
    else
      src_port ← read_be_u16 mem data data_end transport_offset;
      off4 ← xok_or (checked_add 64 transport_offset 4);
      udp_len ← read_be_u16 mem data data_end off4;
      if udp_len <? UDP_HDR_LEN then XOk (s, XDP_DROP)
      else
        payload_offset ← xok_or (checked_add 64 transport_offset UDP_HDR_LEN);
        let payload_len := wrap 64 (udp_len - UDP_HDR_LEN) in
        if negb (has_bytes data data_end payload_offset payload_len) then XOk (s, XDP_DROP)
        else if is_spa_length payload_len
        then
          let '(s, ok) := rate_limit_allows env s src_ip rate_limit_per_minute in
          if negb ok then XOk (s, XDP_DROP)
          else
            let '(s, ok) := global_rate_limit_allows env s rate_limit_per_minute in
            if negb ok then XOk (s, XDP_DROP)
            else
              s ← emit_spa_event en env s payload_offset payload_len src_ip src_port;
              XOk (s, XDP_DROP)
        else XOk (s, XDP_DROP).

Definition try_ghostbro_xdp (s : xdp_maps) (data data_end : Z) : xres (xdp_maps * xdp_action) :=
  let config := load_config s in
  ethertype ← read_be_u16 mem data data_end 12;
  if negb (ethertype =? ETHERTYPE_IPV4) then XOk (s, XDP_PASS)
  else
    let ipv4_offset := ETH_HDR_LEN in
    if negb (has_bytes data data_end ipv4_offset IPV4_MIN_HDR_LEN) then XOk (s, XDP_PASS)
    else
      vihl ← read_u8 mem data data_end ipv4_offset;
      let ihl := wrap 64 (Z.land vihl 0x0f * 4) in
      if ihl <? IPV4_MIN_HDR_LEN then XOk (s, XDP_PASS)
      else
        off9 ← xok_or (checked_add 64 ipv4_offset 9);
        proto ← read_u8 mem data data_end off9;
        off12 ← xok_or (checked_add 64 ipv4_offset 12);
        src_ip ← read_be_u32 mem data data_end off12;
        transport_offset ← xok_or (checked_add 64 ipv4_offset ihl);
        if proto =? IP_PROTO_TCP
        then handle_tcp s data data_end transport_offset src_ip (proxy_port config)
        else if (proto =? IP_PROTO_UDP) && negb (Z.land (spa_mode config) SPA_MODE_UDP =? 0)
        then handle_udp s data data_end transport_offset src_ip (spa_port config)
               (rate_limit_per_minute config)
        else XOk (s, XDP_PASS).

End handlers.

(** [ghostbro_xdp]: an error passes the packet.  The maps are only changed on
    paths that do not fail, so the state of a failed run is the initial one. *)
Definition ghostbro_xdp (en : endian) (env : xdp_env) (s : xdp_maps) (data : Z) (pkt : bytes)
    : option (xdp_maps * xdp_action) :=
  match try_ghostbro_xdp en env (frame_mem data pkt) s data (data + blen pkt) with
  | XOk r => Some r
  | XErr => Some (s, XDP_PASS)
  | XFault => None
  end.
