(* ===== verification/XdpFacts.v ===== *)
(** Correctness of the packet filter: a declarative specification it refines
    (and hence memory safety), the TCP gate, the two rate limits and the ring
    events. *)

From S2P Require Import Prelude Protocol Xdp.

(** * Reference semantics

    What a frame is, by the field offsets of Ethernet, IPv4, TCP and UDP. *)

Definition byte_at (pkt : bytes) (off : Z) : Z := b2z (nth (Z.to_nat off) pkt x00).
Definition be16 (pkt : bytes) (off : Z) : Z := byte_at pkt off * 256 + byte_at pkt (off + 1).
Definition be32 (pkt : bytes) (off : Z) : Z :=
  ((byte_at pkt off * 256 + byte_at pkt (off + 1)) * 256 + byte_at pkt (off + 2)) * 256
  + byte_at pkt (off + 3).

Inductive frame_class :=
| FOther
| FTcp (src dport : Z)
| FUdp (src sport dport udp_len payload_off : Z).

Definition classify (pkt : bytes) : frame_class :=
  if blen pkt <? 34 then FOther
  else if negb (be16 pkt 12 =? 0x0800) then FOther
  else
    let t := 14 + byte_at pkt 14 mod 16 * 4 in
    if t <? 34 then FOther
    else if byte_at pkt 23 =? 6 then
      if blen pkt <? t + 20 then FOther else FTcp (be32 pkt 26) (be16 pkt (t + 2))
    else if byte_at pkt 23 =? 17 then
      if blen pkt <? t + 8 then FOther
      else FUdp (be32 pkt 26) (be16 pkt t) (be16 pkt (t + 2)) (be16 pkt (t + 4)) (t + 8)
    else FOther.

(** The event left in a ring slot that held [slot]. *)
Definition event_bytes (en : endian) (src sport : Z) (payload slot : bytes) : bytes :=
  ne_bytes en 4 src ++ ne_bytes en 2 sport ++ ne_bytes en 2 (blen payload) ++ payload
  ++ drop (8 + length payload) slot.

(** What the filter must do with a frame. *)
Definition xdp_spec (en : endian) (env : xdp_env) (s : xdp_maps) (pkt : bytes)
    : xdp_maps * xdp_action :=
  let cfg := load_config s in
  match classify pkt with
  | FOther => (s, XDP_PASS)
  | FTcp src dport =>
      if negb (dport =? proxy_port cfg) then (s, XDP_PASS)
      else match ALLOW_MAP s !! src with
           | None => (s, XDP_DROP)
           | Some e => if now_allow env <? expiry_ns e then (s, XDP_PASS)
                       else (set_allow (delete src) s, XDP_DROP)
           end
  | FUdp src sport dport udp_len off =>
      if (Z.land (spa_mode cfg) SPA_MODE_UDP =? 0) || negb (dport =? spa_port cfg) then (s, XDP_PASS)
      else
        let len := udp_len - 8 in
        if (143 <=? len) && (len <=? 176) && (off + len <=? blen pkt) then
          let '(s1, ok1) := rate_limit_allows env s src (rate_limit_per_minute cfg) in
          if negb ok1 then (s1, XDP_DROP)
          else
            let '(s2, ok2) := global_rate_limit_allows env s1 (rate_limit_per_minute cfg) in
            match ok2, reserve env with
            | true, Some slot =>
                (submit (event_bytes en src sport
                   (slice (Z.to_nat off) (Z.to_nat (off + len)) pkt) slot) s2, XDP_DROP)
            | _, _ => (s2, XDP_DROP)
            end
        else (s, XDP_DROP)
  end.

(** * Packet access *)

Section access_facts.
Context (data : Z) (pkt : bytes) (Hd : 0 <= data) (Hend : data + blen pkt < umax 64).

Abbreviation mem := (frame_mem data pkt).
Abbreviation data_end := (data + blen pkt).

Lemma has_bytes_spec off len :
  0 <= off -> 0 <= len -> has_bytes data data_end off len = (off + len <=? blen pkt).
Proof.
  intros Ho Hl. unfold has_bytes, checked_add.
  destruct (Z.leb_spec (data + off) (umax 64)); [|simpl; lia].
  destruct (Z.leb_spec (data + off + len) (umax 64)); simpl; lia.
Qed.

Lemma byte_at_range off : 0 <= byte_at pkt off < 256.
Proof. apply b2z_range. Qed.

Lemma read_u8_spec off :
  0 <= off -> read_u8 mem data data_end off
              = if off <? blen pkt then XOk (byte_at pkt off) else XErr.
Proof.
  intros Ho. unfold read_u8, checked_add.
  destruct (Z.leb_spec (data + off) (umax 64)); simpl.
  2: { destruct (Z.ltb_spec off (blen pkt)); [lia|done]. }
  destruct (Z.leb_spec (data + off + 1) (umax 64)); simpl.
  2: { destruct (Z.ltb_spec off (blen pkt)); [lia|done]. }
  destruct (Z.ltb_spec data_end (data + off + 1)); destruct (Z.ltb_spec off (blen pkt)); try lia; [done|].
  unfold frame_mem. destruct (Z.leb_spec data (data + off)); [|lia].
  replace (data + off - data) with off by lia. unfold byte_at.
  destruct (lookup_lt_is_Some_2 pkt (Z.to_nat off)) as [b Hb]; [unfold blen in *; lia|].
  rewrite Hb. by rewrite (nth_lookup_Some pkt _ x00 _ Hb).
Qed.

Lemma checked_add_fits a b : a + b <= umax 64 -> checked_add 64 a b = Some (a + b).
Proof. intros. by apply checked_add_Some. Qed.

Lemma read_be_u16_spec off :
  0 <= off -> off + 1 <= umax 64 ->
  read_be_u16 mem data data_end off
  = if off + 2 <=? blen pkt then XOk (be16 pkt off) else XErr.
Proof.
  intros Ho Hm. unfold read_be_u16. rewrite read_u8_spec by done.
  destruct (Z.ltb_spec off (blen pkt)); simpl.
  2: { destruct (Z.leb_spec (off + 2) (blen pkt)); [lia|done]. }
  rewrite checked_add_fits by done. simpl. rewrite read_u8_spec by lia.
  destruct (Z.ltb_spec (off + 1) (blen pkt)); destruct (Z.leb_spec (off + 2) (blen pkt)); try lia; [|done].
  simpl. by rewrite lor_shiftl by (pose proof (byte_at_range (off + 1)); lia).
Qed.

Lemma word_of_bytes b0 b1 b2 b3 :
  0 <= b1 < 256 -> 0 <= b2 < 256 -> 0 <= b3 < 256 ->
  Z.lor (Z.lor (Z.lor (Z.shiftl b0 24) (Z.shiftl b1 16)) (Z.shiftl b2 8)) b3
  = ((b0 * 256 + b1) * 256 + b2) * 256 + b3.
Proof.
  intros. change 24 with (8 + 16). rewrite <- (Z.shiftl_shiftl b0 8 16) by lia.
  rewrite <- Z.shiftl_lor, (lor_shiftl b0 b1 8) by lia.
  change 16 with (8 + 8). rewrite <- (Z.shiftl_shiftl _ 8 8), <- Z.shiftl_lor by lia.
  rewrite (lor_shiftl _ b2 8) by lia. rewrite lor_shiftl by lia. lia.
Qed.

Lemma read_be_u32_spec off :
  0 <= off -> off + 4 <= blen pkt -> read_be_u32 mem data data_end off = XOk (be32 pkt off).
Proof.
  intros Ho Hl. unfold read_be_u32. rewrite read_u8_spec by done.
  rewrite !checked_add_fits by lia.
  destruct (Z.ltb_spec off (blen pkt)); [|lia]. simpl.
  rewrite !read_u8_spec by lia.
  destruct (Z.ltb_spec (off + 1) (blen pkt)); [|lia].
  destruct (Z.ltb_spec (off + 2) (blen pkt)); [|lia].
  destruct (Z.ltb_spec (off + 3) (blen pkt)); [|lia]. simpl.
  unfold be32. rewrite word_of_bytes; try apply byte_at_range. done.
Qed.

End access_facts.

(** * Ring events *)

Lemma length_ne_bytes en n z : length (ne_bytes en n z) = n.
Proof. destruct en; auto with ghost. Qed.

Lemma from_ne_bytes en n z :
  0 <= z < 256 ^ Z.of_nat n -> from_ne en (ne_bytes en n z) = z.
Proof. destruct en; [apply from_le_small | apply from_be_small]. Qed.

Lemma header_writes en slot src sport len :
  length slot = SPA_EVENT_SIZE ->
  (event ← write_u32_ne en slot 0 src; event ← write_u16_ne en event 4 sport;
   write_u16_ne en event 6 len)
  = XOk (ne_bytes en 4 src ++ ne_bytes en 2 sport ++ ne_bytes en 2 len ++ drop 8 slot).
Proof.
  intros Hl. unfold write_u32_ne, write_u16_ne.
  pose proof (length_ne_bytes en 4 src) as H4. pose proof (length_ne_bytes en 2 sport) as Hp.
  pose proof (length_ne_bytes en 2 len) as Hn.
  destruct (ne_bytes en 4 src) as [|a0 [|a1 [|a2 [|a3 [|]]]]]; try discriminate H4.
  destruct (ne_bytes en 2 sport) as [|p0 [|p1 [|]]]; try discriminate Hp.
  destruct (ne_bytes en 2 len) as [|l0 [|l1 [|]]]; try discriminate Hn.
  destruct slot as [|s0 [|s1 [|s2 [|s3 [|s4 [|s5 [|s6 [|s7 slot]]]]]]]]; try discriminate Hl.
  done.
Qed.

Lemma emit_spa_event_spec en env s pkt off len src sport :
  env_wf env pkt -> 0 <= off -> 143 <= len <= 176 -> off + len <= blen pkt -> blen pkt < 2 ^ 32 ->
  emit_spa_event en env s off len src sport
  = XOk (match reserve env with
         | Some slot => submit (event_bytes en src sport
                          (slice (Z.to_nat off) (Z.to_nat (off + len)) pkt) slot) s
         | None => s
         end).
Proof.
  intros [Hr Hload _] Ho Hlen Hin Hsz. unfold emit_spa_event, BPF_SPA_MAX_LEN, BPF_SPA_MIN_LEN.
  destruct (Z.ltb_spec 176 len); [lia|]. destruct (Z.ltb_spec len 143); [lia|].
  destruct (reserve env) as [slot|]; [|done]. specialize (Hr slot eq_refl).
  unfold wrap. rewrite !Z.mod_small by lia. rewrite Hload by lia.
  pose proof (header_writes en slot src sport len Hr) as Hh.
  destruct (write_u32_ne en slot 0 src) as [e1| |]; [|discriminate..]. cbn [mbind xres_bind] in *.
  destruct (write_u16_ne en e1 4 sport) as [e2| |]; [|discriminate..]. cbn [mbind xres_bind] in *.
  rewrite Hh. cbn [mbind xres_bind].
  set (payload := slice _ _ pkt).
  assert (Hp : length payload = Z.to_nat len).
  { unfold payload. rewrite length_slice; unfold blen in *; lia. }
  unfold copy_into. rewrite !length_app, !length_ne_bytes, length_drop, Hr.
  destruct (Nat.leb_spec (8 + length payload) (4 + (2 + (2 + (SPA_EVENT_SIZE - 8))))); [|unfold SPA_EVENT_SIZE in *; lia].
  cbn [mbind xres_bind]. do 2 f_equal. unfold event_bytes.
  assert (Hb : blen payload = len) by (unfold blen; lia). rewrite Hb.
  rewrite !app_assoc. rewrite <- (app_assoc _ payload). rewrite take_app_length'.
  - rewrite drop_app, !length_app, !length_ne_bytes, drop_drop.
    rewrite (drop_ge ((_ ++ _) ++ _)) by (rewrite !length_app, !length_ne_bytes; lia).
    rewrite app_nil_l, <- (app_assoc _ payload). repeat f_equal. lia.
  - by rewrite !length_app, !length_ne_bytes.
Qed.

(** * Refinement *)

Lemma is_allowed_spec env s src :
  (let '(s', allowed) := is_allowed env s src in
   if allowed then XOk (s', XDP_PASS) else XOk (s', XDP_DROP))
  = XOk (match ALLOW_MAP s !! src with
         | None => (s, XDP_DROP)
         | Some e => if now_allow env <? expiry_ns e then (s, XDP_PASS)
                     else (set_allow (delete src) s, XDP_DROP)
         end).
Proof.
  unfold is_allowed. destruct (ALLOW_MAP s !! src) as [e|]; [|done].
  destruct (Z.leb_spec (expiry_ns e) (now_allow env)), (Z.ltb_spec (now_allow env) (expiry_ns e)); done || lia.
Qed.

Section refinement.
Context (en : endian) (env : xdp_env) (s : xdp_maps) (data : Z) (pkt : bytes).
Context (Hd : 0 <= data) (Hend : data + blen pkt < umax 64).

Lemma handle_tcp_spec t src port :
  34 <= t <= 74 ->
  handle_tcp env (frame_mem data pkt) s data (data + blen pkt) t src port
  = XOk (if blen pkt <? t + 20 then (s, XDP_PASS)
         else if negb (be16 pkt (t + 2) =? port) then (s, XDP_PASS)
         else match ALLOW_MAP s !! src with
              | None => (s, XDP_DROP)
              | Some e => if now_allow env <? expiry_ns e then (s, XDP_PASS)
                          else (set_allow (delete src) s, XDP_DROP)
              end).
Proof.
  intros Ht. assert (Hu : umax 64 = 18446744073709551615) by done.
  unfold handle_tcp, TCP_MIN_HDR_LEN. rewrite has_bytes_spec by lia.
  destruct (Z.leb_spec (t + 20) (blen pkt)), (Z.ltb_spec (blen pkt) (t + 20)); try lia; [|done].
  cbn [negb]. rewrite checked_add_fits by lia. cbn [xok_or mbind xres_bind].
  rewrite read_be_u16_spec by lia.
  destruct (Z.leb_spec (t + 2 + 2) (blen pkt)); [|lia]. cbn [mbind xres_bind].
  destruct (negb _); [done|]. apply is_allowed_spec.
Qed.

Lemma handle_udp_spec t src port limit :
  env_wf env pkt -> blen pkt < 2 ^ 32 -> 34 <= t <= 74 ->
  handle_udp en env (frame_mem data pkt) s data (data + blen pkt) t src port limit
  = XOk (if blen pkt <? t + 8 then (s, XDP_PASS)
         else if negb (be16 pkt (t + 2) =? port) then (s, XDP_PASS)
         else
           let len := be16 pkt (t + 4) - 8 in
           if (143 <=? len) && (len <=? 176) && (t + 8 + len <=? blen pkt) then
             let '(s1, ok1) := rate_limit_allows env s src limit in
             if negb ok1 then (s1, XDP_DROP)
             else
               let '(s2, ok2) := global_rate_limit_allows env s1 limit in
               match ok2, reserve env with
               | true, Some slot =>
                   (submit (event_bytes en src (be16 pkt t)
                      (slice (Z.to_nat (t + 8)) (Z.to_nat (t + 8 + len)) pkt) slot) s2, XDP_DROP)
               | _, _ => (s2, XDP_DROP)
               end
           else (s, XDP_DROP)).
Proof.
  intros Hwf Hsz Ht. assert (Hu : umax 64 = 18446744073709551615) by done.
  unfold handle_udp, UDP_HDR_LEN. rewrite has_bytes_spec by lia.
  destruct (Z.leb_spec (t + 8) (blen pkt)), (Z.ltb_spec (blen pkt) (t + 8)); try lia; [|done].
  cbn [negb]. rewrite !checked_add_fits by lia. cbn [xok_or mbind xres_bind].
  rewrite !read_be_u16_spec by lia.
  destruct (Z.leb_spec (t + 2 + 2) (blen pkt)); [|lia]. cbn [mbind xres_bind].
  destruct (negb (be16 pkt (t + 2) =? port)); [done|].
  destruct (Z.leb_spec (t + 2) (blen pkt)); [|lia]. cbn [mbind xres_bind].
  destruct (Z.leb_spec (t + 4 + 2) (blen pkt)); [|lia]. cbn [mbind xres_bind].
  assert (Hb : 0 <= be16 pkt (t + 4) < 65536).
  { unfold be16. pose proof (byte_at_range pkt (t + 4)). pose proof (byte_at_range pkt (t + 4 + 1)). lia. }
  cbv zeta. set (n := be16 pkt (t + 4)) in *.
  destruct (Z.ltb_spec n 8).
  { destruct (Z.leb_spec 143 (n - 8)); [lia|done]. }
  unfold wrap. rewrite Z.mod_small by lia. rewrite has_bytes_spec by lia.
  unfold is_spa_length, BPF_SPA_MIN_LEN, BPF_SPA_MAX_LEN.
  destruct (Z.leb_spec (t + 8 + (n - 8)) (blen pkt)); cbn [negb].
  2: { by rewrite andb_false_r. }
  rewrite andb_true_r. destruct ((143 <=? n - 8) && (n - 8 <=? 176)) eqn:Hlen; [|done].
  bool_props. destruct (rate_limit_allows env s src limit) as [s1 []]; [|done]. cbn [negb].
  destruct (global_rate_limit_allows env s1 limit) as [s2 []]; [|done]. cbn [negb].
  rewrite (emit_spa_event_spec en env s2 pkt) by (done || lia). cbn [mbind xres_bind].
  by destruct (reserve env).
Qed.

(** The program computes the reference semantics. *)
Lemma ghostbro_xdp_eq :
  env_wf env pkt -> blen pkt < 2 ^ 32 ->
  ghostbro_xdp en env s data pkt = Some (xdp_spec en env s pkt).
Proof.
  intros Hwf Hsz. assert (Hu : umax 64 = 18446744073709551615) by done.
  unfold ghostbro_xdp, try_ghostbro_xdp, xdp_spec, classify, ETH_HDR_LEN, IPV4_MIN_HDR_LEN.
  rewrite read_be_u16_spec by lia. cbv zeta.
  destruct (Z.leb_spec (12 + 2) (blen pkt)).
  2: { destruct (Z.ltb_spec (blen pkt) 34); [done|lia]. }
  cbn [mbind xres_bind]. change ETHERTYPE_IPV4 with 0x0800.
  destruct (negb (be16 pkt 12 =? 0x0800)); [by destruct (blen pkt <? 34)|].
  rewrite has_bytes_spec by lia.
  destruct (Z.leb_spec (14 + 20) (blen pkt)), (Z.ltb_spec (blen pkt) 34); try lia; [|done].
  cbn [negb]. rewrite !read_u8_spec by lia.
  destruct (Z.ltb_spec 14 (blen pkt)); [|lia]. cbn [mbind xres_bind].
  pose proof (byte_at_range pkt 14) as Hv. change 0x0f with (Z.ones 4). rewrite Z.land_ones by lia.
  change (2 ^ 4) with 16. pose proof (Z.mod_pos_bound (byte_at pkt 14) 16 ltac:(lia)) as Hm.
  unfold wrap. rewrite (Z.mod_small (_ * 4)) by lia.
  destruct (Z.ltb_spec (byte_at pkt 14 mod 16 * 4) 20), (Z.ltb_spec (14 + byte_at pkt 14 mod 16 * 4) 34);
    try lia; [done|].
  rewrite !checked_add_fits by lia. cbn [xok_or mbind xres_bind].
  rewrite read_u8_spec by lia. destruct (Z.ltb_spec (14 + 9) (blen pkt)); [|lia]. cbn [mbind xres_bind].
  rewrite read_be_u32_spec by lia. cbn [mbind xres_bind].
  change (14 + 9) with 23. change (14 + 12) with 26.
  unfold IP_PROTO_TCP, IP_PROTO_UDP. set (t := 14 + byte_at pkt 14 mod 16 * 4) in *.
  destruct (byte_at pkt 23 =? 6).
  { rewrite handle_tcp_spec by lia. by destruct (blen pkt <? t + 20). }
  destruct (byte_at pkt 23 =? 17); [|done]. cbn [andb].
  destruct (Z.land (spa_mode (load_config s)) SPA_MODE_UDP =? 0); cbn [negb orb].
  { by destruct (blen pkt <? t + 8). }
  rewrite handle_udp_spec by (done || lia). by destruct (blen pkt <? t + 8).
Qed.

(** C7: the packet filter is memory safe and does what it should.  For every
    frame, environment and map contents the program never reads outside of the
    frame or writes outside of the reserved event, and its verdict and its
    effect on the maps are those of the reference semantics of the frame. *)
Theorem xdp_refines_spec :
  env_wf env pkt -> blen pkt < 2 ^ 32 ->
  ghostbro_xdp en env s data pkt = Some (xdp_spec en env s pkt).
Proof. exact ghostbro_xdp_eq. Qed.

End refinement.
