(* ===== verification/XdpLimits.v ===== *)
(** Consequences of the packet filter's reference semantics: the gate in front of
    the proxy port, and the bounds the two token buckets enforce on the events
    that reach user space. *)

From S2P Require Import Prelude Protocol Xdp XdpFacts.

(** * The gate *)

(** The proxy port is closed to everybody without a live entry.  A TCP frame
    for the proxy port passes exactly when its source address has an allow entry
    that has not expired at the clock reading made for it; a datagram for the SPA
    port is never delivered; every other frame passes and changes nothing. *)
Theorem xdp_gate en env s data pkt :
  0 <= data -> data + blen pkt < umax 64 -> env_wf env pkt -> blen pkt < 2 ^ 32 ->
  exists s' act, ghostbro_xdp en env s data pkt = Some (s', act) /\
  match classify pkt with
  | FTcp src dport =>
      if dport =? proxy_port (load_config s)
      then act = XDP_PASS <-> exists e, ALLOW_MAP s !! src = Some e /\ now_allow env < expiry_ns e
      else act = XDP_PASS /\ s' = s
  | FUdp _ _ dport _ _ =>
      if (dport =? spa_port (load_config s)) && negb (Z.land (spa_mode (load_config s)) SPA_MODE_UDP =? 0)
      then act = XDP_DROP else act = XDP_PASS /\ s' = s
  | FOther => act = XDP_PASS /\ s' = s
  end.
Proof.
  intros Hd He Hwf Hsz. destruct (xdp_spec en env s pkt) as [s' act] eqn:E.
  exists s', act. rewrite ghostbro_xdp_eq by done. rewrite E. split; [done|].
  unfold xdp_spec in E. destruct (classify pkt) as [|src dport|src sport dport ulen off].
  - by injection E as <- <-.
  - destruct (dport =? _); cbn [negb] in E; [|by injection E as <- <-].
    destruct (ALLOW_MAP s !! src) as [e|]; [|injection E as <- <-; naive_solver].
    destruct (Z.ltb_spec (now_allow env) (expiry_ns e)); injection E as <- <-; naive_solver lia.
  - destruct (Z.land _ _ =? 0); cbn [orb negb] in *; rewrite ?andb_false_r, ?andb_true_r;
      [by injection E as <- <-|].
    destruct (dport =? _); cbn [negb] in E; [|by injection E as <- <-].
    destruct (_ && _ && _); [|by injection E as <- <-].
    destruct (rate_limit_allows _ _ _ _) as [s1 []]; cbn [negb] in E; [|by injection E as <- <-].
    destruct (global_rate_limit_allows _ _ _) as [s2 []]; [destruct (reserve env)|];
      by injection E as <- <-.
Qed.

(** * Runs *)

(** What happens at the shared maps: a frame arrives, or user space changes the
    allow map and consumes ring events. *)
Inductive kstep :=
| KFrame (env : xdp_env) (data : Z) (pkt : bytes)
| KUser (allow : gmap Z AllowEntry) (ring : list bytes).

Definition kstep_ok (k : kstep) : Prop :=
  match k with
  | KFrame env data pkt =>
      0 <= data /\ data + blen pkt < umax 64 /\ env_wf env pkt /\ blen pkt < 2 ^ 32
  | KUser _ _ => True
  end.

Definition src_of (pkt : bytes) : Z :=
  match classify pkt with FTcp src _ | FUdp src _ _ _ _ => src | FOther => 0 end.

(** The maps after a step, and the source of the event it submitted, if any. *)
Definition kstep_run (en : endian) (k : kstep) (s : xdp_maps) : option (xdp_maps * list Z) :=
  match k with
  | KFrame env data pkt =>
      match ghostbro_xdp en env s data pkt with
      | Some (s', _) =>
          Some (s', if (length (SPA_RING s) <? length (SPA_RING s'))%nat then [src_of pkt] else [])
      | None => None
      end
  | KUser allow ring =>
      Some ({| CONFIG := CONFIG s; ALLOW_MAP := allow; RATE_LIMIT := RATE_LIMIT s;
               GLOBAL_RATE := GLOBAL_RATE s; SPA_RING := ring |}, [])
  end.

Fixpoint krun (en : endian) (l : list kstep) (s : xdp_maps) : option (xdp_maps * list Z) :=
  match l with
  | [] => Some (s, [])
  | k :: l' =>
      match kstep_run en k s with
      | Some (s1, log1) =>
          match krun en l' s1 with
          | Some (s2, log2) => Some (s2, log1 ++ log2)
          | None => None
          end
      | None => None
      end
  end.

Lemma krun_app en l1 l2 s :
  krun en (l1 ++ l2) s
  = match krun en l1 s with
    | Some (s1, log1) =>
        match krun en l2 s1 with Some (s2, log2) => Some (s2, log1 ++ log2) | None => None end
    | None => None
    end.
Proof.
  revert s; induction l1 as [|k l1 IH]; intros s; simpl.
  - by destruct (krun en l2 s) as [[]|].
  - destruct (kstep_run en k s) as [[s1 log1]|]; [|done]. rewrite IH.
    destruct (krun en l1 s1) as [[s2 log2]|]; [|done].
    destruct (krun en l2 s2) as [[s3 log3]|]; [|done]. by rewrite app_assoc.
Qed.

(** The limits in force. *)
Definition source_limit (cfg : BpfConfig) : Z :=
  if rate_limit_per_minute cfg =? 0 then DEFAULT_RATE_LIMIT_PER_MINUTE else rate_limit_per_minute cfg.
Definition global_limit (cfg : BpfConfig) : Z :=
  Z.min (sat_mul 32 (source_limit cfg) GLOBAL_RATE_MULTIPLIER) GLOBAL_RATE_MAX.

(** The buckets hold at most their limits. *)
Record buckets_wf (s : xdp_maps) : Prop := {
  wf_limit : 0 <= rate_limit_per_minute (load_config s);
  wf_source : forall ip r, RATE_LIMIT s !! ip = Some r ->
    0 <= tokens r <= source_limit (load_config s);
  wf_global : forall g, GLOBAL_RATE s = Some g -> 0 <= tokens g <= global_limit (load_config s)
}.

Lemma source_limit_nonneg cfg : 0 <= rate_limit_per_minute cfg -> 0 <= source_limit cfg.
Proof. unfold source_limit, DEFAULT_RATE_LIMIT_PER_MINUTE. destruct (_ =? 0); lia. Qed.

Lemma global_limit_nonneg cfg : 0 <= rate_limit_per_minute cfg -> 0 <= global_limit cfg <= GLOBAL_RATE_MAX.
Proof.
  intros H. apply source_limit_nonneg in H. unfold global_limit, GLOBAL_RATE_MULTIPLIER, GLOBAL_RATE_MAX.
  pose proof (sat_mul_range 32 (source_limit cfg) 256 ltac:(lia) H ltac:(lia)) as [? _]. lia.
Qed.

(** Credit: the events a bucket can still admit before the end of a window that
    started at [a], if the window is shorter than the refill period. *)
Definition credit (limit a : Z) (r : RateState) : Z :=
  tokens r + (if (last_ns r =? 0) || (last_ns r <? a) then limit else 0).

Definition in_window (a now : Z) : Prop := a <= now < a + RATE_REFILL_NS.

Definition gcredit (limit a : Z) (o : option RateState) : Z :=
  match o with Some g => credit limit a g | None => 0 end.
Definition rcredit (limit a : Z) (o : option RateState) : Z :=
  match o with Some r => credit limit a r | None => limit end.

Definition b2n (b : bool) : Z := if b then 1 else 0.

Lemma global_take env s cfg s' ok a :
  0 < a -> in_window a (now_global env) -> 0 <= rate_limit_per_minute cfg ->
  (forall g, GLOBAL_RATE s = Some g -> 0 <= tokens g <= global_limit cfg) ->
  global_rate_limit_allows env s (rate_limit_per_minute cfg) = (s', ok) ->
  s' = set_global (GLOBAL_RATE s') s /\
  (forall g, GLOBAL_RATE s' = Some g -> 0 <= tokens g <= global_limit cfg) /\
  gcredit (global_limit cfg) a (GLOBAL_RATE s') + b2n ok <= gcredit (global_limit cfg) a (GLOBAL_RATE s).
Proof.
  intros Ha [Hw1 Hw2] Hc Hg. unfold global_rate_limit_allows. fold (source_limit cfg).
  fold (global_limit cfg). pose proof (global_limit_nonneg cfg Hc) as Hl.
  destruct (GLOBAL_RATE s) as [g|] eqn:E.
  2: { intros [= <- <-]. rewrite E. split_and!; [|done|done]. unfold set_global. rewrite <- E. by destruct s. }
  specialize (Hg g eq_refl). unfold sat_sub.
  destruct ((last_ns g =? 0) || (RATE_REFILL_NS <=? Z.max 0 (now_global env - last_ns g))) eqn:Hr.
  - assert (Hcr : credit (global_limit cfg) a g = tokens g + global_limit cfg).
    { unfold credit. destruct (Z.eqb_spec (last_ns g) 0), (Z.ltb_spec (last_ns g) a); try done.
      simpl in Hr. bool_props. unfold RATE_REFILL_NS in *. lia. }
    cbn [tokens last_ns]. destruct (Z.eqb_spec (global_limit cfg) 0) as [Hz|Hz];
      intros [= <- <-]; cbn [GLOBAL_RATE set_global gcredit]; rewrite Hcr;
      (split_and!; [done|intros ? [= <-]; simpl; lia|]); unfold credit; cbn [tokens last_ns];
      destruct (Z.eqb_spec (now_global env) 0), (Z.ltb_spec (now_global env) a); simpl; lia.
  - destruct (Z.eqb_spec (tokens g) 0) as [Hz|Hz]; intros [= <- <-]; cbn [GLOBAL_RATE set_global gcredit];
      (split_and!; [done|intros ? [= <-]; simpl; lia|]); unfold credit; cbn [tokens last_ns]; simpl; lia.
Qed.

Lemma source_take env s cfg ip s' ok a :
  0 < a -> in_window a (now_rate env) -> 0 <= rate_limit_per_minute cfg ->
  (forall ip r, RATE_LIMIT s !! ip = Some r -> 0 <= tokens r <= source_limit cfg) ->
  rate_limit_allows env s ip (rate_limit_per_minute cfg) = (s', ok) ->
  s' = set_rate (RATE_LIMIT s') s /\
  (forall ip r, RATE_LIMIT s' !! ip = Some r -> 0 <= tokens r <= source_limit cfg) /\
  (insert_ok env = true -> forall ip', ip' ∉ evicted env ->
   rcredit (source_limit cfg) a (RATE_LIMIT s' !! ip') + b2n (bool_decide (ip = ip') && ok)
   <= rcredit (source_limit cfg) a (RATE_LIMIT s !! ip')).
Proof.
  intros Ha [Hw1 Hw2] Hc Hall. unfold rate_limit_allows. fold (source_limit cfg).
  pose proof (source_limit_nonneg cfg Hc) as Hl.
  set (st0 := default _ (RATE_LIMIT s !! ip)). set (st := if _ <=? _ then _ else st0).
  assert (Hst : 0 <= tokens st <= source_limit cfg /\
    credit (source_limit cfg) a st <= rcredit (source_limit cfg) a (RATE_LIMIT s !! ip)).
  { unfold st, st0, sat_sub, credit, rcredit. destruct (RATE_LIMIT s !! ip) as [r|] eqn:E; simpl.
    - specialize (Hall ip r E). destruct (Z.leb_spec RATE_REFILL_NS (Z.max 0 (now_rate env - last_ns r))); simpl.
      + unfold credit, RATE_REFILL_NS in *.
        destruct (Z.eqb_spec (now_rate env) 0), (Z.ltb_spec (now_rate env) a), (Z.eqb_spec (last_ns r) 0),
          (Z.ltb_spec (last_ns r) a); simpl; lia.
      + unfold credit. split; [done|]. lia.
    - rewrite Z.sub_diag. simpl.
      destruct (Z.eqb_spec (now_rate env) 0), (Z.ltb_spec (now_rate env) a); simpl; lia. }
  clearbody st. destruct Hst as [Ht Hcr].
  assert (Hins : forall st', 0 <= tokens st' <= source_limit cfg -> forall ok0,
    credit (source_limit cfg) a st' + b2n ok0 <= credit (source_limit cfg) a st ->
    (forall ip0 r, lru_insert env ip st' (RATE_LIMIT s) !! ip0 = Some r -> 0 <= tokens r <= source_limit cfg) /\
    (insert_ok env = true -> forall ip', ip' ∉ evicted env ->
     rcredit (source_limit cfg) a (lru_insert env ip st' (RATE_LIMIT s) !! ip') + b2n (bool_decide (ip = ip') && ok0)
     <= rcredit (source_limit cfg) a (RATE_LIMIT s !! ip'))).
  { intros st' Hst' ok0 Hcr'. split.
    - intros ip0 r. unfold lru_insert. destruct (insert_ok env); [|apply Hall].
      destruct (decide (ip = ip0)) as [->|Hne]; [rewrite lookup_insert_eq; by intros [= <-]|].
      rewrite lookup_insert_ne by done. intros [Hr _]%map_lookup_filter_Some. by eapply Hall.
    - intros Hok ip' Hev. unfold lru_insert. rewrite Hok.
      destruct (decide (ip = ip')) as [->|Hne].
      + rewrite lookup_insert_eq, bool_decide_eq_true_2 by done. simpl. lia.
      + rewrite lookup_insert_ne, bool_decide_eq_false_2 by done. simpl.
        assert (filter (fun kv => kv.1 ∉ evicted env) (RATE_LIMIT s) !! ip' = RATE_LIMIT s !! ip') as ->; [|lia].
        destruct (RATE_LIMIT s !! ip') as [r|] eqn:E; [by apply map_lookup_filter_Some|].
        apply map_lookup_filter_None. by left. }
  destruct (Z.eqb_spec (tokens st) 0) as [Hz|Hz]; intros [= <- <-]; (split; [done|]); apply Hins.
  - done.
  - simpl. lia.
  - simpl. lia.
  - unfold credit. cbn [tokens last_ns b2n]. lia.
Qed.

(** Number of events from [ip] in a log. *)
Definition events_from (ip : Z) (log : list Z) : Z := blen (filter (eq ip) log).

Lemma events_from_app ip l k : events_from ip (l ++ k) = events_from ip l + events_from ip k.
Proof. unfold events_from, blen. rewrite filter_app, length_app. lia. Qed.

(** The clock readings of a step lie in the windows starting at [a] and [b]. *)
Definition kstep_window (a b : Z) (k : kstep) : Prop :=
  match k with
  | KFrame env _ _ => in_window a (now_global env) /\ in_window b (now_rate env)
  | KUser _ _ => True
  end.

(** The entry of [ip] survives the step. *)
Definition kstep_keeps (ip : Z) (k : kstep) : Prop :=
  match k with
  | KFrame env _ _ => insert_ok env = true /\ ip ∉ evicted env
  | KUser _ _ => True
  end.

Record kstep_bound (a b : Z) (k : kstep) (s s' : xdp_maps) (log : list Z) : Prop := {
  kb_config : CONFIG s' = CONFIG s;
  kb_wf : buckets_wf s';
  kb_global : gcredit (global_limit (load_config s)) a (GLOBAL_RATE s') + blen log
              <= gcredit (global_limit (load_config s)) a (GLOBAL_RATE s);
  kb_source : forall ip, kstep_keeps ip k ->
    rcredit (source_limit (load_config s)) b (RATE_LIMIT s' !! ip) + events_from ip log
    <= rcredit (source_limit (load_config s)) b (RATE_LIMIT s !! ip)
}.

Lemma kstep_bound_same a b k s s' :
  buckets_wf s -> CONFIG s' = CONFIG s -> RATE_LIMIT s' = RATE_LIMIT s ->
  GLOBAL_RATE s' = GLOBAL_RATE s -> kstep_bound a b k s s' [].
Proof.
  intros [H1 H2 H3] Hc Hr Hg. assert (Hl : load_config s' = load_config s) by (unfold load_config; by rewrite Hc).
  split; [done|split; rewrite ?Hl, ?Hr, ?Hg; done|rewrite Hg; unfold blen; simpl; lia|].
  intros ip _. rewrite Hr. unfold events_from, blen. simpl. lia.
Qed.

(** What a frame emits: at most one event, from its own source. *)
Definition emits (s s' : xdp_maps) (ok : bool) : Prop :=
  length (SPA_RING s') = (length (SPA_RING s) + if ok then 1 else 0)%nat.

(** The two buckets, one after the other. *)
Lemma admit_bound a b env data pkt s src s1 ok1 s2 ok2 :
  let limit := rate_limit_per_minute (load_config s) in
  0 < a -> 0 < b -> buckets_wf s -> in_window a (now_global env) -> in_window b (now_rate env) ->
  rate_limit_allows env s src limit = (s1, ok1) ->
  (if ok1 then global_rate_limit_allows env s1 limit else (s1, false)) = (s2, ok2) ->
  emits s s2 false /\
  forall ok : bool, (ok = true -> ok1 = true /\ ok2 = true) ->
  kstep_bound a b (KFrame env data pkt) s s2 (if ok then [src] else []).
Proof.
  intros limit Ha Hb Hwf Hwg Hwr E1 E2.
  destruct (source_take _ _ _ _ _ _ b Hb Hwr (wf_limit _ Hwf) (wf_source _ Hwf) E1) as (Hs1 & Hw1 & Hc1).
  assert (Hg1 : forall g, GLOBAL_RATE s1 = Some g -> 0 <= tokens g <= global_limit (load_config s)).
  { rewrite Hs1. apply Hwf. }
  assert (HG : GLOBAL_RATE s1 = GLOBAL_RATE s) by (rewrite Hs1; done).
  assert (H2 : s2 = set_global (GLOBAL_RATE s2) s1 /\
    (forall g, GLOBAL_RATE s2 = Some g -> 0 <= tokens g <= global_limit (load_config s)) /\
    gcredit (global_limit (load_config s)) a (GLOBAL_RATE s2) + b2n ok2
    <= gcredit (global_limit (load_config s)) a (GLOBAL_RATE s1)).
  { destruct ok1; [by eapply global_take; [..|exact E2]; first [done|apply Hwf]|].
    injection E2 as <- <-. split_and!; [by destruct s1|done|simpl; lia]. }
  destruct H2 as (Hs2 & Hw2 & Hc2).
  assert (Hr2 : RATE_LIMIT s2 = RATE_LIMIT s1) by (rewrite Hs2; done).
  assert (Hl2 : load_config s2 = load_config s) by (rewrite Hs2, Hs1; done).
  split; [unfold emits; rewrite Hs2, Hs1; simpl; lia|]. intros ok Hok. split.
  - rewrite Hs2, Hs1. done.
  - split; rewrite Hl2, ?Hr2; [apply Hwf|done|done].
  - rewrite <- HG. destruct ok; [destruct (Hok eq_refl) as [-> ->]|]; unfold blen; simpl in *; [lia|].
    destruct ok2; simpl in *; lia.
  - intros ip [Hi Hev]. rewrite Hr2. specialize (Hc1 Hi ip Hev). unfold events_from, blen.
    destruct ok; [destruct (Hok eq_refl) as [-> ->]; rewrite andb_true_r in Hc1|]; cbn [filter list_filter].
    + destruct (decide (ip = src)) as [->|]; cbn [length].
      * rewrite bool_decide_eq_true_2 in Hc1 by done. simpl in Hc1. lia.
      * destruct (bool_decide (src = ip)); simpl in *; lia.
    + destruct (bool_decide (src = ip) && ok1); simpl in *; lia.
Qed.

Lemma kstep_bound_submit a b k s s' e log :
  kstep_bound a b k s s' log -> kstep_bound a b k s (submit e s') log.
Proof. by intros [? [] ? ?]. Qed.

Lemma xdp_spec_bound en a b env data pkt s s' act :
  0 < a -> 0 < b -> buckets_wf s -> in_window a (now_global env) -> in_window b (now_rate env) ->
  xdp_spec en env s pkt = (s', act) ->
  exists ok, emits s s' ok /\
    kstep_bound a b (KFrame env data pkt) s s' (if ok then [src_of pkt] else []).
Proof.
  intros Ha Hb Hwf Hwg Hwr. unfold xdp_spec, src_of.
  assert (Hsame : forall s0, CONFIG s0 = CONFIG s -> RATE_LIMIT s0 = RATE_LIMIT s ->
    GLOBAL_RATE s0 = GLOBAL_RATE s -> SPA_RING s0 = SPA_RING s -> forall src,
    exists ok, emits s s0 ok /\
      kstep_bound a b (KFrame env data pkt) s s0 (if ok then [src : Z] else [])).
  { intros s0 ? ? ? Hq src. exists false. split; [unfold emits; rewrite Hq; lia|by apply kstep_bound_same]. }
  destruct (classify pkt) as [|src dport|src sport dport ulen off].
  - intros [= <- <-]. by apply Hsame.
  - destruct (negb _); [intros [= <- <-]; by apply Hsame|].
    destruct (ALLOW_MAP s !! src) as [e|]; [|intros [= <- <-]; by apply Hsame].
    destruct (_ <? _); intros [= <- <-]; by apply Hsame.
  - destruct (_ || _); [intros [= <- <-]; by apply Hsame|].
    destruct (_ && _ && _); [|intros [= <- <-]; by apply Hsame].
    destruct (rate_limit_allows _ _ _ _) as [s1 ok1] eqn:E1.
    destruct (if ok1 then global_rate_limit_allows env s1 (rate_limit_per_minute (load_config s)) else (s1, false))
      as [s2 ok2] eqn:E2.
    destruct (admit_bound a b env data pkt s src s1 ok1 s2 ok2) as [Hem Hbd]; try done.
    destruct ok1; cbn [negb].
    2: { injection E2 as <- <-. intros [= <- <-]. exists false. split; [done|]. by apply (Hbd false). }
    rewrite E2. destruct ok2; [destruct (reserve env) as [slot|]|]; intros [= <- <-].
    + exists true. split; [unfold emits in *; simpl; rewrite length_app; simpl; lia|].
      apply kstep_bound_submit. by apply (Hbd true).
    + exists false. split; [done|]. by apply (Hbd false).
    + exists false. split; [done|]. by apply (Hbd false).
Qed.

Lemma kstep_run_bound en a b k s :
  0 < a -> 0 < b -> buckets_wf s -> kstep_ok k -> kstep_window a b k ->
  exists s' log, kstep_run en k s = Some (s', log) /\ kstep_bound a b k s s' log.
Proof.
  intros Ha Hb Hwf Hok Hwin. destruct k as [env data pkt|allow ring].
  2: { eexists _, _. split; [done|]. by apply kstep_bound_same. }
  destruct Hok as (Hd & He & Henv & Hsz), Hwin as [Hwg Hwr].
  cbn [kstep_run]. rewrite ghostbro_xdp_eq by done.
  destruct (xdp_spec en env s pkt) as [s' act] eqn:E.
  destruct (xdp_spec_bound en a b env data pkt s s' act) as (ok & Hem & Hbd); try done.
  eexists _, _. split; [done|]. unfold emits in Hem.
  destruct ok; destruct (Nat.ltb_spec (length (SPA_RING s)) (length (SPA_RING s'))); done || lia.
Qed.

Lemma krun_bound en a b l s :
  0 < a -> 0 < b -> buckets_wf s -> Forall kstep_ok l -> Forall (kstep_window a b) l ->
  exists s' log, krun en l s = Some (s', log) /\ load_config s' = load_config s /\ buckets_wf s' /\
    blen log <= gcredit (global_limit (load_config s)) a (GLOBAL_RATE s) /\
    forall ip, Forall (kstep_keeps ip) l ->
      events_from ip log <= rcredit (source_limit (load_config s)) b (RATE_LIMIT s !! ip).
Proof.
  intros Ha Hb Hwf Hok. revert s Hwf. induction Hok as [|k l Hk Hl IH]; intros s Hwf Hwin.
  - eexists _, _. split; [done|]. split_and!; try done.
    + destruct Hwf as [H _ Hg]. apply global_limit_nonneg in H. unfold gcredit, credit, blen. simpl.
      destruct (GLOBAL_RATE s) as [g|]; [|done]. specialize (Hg g eq_refl). destruct (_ || _); lia.
    + intros ip _. destruct Hwf as [H Hs _]. apply source_limit_nonneg in H.
      unfold events_from, rcredit, credit, blen. simpl.
      destruct (RATE_LIMIT s !! ip) as [r|] eqn:E; [|done]. specialize (Hs ip r E). destruct (_ || _); lia.
  - apply Forall_cons in Hwin as [Hw Hws].
    destruct (kstep_run_bound en a b k s Ha Hb Hwf Hk Hw) as (s1 & log1 & E1 & [Hc Hwf1 Hg1 Hs1]).
    destruct (IH s1 Hwf1 Hws) as (s2 & log2 & E2 & Hc2 & Hwf2 & Hg2 & Hs2).
    assert (Hlc : load_config s1 = load_config s) by (unfold load_config; by rewrite Hc).
    rewrite Hlc in *. exists s2, (log1 ++ log2). cbn [krun]. rewrite E1, E2. split_and!; try done.
    + unfold blen in *. rewrite length_app. lia.
    + intros ip [Hk1 Hk2]%Forall_cons. specialize (Hs1 ip Hk1). specialize (Hs2 ip Hk2).
      rewrite events_from_app. lia.
Qed.

(** Steps at clock readings after boot. *)
Definition kstep_clock (k : kstep) : Prop :=
  match k with KFrame env _ _ => 0 < now_global env /\ 0 < now_rate env | KUser _ _ => True end.

(** Without any assumption on the spacing of the frames the buckets stay in bounds. *)
Lemma krun_wf en l s :
  buckets_wf s -> Forall kstep_ok l -> Forall kstep_clock l ->
  exists s' log, krun en l s = Some (s', log) /\ load_config s' = load_config s /\ buckets_wf s'.
Proof.
  intros Hwf Hok. revert s Hwf. induction Hok as [|k l Hk Hl IH]; intros s Hwf Hck; [by eexists _, _|].
  apply Forall_cons in Hck as [Hc Hcs].
  assert (exists a b, 0 < a /\ 0 < b /\ kstep_window a b k) as (a & b & Ha & Hb & Hw).
  { destruct k as [env data pkt|]; [|by exists 1, 1]. destruct Hc. exists (now_global env), (now_rate env).
    split_and!; [done|done|]. split; unfold in_window, RATE_REFILL_NS; lia. }
  destruct (kstep_run_bound en a b k s Ha Hb Hwf Hk Hw) as (s1 & log1 & E1 & [Hcf Hwf1 _ _]).
  destruct (IH s1 Hwf1 Hcs) as (s2 & log2 & E2 & Hc2 & Hwf2).
  exists s2, (log1 ++ log2). cbn [krun]. rewrite E1, E2. split_and!; [done| |done].
  rewrite Hc2. unfold load_config. by rewrite Hcf.
Qed.

(** The maps as the loader leaves them: zero-initialised buckets. *)
Definition maps_at_boot (s : xdp_maps) : Prop :=
  0 <= rate_limit_per_minute (load_config s) /\ RATE_LIMIT s = ∅ /\
  GLOBAL_RATE s = Some {| tokens := 0; last_ns := 0 |}.

Lemma maps_at_boot_wf s : maps_at_boot s -> buckets_wf s.
Proof.
  intros (H & Hr & Hg). pose proof (global_limit_nonneg _ H). split; [done| |].
  - intros ip r. by rewrite Hr, lookup_empty.
  - intros g. rewrite Hg. intros [= <-]. simpl. lia.
Qed.

(** C32: flood bound.  From boot, whatever frames arrive and whatever user space
    does with the maps, the frames of any period shorter than a minute put at
    most twice the global budget of events into the ring, no matter how many
    source addresses they use; the budget is 256 times the per-source limit and
    never above a million. *)
Theorem global_flood_bound en s0 before window a :
  maps_at_boot s0 -> 0 < a ->
  Forall kstep_ok (before ++ window) -> Forall kstep_clock before ->
  Forall (kstep_window a a) window ->
  exists s1 log1 s2 log2,
    krun en before s0 = Some (s1, log1) /\ krun en window s1 = Some (s2, log2) /\
    blen log2 <= 2 * global_limit (load_config s0) <= 2000000.
Proof.
  intros Hboot Ha [Hok1 Hok2]%Forall_app Hck Hwin.
  destruct (krun_wf en before s0 (maps_at_boot_wf _ Hboot) Hok1 Hck) as (s1 & log1 & E1 & Hc1 & Hwf1).
  destruct (krun_bound en a a window s1 Ha Ha Hwf1 Hok2 Hwin) as (s2 & log2 & E2 & _ & _ & Hg & _).
  exists s1, log1, s2, log2. split_and!; try done; rewrite <- Hc1.
  - destruct Hwf1 as [H _ Hg1]. apply global_limit_nonneg in H. unfold gcredit, credit in Hg.
    destruct (GLOBAL_RATE s1) as [g|]; [|lia]. specialize (Hg1 g eq_refl). destruct (_ || _); lia.
  - pose proof (global_limit_nonneg _ (wf_limit _ Hwf1)). unfold GLOBAL_RATE_MAX in *. lia.
Qed.

(** C33: per-source bound.  Over the same runs, as long as the LRU map keeps the
    bucket of an address, the frames of any period shorter than a minute put at
    most twice the per-source limit of events from that address into the ring,
    and at most the limit if the address had no bucket when the period began. *)
Theorem source_rate_bound en s0 before window a ip :
  maps_at_boot s0 -> 0 < a ->
  Forall kstep_ok (before ++ window) -> Forall kstep_clock before ->
  Forall (kstep_window a a) window -> Forall (kstep_keeps ip) window ->
  exists s1 log1 s2 log2,
    krun en before s0 = Some (s1, log1) /\ krun en window s1 = Some (s2, log2) /\
    events_from ip log2 <= 2 * source_limit (load_config s0) /\
    (RATE_LIMIT s1 !! ip = None -> events_from ip log2 <= source_limit (load_config s0)).
Proof.
  intros Hboot Ha [Hok1 Hok2]%Forall_app Hck Hwin Hkeep.
  destruct (krun_wf en before s0 (maps_at_boot_wf _ Hboot) Hok1 Hck) as (s1 & log1 & E1 & Hc1 & Hwf1).
  destruct (krun_bound en a a window s1 Ha Ha Hwf1 Hok2 Hwin) as (s2 & log2 & E2 & _ & _ & _ & Hs).
  specialize (Hs ip Hkeep). exists s1, log1, s2, log2. rewrite <- Hc1. split_and!; try done.
  - destruct Hwf1 as [H Hs1 _]. apply source_limit_nonneg in H. unfold rcredit, credit in Hs.
    destruct (RATE_LIMIT s1 !! ip) as [r|] eqn:E; [|lia]. specialize (Hs1 ip r E). destruct (_ || _); lia.
  - intros E. by rewrite E in Hs.
Qed.
