(* ===== verification/Runtime.v ===== *)
(** The user-space side of the gate: [ghostbro-server/src/ebpf.rs].

    [EbpfRuntime] owns the allow map shared with the kernel and mirrors it in
    [allowed_sources], which the tunnel reads.  Clock readings and the outcomes
    of map updates are arguments of each operation. *)

From S2P Require Import Prelude Protocol Crypto Keys Seal SpaPacket Fs AuthKeys Verifier Xdp.

Record AllowedSource := {
  as_entry : AllowEntry;
  as_noise_public_key : bytes;
  as_max_concurrent_sessions : option Z
}.

Record HttpsSpaCandidate := {
  cand_src_ip : Z;
  cand_payload : bytes
}.

(** The parts of [EbpfRuntime] that operations change. *)
Record EbpfRuntime := {
  allow_map : gmap Z AllowEntry;
  allowed_sources : gmap Z AllowedSource
}.

(** Why [run_spa] gives up. *)
Inductive RunError :=
| WallClock
| MonotonicClock
| AllowMapWrite (src_ip : Z)
| AllowMapRemove (src_ip : Z).

(** * Time *)

(** [wall_clock_now_ms]: milliseconds since the epoch as [u128], or a clock
    before the epoch. *)
Definition wall_clock_now_ms (since_epoch_ms : option Z) : result RunError Z :=
  ms ← ok_or WallClock since_epoch_ms;
  Ok (default (umax 64) (try_from 64 ms)).

(** [monotonic_now_ns]: the [timespec] of [clock_gettime], if it succeeds. *)
Definition monotonic_now_ns (timespec : option (Z * Z)) : result RunError Z :=
  match timespec with
  | None => Err MonotonicClock
  | Some (tv_sec, tv_nsec) =>
      sec ← ok_or MonotonicClock (try_from 64 tv_sec);
      nsec ← ok_or MonotonicClock (try_from 64 tv_nsec);
      Ok (sat_add 64 (sat_mul 64 sec 1000000000) nsec)
  end.

(** * Ring events *)

(** [parse_spa_event]: the structure's fields at their offsets. *)
Definition parse_spa_event (en : endian) (b : bytes) : option SpaEvent :=
  if negb (length b =? SPA_EVENT_SIZE)%nat then None
  else Some {| ev_src_ip := from_ne en (slice 0 4 b);
               ev_src_port := from_ne en (slice 4 6 b);
               ev_payload_len := from_ne en (slice 6 8 b);
               ev_payload := slice 8 SPA_EVENT_SIZE b |}.

(** * The allow map *)

(** Outcome of [bpf_map_update_elem] on the LRU map: whether it succeeded and
    which keys it evicted. *)
Record update_io := { upd_ok : bool; upd_evicted : list Z }.

Definition bpf_update (io : update_io) (k : Z) (v : AllowEntry) (m : gmap Z AllowEntry)
    : option (gmap Z AllowEntry) :=
  if upd_ok io then Some (<[k := v]> (filter (fun kv => kv.1 ∉ upd_evicted io) m)) else None.

(** [bpf_map_delete_elem] fails with [ENOENT] on an absent key. *)
Definition bpf_delete (k : Z) (m : gmap Z AllowEntry) : option (gmap Z AllowEntry) :=
  match m !! k with Some _ => Some (delete k m) | None => None end.

Definition allow_source (timespec : option (Z * Z)) (io : update_io) (rt : EbpfRuntime)
    (src_ip : Z) (accept : SpaAccept) (allow_ttl_seconds : Z) : EbpfRuntime * result RunError unit :=
  match monotonic_now_ns timespec with
  | Err e => (rt, Err e)
  | Ok now =>
      let expiry := sat_add 64 now (sat_mul 64 allow_ttl_seconds 1000000000) in
      let entry := {| expiry_ns := expiry; ae_key_id := acc_key_id accept;
                      ae_client_id := acc_client_id accept |} in
      match bpf_update io src_ip entry (allow_map rt) with
      | None => (rt, Err (AllowMapWrite src_ip))
      | Some m =>
          ({| allow_map := m;
              allowed_sources :=
                <[src_ip := {| as_entry := entry;
                               as_noise_public_key := acc_noise_public_key accept;
                               as_max_concurrent_sessions := acc_max_concurrent_sessions accept |}]>
                  (allowed_sources rt) |}, Ok tt)
      end
  end.

(** The loop shared by [purge_key_id] and [reap_expired_sources]: remove the
    sources from the kernel map and then from the mirror, stopping at the first
    failed removal. *)
Fixpoint remove_sources (rt : EbpfRuntime) (sources : list Z) : EbpfRuntime * result RunError unit :=
  match sources with
  | [] => (rt, Ok tt)
  | src_ip :: rest =>
      match bpf_delete src_ip (allow_map rt) with
      | None => (rt, Err (AllowMapRemove src_ip))
      | Some m =>
          remove_sources {| allow_map := m; allowed_sources := delete src_ip (allowed_sources rt) |} rest
      end
  end.

Definition purge_key_id (rt : EbpfRuntime) (kid : KeyId) : EbpfRuntime * result RunError unit :=
  let sources_to_purge :=
    omap (fun '(src_ip, source) => if bool_decide (ae_key_id (as_entry source) = kid) then Some src_ip else None)
         (map_to_list (allowed_sources rt)) in
  if bool_decide (sources_to_purge = []) then (rt, Ok tt) else remove_sources rt sources_to_purge.

Definition expired_sources (sources : gmap Z AllowedSource) (now_ns : Z) : list Z :=
  omap (fun '(src_ip, source) => if expiry_ns (as_entry source) <=? now_ns then Some src_ip else None)
       (map_to_list sources).

Definition reap_expired_sources (timespec : option (Z * Z)) (rt : EbpfRuntime)
    : EbpfRuntime * result RunError unit :=
  match monotonic_now_ns timespec with
  | Err e => (rt, Err e)
  | Ok now_ns =>
      let expired := expired_sources (allowed_sources rt) now_ns in
      if bool_decide (expired = []) then (rt, Ok tt) else remove_sources rt expired
  end.

(** * The event loop *)

(** Everything [run_spa] owns: the runtime, the verifier and the files. *)
Record spa_loop := {
  sl_runtime : EbpfRuntime;
  sl_verifier : SpaVerifier;
  sl_files : store
}.

(** What the system decides while one knock is handled. *)
Record knock_io := {
  kn_wall : option Z;
  kn_save : save_io;
  kn_mono : option (Z * Z);
  kn_update : update_io
}.

(** A [for]/[while] loop that leaves at the first error. *)
Fixpoint try_fold {S A E} (f : S -> A -> S * result E unit) (l : list A) (s : S) : S * result E unit :=
  match l with
  | [] => (s, Ok tt)
  | a :: l' => match f s a with
               | (s', Ok _) => try_fold f l' s'
               | (s', Err e) => (s', Err e)
               end
  end.

Section event_loop.
Context `{C : Crypto} {T : CounterToml}.
Context (en : endian) (allow_ttl_seconds : Z).

(** Verify a knock and open the gate on acceptance; also what it decided. *)
Definition handle_knock (io : knock_io) (payload : bytes) (src_ip : Z) (sl : spa_loop)
    : spa_loop * result RunError unit :=
  match wall_clock_now_ms (kn_wall io) with
  | Err e => (sl, Err e)
  | Ok now_ms =>
      let '(v, ops, verdict) := verify (sl_verifier sl) (kn_save io) payload src_ip now_ms in
      let files := fs_run ops (sl_files sl) in
      match verdict with
      | Ok accept =>
          let '(rt, r) := allow_source (kn_mono io) (kn_update io) (sl_runtime sl) src_ip accept
                            allow_ttl_seconds in
          ({| sl_runtime := rt; sl_verifier := v; sl_files := files |}, r)
      | Err _ => ({| sl_runtime := sl_runtime sl; sl_verifier := v; sl_files := files |}, Ok tt)
      end
  end.

(** One turn of the loop over the ring: an unparsable or oversized event is
    logged and skipped. *)
Definition handle_ring_item (sl : spa_loop) (item : knock_io * bytes) : spa_loop * result RunError unit :=
  let '(io, b) := item in
  match parse_spa_event en b with
  | None => (sl, Ok tt)
  | Some event =>
      if Z.of_nat SPA_MAX_LEN <? ev_payload_len event then (sl, Ok tt)
      else handle_knock io (take (Z.to_nat (ev_payload_len event)) (ev_payload event)) (ev_src_ip event) sl
  end.

Definition handle_https_item (sl : spa_loop) (item : knock_io * HttpsSpaCandidate)
    : spa_loop * result RunError unit :=
  let '(io, candidate) := item in
  handle_knock io (cand_payload candidate) (cand_src_ip candidate) sl.

(** [reload_authorized_keys] with the contents of the keys file, if readable. *)
Definition reload_authorized_keys (toml_keys : string -> option (list AuthorizedClientConfig))
    (contents : option string) (v : SpaVerifier) : SpaVerifier * result KeysFileError (list KeyId) :=
  match load_authorized_keys contents toml_keys with
  | Err e => (v, Err e)
  | Ok configs =>
      match into_clients configs with
      | Err e => (v, Err (KeysDecode e))
      | Ok clients =>
          let '(v', removed) := reload_clients v clients in (v', Ok removed)
      end
  end.

(** One turn of the reload loop: a failed reload is logged and ignored. *)
Definition handle_reload (toml_keys : string -> option (list AuthorizedClientConfig))
    (sl : spa_loop) (contents : option string) : spa_loop * result RunError unit :=
  match reload_authorized_keys toml_keys contents (sl_verifier sl) with
  | (v, Ok removed) =>
      let '(rt, r) := try_fold purge_key_id removed (sl_runtime sl) in
      ({| sl_runtime := rt; sl_verifier := v; sl_files := sl_files sl |}, r)
  | (v, Err _) => ({| sl_runtime := sl_runtime sl; sl_verifier := v; sl_files := sl_files sl |}, Ok tt)
  end.

Definition handle_reap (sl : spa_loop) (timespec : option (Z * Z)) : spa_loop * result RunError unit :=
  let '(rt, r) := reap_expired_sources timespec (sl_runtime sl) in
  ({| sl_runtime := rt; sl_verifier := sl_verifier sl; sl_files := sl_files sl |}, r).

(** What one turn of the outer loop finds: the ring's items, the HTTPS
    candidates, one entry per pending reload signal, and the clock if the reap
    is due. *)
Record turn := {
  tn_ring : list (knock_io * bytes);
  tn_https : list (knock_io * HttpsSpaCandidate);
  tn_reloads : list (option string);
  tn_reap : option (option (Z * Z))
}.

(** One turn of [run_spa]'s outer loop: the new state, and the number of items
    processed (zero makes the loop sleep) or the error that ends the server. *)
Definition run_spa_turn (toml_keys : string -> option (list AuthorizedClientConfig))
    (sl : spa_loop) (t : turn) : spa_loop * result RunError nat :=
  match try_fold handle_ring_item (tn_ring t) sl with
  | (sl, Err e) => (sl, Err e)
  | (sl, Ok _) =>
      match try_fold handle_https_item (tn_https t) sl with
      | (sl, Err e) => (sl, Err e)
      | (sl, Ok _) =>
          match try_fold (handle_reload toml_keys) (tn_reloads t) sl with
          | (sl, Err e) => (sl, Err e)
          | (sl, Ok _) =>
              let processed := (length (tn_ring t) + length (tn_https t) + length (tn_reloads t))%nat in
              match tn_reap t with
              | None => (sl, Ok processed)
              | Some timespec =>
                  match handle_reap sl timespec with
                  | (sl, Err e) => (sl, Err e)
                  | (sl, Ok _) => (sl, Ok (processed + 1)%nat)
                  end
              end
          end
      end
  end.

End event_loop.

(** [format_ipv4] *)
Definition format_ipv4 (ip : Z) : string :=
  match be_bytes 4 ip with
  | [a; b; c; d] => dec (b2z a) +:+ "." +:+ dec (b2z b) +:+ "." +:+ dec (b2z c) +:+ "." +:+ dec (b2z d)
  | _ => ""
  end.
