(* ===== verification/RuntimeFacts.v ===== *)
(** Correctness of the user-space side of the gate: the mirror of the allow map,
    revocation, expiry, and the hand-over of ring events from the kernel. *)

From S2P Require Import Prelude Protocol Crypto Keys Seal SpaPacket Fs AuthKeys Verifier Xdp XdpFacts Runtime.

(** * The mirror *)

(** Every source that is open at time [t] is mirrored with the same entry.  (The
    converse fails: the kernel drops entries by itself; and the tunnel drops
    expired entries from the mirror only.) *)
Definition mirrors (t : Z) (rt : EbpfRuntime) : Prop :=
  forall ip e, allow_map rt !! ip = Some e -> t < expiry_ns e ->
    exists a, allowed_sources rt !! ip = Some a /\ as_entry a = e.

Lemma remove_sources_lookup rt l rt' ip :
  remove_sources rt l = (rt', Ok tt) ->
  allow_map rt' !! ip = (if bool_decide (ip ∈ l) then None else allow_map rt !! ip) /\
  allowed_sources rt' !! ip = (if bool_decide (ip ∈ l) then None else allowed_sources rt !! ip).
Proof.
  revert rt; induction l as [|k l IH]; intros rt H; cbn [remove_sources] in H.
  - injection H as <-. rewrite bool_decide_eq_false_2 by apply not_elem_of_nil. done.
  - unfold bpf_delete in H. destruct (allow_map rt !! k); [|discriminate].
    apply IH in H as [H1 H2]. rewrite H1, H2. cbn [allow_map allowed_sources].
    destruct (decide (ip ∈ l)) as [Hin|Hni].
    + rewrite !(bool_decide_eq_true_2 (ip ∈ _)) by set_solver. done.
    + rewrite (bool_decide_eq_false_2 (ip ∈ l)) by done. destruct (decide (ip = k)) as [->|Hne].
      * rewrite bool_decide_eq_true_2 by set_solver. by rewrite !lookup_delete_eq.
      * rewrite bool_decide_eq_false_2 by set_solver. by rewrite !lookup_delete_ne.
Qed.

Lemma remove_sources_Ok rt l :
  NoDup l ->
  (exists rt', remove_sources rt l = (rt', Ok tt)) <-> Forall (fun ip => is_Some (allow_map rt !! ip)) l.
Proof.
  intros Hnd. revert rt. induction Hnd as [|k l Hk Hnd IH]; intros rt; cbn [remove_sources].
  - split; [constructor | eauto].
  - rewrite Forall_cons. unfold bpf_delete. destruct (allow_map rt !! k) as [e|] eqn:E.
    2: { split; [intros [? [=]] | intros [[? [=]] _]]. }
    rewrite IH. cbn [allow_map].
    assert (Hiff : Forall (fun ip => is_Some (delete k (allow_map rt) !! ip)) l
                   <-> Forall (fun ip => is_Some (allow_map rt !! ip)) l).
    { rewrite !Forall_forall. split; intros H ip Hin; specialize (H ip Hin);
        by rewrite lookup_delete_ne in * by set_solver. }
    rewrite Hiff. split; [by split; eauto | by intros [_ ?]].
Qed.

Lemma remove_sources_Err rt l rt' e :
  remove_sources rt l = (rt', Err e) -> exists ip, e = AllowMapRemove ip.
Proof.
  revert rt; induction l as [|k l IH]; intros rt; cbn [remove_sources]; [discriminate|].
  destruct (bpf_delete k (allow_map rt)); [apply IH|]. intros [= _ <-]. eauto.
Qed.

(** Removals keep the mirror, also when they fail half way. *)
Lemma remove_sources_mirrors t rt l rt' r :
  mirrors t rt -> remove_sources rt l = (rt', r) -> mirrors t rt'.
Proof.
  revert rt; induction l as [|k l IH]; intros rt Hm; cbn [remove_sources].
  - by intros [= <- _].
  - unfold bpf_delete. destruct (allow_map rt !! k); [|by intros [= <- _]].
    apply IH. intros ip e. cbn [allow_map allowed_sources].
    destruct (decide (ip = k)) as [->|Hne]; [by rewrite lookup_delete_eq|].
    rewrite !lookup_delete_ne by done. apply Hm.
Qed.

(** Sources of the mirror selected by a test. *)
Lemma select_sources (P : AllowedSource -> bool) (m : gmap Z AllowedSource) ip :
  ip ∈ omap (fun '(src, a) => if P a then Some src else None) (map_to_list m)
  <-> exists a, m !! ip = Some a /\ P a = true.
Proof.
  rewrite list_elem_of_omap. split.
  - intros ([src a] & Hin & H). apply elem_of_map_to_list in Hin.
    destruct (P a) eqn:E; [|discriminate]. injection H as <-. eauto.
  - intros (a & Hm & HP). exists (ip, a). split; [by apply elem_of_map_to_list|]. by rewrite HP.
Qed.

Lemma NoDup_select_sources (P : AllowedSource -> bool) (m : gmap Z AllowedSource) :
  NoDup (omap (fun '(src, a) => if P a then Some src else None) (map_to_list m)).
Proof.
  pose proof (NoDup_fst_map_to_list m) as Hnd. revert Hnd.
  generalize (map_to_list m) as l. intros l.
  induction l as [|[src a] l IH]; intros Hnd; [constructor|].
  cbn in Hnd. apply NoDup_cons in Hnd as [Hni Hnd]. cbn. destruct (P a); [|by apply IH].
  apply NoDup_cons. split; [|by apply IH]. intros Hin. apply Hni.
  apply list_elem_of_omap in Hin as ([src' a'] & Hin & H).
  destruct (P a'); [|discriminate]. injection H as ->. apply list_elem_of_fmap. by exists (src, a').
Qed.

Lemma remove_sources_nil_test rt l :
  (if bool_decide (l = []) then (rt, Ok tt) else remove_sources rt l) = remove_sources rt l.
Proof. case_bool_decide as E; [by rewrite E | done]. Qed.

Lemma purge_key_id_eq rt kid :
  purge_key_id rt kid
  = remove_sources rt (omap (fun '(src, a) =>
      if bool_decide (ae_key_id (as_entry a) = kid) then Some src else None)
      (map_to_list (allowed_sources rt))).
Proof. unfold purge_key_id. apply remove_sources_nil_test. Qed.

(** Purging a key closes it.  When the live part of the allow map is mirrored
    and the purge of a key id succeeds, no live source is left open for that key
    in the kernel map, none at all in the mirror, and the live entries of every
    other key are untouched. *)
Theorem purge_closes_key t rt kid rt' :
  mirrors t rt -> purge_key_id rt kid = (rt', Ok tt) ->
  mirrors t rt' /\
  (forall ip e, t < expiry_ns e ->
     allow_map rt' !! ip = Some e <-> allow_map rt !! ip = Some e /\ ae_key_id e <> kid) /\
  (forall ip a, allowed_sources rt' !! ip = Some a
                <-> allowed_sources rt !! ip = Some a /\ ae_key_id (as_entry a) <> kid).
Proof.
  intros Hm H. rewrite purge_key_id_eq in H.
  pose proof (remove_sources_mirrors _ _ _ _ _ Hm H) as Hm'. split; [done|].
  set (l := omap _ _) in H.
  assert (Hl : forall ip, ip ∈ l <-> exists a, allowed_sources rt !! ip = Some a /\ ae_key_id (as_entry a) = kid).
  { intros ip. unfold l. rewrite select_sources. by setoid_rewrite bool_decide_eq_true. }
  split; intros ip x; [intros Hlive|]; destruct (remove_sources_lookup _ _ _ ip H) as [H1 H2]; rewrite ?H1, ?H2;
    case_bool_decide as Hin; rewrite Hl in Hin.
  - split; [done|]. intros [Ha Hne]. exfalso. destruct Hin as (a & Hs & Hk).
    destruct (Hm ip x Ha Hlive) as (a' & Hs' & <-). congruence.
  - split; [|by intros [? _]]. intros Ha. split; [done|]. intros Hk.
    destruct (Hm ip x Ha Hlive) as (a & Hs & <-). eauto.
  - split; [done|]. intros [Ha Hne]. exfalso. destruct Hin as (a & Hs & Hk). congruence.
  - split; [|by intros [? _]]. intros Ha. split; [done|]. eauto.
Qed.

(** * Expiry *)

Lemma reap_eq timespec rt now :
  monotonic_now_ns timespec = Ok now ->
  reap_expired_sources timespec rt = remove_sources rt (expired_sources (allowed_sources rt) now).
Proof. unfold reap_expired_sources. intros ->. apply remove_sources_nil_test. Qed.

Lemma expired_sources_spec m now ip :
  ip ∈ expired_sources m now <-> exists a, m !! ip = Some a /\ expiry_ns (as_entry a) <= now.
Proof.
  unfold expired_sources. rewrite (select_sources (fun a => expiry_ns (as_entry a) <=? now)).
  by setoid_rewrite Z.leb_le.
Qed.

(** Reaping removes exactly the expired sources.  It succeeds exactly when the
    kernel still holds every expired source of the mirror; then the mirror keeps
    its live entries and no others, what is live in the kernel map stays, and
    what it held of the mirror's expired sources is gone. *)
Theorem reap_exact timespec rt now :
  monotonic_now_ns timespec = Ok now ->
  ((exists rt', reap_expired_sources timespec rt = (rt', Ok tt)) <->
   (forall ip a, allowed_sources rt !! ip = Some a -> expiry_ns (as_entry a) <= now ->
      is_Some (allow_map rt !! ip))) /\
  (forall rt', reap_expired_sources timespec rt = (rt', Ok tt) -> mirrors now rt ->
     mirrors now rt' /\
     (forall ip e, now < expiry_ns e -> allow_map rt' !! ip = Some e <-> allow_map rt !! ip = Some e) /\
     (forall ip a, allowed_sources rt !! ip = Some a -> expiry_ns (as_entry a) <= now ->
        allow_map rt' !! ip = None) /\
     (forall ip a, allowed_sources rt' !! ip = Some a
                   <-> allowed_sources rt !! ip = Some a /\ now < expiry_ns (as_entry a))).
Proof.
  intros Hnow. rewrite (reap_eq _ _ _ Hnow). split.
  - rewrite remove_sources_Ok by apply NoDup_select_sources. rewrite Forall_forall.
    setoid_rewrite expired_sources_spec. naive_solver.
  - intros rt' H Hm. pose proof (remove_sources_mirrors _ _ _ _ _ Hm H) as Hm'. split; [done|].
    split_and!; intros ip x; destruct (remove_sources_lookup _ _ _ ip H) as [H1 H2].
    + intros Hlive. rewrite H1. case_bool_decide as Hin; [|done]. rewrite expired_sources_spec in Hin.
      split; [done|]. intros Ha. destruct Hin as (a & Hs & Hk).
      destruct (Hm ip x Ha Hlive) as (a' & Hs' & <-). simplify_eq. lia.
    + intros Hs Hexp. rewrite H1, bool_decide_eq_true_2; [done|]. apply expired_sources_spec. eauto.
    + rewrite H2. case_bool_decide as Hin; rewrite expired_sources_spec in Hin.
      * split; [done|]. intros [Ha Hlt]. destruct Hin as (a & Hs & Hk). simplify_eq. lia.
      * split; [|by intros [? _]]. intros Ha. split; [done|]. apply Z.lt_nge. intros Hle. apply Hin. eauto.
Qed.

(** A single packet after expiry stops the server.  When a source's entry has
    expired and a TCP frame from it reaches the proxy port before the reaper
    runs, the kernel deletes the entry, and the next reap, finding it in the
    mirror but not in the map, returns an error, which ends [run_spa]. *)
Theorem expired_probe_stops_server en env s data pkt src e rt a timespec now :
  0 <= data -> data + blen pkt < umax 64 -> env_wf env pkt -> blen pkt < 2 ^ 32 ->
  classify pkt = FTcp src (proxy_port (load_config s)) ->
  ALLOW_MAP s !! src = Some e -> expiry_ns e <= now_allow env ->
  allowed_sources rt !! src = Some a -> as_entry a = e ->
  monotonic_now_ns timespec = Ok now -> now_allow env <= now ->
  exists s', ghostbro_xdp en env s data pkt = Some (s', XDP_DROP) /\
    exists rt' ip, reap_expired_sources timespec
        {| allow_map := ALLOW_MAP s'; allowed_sources := allowed_sources rt |}
      = (rt', Err (AllowMapRemove ip)).
Proof.
  intros Hd He Hwf Hsz Hcl Ha Hexp Hm <- Hnow Hle.
  exists (set_allow (delete src) s). split.
  { rewrite ghostbro_xdp_eq by done. unfold xdp_spec. rewrite Hcl, Z.eqb_refl, Ha. cbn [negb].
    destruct (Z.ltb_spec (now_allow env) (expiry_ns (as_entry a))); [lia|done]. }
  rewrite (reap_eq _ _ _ Hnow). cbn [allowed_sources ALLOW_MAP set_allow].
  destruct (remove_sources _ _) as [rt' [[]|err]] eqn:E.
  - assert (Hok : exists rt'', remove_sources {| allow_map := delete src (ALLOW_MAP s);
        allowed_sources := allowed_sources rt |} (expired_sources (allowed_sources rt) now) = (rt'', Ok tt)) by eauto.
    apply remove_sources_Ok in Hok; [|apply NoDup_select_sources].
    rewrite Forall_forall in Hok. specialize (Hok src). cbn [allow_map] in Hok.
    rewrite lookup_delete_eq in Hok. destruct Hok as [? [=]].
    apply expired_sources_spec. exists a. split; [done|lia].
  - destruct (remove_sources_Err _ _ _ _ E) as [ip ->]. eauto.
Qed.

(** * Ring events *)

Lemma length_event_bytes en src sport payload slot :
  (length payload <= 176)%nat -> length slot = SPA_EVENT_SIZE ->
  length (event_bytes en src sport payload slot) = SPA_EVENT_SIZE.
Proof.
  intros Hp Hs. unfold event_bytes. rewrite !length_app, !length_ne_bytes, length_drop, Hs.
  unfold SPA_EVENT_SIZE. lia.
Qed.

Lemma parse_event_bytes en src sport payload slot :
  in_u 32 src -> in_u 16 sport -> (length payload <= 176)%nat -> length slot = SPA_EVENT_SIZE ->
  exists ev, parse_spa_event en (event_bytes en src sport payload slot) = Some ev /\
    ev_src_ip ev = src /\ ev_src_port ev = sport /\ ev_payload_len ev = blen payload /\
    take (Z.to_nat (ev_payload_len ev)) (ev_payload ev) = payload.
Proof.
  intros Hsrc Hsp Hp Hs. unfold parse_spa_event.
  rewrite length_event_bytes by done. cbn [negb Nat.eqb]. eexists. split; [done|].
  cbn [ev_src_ip ev_src_port ev_payload_len ev_payload]. unfold event_bytes.
  assert (H1 : slice 0 4 (ne_bytes en 4 src ++ ne_bytes en 2 sport ++ ne_bytes en 2 (blen payload)
    ++ payload ++ drop (8 + length payload) slot) = ne_bytes en 4 src)
    by (apply slice_app_l; by rewrite length_ne_bytes).
  assert (H2 : slice 4 6 (ne_bytes en 4 src ++ ne_bytes en 2 sport ++ ne_bytes en 2 (blen payload)
    ++ payload ++ drop (8 + length payload) slot) = ne_bytes en 2 sport)
    by (apply slice_app_mid; by rewrite !length_ne_bytes).
  assert (H3 : slice 6 8 (ne_bytes en 4 src ++ ne_bytes en 2 sport ++ ne_bytes en 2 (blen payload)
    ++ payload ++ drop (8 + length payload) slot) = ne_bytes en 2 (blen payload)).
  { rewrite (app_assoc (ne_bytes en 4 src)). apply slice_app_mid; by rewrite ?length_app, !length_ne_bytes. }
  rewrite H1, H2, H3. unfold in_u, umax in *. rewrite !from_ne_bytes by (unfold blen; lia).
  split_and!; try done.
  rewrite !app_assoc. unfold slice. rewrite <- (app_assoc _ payload). rewrite drop_app_length'
    by (by rewrite !length_app, !length_ne_bytes).
  unfold blen. rewrite Nat2Z.id. rewrite take_take, take_app_le by lia.
  apply take_ge. unfold SPA_EVENT_SIZE. lia.
Qed.

(** The kernel and the server agree on ring events.  The event the filter
    writes for a datagram is parsed by the server, in either byte order and
    whatever the reserved slot held before, as an event whose source address,
    source port and payload are those of the datagram. *)
Theorem ring_event_roundtrip en src sport payload slot :
  in_u 32 src -> in_u 16 sport -> (length payload <= 176)%nat -> length slot = SPA_EVENT_SIZE ->
  exists ev, parse_spa_event en (event_bytes en src sport payload slot) = Some ev /\
    ev_src_ip ev = src /\ ev_src_port ev = sport /\ ev_payload_len ev = blen payload /\
    take (Z.to_nat (ev_payload_len ev)) (ev_payload ev) = payload.
Proof. apply parse_event_bytes. Qed.
