(* ===== verification/Tunnel.v ===== *)
(** The encrypted tunnel: [ghostbro-server/src/noise.rs].

    Session slots, length-prefixed frames, the [NoiseFramedStream] poll state
    machine, connection admission and the server's identity file.  The Noise
    implementation ([snow]) is a parameter. *)

From S2P Require Import Prelude Protocol Crypto Keys Fs Runtime.

(** * Parameters *)

(** [snow::TransportState]: [write_message] and [read_message], with the length
    of the output buffer. *)
Class Noise := {
  TransportState : Type;
  write_message : TransportState -> bytes -> nat -> option (TransportState * bytes);
  read_message : TransportState -> bytes -> nat -> option (TransportState * bytes)
}.

(** Documented behaviour: a message grows by a 16-byte tag and does not fit a
    smaller buffer; what one end of a session writes, the other end reads. *)
Class NoiseLaws (N : Noise) := {
  paired : TransportState -> TransportState -> Prop;
  write_message_length : forall t m n t' c,
    write_message t m n = Some (t', c) -> length c = (length m + 16)%nat;
  write_message_fits : forall t m n, (n < length m + 16)%nat -> write_message t m n = None;
  read_written : forall a b m n a' c k, paired a b -> write_message a m n = Some (a', c) ->
    (length m <= k)%nat -> exists b', read_message b c k = Some (b', m) /\ paired a' b'
}.

(** [snow::HandshakeState] of [Noise_XK_25519_ChaChaPoly_BLAKE2s]: an initiator
    from its private key, the responder's public key and the prologue, a responder
    from its private key and the prologue; messages with the length of the output
    buffer; the initiator's static key once it is known. *)
Class NoiseHandshake `{N : Noise} := {
  HandshakeState : Type;
  build_initiator : bytes -> bytes -> bytes -> option HandshakeState;
  build_responder : bytes -> bytes -> option HandshakeState;
  hs_write : HandshakeState -> bytes -> nat -> option (HandshakeState * bytes);
  hs_read : HandshakeState -> bytes -> nat -> option (HandshakeState * bytes);
  get_remote_static : HandshakeState -> option bytes;
  into_transport_mode : HandshakeState -> option TransportState
}.

Definition MAX_FRAME_LEN : nat := 16 * 1024.
Definition NOISE_TAG_LEN : nat := 16.
Definition max_plaintext_len : nat := MAX_FRAME_LEN - NOISE_TAG_LEN.

(** * Session slots *)

Abbreviation SessionCounts := (gmap bytes Z).

(** [Drop for SessionSlot] *)
Definition drop_session (counts : SessionCounts) (kid : KeyId) : SessionCounts :=
  match counts !! kid with
  | Some count =>
      let count := sat_sub count 1 in
      if count =? 0 then delete kid counts else <[kid := count]> counts
  | None => counts
  end.

(** [acquire_session]: the counts afterwards, and whether a slot was granted.
    The addition is that of a release build, modulo 2^32. *)
Definition acquire_session (counts : SessionCounts) (kid : KeyId) (max : option Z)
    : SessionCounts * bool :=
  let count := default 0 (counts !! kid) in
  let counts := <[kid := count]> counts in
  match max with
  | Some max => if (0 <? max) && (max <=? count) then (counts, false)
                else (<[kid := wrap 32 (count + 1)]> counts, true)
  | None => (<[kid := wrap 32 (count + 1)]> counts, true)
  end.

(** * Frames *)

Inductive FrameError :=
| FrameTooLong (n : Z)
| FrameTruncated
| FrameDecrypt
| FrameEncrypt
| FrameTransport
| FrameClosed.

(** [read_frame_optional] on the bytes still to come; [read_exact] meeting the
    end of the stream in the length is a clean close. *)
Definition read_frame_optional (input : bytes) : result FrameError (option bytes * bytes) :=
  if (length input <? 2)%nat then Ok (None, [])
  else
    let len := from_be (take 2 input) in
    let rest := drop 2 input in
    if Z.of_nat MAX_FRAME_LEN <? len then Err (FrameTooLong len)
    else if blen rest <? len then Err FrameTruncated
    else Ok (Some (take (Z.to_nat len) rest), drop (Z.to_nat len) rest).

Definition read_frame (input : bytes) : result FrameError (bytes * bytes) :=
  '(frame, rest) ← read_frame_optional input;
  match frame with Some frame => Ok (frame, rest) | None => Err FrameClosed end.

(** [write_frame]: the bytes put on the wire. *)
Definition write_frame (frame : bytes) : result FrameError bytes :=
  len ← ok_or (FrameTooLong (blen frame)) (try_from 16 (blen frame));
  Ok (be_bytes 2 len ++ frame).

Section frames.
Context `{N : Noise}.

Definition read_encrypted_frame (t : TransportState) (input : bytes)
    : result FrameError (TransportState * bytes * bytes) :=
  '(encrypted, rest) ← read_frame input;
  '(t', plaintext) ← ok_or FrameDecrypt (read_message t encrypted MAX_FRAME_LEN);
  Ok (t', plaintext, rest).

Definition write_encrypted_frame (t : TransportState) (plaintext : bytes)
    : result FrameError (TransportState * bytes) :=
  '(t', c) ← ok_or FrameEncrypt (write_message t plaintext MAX_FRAME_LEN);
  wire ← write_frame c;
  Ok (t', wire).

End frames.

(** * The socket

    What polling a [TcpStream] yields, as a script: data arrives in arbitrary
    pieces, interleaved with [Pending] and errors; after the script the stream is
    at its end.  Writes are accepted in arbitrary amounts. *)

Inductive io_error := IoOther | UnexpectedEof | InvalidData | WriteZero.

Inductive poll (A : Type) := Pending | Ready (r : result io_error A).
Arguments Pending {A}.
Arguments Ready {A} r.

Inductive rd_event := RdPending | RdError | RdData (b : bytes).
Inductive wr_event := WrPending | WrError | WrAccept (n : nat).

Record TcpStream := {
  rd_script : list rd_event;
  wr_script : list wr_event;
  sent : bytes
}.

Definition tcp_poll_read (s : TcpStream) (cap : nat) : TcpStream * poll bytes :=
  let with_rd l := {| rd_script := l; wr_script := wr_script s; sent := sent s |} in
  match rd_script s with
  | [] => (s, Ready (Ok []))
  | RdPending :: l => (with_rd l, Pending)
  | RdError :: l => (with_rd l, Ready (Err IoOther))
  | RdData b :: l =>
      if (length b <=? cap)%nat then (with_rd l, Ready (Ok b))
      else (with_rd (RdData (drop cap b) :: l), Ready (Ok (take cap b)))
  end.

Definition tcp_poll_write (s : TcpStream) (data : bytes) : TcpStream * poll nat :=
  let with_wr l b := {| rd_script := rd_script s; wr_script := l; sent := sent s ++ b |} in
  match wr_script s with
  | [] => (s, Pending)
  | WrPending :: l => (with_wr l [], Pending)
  | WrError :: l => (with_wr l [], Ready (Err IoOther))
  | WrAccept n :: l => (with_wr l (take n data), Ready (Ok (Nat.min n (length data))))
  end.

(** * [NoiseFramedStream] *)

Section framed_stream.
Context `{N : Noise}.

Record NoiseFramedStream := {
  stream : TcpStream;
  transport : TransportState;
  plaintext : bytes;
  plaintext_pos : nat;
  read_len : bytes;
  read_len_pos : nat;
  encrypted_read : bytes;
  encrypted_read_pos : nat;
  pending_write : bytes;
  pending_write_pos : nat
}.

Definition framed_new (s : TcpStream) (t : TransportState) (initial_plaintext : bytes) : NoiseFramedStream :=
  {| stream := s; transport := t; plaintext := initial_plaintext; plaintext_pos := 0;
     read_len := [x00; x00]; read_len_pos := 0; encrypted_read := []; encrypted_read_pos := 0;
     pending_write := []; pending_write_pos := 0 |}.

Definition set_stream (this : NoiseFramedStream) (s : TcpStream) : NoiseFramedStream :=
  {| stream := s; transport := transport this; plaintext := plaintext this;
     plaintext_pos := plaintext_pos this; read_len := read_len this; read_len_pos := read_len_pos this;
     encrypted_read := encrypted_read this; encrypted_read_pos := encrypted_read_pos this;
     pending_write := pending_write this; pending_write_pos := pending_write_pos this |}.

Definition set_header (this : NoiseFramedStream) (s : TcpStream) (len : bytes) (pos : nat) : NoiseFramedStream :=
  {| stream := s; transport := transport this; plaintext := plaintext this;
     plaintext_pos := plaintext_pos this; read_len := len; read_len_pos := pos;
     encrypted_read := encrypted_read this; encrypted_read_pos := encrypted_read_pos this;
     pending_write := pending_write this; pending_write_pos := pending_write_pos this |}.

Definition set_body (this : NoiseFramedStream) (s : TcpStream) (body : bytes) (pos : nat) : NoiseFramedStream :=
  {| stream := s; transport := transport this; plaintext := plaintext this;
     plaintext_pos := plaintext_pos this; read_len := read_len this; read_len_pos := read_len_pos this;
     encrypted_read := body; encrypted_read_pos := pos;
     pending_write := pending_write this; pending_write_pos := pending_write_pos this |}.

Definition set_plain (this : NoiseFramedStream) (t : TransportState) (p : bytes) (pos : nat) : NoiseFramedStream :=
  {| stream := stream this; transport := t; plaintext := p;
     plaintext_pos := pos; read_len := read_len this; read_len_pos := read_len_pos this;
     encrypted_read := encrypted_read this; encrypted_read_pos := encrypted_read_pos this;
     pending_write := pending_write this; pending_write_pos := pending_write_pos this |}.

Definition set_pending (this : NoiseFramedStream) (s : TcpStream) (t : TransportState) (w : bytes) (pos : nat)
    : NoiseFramedStream :=
  {| stream := s; transport := t; plaintext := plaintext this;
     plaintext_pos := plaintext_pos this; read_len := read_len this; read_len_pos := read_len_pos this;
     encrypted_read := encrypted_read this; encrypted_read_pos := encrypted_read_pos this;
     pending_write := w; pending_write_pos := pos |}.

(** How a read loop into a buffer ends. *)
Inductive fill_end := FillDone | FillPending | FillError (e : io_error) | FillEof | FillStuck.

(** [ReadBuf] over [buf[pos..]]: the bytes read land at [pos]. *)
Definition overwrite (buf : bytes) (pos : nat) (data : bytes) : bytes :=
  take pos buf ++ data ++ drop (pos + length data) buf.

(** The [while pos < buf.len()] loops of [poll_read_outer_frame]; the fuel is the
    room left in the buffer, since every turn that continues reads a byte. *)
Fixpoint fill_loop (fuel : nat) (s : TcpStream) (buf : bytes) (pos : nat)
    : TcpStream * bytes * nat * fill_end :=
  if (pos <? length buf)%nat then
    match fuel with
    | O => (s, buf, pos, FillStuck)
    | S fuel' =>
        match tcp_poll_read s (length buf - pos) with
        | (s', Pending) => (s', buf, pos, FillPending)
        | (s', Ready (Err e)) => (s', buf, pos, FillError e)
        | (s', Ready (Ok [])) => (s', buf, pos, FillEof)
        | (s', Ready (Ok data)) => fill_loop fuel' s' (overwrite buf pos data) (pos + length data)
        end
    end
  else (s, buf, pos, FillDone).

Definition poll_read_outer_frame (this : NoiseFramedStream) : NoiseFramedStream * poll (option bytes) :=
  let '(s, len, pos, ended) := fill_loop (length (read_len this) - read_len_pos this)
      (stream this) (read_len this) (read_len_pos this) in
  let this := set_header this s len pos in
  match ended with
  | FillPending | FillStuck => (this, Pending)
  | FillError e => (this, Ready (Err e))
  | FillEof => (this, Ready (if (read_len_pos this =? 0)%nat then Ok None else Err UnexpectedEof))
  | FillDone =>
      let frame_len := from_be (read_len this) in
      if bool_decide (encrypted_read this = []) && (Z.of_nat MAX_FRAME_LEN <? frame_len)
      then (this, Ready (Err InvalidData))
      else
        let this := if bool_decide (encrypted_read this = [])
                    then set_body this (stream this) (repeat x00 (Z.to_nat frame_len)) 0 else this in
        let '(s, body, pos, ended) := fill_loop (length (encrypted_read this) - encrypted_read_pos this)
            (stream this) (encrypted_read this) (encrypted_read_pos this) in
        let this := set_body this s body pos in
        match ended with
        | FillPending | FillStuck => (this, Pending)
        | FillError e => (this, Ready (Err e))
        | FillEof => (this, Ready (Err UnexpectedEof))
        | FillDone =>
            let frame := encrypted_read this in
            (set_header (set_body this (stream this) [] 0) (stream this) [x00; x00] 0, Ready (Ok (Some frame)))
        end
  end.

(** The loop of [poll_flush_pending]; the fuel is the length left to write. *)
Fixpoint flush_loop (fuel : nat) (s : TcpStream) (buf : bytes) (pos : nat)
    : TcpStream * nat * fill_end :=
  if (pos <? length buf)%nat then
    match fuel with
    | O => (s, pos, FillStuck)
    | S fuel' =>
        match tcp_poll_write s (drop pos buf) with
        | (s', Pending) => (s', pos, FillPending)
        | (s', Ready (Err e)) => (s', pos, FillError e)
        | (s', Ready (Ok O)) => (s', pos, FillError WriteZero)
        | (s', Ready (Ok written)) => flush_loop fuel' s' buf (pos + written)
        end
    end
  else (s, pos, FillDone).

Definition poll_flush_pending (this : NoiseFramedStream) : NoiseFramedStream * poll unit :=
  let '(s, pos, ended) := flush_loop (length (pending_write this) - pending_write_pos this)
      (stream this) (pending_write this) (pending_write_pos this) in
  match ended with
  | FillDone => (set_pending this s (transport this) [] 0, Ready (Ok tt))
  | FillError e => (set_pending this s (transport this) (pending_write this) pos, Ready (Err e))
  | _ => (set_pending this s (transport this) (pending_write this) pos, Pending)
  end.

(** The loop of [AsyncRead::poll_read] into a buffer with [cap] bytes free. *)
Fixpoint read_loop (fuel : nat) (this : NoiseFramedStream) (cap : nat)
    : option (NoiseFramedStream * poll bytes) :=
  if (plaintext_pos this <? length (plaintext this))%nat then
    let available := drop (plaintext_pos this) (plaintext this) in
    let len := Nat.min (length available) cap in
    let pos := (plaintext_pos this + len)%nat in
    let this' := if (pos =? length (plaintext this))%nat then set_plain this (transport this) [] 0
                 else set_plain this (transport this) (plaintext this) pos in
    Some (this', Ready (Ok (take len available)))
  else
    match fuel with
    | O => None
    | S fuel' =>
        match poll_read_outer_frame this with
        | (this', Pending) => Some (this', Pending)
        | (this', Ready (Err e)) => Some (this', Ready (Err e))
        | (this', Ready (Ok None)) => Some (this', Ready (Ok []))
        | (this', Ready (Ok (Some encrypted))) =>
            match read_message (transport this') encrypted MAX_FRAME_LEN with
            | None => Some (this', Ready (Err InvalidData))
            | Some (t, p) => read_loop fuel' (set_plain this' t p (plaintext_pos this')) cap
            end
        end
    end.

(** Bytes the socket script still holds. *)
Definition script_bytes (l : list rd_event) : bytes :=
  mjoin (map (fun e => match e with RdData b => b | _ => [] end) l).

(** [AsyncRead::poll_read]; a frame takes at least two bytes off the wire, which
    bounds the loop. *)
Definition poll_read (this : NoiseFramedStream) (cap : nat) : option (NoiseFramedStream * poll bytes) :=
  match poll_flush_pending this with
  | (this', Pending) => Some (this', Pending)
  | (this', Ready (Err e)) => Some (this', Ready (Err e))
  | (this', Ready (Ok _)) =>
      read_loop (S (2 + length (encrypted_read this') + length (script_bytes (rd_script (stream this'))))) this' cap
  end.

(** [AsyncWrite::poll_write] *)
Definition poll_write (this : NoiseFramedStream) (buf : bytes) : NoiseFramedStream * poll nat :=
  match poll_flush_pending this with
  | (this, Pending) => (this, Pending)
  | (this, Ready (Err e)) => (this, Ready (Err e))
  | (this, Ready (Ok _)) =>
      if bool_decide (buf = []) then (this, Ready (Ok O))
      else
        let plaintext_len := Nat.min (length buf) max_plaintext_len in
        match write_message (transport this) (take plaintext_len buf) MAX_FRAME_LEN with
        | None => (this, Ready (Err InvalidData))
        | Some (t, encrypted) =>
            match try_from 16 (blen encrypted) with
            | None => (set_pending this (stream this) t (pending_write this) (pending_write_pos this),
                       Ready (Err InvalidData))
            | Some frame_len =>
                let this := set_pending this (stream this) t (be_bytes 2 frame_len ++ encrypted) 0 in
                match poll_flush_pending this with
                | (this, Ready (Err e)) => (this, Ready (Err e))
                | (this, _) => (this, Ready (Ok plaintext_len))
                end
            end
        end
  end.

(** [poll_flush]: the socket's own flush, an argument, follows ours. *)
Definition poll_flush (tcp_flush : poll unit) (this : NoiseFramedStream) : NoiseFramedStream * poll unit :=
  match poll_flush_pending this with
  | (this, Ready (Ok _)) => (this, tcp_flush)
  | r => r
  end.

(** [poll_shutdown]: the socket is shut down once everything is written. *)
Definition poll_shutdown (tcp_shutdown : poll unit) (this : NoiseFramedStream) : NoiseFramedStream * poll unit :=
  match poll_flush_pending this with
  | (this, Pending) => (this, Pending)
  | (this, Ready (Err e)) => (this, Ready (Err e))
  | (this, Ready (Ok _)) => (this, tcp_shutdown)
  end.

(** [poll_write_vectored] writes from the first non-empty buffer. *)
Definition poll_write_vectored (this : NoiseFramedStream) (bufs : list bytes) : NoiseFramedStream * poll nat :=
  match List.find (fun b => negb (bool_decide (b = []))) bufs with
  | None => (this, Ready (Ok O))
  | Some buf => poll_write this buf
  end.

End framed_stream.

(** * SOCKS5

    The server side of the protocol is [fast-socks5]'s; these are its types. *)

Inductive Socks5Command := TCPConnect | TCPBind | UDPAssociate.

#[global] Instance Socks5Command_eq_dec : EqDecision Socks5Command.
Proof. solve_decision. Defined.

Inductive ReplyError :=
| GeneralFailure | ConnectionNotAllowed | NetworkUnreachable | HostUnreachable
| ConnectionRefused | TtlExpired | CommandNotSupported | AddressTypeNotSupported.

(** * Connections *)

Inductive ConnError :=
| NotIpv4
| NoAllowEntry
| ConnClock (e : RunError)
| AllowEntryExpired
| HandshakeFailed
| MissingStatic
| StaticMismatch
| SessionLimit
| ConnFrame (e : FrameError).

(** The lookup at the start of [handle_connection]; an expired entry is dropped
    from the mirror. *)
Definition admit_source (timespec : option (Z * Z)) (sources : gmap Z AllowedSource) (src_ip : Z)
    : gmap Z AllowedSource * result ConnError AllowedSource :=
  match sources !! src_ip with
  | None => (sources, Err NoAllowEntry)
  | Some source =>
      match monotonic_now_ns timespec with
      | Err e => (sources, Err (ConnClock e))
      | Ok now =>
          if expiry_ns (as_entry source) <=? now then (delete src_ip sources, Err AllowEntryExpired)
          else (sources, Ok source)
      end
  end.

(** [ct_eq] on slices of equal length is equality. *)
Definition verify_client_noise_static (remote_static : option bytes) (expected : bytes) : result ConnError unit :=
  remote_static ← ok_or MissingStatic remote_static;
  let matches := (length remote_static =? length expected)%nat && bool_decide (remote_static = expected) in
  if negb matches then Err StaticMismatch else Ok tt.

Inductive ConnService :=
| ServeSocks5 (greeting : bytes)
| ServeRelay (kid : KeyId) (request : bytes)
| ServeEcho (message : bytes).

(** The protocol is chosen by the first byte of the first message. *)
Definition select_service (kid : KeyId) (message : bytes) : ConnService :=
  match message with
  | b :: _ => if b2z b =? PROTOCOL_SOCKS5 then ServeSocks5 message
              else if b2z b =? PROTOCOL_GHOST_RELAY then ServeRelay kid message
              else ServeEcho message
  | [] => ServeEcho message
  end.

(** [handle_connection] up to the choice of the service.  The peer's address is
    [None] when it is not IPv4; [handshake] is the outcome of the three Noise
    messages under this prologue: the initiator's static key and the first
    application message or why there is none. *)
Definition handle_connection (peer : option Z) (timespec : option (Z * Z))
    (handshake : KeyId -> option (option bytes * result FrameError bytes))
    (sources : gmap Z AllowedSource) (sessions : SessionCounts)
    : gmap Z AllowedSource * SessionCounts * result ConnError ConnService :=
  match peer with
  | None => (sources, sessions, Err NotIpv4)
  | Some src_ip =>
      match admit_source timespec sources src_ip with
      | (sources, Err e) => (sources, sessions, Err e)
      | (sources, Ok source) =>
          let kid := ae_key_id (as_entry source) in
          match handshake kid with
          | None => (sources, sessions, Err HandshakeFailed)
          | Some (remote_static, first_message) =>
              match verify_client_noise_static remote_static (as_noise_public_key source) with
              | Err e => (sources, sessions, Err e)
              | Ok _ =>
                  let '(sessions, granted) := acquire_session sessions kid (as_max_concurrent_sessions source) in
                  if negb granted then (sources, sessions, Err SessionLimit)
                  else match first_message with
                  | Err e => (sources, drop_session sessions kid, Err (ConnFrame e))
                  | Ok message => (sources, sessions, Ok (select_service kid message))
                  end
              end
          end
      end
  end.

(** * The identity file *)

Section identity.
Context `{C : Crypto}.

Inductive IdentityError :=
| IdRead
| IdDecode
| IdLength (n : Z)
| IdMissing
| IdWrite.

(** [public_key_path] *)
Definition public_key_path (path : string) : string :=
  if bool_decide (extension path = Some "key"%string)
  then with_extension path "pub" else with_extension path "noise.pub".

(** [load_or_generate_static_key]: the file, whether generation was opted into
    ([GHOSTBRO_GENERATE_IDENTITY]), the generated pair, whether the writes
    succeed; the file operations done and the key. *)
Definition load_or_generate_static_key (path : string) (contents : option (option string))
    (opt_in : bool) (generated : bytes * bytes) (write_ok : bool * bool)
    : list fs_op * result IdentityError bytes :=
  match contents with
  | Some (Some contents) =>
      ([], key ← ok_or IdDecode (b64_decode (bytes_str (trim (str_bytes contents))));
           if negb (length key =? 32)%nat then Err (IdLength (blen key)) else Ok key)
  | Some None =>
      if negb opt_in then ([], Err IdMissing)
      else
        let '(private, public) := generated in
        if negb (fst write_ok) then ([], Err IdWrite)
        else
          let ops1 := [OpCreate path; OpWrite path (b64_encode private +:+ bytes_str [x0a])] in
          let pub := public_key_path path in
          if negb (snd write_ok) then (ops1, Err IdWrite)
          else (ops1 ++ [OpCreate pub; OpWrite pub (b64_encode public +:+ bytes_str [x0a])], Ok private)
  | None => ([], Err IdRead)
  end.

(** [load_static_private_key] and [load_static_public_key] *)
Definition load_static_private_key (path : string) (contents : option (option string))
    (opt_in : bool) (generated : bytes * bytes) (write_ok : bool * bool)
    : list fs_op * result IdentityError bytes :=
  let '(ops, r) := load_or_generate_static_key path contents opt_in generated write_ok in
  (ops, key ← r; if (length key =? 32)%nat then Ok key else Err (IdLength (blen key))).

Definition load_static_public_key (path : string) (contents : option (option string))
    (opt_in : bool) (generated : bytes * bytes) (write_ok : bool * bool)
    : list fs_op * result IdentityError bytes :=
  let '(ops, r) := load_static_private_key path contents opt_in generated write_ok in
  (ops, key ← r; Ok (derive_noise_public_from_private key)).

End identity.
