(* ===== verification/TunnelFacts.v ===== *)
(** Correctness of the tunnel: session caps, frame round trips, the polled stream
    against the blocking reader, admission of connections, the identity file. *)

From S2P Require Import Prelude Protocol Crypto Keys Fs Runtime Tunnel.

(** * Session slots *)

(** A history of slots: who holds one, newest first. *)
Inductive sess_step : SessionCounts * list KeyId -> SessionCounts * list KeyId -> Prop :=
| sess_granted counts live kid max counts' :
    acquire_session counts kid max = (counts', true) -> sess_step (counts, live) (counts', kid :: live)
| sess_refused counts live kid max counts' :
    acquire_session counts kid max = (counts', false) -> sess_step (counts, live) (counts', live)
| sess_closed counts l1 kid l2 :
    sess_step (counts, l1 ++ kid :: l2) (drop_session counts kid, l1 ++ l2).

Inductive sess_run : nat -> SessionCounts * list KeyId -> SessionCounts * list KeyId -> Prop :=
| sess_nil st : sess_run 0 st st
| sess_snoc n st st1 st2 : sess_run n st st1 -> sess_step st1 st2 -> sess_run (S n) st st2.

Definition live_of (kid : KeyId) (live : list KeyId) : Z := blen (filter (eq kid) live).

Lemma live_of_app kid l k : live_of kid (l ++ k) = live_of kid l + live_of kid k.
Proof. unfold live_of, blen. rewrite filter_app, length_app. lia. Qed.

Lemma live_of_cons kid k l : live_of kid (k :: l) = (if decide (kid = k) then 1 else 0) + live_of kid l.
Proof. unfold live_of, blen. rewrite filter_cons. destruct (decide (kid = k)); cbn [length]; lia. Qed.

Lemma live_of_range kid l : 0 <= live_of kid l <= blen l.
Proof. unfold live_of, blen. pose proof (length_filter (eq kid) l). lia. Qed.

Definition counts_exact (st : SessionCounts * list KeyId) : Prop :=
  forall kid, default 0 (st.1 !! kid) = live_of kid st.2.

Lemma acquire_session_count counts kid max counts' granted k :
  acquire_session counts kid max = (counts', granted) ->
  default 0 (counts' !! k)
  = if decide (k = kid) then (if granted then wrap 32 (default 0 (counts !! kid) + 1) else default 0 (counts !! kid))
    else default 0 (counts !! k).
Proof.
  intros H. assert (Hc : counts' = <[kid := if granted then wrap 32 (default 0 (counts !! kid) + 1)
    else default 0 (counts !! kid)]> (<[kid := default 0 (counts !! kid)]> counts)).
  { unfold acquire_session in H. destruct max as [m|].
    - destruct (_ && _); injection H as <- <-; [by rewrite insert_insert_eq|done].
    - by injection H as <- <-. }
  rewrite Hc, insert_insert_eq. destruct (decide (k = kid)) as [->|Hne].
  - by rewrite lookup_insert_eq.
  - by rewrite lookup_insert_ne.
Qed.

Lemma drop_session_count counts kid k :
  0 < default 0 (counts !! kid) ->
  default 0 (drop_session counts kid !! k)
  = if decide (k = kid) then default 0 (counts !! kid) - 1 else default 0 (counts !! k).
Proof.
  intros H. unfold drop_session. destruct (counts !! kid) as [c|] eqn:E; simpl in H; [|lia].
  unfold sat_sub. destruct (Z.eqb_spec (Z.max 0 (c - 1)) 0); destruct (decide (k = kid)) as [->|Hne].
  - rewrite lookup_delete_eq. simpl. lia.
  - by rewrite lookup_delete_ne.
  - rewrite lookup_insert_eq. simpl. lia.
  - by rewrite lookup_insert_ne.
Qed.

Lemma sess_step_exact st st' :
  counts_exact st -> blen st.2 + 1 < 2 ^ 32 -> sess_step st st' ->
  counts_exact st' /\ blen st'.2 <= blen st.2 + 1.
Proof.
  intros Hex Hlen Hs. destruct Hs as [counts live kid max counts' H|counts live kid max counts' H|counts l1 kid l2];
    simpl in *; unfold counts_exact in *; simpl in *.
  - split; [|unfold blen; simpl; lia]. intros k. rewrite (acquire_session_count _ _ _ _ _ k H), live_of_cons.
    destruct (decide (k = kid)) as [->|Hne]; [|by rewrite Hex].
    rewrite Hex. pose proof (live_of_range kid live). unfold wrap. rewrite Z.mod_small; lia.
  - split; [|lia]. intros k. rewrite (acquire_session_count _ _ _ _ _ k H).
    destruct (decide (k = kid)) as [->|Hne]; by rewrite Hex.
  - split; [|unfold blen; rewrite !length_app; simpl; lia]. intros k.
    assert (Hk : 0 < default 0 (counts !! kid)).
    { rewrite Hex, live_of_app, live_of_cons. pose proof (live_of_range kid l1). pose proof (live_of_range kid l2).
      destruct (decide (kid = kid)); [lia|done]. }
    rewrite drop_session_count by done. rewrite live_of_app.
    destruct (decide (k = kid)) as [->|Hne]; rewrite Hex, live_of_app, live_of_cons.
    + destruct (decide (kid = kid)); [lia|done].
    + destruct (decide (k = kid)); [done|lia].
Qed.

Lemma sess_run_exact n st :
  sess_run n (∅, []) st -> Z.of_nat n < 2 ^ 32 - 1 -> counts_exact st /\ blen st.2 <= Z.of_nat n.
Proof.
  remember (∅, []) as st0. induction 1 as [st|n st st1 st2 _ IH Hs]; intros Hn; subst.
  - split; [|done]. intros kid. simpl. by rewrite lookup_empty.
  - destruct (IH eq_refl ltac:(lia)) as [Hex Hl].
    destruct (sess_step_exact st1 st2 Hex ltac:(lia) Hs). split; [done|lia].
Qed.

(** The session cap is exact.  After any history of fewer than 2^32 - 1
    connections opening and closing, a client whose cap is positive gets a slot
    exactly when it has fewer live sessions than the cap, so it never holds more
    than its cap; without a cap (or with cap zero) it always gets one; and a
    refusal changes no client's count. *)
Theorem session_cap_exact n counts live kid max :
  sess_run n (∅, []) (counts, live) -> Z.of_nat n < 2 ^ 32 - 1 ->
  (forall m, max = Some m -> 0 <= m) ->
  let '(counts', granted) := acquire_session counts kid max in
  (granted = true <->
     match max with Some m => m = 0 \/ live_of kid live < m | None => True end) /\
  (forall m, granted = true -> max = Some m -> m <> 0 -> live_of kid (kid :: live) <= m) /\
  (granted = false -> forall k, default 0 (counts' !! k) = live_of k live).
Proof.
  intros Hr Hn Hm. destruct (sess_run_exact _ _ Hr Hn) as [Hex Hl]. unfold counts_exact in Hex. simpl in Hex.
  destruct (acquire_session counts kid max) as [counts' granted] eqn:E.
  assert (Hg : granted = true <-> match max with Some m => m = 0 \/ live_of kid live < m | None => True end).
  { unfold acquire_session in E. rewrite Hex in E. destruct max as [m|]; [|by injection E as _ <-].
    specialize (Hm m eq_refl). pose proof (live_of_range kid live).
    destruct (Z.ltb_spec 0 m), (Z.leb_spec m (live_of kid live)); simpl in E; injection E as _ <-;
      split; try done; lia. }
  split_and!; [done| |].
  - intros m Hgr -> Hne. rewrite live_of_cons. destruct (decide (kid = kid)); [|done].
    apply Hg in Hgr as [?|?]; lia.
  - intros -> k. rewrite (acquire_session_count _ _ _ _ _ k E).
    destruct (decide (k = kid)) as [->|]; by rewrite Hex.
Qed.

(** * Frames *)

Lemma read_frame_write f w rest :
  write_frame f = Ok w -> (length f <= MAX_FRAME_LEN)%nat -> read_frame (w ++ rest) = Ok (f, rest).
Proof.
  unfold write_frame. intros H Hl. apply bind_Ok_inv in H as (len & Hlen & H). assert (w = be_bytes 2 len ++ f) as -> by congruence. clear H.
  apply ok_or_Ok in Hlen. unfold try_from in Hlen. change (umax 16) with 65535 in Hlen.
  destruct ((0 <=? blen f) && (blen f <=? 65535)) eqn:E; [|discriminate]. injection Hlen as <-. bool_props.
  unfold read_frame, read_frame_optional. rewrite <- app_assoc.
  rewrite !length_app, length_be_bytes. destruct (Nat.ltb_spec (2 + (length f + length rest)) 2); [lia|].
  rewrite take_app_length' by (by rewrite length_be_bytes). rewrite drop_app_length' by (by rewrite length_be_bytes).
  rewrite from_be_small by (simpl; lia).
  destruct (Z.ltb_spec (Z.of_nat MAX_FRAME_LEN) (blen f)); [unfold blen in *; lia|].
  destruct (Z.ltb_spec (blen (f ++ rest)) (blen f)); [unfold blen in *; rewrite length_app in *; lia|].
  cbn [mbind result_bind]. unfold blen. by rewrite Nat2Z.id, take_app_length, drop_app_length.
Qed.

Lemma read_frame_inv input f rest :
  read_frame input = Ok (f, rest) -> (length rest + 2 <= length input)%nat.
Proof.
  unfold read_frame, read_frame_optional. destruct (Nat.ltb_spec (length input) 2); [discriminate|].
  destruct (_ <? from_be _); [discriminate|]. destruct (blen _ <? _); [discriminate|].
  cbn [mbind result_bind]. intros [= _ <-]. rewrite !length_drop. lia.
Qed.

Section frame_facts.
Context `{N : Noise} {L : NoiseLaws N}.

Lemma encrypted_frame_roundtrip a b m a' w rest :
  paired a b -> write_encrypted_frame a m = Ok (a', w) ->
  exists b', read_encrypted_frame b (w ++ rest) = Ok (b', m, rest) /\ paired a' b'.
Proof.
  intros Hp H. unfold write_encrypted_frame in H. apply bind_Ok_inv in H as ([a1 c] & Hw & H).
  apply ok_or_Ok in Hw. apply bind_Ok_inv in H as (wire & Hwf & H). injection H as <- <-.
  assert (Hfit : (length m + 16 <= MAX_FRAME_LEN)%nat).
  { destruct (decide (length m + 16 <= MAX_FRAME_LEN)%nat) as [|Hn]; [done|].
    rewrite write_message_fits in Hw by lia. discriminate. }
  pose proof (write_message_length _ _ _ _ _ Hw) as Hc.
  destruct (read_written a b m _ a1 c MAX_FRAME_LEN Hp Hw ltac:(lia)) as (b' & Hr & Hp').
  exists b'. split; [|done]. unfold read_encrypted_frame.
  rewrite (read_frame_write c wire rest Hwf) by lia. cbn [mbind result_bind].
  rewrite Hr. done.
Qed.

(** Send a list of messages; receive until the input ends. *)
Fixpoint send_all (t : TransportState) (ms : list bytes) : result FrameError (TransportState * bytes) :=
  match ms with
  | [] => Ok (t, [])
  | m :: ms' => '(t1, w) ← write_encrypted_frame t m; '(t2, ws) ← send_all t1 ms'; Ok (t2, w ++ ws)
  end.

Fixpoint receive_n (n : nat) (t : TransportState) (input : bytes)
    : result FrameError (TransportState * list bytes * bytes) :=
  match n with
  | O => Ok (t, [], input)
  | S n' => '(t1, m, rest) ← read_encrypted_frame t input;
            '(t2, ms, rest') ← receive_n n' t1 rest; Ok (t2, m :: ms, rest')
  end.

Lemma receive_sent a b ms a' wire rest :
  paired a b -> send_all a ms = Ok (a', wire) ->
  exists b', receive_n (length ms) b (wire ++ rest) = Ok (b', ms, rest) /\ paired a' b'.
Proof.
  revert a b a' wire. induction ms as [|m ms IH]; intros a b a' wire Hp H; cbn [send_all] in H.
  - injection H as <- <-. eauto.
  - apply bind_Ok_inv in H as ([a1 w] & Hw & H). apply bind_Ok_inv in H as ([a2 ws] & Hs & H).
    injection H as <- <-. cbn [length receive_n]. rewrite <- app_assoc.
    destruct (encrypted_frame_roundtrip a b m a1 w (ws ++ rest) Hp Hw) as (b1 & Hr & Hp1).
    rewrite Hr. cbn [mbind result_bind]. destruct (IH a1 b1 a2 ws Hp1 Hs) as (b2 & Hr2 & Hp2).
    rewrite Hr2. cbn [mbind result_bind]. eauto.
Qed.

End frame_facts.

(** * The polled stream *)

Section stream_facts.
Context `{N : Noise}.

(** The blocking reader applied to all that is still to come. *)
Fixpoint decode_frames (fuel : nat) (t : TransportState) (input : bytes) : bytes :=
  match fuel with
  | O => []
  | S fuel' =>
      match read_encrypted_frame t input with
      | Ok (t', m, rest) => m ++ decode_frames fuel' t' rest
      | Err _ => []
      end
  end.

Lemma read_encrypted_frame_shorter t input t' m rest :
  read_encrypted_frame t input = Ok (t', m, rest) -> (length rest + 2 <= length input)%nat.
Proof.
  unfold read_encrypted_frame. intros H. apply bind_Ok_inv in H as ([f r] & Hf & H).
  apply bind_Ok_inv in H as ([t1 p] & _ & H). injection H as <- <- <-. by eapply read_frame_inv.
Qed.

Lemma decode_frames_fuel f1 f2 t input :
  (length input < f1)%nat -> (length input < f2)%nat -> decode_frames f1 t input = decode_frames f2 t input.
Proof.
  revert f2 t input. induction f1 as [|f1 IH]; intros [|f2] t input H1 H2; try lia. cbn [decode_frames].
  destruct (read_encrypted_frame t input) as [[[t' m] rest]|] eqn:E; [|done].
  apply read_encrypted_frame_shorter in E. f_equal. apply IH; lia.
Qed.

Definition decode (t : TransportState) (input : bytes) : bytes := decode_frames (S (length input)) t input.

Lemma decode_eq t input :
  decode t input = match read_encrypted_frame t input with
                   | Ok (t', m, rest) => m ++ decode t' rest
                   | Err _ => []
                   end.
Proof.
  unfold decode at 1. cbn [decode_frames].
  destruct (read_encrypted_frame t input) as [[[t' m] rest]|] eqn:E; [|done].
  apply read_encrypted_frame_shorter in E. f_equal. apply decode_frames_fuel; lia.
Qed.

(** Bytes taken off the socket but not yet part of a complete frame. *)
Definition buffered (this : NoiseFramedStream) : bytes :=
  if bool_decide (encrypted_read this = []) then take (read_len_pos this) (read_len this)
  else read_len this ++ take (encrypted_read_pos this) (encrypted_read this).

Definition wire (this : NoiseFramedStream) : bytes :=
  buffered this ++ script_bytes (rd_script (stream this)).

(** The plaintext the stream still owes its reader. *)
Definition undelivered (this : NoiseFramedStream) : bytes :=
  drop (plaintext_pos this) (plaintext this) ++ decode (transport this) (wire this).

(** A socket does not deliver empty pieces before its end. *)
Definition script_wf (s : TcpStream) : Prop :=
  Forall (fun e => match e with RdData b => b <> [] | _ => True end) (rd_script s).

Record framed_wf (this : NoiseFramedStream) : Prop := {
  fw_script : script_wf (stream this);
  fw_header : length (read_len this) = 2%nat;
  fw_header_pos : (read_len_pos this <= 2)%nat;
  fw_body : encrypted_read this = [] \/
    (read_len_pos this = 2%nat /\ from_be (read_len this) = blen (encrypted_read this) /\
     (length (encrypted_read this) <= MAX_FRAME_LEN)%nat /\
     (encrypted_read_pos this <= length (encrypted_read this))%nat);
  fw_plain : (plaintext_pos this < length (plaintext this))%nat \/
    (plaintext this = [] /\ plaintext_pos this = 0%nat)
}.

Lemma script_bytes_cons e l :
  script_bytes (e :: l) = (match e with RdData b => b | _ => [] end) ++ script_bytes l.
Proof. done. Qed.

(** One poll of the socket. *)
Lemma tcp_poll_read_spec s cap s' r :
  script_wf s -> (0 < cap)%nat -> tcp_poll_read s cap = (s', r) ->
  script_wf s' /\ wr_script s' = wr_script s /\ sent s' = sent s /\
  match r with
  | Ready (Ok data) => (length data <= cap)%nat /\
      script_bytes (rd_script s) = data ++ script_bytes (rd_script s') /\
      (data = [] -> script_bytes (rd_script s) = [])
  | _ => script_bytes (rd_script s') = script_bytes (rd_script s)
  end.
Proof.
  unfold script_wf, tcp_poll_read. intros Hwf Hcap. destruct (rd_script s) as [|[| |b] l] eqn:E.
  - intros [= <- <-]. rewrite E. split_and!; simpl; try done. lia.
  - intros [= <- <-]. apply Forall_cons in Hwf as [_ Hwf]. done.
  - intros [= <- <-]. apply Forall_cons in Hwf as [_ Hwf]. done.
  - apply Forall_cons in Hwf as [Hb Hwf]. destruct (Nat.leb_spec (length b) cap).
    + intros [= <- <-]. split_and!; try done.
    + intros [= <- <-]. cbn [rd_script wr_script sent].
      assert (drop cap b <> []). { intros Hd. apply (f_equal length) in Hd. rewrite length_drop in Hd. simpl in Hd. lia. }
      split_and!; try done; [by apply Forall_cons|rewrite length_take; lia| |].
      * rewrite !script_bytes_cons, app_assoc, take_drop. done.
      * intros Ht. apply (f_equal length) in Ht. rewrite length_take in Ht. simpl in Ht. lia.
Qed.

Lemma length_overwrite buf pos data :
  (pos + length data <= length buf)%nat -> length (overwrite buf pos data) = length buf.
Proof. intros H. unfold overwrite. rewrite !length_app, length_take, length_drop. lia. Qed.

Lemma take_overwrite buf pos data :
  (pos <= length buf)%nat -> take (pos + length data) (overwrite buf pos data) = take pos buf ++ data.
Proof.
  intros H. unfold overwrite. rewrite app_assoc. apply take_app_length'.
  rewrite length_app, length_take. lia.
Qed.

Lemma fill_loop_spec fuel s buf pos s' buf' pos' e :
  script_wf s -> (pos <= length buf)%nat -> (length buf - pos <= fuel)%nat ->
  fill_loop fuel s buf pos = (s', buf', pos', e) ->
  script_wf s' /\ wr_script s' = wr_script s /\ sent s' = sent s /\
  length buf' = length buf /\ (pos <= pos' <= length buf)%nat /\
  take pos' buf' ++ script_bytes (rd_script s') = take pos buf ++ script_bytes (rd_script s) /\
  e <> FillStuck /\ (e = FillDone -> pos' = length buf) /\ (e = FillEof -> script_bytes (rd_script s') = []).
Proof.
  revert s buf pos. induction fuel as [|fuel IH]; intros s buf pos Hwf Hpos Hfuel; cbn [fill_loop];
    (destruct (Nat.ltb_spec pos (length buf)) as [Hlt|Hge]; [|intros [= <- <- <- <-]; split_and!; done || lia]); [lia|].
  destruct (tcp_poll_read s (length buf - pos)) as [s1 r] eqn:E.
  destruct (tcp_poll_read_spec s (length buf - pos) s1 r Hwf ltac:(lia) E) as (Hwf1 & Hw1 & Hs1 & Hr).
  destruct r as [|[[|d data]|err]].
  - intros [= <- <- <- <-]. rewrite Hr. split_and!; done || lia.
  - intros [= <- <- <- <-]. destruct Hr as (_ & Hb & He). rewrite Hb.
    split_and!; try done || lia. intros _. rewrite <- (He eq_refl), Hb. done.
  - destruct Hr as (Hlen & Hb & _). intros H.
    specialize (IH s1 (overwrite buf pos (d :: data)) (pos + length (d :: data))%nat Hwf1).
    rewrite length_overwrite in IH by lia. destruct IH as (? & ? & ? & ? & ? & Ht & ? & ? & ?); [lia|simpl length in *; lia|done|].
    split_and!; try done; try congruence; try (simpl length in *; lia).
    rewrite Ht, take_overwrite, Hb by lia. by rewrite app_assoc.
  - intros [= <- <- <- <-]. rewrite Hr. split_and!; done || lia.
Qed.

(** What the outer-frame reader leaves alone. *)
Definition same_plain (a b : NoiseFramedStream) : Prop :=
  transport a = transport b /\ plaintext a = plaintext b /\ plaintext_pos a = plaintext_pos b /\
  pending_write a = pending_write b /\ pending_write_pos a = pending_write_pos b /\
  wr_script (stream a) = wr_script (stream b) /\ sent (stream a) = sent (stream b).

Lemma read_frame_exact hdr body rest :
  length hdr = 2%nat -> from_be hdr = blen body -> (length body <= MAX_FRAME_LEN)%nat ->
  read_frame (hdr ++ body ++ rest) = Ok (body, rest).
Proof.
  intros Hh Hb Hm. unfold read_frame, read_frame_optional. rewrite !length_app, Hh.
  destruct (Nat.ltb_spec (2 + (length body + length rest)) 2); [lia|].
  rewrite take_app_length', drop_app_length' by lia. rewrite Hb.
  destruct (Z.ltb_spec (Z.of_nat MAX_FRAME_LEN) (blen body)); [unfold blen in *; lia|].
  destruct (Z.ltb_spec (blen (body ++ rest)) (blen body)); [unfold blen in *; rewrite length_app in *; lia|].
  cbn [mbind result_bind]. unfold blen. by rewrite Nat2Z.id, take_app_length, drop_app_length.
Qed.

(** The header phase: either it stops with the frame's bytes unchanged, or the
    header is complete. *)
Lemma header_phase this s len pos e :
  framed_wf this ->
  fill_loop (length (read_len this) - read_len_pos this) (stream this) (read_len this) (read_len_pos this)
    = (s, len, pos, e) ->
  let this1 := set_header this s len pos in
  framed_wf this1 /\ same_plain this1 this /\ wire this1 = wire this /\ e <> FillStuck /\
  (e = FillDone -> pos = 2%nat) /\ (e = FillEof -> pos = 0%nat -> wire this = []).
Proof.
  intros Hwf H this1. destruct Hwf as [Hsc Hh Hhp Hb Hp].
  destruct (fill_loop_spec _ (stream this) (read_len this) (read_len_pos this) s len pos e Hsc ltac:(lia) ltac:(done) H)
    as (Hsc' & Hw & Hst & Hl & Hpos & Ht & Hstuck & Hdone & Heof).
  assert (Hbody : encrypted_read this <> [] -> pos = 2%nat /\ len = read_len this /\ s = stream this).
  { intros Hne. destruct Hb as [?|(Hp2 & _)]; [done|]. rewrite Hp2, Hh in H. cbn [fill_loop Nat.sub] in H.
    rewrite Hh in H. cbn [Nat.ltb Nat.leb] in H. by injection H as <- <- <- _. }
  assert (Hwire : wire this1 = wire this).
  { unfold wire, buffered, this1. cbn [encrypted_read read_len read_len_pos stream set_header encrypted_read_pos].
    case_bool_decide as Hem; [done|]. by destruct (Hbody Hem) as (_ & -> & ->). }
  split_and!; try done.
  - split; cbn [stream read_len read_len_pos encrypted_read encrypted_read_pos plaintext plaintext_pos set_header this1];
      [done|lia|lia| |done].
    destruct Hb as [?|(Hp2 & Hfb & Hm & Hep)]; [by left|].
    destruct (decide (encrypted_read this = [])) as [|Hne]; [by left|]. right.
    destruct (Hbody Hne) as (-> & -> & _). done.
  - intros He. rewrite (Hdone He). done.
  - intros He Hp0. rewrite <- Hwire. unfold wire, this1. cbn [stream set_header]. rewrite (Heof He), app_nil_r.
    unfold buffered. cbn [encrypted_read read_len read_len_pos set_header].
    case_bool_decide as Hem; [by rewrite Hp0|]. destruct (Hbody Hem) as (Hp2 & _). lia.
Qed.

(** The body phase, from a complete header. *)
Lemma body_phase this s body pos e :
  framed_wf this -> read_len_pos this = 2%nat ->
  from_be (read_len this) = blen (encrypted_read this) -> (length (encrypted_read this) <= MAX_FRAME_LEN)%nat ->
  (encrypted_read_pos this <= length (encrypted_read this))%nat ->
  fill_loop (length (encrypted_read this) - encrypted_read_pos this) (stream this) (encrypted_read this)
    (encrypted_read_pos this) = (s, body, pos, e) ->
  let this1 := set_body this s body pos in
  framed_wf this1 /\ same_plain this1 this /\ e <> FillStuck /\
  read_len this ++ take pos body ++ script_bytes (rd_script s)
  = read_len this ++ take (encrypted_read_pos this) (encrypted_read this) ++ script_bytes (rd_script (stream this)) /\
  length body = length (encrypted_read this) /\ (e = FillDone -> pos = length body).
Proof.
  intros [Hsc Hh Hhp Hb Hp] H2 Hfb Hm Hep H this1.
  destruct (fill_loop_spec _ _ _ _ s body pos e Hsc Hep ltac:(done) H)
    as (Hsc' & Hw & Hst & Hl & Hpos & Ht & Hstuck & Hdone & Heof).
  split_and!; try done.
  - split; cbn [stream read_len read_len_pos encrypted_read encrypted_read_pos plaintext plaintext_pos set_body this1];
      [done|done|done| |done].
    right. unfold blen in *. rewrite Hl. split_and!; try done; lia.
  - by rewrite Ht.
  - intros He. rewrite Hl. by apply Hdone.
Qed.

Lemma same_plain_trans a b c : same_plain a b -> same_plain b c -> same_plain a c.
Proof. unfold same_plain. intuition congruence. Qed.

Lemma outer_frame_spec this this' r :
  framed_wf this -> poll_read_outer_frame this = (this', r) ->
  framed_wf this' /\ same_plain this' this /\
  match r with
  | Pending => wire this' = wire this
  | Ready (Err _) => True
  | Ready (Ok None) => wire this = [] /\ wire this' = []
  | Ready (Ok (Some f)) => read_frame (wire this) = Ok (f, wire this')
  end.
Proof.
  intros Hwf. unfold poll_read_outer_frame.
  destruct (fill_loop _ (stream this) (read_len this) _) as [[[s len] pos] e] eqn:Ef.
  destruct (header_phase this s len pos e Hwf Ef) as (Hwf1 & Hsp1 & Hw1 & Hns & Hd1 & He1).
  set (this1 := set_header this s len pos) in *.
  destruct e; [|intros [= <- <-]; done|intros [= <- <-]; done| |done].
  2: { change (read_len_pos this1) with pos. destruct (Nat.eqb_spec pos 0) as [E0|]; intros [= <- <-]; [|done].
       rewrite Hw1. split_and!; try done; by apply He1. }
  specialize (Hd1 eq_refl). assert (Hp2 : read_len_pos this1 = 2%nat) by done.
  assert (Hfb : 0 <= from_be (read_len this1)) by apply from_be_range.
  destruct (bool_decide (encrypted_read this1 = []) && _) eqn:Hbig; [intros [= <- <-]; done|].
  set (this2 := if bool_decide (encrypted_read this1 = []) then _ else this1).
  assert (H2 : framed_wf this2 /\ same_plain this2 this1 /\ read_len_pos this2 = 2%nat /\
    from_be (read_len this2) = blen (encrypted_read this2) /\ (length (encrypted_read this2) <= MAX_FRAME_LEN)%nat /\
    (encrypted_read_pos this2 <= length (encrypted_read this2))%nat /\
    wire this1 = read_len this2 ++ take (encrypted_read_pos this2) (encrypted_read this2)
                 ++ script_bytes (rd_script (stream this2))).
  { unfold this2. pose proof Hwf1 as [Hsc Hh Hhp Hb Hpl]. unfold wire, buffered. case_bool_decide as Hem.
    - rewrite andb_true_l in Hbig. bool_props.
      assert (length (repeat x00 (Z.to_nat (from_be (read_len this1)))) <= MAX_FRAME_LEN)%nat
        by (rewrite repeat_length; lia).
      assert (from_be (read_len this1) = blen (repeat x00 (Z.to_nat (from_be (read_len this1)))))
        by (unfold blen; rewrite repeat_length; lia).
      cbn [set_body encrypted_read encrypted_read_pos read_len read_len_pos stream].
      split_and!; try done; try lia.
      + split; cbn [set_body encrypted_read encrypted_read_pos read_len read_len_pos stream plaintext plaintext_pos]; try done.
        right. split_and!; try done. lia.
      + rewrite Hp2, take_ge by lia. by rewrite take_0.
    - destruct Hb as [|(? & ? & ? & ?)]; [done|]. split_and!; try done. by rewrite app_assoc. }
  destruct H2 as (Hwf2 & Hsp2 & Hq2 & Hfb2 & Hm2 & Hep2 & Hw2). clearbody this2.
  destruct (fill_loop _ (stream this2) (encrypted_read this2) _) as [[[s3 body] pos3] e3] eqn:Eb.
  destruct (body_phase this2 s3 body pos3 e3 Hwf2 Hq2 Hfb2 Hm2 Hep2 Eb) as (Hwf3 & Hsp3 & Hns3 & Hw3 & Hl3 & Hd3).
  set (this3 := set_body this2 s3 body pos3) in *.
  assert (Hsp : same_plain this3 this) by (eauto using same_plain_trans).
  assert (Hwire3 : wire this3 = wire this).
  { rewrite <- Hw1, Hw2, <- Hw3. unfold wire, buffered. cbn [encrypted_read read_len stream encrypted_read_pos read_len_pos this3 set_body].
    destruct (bool_decide (body = [])) eqn:Hem; [apply bool_decide_eq_true in Hem|by rewrite app_assoc].
    rewrite Hq2, (take_ge (read_len this2)) by (rewrite (fw_header _ Hwf2); done).
    by rewrite Hem, take_nil. }
  destruct e3; [|intros [= <- <-]; by split_and!|intros [= <- <-]; by split_and!|intros [= <- <-]; by split_and!|done].
  intros [= <- <-]. specialize (Hd3 eq_refl). split_and!.
  - split; cbn; [apply Hwf3|done|lia|by left|apply Hwf3].
  - unfold same_plain in *. cbn. tauto.
  - assert (Hw4 : wire this = read_len this2 ++ body ++ script_bytes (rd_script s3)).
    { rewrite <- Hw1, Hw2, <- Hw3. by rewrite Hd3, take_ge by lia. }
    rewrite Hw4. rewrite read_frame_exact; [done|apply Hwf2|unfold blen in *; lia|lia].
Qed.

Lemma read_encrypted_of_frame t b f rest :
  read_frame b = Ok (f, rest) ->
  read_encrypted_frame t b
  = match read_message t f MAX_FRAME_LEN with Some (t', p) => Ok (t', p, rest) | None => Err FrameDecrypt end.
Proof.
  intros H. unfold read_encrypted_frame. rewrite H. cbn [mbind result_bind].
  by destruct (read_message t f MAX_FRAME_LEN) as [[]|].
Qed.

Lemma read_loop_spec fuel this cap :
  framed_wf this -> (length (wire this) < fuel)%nat ->
  exists this' r, read_loop fuel this cap = Some (this', r) /\ framed_wf this' /\
  wr_script (stream this') = wr_script (stream this) /\ sent (stream this') = sent (stream this) /\
  match r with
  | Pending => undelivered this' = undelivered this
  | Ready (Ok data) => undelivered this = data ++ undelivered this' /\ (length data <= cap)%nat /\
      (data = [] -> (0 < cap)%nat -> undelivered this = [])
  | Ready (Err _) => True
  end.
Proof.
  revert this. induction fuel as [|fuel IH]; intros this Hwf Hfuel; [lia|]. cbn [read_loop].
  destruct (Nat.ltb_spec (plaintext_pos this) (length (plaintext this))) as [Hlt|Hge].
  - eexists _, _. split; [done|].
    set (av := drop (plaintext_pos this) (plaintext this)). set (len := Nat.min (length av) cap).
    assert (Hav : length av = (length (plaintext this) - plaintext_pos this)%nat) by (unfold av; by rewrite length_drop).
    destruct Hwf as [Hsc Hh Hhp Hb Hp].
    assert (Hund : undelivered this = take len av ++ drop (plaintext_pos this + len) (plaintext this)
      ++ decode (transport this) (wire this)).
    { unfold undelivered. fold av. rewrite app_assoc, <- drop_drop. fold av. by rewrite take_drop. }
    destruct (Nat.eqb_spec (plaintext_pos this + len) (length (plaintext this))) as [Heq|Hne].
    + split_and!; [split; cbn; auto|done|done| | |].
      * rewrite Hund, drop_ge by lia. done.
      * rewrite length_take. lia.
      * intros Hnil Hcap. apply (f_equal length) in Hnil. rewrite length_take in Hnil. simpl in Hnil. lia.
    + split_and!; [split; cbn; auto; left; lia|done|done|done| |].
      * rewrite length_take. lia.
      * intros Hnil Hcap. apply (f_equal length) in Hnil. rewrite length_take in Hnil. simpl in Hnil. lia.
  - destruct (fw_plain _ Hwf) as [|[Hp Hpp]]; [lia|].
    assert (Hund : undelivered this = decode (transport this) (wire this)) by (unfold undelivered; by rewrite Hp, drop_nil).
    destruct (poll_read_outer_frame this) as [this1 r1] eqn:E.
    destruct (outer_frame_spec this this1 r1 Hwf E) as (Hwf1 & (Ht & Hpl & Hps & _ & _ & Hws & Hst) & Hr).
    assert (Hund1 : undelivered this1 = decode (transport this) (wire this1))
      by (unfold undelivered; by rewrite Hpl, Hp, drop_nil, Ht).
    destruct r1 as [|[[f|]|e]].
    + eexists _, _. split; [done|]. split_and!; try done. by rewrite Hund, Hund1, Hr.
    + pose proof (read_frame_inv _ _ _ Hr) as Hshort.
      rewrite Hund, decode_eq, (read_encrypted_of_frame _ _ _ _ Hr), <- Ht.
      destruct (read_message (transport this1) f MAX_FRAME_LEN) as [[t p]|]; [|by eexists _, _].
      set (this2 := set_plain this1 t p (plaintext_pos this1)).
      assert (Hwf2 : framed_wf this2).
      { destruct Hwf1 as [? ? ? ? _]. split; cbn; try done. rewrite Hps, Hpp. destruct p; [by right|left; simpl; lia]. }
      destruct (IH this2 Hwf2) as (this' & r & Hl & Hwf' & Hws' & Hst' & Hr').
      { change (wire this2) with (wire this1). lia. }
      exists this', r. split; [done|]. rewrite Hws', Hst'. cbn [stream this2 set_plain]. split_and!; try done.
      assert (Hu2 : undelivered this2 = p ++ decode t (wire this1)).
      { unfold undelivered, this2. cbn [plaintext plaintext_pos transport set_plain]. by rewrite Hps, Hpp, drop_0. }
      by rewrite Hu2 in Hr'.
    + eexists _, _. split; [done|]. destruct Hr as [Hw Hw']. rewrite Hund, Hund1, Hw, Hw'.
      split_and!; try done. simpl. lia.
    + by eexists _, _.
Qed.

(** Flushing does not touch the read side. *)
Lemma flush_loop_spec fuel s buf pos s' pos' e :
  (pos <= length buf)%nat -> (length buf - pos <= fuel)%nat -> flush_loop fuel s buf pos = (s', pos', e) ->
  rd_script s' = rd_script s /\ (pos <= pos' <= length buf)%nat /\
  sent s' ++ drop pos' buf = sent s ++ drop pos buf /\ e <> FillStuck /\ e <> FillEof /\
  (e = FillDone -> pos' = length buf).
Proof.
  revert s pos. induction fuel as [|fuel IH]; intros s pos Hpos Hfuel; cbn [flush_loop];
    (destruct (Nat.ltb_spec pos (length buf)) as [Hlt|Hge]; [|intros [= <- <- <-]; split_and!; done || lia]); [lia|].
  unfold tcp_poll_write. destruct (wr_script s) as [|[| |n] l].
  - intros [= <- <- <-]. split_and!; done || lia.
  - intros [= <- <- <-]. cbn [rd_script sent]. rewrite app_nil_r. split_and!; done || lia.
  - intros [= <- <- <-]. cbn [rd_script sent]. rewrite app_nil_r. split_and!; done || lia.
  - rewrite length_drop. destruct (Nat.min n (length buf - pos)) as [|k] eqn:Hk.
    + intros [= <- <- <-]. cbn [rd_script sent].
      assert (take n (drop pos buf) = []) as ->.
      { apply length_zero_iff_nil. rewrite length_take, length_drop. lia. }
      rewrite app_nil_r. split_and!; done || lia.
    + intros H. apply IH in H as (Hr & Hp & Hs & ? & ? & ?); [|lia|lia]. cbn [rd_script sent] in *.
      split_and!; try done; try lia. rewrite Hs, <- app_assoc. f_equal.
      rewrite <- Hk. rewrite <- (take_drop n (drop pos buf)) at 2. f_equal.
      rewrite drop_drop. destruct (Nat.le_ge_cases n (length buf - pos)).
      * by rewrite Nat.min_l.
      * rewrite Nat.min_r by done. rewrite !drop_ge by lia. done.
Qed.

(** What is, or will be, on the wire in the sending direction. *)
Definition outgoing (this : NoiseFramedStream) : bytes :=
  sent (stream this) ++ drop (pending_write_pos this) (pending_write this).

Definition pending_wf (this : NoiseFramedStream) : Prop :=
  (pending_write_pos this <= length (pending_write this))%nat.

Lemma poll_flush_pending_spec this this' r :
  pending_wf this -> poll_flush_pending this = (this', r) ->
  pending_wf this' /\ outgoing this' = outgoing this /\ transport this' = transport this /\
  undelivered this' = undelivered this /\ (framed_wf this -> framed_wf this') /\
  (r = Ready (Ok tt) -> pending_write this' = [] /\ sent (stream this') = outgoing this).
Proof.
  intros Hp. unfold poll_flush_pending.
  destruct (flush_loop _ _ _ _) as [[s pos] e] eqn:E.
  destruct (flush_loop_spec _ (stream this) (pending_write this) (pending_write_pos this) s pos e Hp ltac:(done) E)
    as (Hr & Hpos & Hs & Hns & Hne & Hd).
  assert (Hrd : forall p q, undelivered (set_pending this s (transport this) p q) = undelivered this).
  { intros. unfold undelivered, wire, buffered. cbn. by rewrite Hr. }
  assert (Hfw : forall p q, framed_wf this -> framed_wf (set_pending this s (transport this) p q)).
  { intros p q [? ? ? ? ?]. split; cbn; try done. unfold script_wf in *. by rewrite Hr. }
  assert (Hdone : e = FillDone -> sent s = outgoing this).
  { intros He. unfold outgoing. rewrite <- Hs, (Hd He), drop_all. by rewrite app_nil_r. }
  destruct e; intros [= <- <-]; try done; split_and!; try done; try apply Hrd; try apply Hfw;
    unfold pending_wf, outgoing; cbn; try lia; try done.
  - rewrite app_nil_r. by apply Hdone.
  - intros _. split; [done|]. by apply Hdone.
Qed.

(** C34: reads deliver the decrypted stream.  However the socket cuts up the data
    and interleaves readiness, a poll of the framed stream always returns, and
    what it returns is the next part of what the blocking reader would decrypt
    from the same bytes: a delivery is a prefix of it and leaves exactly the
    rest, a pending poll loses nothing, and an empty delivery into a non-empty
    buffer means that nothing is left. *)
Theorem poll_read_delivers this cap :
  framed_wf this -> pending_wf this ->
  exists this' r, poll_read this cap = Some (this', r) /\ framed_wf this' /\
  match r with
  | Pending => undelivered this' = undelivered this
  | Ready (Ok data) => undelivered this = data ++ undelivered this' /\ (length data <= cap)%nat /\
      (data = [] -> (0 < cap)%nat -> undelivered this = [])
  | Ready (Err _) => True
  end.
Proof.
  intros Hwf Hp. unfold poll_read. destruct (poll_flush_pending this) as [this1 r1] eqn:E.
  destruct (poll_flush_pending_spec this this1 r1 Hp E) as (_ & _ & _ & Hu & Hw & _). specialize (Hw Hwf).
  destruct r1 as [|[[]|e]]; [by eexists _, _| |by eexists _, _].
  destruct (read_loop_spec (S (2 + length (encrypted_read this1) + length (script_bytes (rd_script (stream this1)))))
    this1 cap Hw) as (this' & r & Hl & Hwf' & _ & _ & Hr).
  { unfold wire, buffered. rewrite length_app. pose proof (fw_header _ Hw).
    case_bool_decide; rewrite ?length_app, length_take; lia. }
  exists this', r. rewrite <- Hu. done.
Qed.

End stream_facts.

(** * Writes *)

Section write_facts.
Context `{N : Noise} {L : NoiseLaws N}.

Lemma send_all_app t l k :
  send_all t (l ++ k)
  = ('(t1, w1) ← send_all t l; '(t2, w2) ← send_all t1 k; Ok (t2, w1 ++ w2)).
Proof.
  revert t. induction l as [|m l IH]; intros t; cbn [app send_all mbind result_bind].
  - by destruct (send_all t k) as [[]|].
  - destruct (write_encrypted_frame t m) as [[t1 w]|]; cbn [mbind result_bind]; [|done].
    rewrite IH. destruct (send_all t1 l) as [[t2 w2]|]; cbn [mbind result_bind]; [|done].
    destruct (send_all t2 k) as [[t3 w3]|]; cbn [mbind result_bind]; [|done]. by rewrite app_assoc.
Qed.

Lemma poll_write_spec this buf this' r :
  pending_wf this -> poll_write this buf = (this', r) ->
  pending_wf this' /\
  match r with
  | Pending => outgoing this' = outgoing this /\ transport this' = transport this
  | Ready (Ok n) =>
      (buf = [] /\ n = O /\ outgoing this' = outgoing this /\ transport this' = transport this) \/
      (n = Nat.min (length buf) max_plaintext_len /\ (0 < n)%nat /\
       exists frame, write_encrypted_frame (transport this) (take n buf) = Ok (transport this', frame) /\
         outgoing this' = outgoing this ++ frame)
  | Ready (Err _) => True
  end.
Proof.
  intros Hp. unfold poll_write. destruct (poll_flush_pending this) as [this1 r1] eqn:E.
  destruct (poll_flush_pending_spec this this1 r1 Hp E) as (Hp1 & Ho1 & Ht1 & _ & _ & Hd1).
  destruct r1 as [|[[]|e]]; [by intros [= <- <-]| |by intros [= <- <-]].
  destruct (Hd1 eq_refl) as [Hpe Hsent]. case_bool_decide as Hnil.
  { intros [= <- <-]. split; [done|]. left. done. }
  set (n := Nat.min (length buf) max_plaintext_len).
  destruct (write_message (transport this1) (take n buf) MAX_FRAME_LEN) as [[t c]|] eqn:Ew; [|by intros [= <- <-]].
  destruct (try_from 16 (blen c)) as [len|] eqn:Ef; [|by intros [= <- <-]].
  set (this2 := set_pending this1 (stream this1) t (be_bytes 2 len ++ c) 0).
  destruct (poll_flush_pending this2) as [this3 r3] eqn:E3.
  destruct (poll_flush_pending_spec this2 this3 r3) as (Hp3 & Ho3 & Ht3 & _ & _ & _); [unfold pending_wf; cbn; lia|done|].
  assert (Hok : pending_wf this3 /\ (0 < n)%nat /\
    exists frame, write_encrypted_frame (transport this) (take n buf) = Ok (transport this3, frame) /\
      outgoing this3 = outgoing this ++ frame).
  { split_and!; [done|destruct buf; [done|unfold n, max_plaintext_len; simpl; lia]|].
    exists (be_bytes 2 len ++ c). rewrite Ht3, Ho3. split.
    - unfold write_encrypted_frame. rewrite <- Ht1, Ew. cbn [ok_or mbind result_bind].
      unfold write_frame. by rewrite Ef.
    - unfold outgoing at 1. cbn [stream this2 set_pending pending_write pending_write_pos]. by rewrite drop_0, Hsent. }
  destruct r3 as [|[[]|e3]]; intros [= <- <-]; [| |done]; (split; [apply Hok|]); right; (split; [done|]); apply Hok.
Qed.

(** The writes of a caller that retries what is pending, and the pieces accepted. *)
Inductive write_run : NoiseFramedStream -> list bytes -> NoiseFramedStream -> Prop :=
| write_nil this : write_run this [] this
| write_empty this l this1 buf this2 :
    write_run this l this1 -> poll_write this1 buf = (this2, Ready (Ok O)) -> write_run this l this2
| write_accepted this l this1 buf this2 n :
    write_run this l this1 -> poll_write this1 buf = (this2, Ready (Ok (S n))) ->
    write_run this (l ++ [take (S n) buf]) this2
| write_pending this l this1 buf this2 :
    write_run this l this1 -> poll_write this1 buf = (this2, Pending) -> write_run this l this2
| write_flushed this l this1 this2 r :
    write_run this l this1 -> poll_flush_pending this1 = (this2, r) -> write_run this l this2.

Lemma write_run_spec this ms this' :
  write_run this ms this' -> pending_wf this ->
  pending_wf this' /\
  exists w, send_all (transport this) ms = Ok (transport this', w) /\ outgoing this' = outgoing this ++ w.
Proof.
  intros H Hp. induction H as [this|this l this1 buf this2 _ IH E|this l this1 buf this2 n _ IH E|
    this l this1 buf this2 _ IH E|this l this1 this2 r _ IH E].
  - split; [done|]. exists []. by rewrite app_nil_r.
  - destruct (IH Hp) as (Hp1 & w & Hs & Ho). destruct (poll_write_spec _ _ _ _ Hp1 E) as (Hp2 & [(_ & _ & Ho2 & Ht2)|(_ & Hpos & _)]); [|lia].
    split; [done|]. exists w. by rewrite Ho2, Ht2.
  - destruct (IH Hp) as (Hp1 & w & Hs & Ho).
    destruct (poll_write_spec _ _ _ _ Hp1 E) as (Hp2 & [(_ & Hn & _)|(_ & _ & f & Hw & Ho2)]); [lia|].
    split; [done|]. exists (w ++ f). rewrite send_all_app, Hs. cbn [mbind result_bind send_all]. rewrite Hw.
    cbn [mbind result_bind]. rewrite app_nil_r. by rewrite Ho2, Ho, app_assoc.
  - destruct (IH Hp) as (Hp1 & w & Hs & Ho). destruct (poll_write_spec _ _ _ _ Hp1 E) as (Hp2 & Ho2 & Ht2).
    split; [done|]. exists w. by rewrite Ho2, Ht2.
  - destruct (IH Hp) as (Hp1 & w & Hs & Ho).
    destruct (poll_flush_pending_spec _ _ _ Hp1 E) as (Hp2 & Ho2 & Ht2 & _).
    split; [done|]. exists w. by rewrite Ho2, Ht2.
Qed.

(** C35: writes arrive.  Whatever a caller writes through the framed stream, with
    any partial writes, pending polls and flushes of the socket, the bytes that
    are on the wire or queued for it are whole frames in order, and the peer
    decrypts them to exactly the pieces that were accepted, in order; and when the
    stream has been shut down, all of them are on the wire. *)
Theorem writes_arrive this ms this' b rest :
  pending_wf this -> paired (transport this) b -> write_run this ms this' ->
  exists w, outgoing this' = outgoing this ++ w /\
    (exists b', receive_n (length ms) b (w ++ rest) = Ok (b', ms, rest)) /\
    forall tcp_shutdown this'', poll_shutdown tcp_shutdown this' = (this'', Ready (Ok tt)) ->
      sent (stream this'') = outgoing this ++ w.
Proof.
  intros Hp Hpair H. destruct (write_run_spec _ _ _ H Hp) as (Hp' & w & Hs & Ho).
  exists w. split; [done|]. split; [destruct (receive_sent _ _ _ _ _ rest Hpair Hs) as (b' & Hr & _); eauto|].
  intros tcp this'' Hsd. unfold poll_shutdown in Hsd. destruct (poll_flush_pending this') as [this1 r] eqn:E.
  destruct (poll_flush_pending_spec _ _ _ Hp' E) as (_ & _ & _ & _ & _ & Hflushed).
  destruct r as [|[[]|]]; [done| |done]. injection Hsd as <- _. destruct (Hflushed eq_refl) as [_ Hsent]. by rewrite Hsent, Ho.
Qed.

End write_facts.

(** * Connections *)

(** Whether a client with [count] sessions may open one more: a cap of zero is
    none. *)
Definition under_cap (max : option Z) (count : Z) : Prop :=
  match max with Some m => m <= 0 \/ count < m | None => True end.

Lemma acquire_session_cap counts kid max counts' granted :
  acquire_session counts kid max = (counts', granted) -> granted = true <-> under_cap max (default 0 (counts !! kid)).
Proof.
  unfold acquire_session, under_cap. destruct max as [m|]; [|by intros [= _ <-]].
  destruct (Z.ltb_spec 0 m), (Z.leb_spec m (default 0 (counts !! kid))); cbn; intros [= _ <-]; split; try done; lia.
Qed.

(** C10: only the client that knocked gets a tunnel.  When a connection is served,
    its source has a live entry in the mirror, the Noise handshake was bound to
    the key id of that entry and authenticated the static key enrolled for it,
    the client had fewer sessions than its cap allows and has one more now, and
    every other client has as many as before.  A connection that is refused for
    any reason leaves every client's session count as it was, and it is refused
    for the session limit only when the client has as many sessions as its cap. *)
Theorem handle_connection_gate peer timespec handshake sources sessions sources' sessions' r :
  (forall k, 0 <= default 0 (sessions !! k) < 2 ^ 32 - 1) ->
  handle_connection peer timespec handshake sources sessions = (sources', sessions', r) ->
  let count k := default 0 (sessions !! k) in
  let count' k := default 0 (sessions' !! k) in
  match r with
  | Ok service =>
      exists ip source now message, let kid := ae_key_id (as_entry source) in
        peer = Some ip /\ sources !! ip = Some source /\ sources' = sources /\
        monotonic_now_ns timespec = Ok now /\ now < expiry_ns (as_entry source) /\
        handshake kid = Some (Some (as_noise_public_key source), Ok message) /\
        (forall max, as_max_concurrent_sessions source = Some max -> 0 < max -> count kid < max) /\
        (forall k, count' k = if decide (k = kid) then count k + 1 else count k) /\
        service = select_service kid message
  | Err e => (forall k, count' k = count k) /\
      (e = SessionLimit -> exists ip source max, peer = Some ip /\ sources !! ip = Some source /\
         as_max_concurrent_sessions source = Some max /\ 0 < max <= count (ae_key_id (as_entry source)))
  end.
Proof.
  intros Hc. unfold handle_connection. destruct peer as [ip|]; [|by intros [= <- <- <-]].
  unfold admit_source. destruct (sources !! ip) as [source|] eqn:Hs; [|by intros [= <- <- <-]].
  destruct (monotonic_now_ns timespec) as [now|] eqn:Hn; [|by intros [= <- <- <-]].
  destruct (Z.leb_spec (expiry_ns (as_entry source)) now); [by intros [= <- <- <-]|].
  destruct (handshake _) as [[rs msg]|] eqn:Hh; [|by intros [= <- <- <-]].
  destruct (verify_client_noise_static rs (as_noise_public_key source)) as [[]|e] eqn:Hv.
  2: { intros [= <- <- <-]. split; [done|]. intros ->. unfold verify_client_noise_static in Hv.
       destruct rs; cbn in Hv; [by destruct (_ && _) in Hv|done]. }
  assert (rs = Some (as_noise_public_key source)) as ->.
  { unfold verify_client_noise_static in Hv. destruct rs as [k|]; [|discriminate]. cbn in Hv.
    destruct (_ && _) eqn:E in Hv; [|discriminate]. bool_props. by subst. }
  specialize (Hc (ae_key_id (as_entry source))). destruct (acquire_session _ _ _) as [sessions1 granted] eqn:Ha.
  pose proof (acquire_session_cap _ _ _ _ _ Ha) as Hcap. pose proof (fun k => acquire_session_count _ _ _ _ _ k Ha) as Hcount.
  unfold wrap in Hcount. rewrite Z.mod_small in Hcount by lia. destruct granted; cbn [negb].
  2: { intros [= <- <- <-]. split; [intros k; rewrite Hcount; by destruct (decide _) as [->|]|]. intros _.
       destruct (as_max_concurrent_sessions source) as [max|] eqn:Hmax; [|by discriminate (proj2 Hcap I)].
       exists ip, source, max. do 3 (split; [done|]). unfold under_cap in Hcap.
       destruct (decide (max <= 0 \/ default 0 (sessions !! ae_key_id (as_entry source)) < max)) as [Hu|Hu]; [by apply Hcap in Hu|lia]. }
  destruct msg as [message|e]; intros [= <- <- <-].
  - exists ip, source, now, message. split_and!; try done.
    + intros max Hmax Hpos. unfold under_cap in Hcap. rewrite Hmax in Hcap. by destruct (proj1 Hcap eq_refl); [lia|].
    + intros k. rewrite Hcount. by destruct (decide _) as [->|].
  - split; [|done]. intros k. rewrite drop_session_count by (rewrite Hcount; destruct (decide _); [lia|done]).
    rewrite !Hcount. destruct (decide (k = _)) as [->|]; [|done]. destruct (decide _); [lia|done].
Qed.

(** * The identity file *)

Section identity_facts.
Context `{C : Crypto} {L : CryptoLaws C}.

(** The file a generated key is written to loads as that key. *)
Lemma generated_key_loads path private public s opt_in generated write_ok :
  length private = 32%nat -> public_key_path path <> path ->
  load_or_generate_static_key path
    (Some (fs_run (load_or_generate_static_key path (Some None) true (private, public) (true, true)).1 s !! path))
    opt_in generated write_ok = ([], Ok private).
Proof.
  intros Hl Hne. cbn [load_or_generate_static_key negb fst snd app].
  assert (Hf : fs_run [OpCreate path; OpWrite path (b64_encode private +:+ bytes_str [x0a]);
      OpCreate (public_key_path path);
      OpWrite (public_key_path path) (b64_encode public +:+ bytes_str [x0a])] s !! path
    = Some (b64_encode private +:+ bytes_str [x0a])).
  { unfold fs_run. cbn [foldl fs_apply]. rewrite !(lookup_insert_ne _ (public_key_path path)) by done.
    rewrite lookup_insert_eq. by rewrite lookup_insert_eq. }
  rewrite Hf. cbn [load_or_generate_static_key].
  assert (Ht : bytes_str (trim (str_bytes (b64_encode private +:+ bytes_str [x0a]))) = b64_encode private).
  { rewrite str_bytes_app, str_bytes_str, trim_line by apply b64_graphic. apply bytes_str_bytes. }
  rewrite Ht, b64_decode_encode. cbn [ok_or mbind result_bind]. by rewrite Hl.
Qed.

(** The server's identity is stable.  A key generated under the explicit
    opt-in is the one every later start loads from the file it wrote, opted in or
    not; without the opt-in a missing file is an error and nothing is written. *)
Theorem identity_stable path private public s opt_in generated write_ok :
  length private = 32%nat -> public_key_path path <> path ->
  let '(ops, r) := load_or_generate_static_key path (Some None) true (private, public) (true, true) in
  r = Ok private /\
  load_or_generate_static_key path (Some (fs_run ops s !! path)) opt_in generated write_ok = ([], Ok private) /\
  load_or_generate_static_key path (Some None) false generated write_ok = ([], Err IdMissing).
Proof.
  intros Hl Hne. cbn [load_or_generate_static_key negb fst snd app]. split_and!; [done| |done].
  by apply generated_key_loads.
Qed.

End identity_facts.
