(* ===== verification/Decoy.v ===== *)
(** The decoy web server: [ghostbro-server/src/decoy.rs].

    A site that looks like a fresh nginx and takes knocks over HTTPS.  The HTTP
    server ([axum]), the parsing of networks ([ipnet]) and the operating system
    are parameters; a request is what the extractors hand to a handler. *)

From S2P Require Import Prelude Text NetAddr Protocol Crypto Keys Fs Runtime.

(** * Parameters *)

Inductive Method := GET | POST | OtherMethod.

#[global] Instance Method_eq_dec : EqDecision Method.
Proof. solve_decision. Defined.

Inductive Handler := HDecoyContent | HTelemetry | HMethodNotAllowed.

(** [axum]'s dispatch over a table of routes with a fallback, [http]'s check of
    a status code, and [ipnet]. *)
Class HttpLib := {
  axum_dispatch : list (string * Method * Handler) -> Handler -> Method -> string -> Handler;
  status_from_u16 : Z -> option Z;
  IpNet : Type;
  ipnet_parse : string -> option IpNet;
  ipnet_contains : IpNet -> IpAddr -> bool
}.

(** A route without parameters. *)
Definition literal_path (p : string) : Prop :=
  Forall (fun c => c <> x7b /\ c <> x7d /\ c <> x3a /\ c <> x2a) (str_bytes p).

(** Documented behaviour, for routes without parameters: a path that no route
    names goes to the fallback, a path and method that a route names go to that
    route. *)
Class HttpLaws (H : HttpLib) : Prop := {
  dispatch_fallback : forall routes fb m p,
    (forall r, r ∈ routes -> literal_path r.1.1 /\ r.1.1 <> p) -> axum_dispatch routes fb m p = fb;
  dispatch_route : forall routes fb m p h,
    (forall r, r ∈ routes -> literal_path r.1.1) ->
    (p, m, h) ∈ routes -> (forall h', (p, m, h') ∈ routes -> h' = h) -> axum_dispatch routes fb m p = h;
  status_range : forall z s, status_from_u16 z = Some s <-> s = z /\ 100 <= z <= 999
}.

(** * State *)

(** The sending end of the bounded channel to the event loop. *)
Record spa_channel := { ch_queue : list HttpsSpaCandidate; ch_closed : bool }.

(** [mpsc::channel(1024)] *)
Definition SPA_CHANNEL_CAPACITY : nat := 1024.

Definition try_send (ch : spa_channel) (c : HttpsSpaCandidate) : spa_channel * bool :=
  if ch_closed ch || (SPA_CHANNEL_CAPACITY <=? length (ch_queue ch))%nat then (ch, false)
  else ({| ch_queue := ch_queue ch ++ [c]; ch_closed := ch_closed ch |}, true).

(** Paths that are absolute and resolved, by their components. *)
Abbreviation PathBuf := (list bytes).

(** The answers of the file system. *)
Record web_fs := {
  fs_canonicalize : PathBuf -> option PathBuf;
  fs_read : PathBuf -> option bytes
}.

Record Response := {
  rsp_status : Z;
  rsp_headers : list (string * string);
  rsp_body : bytes
}.

(** The page of a fresh nginx. *)
Definition NGINX_INDEX : bytes :=
  str_bytes "<!DOCTYPE html>
<html>
<head>
<title>Welcome to nginx!</title>
<style>
html { color-scheme: light; }
body { width: 35em; margin: 0 auto; font-family: Tahoma, Verdana, Arial, sans-serif; }
</style>
</head>
<body>
<h1>Welcome to nginx!</h1>
<p>If you see this page, the nginx web server is successfully installed and working. Further configuration is required.</p>
<p>For online documentation and support please refer to <a href=" ++ [x22] ++ str_bytes "http://nginx.org/" ++ [x22] ++ str_bytes ">nginx.org</a>.</p>
<p><em>Thank you for using nginx.</em></p>
</body>
</html>
".

Section decoy.
Context `{HL : HttpLib}.

Record DecoyState := {
  dc_spa_tx : bool;
  dc_response_status : Z;
  dc_trusted_proxy_cidrs : list IpNet;
  dc_webroot : option PathBuf
}.

Inductive DecoyError := BadStatus | BadCidr (cidr : string) | BadWebroot.

Definition parse_trusted_proxy_cidrs (cidrs : list string) : result DecoyError (list IpNet) :=
  result_map (fun cidr => ok_or (BadCidr cidr) (ipnet_parse cidr)) cidrs.

(** [router]: the routes, the fallback and the state, or why the configuration is
    refused.  [canonical_root] is the canonicalized web root. *)
Definition router (spa_tx : bool) (spa_path : string) (response_status : Z) (cidrs : list string)
    (webroot : option (option PathBuf))
    : result DecoyError (list (string * Method * Handler) * Handler * DecoyState) :=
  status ← ok_or BadStatus (status_from_u16 response_status);
  nets ← parse_trusted_proxy_cidrs cidrs;
  root ← (match webroot with
          | Some canonical_root => root ← ok_or BadWebroot canonical_root; Ok (Some root)
          | None => Ok None
          end : result DecoyError (option PathBuf));
  Ok ([("/"%string, GET, HDecoyContent); (spa_path, POST, HTelemetry)], HDecoyContent,
      {| dc_spa_tx := spa_tx; dc_response_status := status; dc_trusted_proxy_cidrs := nets; dc_webroot := root |}).

(** * Where a knock comes from *)

Definition forwarded_for_first_ipv4 (forwarded_for : option bytes) : option Z :=
  value ← forwarded_for;
  parse_ipv4 (trim (split_first (fun c => bool_decide (c = x2c)) value)).

(** The header is [None] when absent or not text. *)
Definition https_spa_source_ip (peer : IpAddr) (forwarded_for : option bytes) (cidrs : list IpNet) : option Z :=
  let by_peer := match peer with V4 ip => Some ip | V6 _ => None end in
  if existsb (fun cidr => ipnet_contains cidr peer) cidrs
  then match forwarded_for_first_ipv4 forwarded_for with Some ip => Some ip | None => by_peer end
  else by_peer.

(** * Static content *)

Inductive Component := Normal (part : bytes) | CurDir | ParentDir.

(** [Path::components] of a relative path: empty parts and inner dots vanish. *)
Fixpoint split_slash (acc b : bytes) : list bytes :=
  match b with
  | [] => [reverse acc]
  | x :: b' => if bool_decide (x = slash) then reverse acc :: split_slash [] b' else split_slash (x :: acc) b'
  end.

Definition component (first : bool) (part : bytes) : option Component :=
  if bool_decide (part = []) then None
  else if bool_decide (part = [dot]) then if first then Some CurDir else None
  else if bool_decide (part = [dot; dot]) then Some ParentDir
  else Some (Normal part).

Definition components (path : bytes) : list Component :=
  match split_slash [] path with
  | first :: rest => option_list (component true first) ++ omap (component false) rest
  | [] => []
  end.

(** [trim_start_matches('/')] *)
Fixpoint trim_slashes (b : bytes) : bytes :=
  match b with
  | x :: b' => if bool_decide (x = slash) then trim_slashes b' else b
  | [] => []
  end.

(** The loop over the components. *)
Fixpoint push_components (path : PathBuf) (cs : list Component) : option PathBuf :=
  match cs with
  | [] => Some path
  | Normal part :: cs' => push_components (path ++ [part]) cs'
  | _ :: _ => None
  end.

Definition static_path (webroot : PathBuf) (uri_path : bytes) : option PathBuf :=
  let requested := trim_slashes uri_path in
  if bool_decide (requested = []) then Some (webroot ++ [str_bytes "index.html"])
  else push_components webroot (components requested).

Definition content_type_of (path : PathBuf) : string :=
  match last path ≫= (fun name => (stem_ext name).2) with
  | Some ext =>
      if bool_decide (ext = str_bytes "css") then "text/css; charset=utf-8"
      else if bool_decide (ext = str_bytes "html") || bool_decide (ext = str_bytes "htm") then "text/html; charset=utf-8"
      else if bool_decide (ext = str_bytes "js") then "application/javascript; charset=utf-8"
      else if bool_decide (ext = str_bytes "json") then "application/json"
      else if bool_decide (ext = str_bytes "png") then "image/png"
      else if bool_decide (ext = str_bytes "svg") then "image/svg+xml"
      else if bool_decide (ext = str_bytes "txt") then "text/plain; charset=utf-8"
      else "application/octet-stream"
  | None => "application/octet-stream"
  end%string.

Definition ok_response (date content_type : string) (body : bytes) : Response :=
  {| rsp_status := 200;
     rsp_headers := [("server", "nginx/1.26.0"); ("date", date); ("content-type", content_type)]%string;
     rsp_body := body |}.

(** [static_response]: the component-wise [starts_with] on the resolved path. *)
Definition static_response (fs : web_fs) (date : string) (webroot : PathBuf) (uri_path : bytes) : option Response :=
  path ← static_path webroot uri_path;
  resolved ← fs_canonicalize fs path;
  if negb (bool_decide (webroot `prefix_of` resolved)) then None
  else
    body ← fs_read fs resolved;
    Some (ok_response date (content_type_of resolved) body).

Definition index (date : string) : Response := ok_response date "text/html; charset=utf-8" NGINX_INDEX.

Definition decoy_content (fs : web_fs) (date : string) (state : DecoyState) (uri_path : bytes) : Response :=
  match dc_webroot state ≫= (fun webroot => static_response fs date webroot uri_path) with
  | Some response => response
  | None => index date
  end.

(** * Knocks *)

(** [format!("{:x}")] *)
Fixpoint hex_digits (fuel : nat) (z : Z) : bytes :=
  match fuel with
  | O => []
  | S fuel' => if z <? 16 then [hex_nibble z] else hex_digits fuel' (z / 16) ++ [hex_nibble (z mod 16)]
  end.

(** [request_id] of the process id and the clock, zero before the epoch; 128 bits
    have 32 digits. *)
Definition request_id (pid : Z) (nanos : option Z) : string :=
  bytes_str (hex_digits 32 pid ++ str_bytes "-" ++ hex_digits 32 (default 0 nanos)).

(** [telemetry]: the channel afterwards and the response. *)
Definition telemetry (state : DecoyState) (ch : spa_channel) (date : string) (pid : Z) (nanos : option Z)
    (peer : IpAddr) (forwarded_for : option bytes) (body : bytes) : spa_channel * Response :=
  let ch :=
    match (if dc_spa_tx state then https_spa_source_ip peer forwarded_for (dc_trusted_proxy_cidrs state) else None) with
    | Some ip => (try_send ch {| cand_src_ip := ip; cand_payload := body |}).1
    | None => ch
    end in
  (ch, {| rsp_status := dc_response_status state;
          rsp_headers := [("server"%string, "nginx/1.26.0"%string); ("date"%string, date);
                          ("x-request-id"%string, request_id pid nanos)];
          rsp_body := [] |}).

(** * A request *)

Record Request := {
  rq_method : Method;
  rq_path : string;
  rq_peer : IpAddr;
  rq_forwarded_for : option bytes;
  rq_body : bytes
}.

(** What serving needs of its surroundings. *)
Record serve_env := {
  sv_fs : web_fs;
  sv_date : string;
  sv_pid : Z;
  sv_nanos : option Z
}.

(** One request through the router; a refused method is answered by [axum]. *)
Definition serve (refused : Response) (app : list (string * Method * Handler) * Handler * DecoyState) (env : serve_env)
    (ch : spa_channel) (rq : Request) : spa_channel * Response :=
  let '(routes, fallback, state) := app in
  match axum_dispatch routes fallback (rq_method rq) (rq_path rq) with
  | HDecoyContent => (ch, decoy_content (sv_fs env) (sv_date env) state (str_bytes (rq_path rq)))
  | HTelemetry => telemetry state ch (sv_date env) (sv_pid env) (sv_nanos env) (rq_peer rq) (rq_forwarded_for rq) (rq_body rq)
  | HMethodNotAllowed => (ch, refused)
  end.

End decoy.
