(* ===== verification/DecoyFacts.v ===== *)
(** What the decoy serves and whose knocks it takes. *)

From S2P Require Import Prelude Text NetAddr Protocol Crypto Keys Seal SpaPacket Fs AuthKeys Verifier Xdp Runtime Decoy.

(** * Static content *)

(** A name of a directory entry. *)
Definition safe_part (p : bytes) : Prop := p <> [] /\ p <> [dot] /\ p <> [dot; dot] /\ slash ∉ p.

Lemma split_slash_parts acc b : slash ∉ acc -> Forall (fun p => slash ∉ p) (split_slash acc b).
Proof.
  revert acc; induction b as [|x b IH]; intros acc Ha; cbn [split_slash].
  - repeat constructor. by rewrite elem_of_reverse.
  - case_bool_decide; [constructor; [by rewrite elem_of_reverse|apply IH; set_solver]|apply IH; set_solver].
Qed.

Lemma component_normal first part p : component first part = Some (Normal p) -> slash ∉ part -> safe_part p.
Proof.
  unfold component. intros H Hs. repeat case_bool_decide; destruct first; simplify_eq; done.
Qed.

Lemma components_safe path : Forall (fun c => match c with Normal p => safe_part p | _ => True end) (components path).
Proof.
  unfold components. pose proof (split_slash_parts [] path ltac:(set_solver)) as H.
  destruct (split_slash [] path) as [|first rest]; [done|]. apply Forall_cons in H as [Hf Hr].
  apply Forall_app. split.
  - destruct (component true first) as [[p| |]|] eqn:E; repeat constructor. all: by eapply component_normal.
  - apply Forall_forall. intros c (part & Hin & Hc)%list_elem_of_omap. rewrite Forall_forall in Hr.
    destruct c as [p| |]; [|done|done]. eapply component_normal; [done|]. by apply Hr.
Qed.

Lemma push_components_spec path cs p :
  push_components path cs = Some p <-> exists parts, cs = map Normal parts /\ p = path ++ parts.
Proof.
  revert path; induction cs as [|c cs IH]; intros path; cbn [push_components].
  - split; [intros [= ->]; exists []; by rewrite app_nil_r|].
    intros (parts & Hm & ->). destruct parts; [by rewrite app_nil_r|done].
  - destruct c as [part| |]; [rewrite IH|split; [done|intros ([|? ?] & ? & ?); done]..].
    split; intros (parts & Hm & ->).
    + exists (part :: parts). rewrite Hm, <- app_assoc. done.
    + destruct parts as [|x parts]; [done|]. injection Hm as <- ->. exists parts. by rewrite <- app_assoc.
Qed.

(** A static path is the web root followed by names of entries. *)
Lemma static_path_safe root uri p :
  static_path root uri = Some p -> exists parts, p = root ++ parts /\ Forall safe_part parts.
Proof.
  unfold static_path. case_bool_decide as E; intros H.
  - injection H as <-. eexists. split; [done|]. repeat constructor; try done.
    apply (bool_decide_unpack (slash ∉ str_bytes "index.html")). vm_compute. done.
  - apply push_components_spec in H as (parts & Hc & ->). exists parts. split; [done|].
    pose proof (components_safe (trim_slashes uri)) as Hs. rewrite Hc in Hs. by rewrite Forall_map in Hs.
Qed.

(** A parent directory anywhere in the path is refused. *)
Lemma static_path_parent root uri :
  [dot; dot] ∈ split_slash [] (trim_slashes uri) -> static_path root uri = None.
Proof.
  intros Hin. unfold static_path. case_bool_decide as E.
  - rewrite E in Hin. cbn in Hin. apply list_elem_of_singleton in Hin. done.
  - destruct (push_components root _) as [p|] eqn:Ep; [|done]. exfalso.
    apply push_components_spec in Ep as (parts & Hc & _).
    assert (Hp : ParentDir ∈ components (trim_slashes uri)).
    { unfold components. destruct (split_slash [] (trim_slashes uri)) as [|first rest]; [by apply not_elem_of_nil in Hin|].
      apply elem_of_app. apply elem_of_cons in Hin as [<-|Hin]; [left; cbn; by apply list_elem_of_singleton|right].
      apply list_elem_of_omap. by exists [dot; dot]. }
    rewrite Hc in Hp. by apply list_elem_of_fmap in Hp as (x & ? & _).
Qed.

Section decoy_facts.
Context `{HL : HttpLib}.

(** C30: whatever path is requested, the decoy answers with its index page or
    with a file whose resolved location lies under the web root and which the
    request names by directory entries only; a path with a parent component
    gets the index page. *)
Theorem decoy_confined fs date state uri :
  (decoy_content fs date state uri = index date \/
   exists root parts resolved body,
     dc_webroot state = Some root /\ Forall safe_part parts /\
     fs_canonicalize fs (root ++ parts) = Some resolved /\ root `prefix_of` resolved /\
     fs_read fs resolved = Some body /\
     decoy_content fs date state uri = ok_response date (content_type_of resolved) body) /\
  ([dot; dot] ∈ split_slash [] (trim_slashes uri) -> decoy_content fs date state uri = index date).
Proof.
  unfold decoy_content. split.
  - destruct (dc_webroot state) as [root|]; [|by left]. cbn [mbind option_bind].
    destruct (static_response fs date root uri) as [r|] eqn:E; [|by left]. right.
    unfold static_response in E. apply bind_Some in E as (p & Hp & E). apply bind_Some in E as (res & Hr & E).
    case_bool_decide as Hpre; [|done]. cbn [negb] in E. apply bind_Some in E as (body & Hb & [= <-]).
    destruct (static_path_safe _ _ _ Hp) as (parts & -> & Hs). by exists root, parts, res, body.
  - intros Hin. destruct (dc_webroot state) as [root|]; [|done]. cbn [mbind option_bind].
    unfold static_response. by rewrite static_path_parent.
Qed.

(** * Sources *)

Definition trusted (cidrs : list IpNet) (peer : IpAddr) : bool :=
  existsb (fun cidr => ipnet_contains cidr peer) cidrs.

Lemma source_of_untrusted peer xff cidrs :
  trusted cidrs peer = false ->
  https_spa_source_ip peer xff cidrs = match peer with V4 ip => Some ip | V6 _ => None end.
Proof. intros H. unfold https_spa_source_ip. fold (trusted cidrs peer). by rewrite H. Qed.

Lemma try_send_queue ch c c' : c' ∈ ch_queue (try_send ch c).1 -> c' ∈ ch_queue ch \/ c' = c.
Proof. unfold try_send. case_match; [by left|]. cbn [fst ch_queue]. set_solver. Qed.

(** One request adds at most its own candidate to the channel. *)
Lemma serve_queue refused app env ch rq c :
  c ∈ ch_queue (serve refused app env ch rq).1 ->
  c ∈ ch_queue ch \/
  (dc_spa_tx app.2 = true /\ cand_payload c = rq_body rq /\
   https_spa_source_ip (rq_peer rq) (rq_forwarded_for rq) (dc_trusted_proxy_cidrs app.2) = Some (cand_src_ip c)).
Proof.
  destruct app as [[routes fb] state]. unfold serve. destruct (axum_dispatch _ _ _ _); [by left| |by left].
  unfold telemetry. cbn [fst snd]. destruct (dc_spa_tx state) eqn:Et; [|by left].
  destruct (https_spa_source_ip _ _ _) as [ip|] eqn:Es; [|by left].
  intros [?| ->]%try_send_queue; [by left|by right].
Qed.

End decoy_facts.

Section gate.
Context `{HL : HttpLib} `{C : Crypto} {T : CounterToml}.

Lemma bpf_update_keys io k v m m' ip :
  bpf_update io k v m = Some m' -> is_Some (m' !! ip) -> is_Some (m !! ip) \/ ip = k.
Proof.
  unfold bpf_update. case_match; [|done]. intros [= <-] Hs. destruct (decide (ip = k)) as [->|Hne]; [by right|].
  rewrite lookup_insert_ne in Hs by done. left. destruct Hs as [e He].
  apply map_lookup_filter_Some in He as [He _]. by eexists.
Qed.

(** A knock opens no source but its own. *)
Lemma handle_knock_keys ttl io payload src sl sl' r ip :
  handle_knock ttl io payload src sl = (sl', r) -> is_Some (allow_map (sl_runtime sl') !! ip) ->
  is_Some (allow_map (sl_runtime sl) !! ip) \/ ip = src.
Proof.
  unfold handle_knock. intros H Hs. destruct (wall_clock_now_ms (kn_wall io)) as [now|e]; [|simplify_eq; by left].
  destruct (verify _ _ _ _ _) as [[v ops] [acc|e]]; [|simplify_eq; by left].
  unfold allow_source in H. destruct (monotonic_now_ns (kn_mono io)) as [mono|e]; [|simplify_eq; by left].
  destruct (bpf_update _ _ _ _) as [m|] eqn:E; simplify_eq; [|by left]. cbn [sl_runtime allow_map] in Hs.
  by eapply bpf_update_keys.
Qed.

(** A knock that arrives over HTTPS from a peer that is not a configured
    reverse proxy can open the gate for that peer's own address only, whatever
    X-Forwarded-For header it sends. *)
Theorem https_knock_opens_own_source ttl refused app env ch rq c io sl sl' r ip :
  trusted (dc_trusted_proxy_cidrs app.2) (rq_peer rq) = false ->
  c ∈ ch_queue (serve refused app env ch rq).1 -> (c ∉ ch_queue ch) ->
  handle_https_item ttl sl (io, c) = (sl', r) ->
  is_Some (allow_map (sl_runtime sl') !! ip) -> allow_map (sl_runtime sl) !! ip = None ->
  rq_peer rq = V4 ip.
Proof.
  intros Ht Hc Hn Hh Hs Ho. apply serve_queue in Hc as [?|(_ & _ & Hsrc)]; [done|].
  rewrite source_of_untrusted in Hsrc by done. unfold handle_https_item in Hh.
  destruct (handle_knock_keys _ _ _ _ _ _ _ _ Hh Hs) as [[e He]| ->]; [congruence|].
  destruct (rq_peer rq); congruence.
Qed.

End gate.
