(* ===== verification/DecoyServe.v ===== *)
(** How the decoy is served: [serve_decoy] of [ghostbro-server/src/main.rs] and
    the TLS listener of [decoy.rs].

    The TLS library ([rustls], [rustls-pemfile]) is a parameter; the accept loop
    runs over what arrives at the port. *)

From S2P Require Import Prelude Text NetAddr.

(** The parser of PEM files, the library's server configuration, and what
    becomes of a handshake with a peer that sends these bytes: a connection, a
    failure, or nothing as long as the peer stays silent. *)
Inductive tls_outcome (Stream : Type) := TlsDone (s : Stream) | TlsFailed | TlsStalled.
Arguments TlsDone {_} _.
Arguments TlsFailed {_}.
Arguments TlsStalled {_}.

Class TlsLib := {
  TlsConfig : Type;
  TlsStream : Type;
  pem_certs : bytes -> option (list bytes);
  pem_private_key : bytes -> option (option bytes);
  safe_default_protocol_versions : bool;
  with_single_cert : list bytes -> bytes -> option TlsConfig;
  tls_handshake : TlsConfig -> bytes -> tls_outcome TlsStream
}.

Section serve.
Context {TL : TlsLib}.

Inductive TlsError :=
| TlsReadCert | TlsParseCert | TlsNoCert
| TlsReadKey | TlsParseKey | TlsNoKey
| TlsVersions | TlsInvalid
| TlsBind | TlsLocalAddr.

(** [fs::read] is the argument [read]. *)
Definition load_certs (read : string -> option bytes) (path : string) : result TlsError (list bytes) :=
  data ← ok_or TlsReadCert (read path);
  certs ← ok_or TlsParseCert (pem_certs data);
  if bool_decide (certs = []) then Err TlsNoCert else Ok certs.

Definition load_key (read : string -> option bytes) (path : string) : result TlsError bytes :=
  data ← ok_or TlsReadKey (read path);
  key ← ok_or TlsParseKey (pem_private_key data);
  ok_or TlsNoKey key.

Definition build_server_config (read : string -> option bytes) (cert_path key_path : string) : result TlsError TlsConfig :=
  certs ← load_certs read cert_path;
  key ← load_key read key_path;
  if negb safe_default_protocol_versions then Err TlsVersions
  else ok_or TlsInvalid (with_single_cert certs key).

(** [RustlsListener::bind], up to the listener's acceptor. *)
Definition rustls_bind (read : string -> option bytes) (bind_ok local_addr_ok : bool) (cert_path key_path : string)
    : result TlsError TlsConfig :=
  config ← build_server_config read cert_path key_path;
  if negb bind_ok then Err TlsBind else if negb local_addr_ok then Err TlsLocalAddr else Ok config.

(** What [serve_decoy] serves on. *)
Inductive decoy_listener := RustlsListener (config : TlsConfig) | PlainListener.

Definition serve_decoy (read : string -> option bytes) (bind_ok local_addr_ok : bool) (tls : option (string * string))
    : result TlsError decoy_listener :=
  match tls with
  | Some (cert, key) => RustlsListener <$> rustls_bind read bind_ok local_addr_ok cert key
  | None => if bind_ok then Ok PlainListener else Err TlsBind
  end.

(** What arrives at the port: an error of [accept], or a peer and its bytes. *)
Inductive arrival := AcceptError | Arrived (peer : IpAddr) (input : bytes).

(** [RustlsListener::accept] over the arrivals: the connection, and the arrivals
    that are still waiting. *)
Inductive accept_result :=
| Accepted (io : TlsStream) (peer : IpAddr) (waiting : list arrival)
| AcceptIdle
| AcceptBlocked (peer : IpAddr) (waiting : list arrival).

Fixpoint rustls_accept (config : TlsConfig) (arrivals : list arrival) : accept_result :=
  match arrivals with
  | [] => AcceptIdle
  | AcceptError :: rest => rustls_accept config rest
  | Arrived peer input :: rest =>
      match tls_handshake config input with
      | TlsDone tls => Accepted tls peer rest
      | TlsFailed => rustls_accept config rest
      | TlsStalled => AcceptBlocked peer rest
      end
  end.

(** * Facts *)

(** Arrivals that the loop passes over. *)
Definition passed_over (config : TlsConfig) (a : arrival) : Prop :=
  match a with AcceptError => True | Arrived _ input => tls_handshake config input = TlsFailed end.

Lemma rustls_accept_skip config skipped rest :
  Forall (passed_over config) skipped -> rustls_accept config (skipped ++ rest) = rustls_accept config rest.
Proof. induction 1 as [|[|peer input] l Ha _ IH]; [done|done|]. cbn in *. by rewrite Ha. Qed.

(** The accept loop is the first arrival that is not passed over: errors and
    failed handshakes stop nothing, and the address a request is attributed to is
    that of its own connection. *)
Lemma rustls_accept_first config arrivals io peer waiting :
  rustls_accept config arrivals = Accepted io peer waiting <->
  exists skipped input, arrivals = skipped ++ Arrived peer input :: waiting /\
    Forall (passed_over config) skipped /\ tls_handshake config input = TlsDone io.
Proof.
  split.
  - induction arrivals as [|[|p input] l IH]; cbn; [done| |].
    + intros H. destruct (IH H) as (s & i & -> & Hs & Hi). exists (AcceptError :: s), i. by split_and!; [|constructor|].
    + destruct (tls_handshake config input) as [tls| |] eqn:E; [|intros H|done].
      * intros [= -> -> ->]. by exists [], input.
      * destruct (IH H) as (s & i & -> & Hs & Hi). exists (Arrived p input :: s), i. by split_and!; [|constructor|].
  - intros (s & i & -> & Hs & Hi). rewrite rustls_accept_skip by done. cbn. by rewrite Hi.
Qed.

(** One peer that stays silent in its handshake keeps everyone else waiting,
    whoever comes after it. *)
Lemma stalled_handshake_blocks config skipped peer input rest :
  Forall (passed_over config) skipped -> tls_handshake config input = TlsStalled ->
  rustls_accept config (skipped ++ Arrived peer input :: rest) = AcceptBlocked peer rest.
Proof. intros Hs Hi. rewrite rustls_accept_skip by done. cbn. by rewrite Hi. Qed.

(** A TLS listener has its certificates and its key from the files. *)
Lemma serve_decoy_tls read bind_ok local_addr_ok cert key config :
  serve_decoy read bind_ok local_addr_ok (Some (cert, key)) = Ok (RustlsListener config) ->
  bind_ok = true /\ exists certs k, load_certs read cert = Ok certs /\ certs <> [] /\ load_key read key = Ok k /\
    with_single_cert certs k = Some config.
Proof.
  unfold serve_decoy, rustls_bind, build_server_config. destruct (load_certs read cert) as [certs|] eqn:Ec; [|done].
  cbn. destruct (load_key read key) as [k|] eqn:Ek; [|done]. cbn. destruct safe_default_protocol_versions; [|done]. cbn.
  destruct (with_single_cert certs k) as [c|] eqn:Es; [|done]. cbn. destruct bind_ok; [|done]. cbn.
  destruct local_addr_ok; [|done]. cbn. intros [= ->]. split; [done|]. exists certs, k. split_and!; try done.
  intros ->. unfold load_certs in Ec. destruct (read cert); [|done]. cbn in Ec. destruct (pem_certs _) as [[|]|]; [done..|].
  done.
Qed.

End serve.
