(* ===== verification/System.v ===== *)
(** The gate as a system: the kernel filter and the server's event loop working
    on the shared allow map, step by step. *)

From S2P Require Import Prelude Protocol Crypto Keys Seal SpaPacket Fs AuthKeys Verifier.
From S2P Require Import VerifierFacts Replay Xdp XdpFacts Runtime RuntimeFacts Tunnel.

Section system.
Context `{C : Crypto} {T : CounterToml}.
Context (en : endian) (ttl : Z) (toml_keys : string -> option (list AuthorizedClientConfig)).

(** The kernel's maps and the server's own state; the allow map is the kernel's. *)
Record system := {
  sy_maps : xdp_maps;
  sy_mirror : gmap Z AllowedSource;
  sy_verifier : SpaVerifier;
  sy_files : store
}.

(** The event loop's view of the system, and the system after it ran. *)
Definition loop_view (sy : system) : spa_loop :=
  {| sl_runtime := {| allow_map := ALLOW_MAP (sy_maps sy); allowed_sources := sy_mirror sy |};
     sl_verifier := sy_verifier sy; sl_files := sy_files sy |}.

Definition loop_put (ring : list bytes) (sl : spa_loop) (sy : system) : system :=
  {| sy_maps := {| CONFIG := CONFIG (sy_maps sy); ALLOW_MAP := allow_map (sl_runtime sl);
                   RATE_LIMIT := RATE_LIMIT (sy_maps sy); GLOBAL_RATE := GLOBAL_RATE (sy_maps sy);
                   SPA_RING := ring |};
     sy_mirror := allowed_sources (sl_runtime sl);
     sy_verifier := sl_verifier sl; sy_files := sl_files sl |}.

(** What an observer of the gate sees. *)
Inductive sys_event :=
| EvKnock (src : Z) (payload : bytes) (accept : SpaAccept) (opened_at : Z)
| EvPass (src : Z) (now : Z)
| EvTunnel (now : Z)
| EvQuiet.

(** The acceptance a knock leads to. *)
Definition knock_event (io : knock_io) (payload : bytes) (src : Z) (v : SpaVerifier) : sys_event :=
  match wall_clock_now_ms (kn_wall io), monotonic_now_ns (kn_mono io) with
  | Ok now_ms, Ok now_ns =>
      match (verify v (kn_save io) payload src now_ms).2 with
      | Ok accept => EvKnock src payload accept now_ns
      | Err _ => EvQuiet
      end
  | _, _ => EvQuiet
  end.

Definition frame_event (env : xdp_env) (s : xdp_maps) (pkt : bytes) (act : xdp_action) : sys_event :=
  match classify pkt, act with
  | FTcp src dport, XDP_PASS => if dport =? proxy_port (load_config s) then EvPass src (now_allow env) else EvQuiet
  | _, _ => EvQuiet
  end.

(** The steps: a frame arrives; the server takes the next ring event, an HTTPS
    candidate, a reload signal or the reaper's turn; the tunnel looks up a peer.
    Any interleaving of them is a run. *)
Inductive sys_step : system -> sys_event -> system -> Prop :=
| step_frame sy env data pkt s' act :
    0 <= data -> data + blen pkt < umax 64 -> env_wf env pkt -> blen pkt < 2 ^ 32 ->
    ghostbro_xdp en env (sy_maps sy) data pkt = Some (s', act) ->
    sys_step sy (frame_event env (sy_maps sy) pkt act)
      {| sy_maps := s'; sy_mirror := sy_mirror sy; sy_verifier := sy_verifier sy; sy_files := sy_files sy |}
| step_ring sy io item rest sl ev :
    SPA_RING (sy_maps sy) = item :: rest ->
    handle_ring_item en ttl (loop_view sy) (io, item) = (sl, Ok tt) ->
    ev = (match parse_spa_event en item with
          | Some e => if Z.of_nat SPA_MAX_LEN <? ev_payload_len e then EvQuiet
                      else knock_event io (take (Z.to_nat (ev_payload_len e)) (ev_payload e))
                             (ev_src_ip e) (sy_verifier sy)
          | None => EvQuiet
          end) ->
    sys_step sy ev (loop_put rest sl sy)
| step_https sy io cand sl :
    handle_https_item ttl (loop_view sy) (io, cand) = (sl, Ok tt) ->
    sys_step sy (knock_event io (cand_payload cand) (cand_src_ip cand) (sy_verifier sy))
      (loop_put (SPA_RING (sy_maps sy)) sl sy)
| step_reload sy contents sl :
    handle_reload toml_keys (loop_view sy) contents = (sl, Ok tt) ->
    sys_step sy EvQuiet (loop_put (SPA_RING (sy_maps sy)) sl sy)
| step_reap sy timespec sl :
    handle_reap (loop_view sy) timespec = (sl, Ok tt) ->
    sys_step sy EvQuiet (loop_put (SPA_RING (sy_maps sy)) sl sy)
| step_tunnel sy timespec ip m r now :
    admit_source timespec (sy_mirror sy) ip = (m, r) -> monotonic_now_ns timespec = Ok now ->
    sys_step sy (EvTunnel now)
      {| sy_maps := sy_maps sy; sy_mirror := m; sy_verifier := sy_verifier sy; sy_files := sy_files sy |}.

Inductive sys_run : system -> list sys_event -> system -> Prop :=
| run_nil sy : sys_run sy [] sy
| run_snoc sy h sy1 ev sy2 : sys_run sy h sy1 -> sys_step sy1 ev sy2 -> sys_run sy (h ++ [ev]) sy2.

Definition entry_for (accept : SpaAccept) (now_ns : Z) : AllowEntry :=
  {| expiry_ns := sat_add 64 now_ns (sat_mul 64 ttl 1000000000);
     ae_key_id := acc_key_id accept; ae_client_id := acc_client_id accept |}.

(** Every open source is there because of a knock of the history. *)
Definition justified (h : list sys_event) (m : gmap Z AllowEntry) : Prop :=
  forall ip e, m !! ip = Some e ->
    exists payload accept now, EvKnock ip payload accept now ∈ h /\ e = entry_for accept now.

(** Every knock of the history was accepted by the verifier of the time. *)
Definition genuine (ev : sys_event) : Prop :=
  match ev with
  | EvKnock src payload accept _ =>
      exists v io now_ms v' ops, verify v io payload src now_ms = (v', ops, Ok accept)
  | _ => True
  end.

(** A pass has its justification. *)
Definition pass_ok (h : list sys_event) (ev : sys_event) : Prop :=
  match ev with
  | EvPass src now =>
      exists payload accept opened_at, EvKnock src payload accept opened_at ∈ h /\
        now < expiry_ns (entry_for accept opened_at)
  | _ => True
  end.

Lemma justified_app h ev m : justified h m -> justified (h ++ [ev]) m.
Proof.
  intros H ip e Hm. destruct (H ip e Hm) as (p & a & n & Hin & He). exists p, a, n. set_solver.
Qed.

Lemma justified_sub h m m' :
  (forall ip e, m' !! ip = Some e -> m !! ip = Some e) -> justified h m -> justified h m'.
Proof. intros Hs H ip e Hm. eauto. Qed.

Lemma knock_event_genuine io payload src v : genuine (knock_event io payload src v).
Proof.
  unfold knock_event. destruct (wall_clock_now_ms _) as [ms|]; [|done].
  destruct (monotonic_now_ns _) as [ns|]; [|done].
  destruct (verify v (kn_save io) payload src ms) as [[v' ops] [a|e]] eqn:E; simpl; [|done]. eauto 10.
Qed.

Lemma knock_event_pass h io payload src v : pass_ok h (knock_event io payload src v).
Proof.
  unfold knock_event. destruct (wall_clock_now_ms _) as [ms|]; [|done].
  destruct (monotonic_now_ns _); [|done]. by destruct (verify v (kn_save io) payload src ms) as [? []].
Qed.

Lemma allow_source_justified timespec io rt src accept rt' h payload now :
  allow_source timespec io rt src accept ttl = (rt', Ok tt) -> monotonic_now_ns timespec = Ok now ->
  justified h (allow_map rt) -> EvKnock src payload accept now ∈ h -> justified h (allow_map rt').
Proof.
  unfold allow_source. intros H Hnow Hj Hin. rewrite Hnow in H. unfold bpf_update in H.
  destruct (upd_ok io); [|discriminate]. injection H as <-. intros ip e. cbn [allow_map].
  destruct (decide (ip = src)) as [->|Hne].
  - rewrite lookup_insert_eq. intros [= <-]. exists payload, accept, now. done.
  - rewrite lookup_insert_ne by done. intros [Hm _]%map_lookup_filter_Some. by apply Hj.
Qed.

Lemma handle_knock_justified io payload src sl sl' h :
  handle_knock ttl io payload src sl = (sl', Ok tt) ->
  justified h (allow_map (sl_runtime sl)) ->
  justified (h ++ [knock_event io payload src (sl_verifier sl)]) (allow_map (sl_runtime sl')).
Proof.
  unfold handle_knock, knock_event. intros H Hj. destruct (wall_clock_now_ms (kn_wall io)) as [ms|]; [|discriminate].
  destruct (verify _ _ _ _ _) as [[v ops] [accept|e]]; cbn [snd].
  2: { injection H as <-. by apply justified_app. }
  destruct (allow_source _ _ _ _ _ _) as [rt r] eqn:E. injection H as <- ->. cbn [sl_runtime].
  destruct (monotonic_now_ns (kn_mono io)) as [now|err] eqn:Hn.
  - apply (allow_source_justified _ _ _ _ _ _ _ payload now E Hn); [by apply justified_app|set_solver].
  - unfold allow_source in E. rewrite Hn in E. discriminate.
Qed.

Lemma remove_sources_sub rt l rt' r :
  remove_sources rt l = (rt', r) ->
  forall ip e, allow_map rt' !! ip = Some e -> allow_map rt !! ip = Some e.
Proof.
  revert rt; induction l as [|k l IH]; intros rt; cbn [remove_sources]; [by intros [= <- _]|].
  unfold bpf_delete. destruct (allow_map rt !! k); [|by intros [= <- _]].
  intros H ip e Hm. apply (IH _ H) in Hm. cbn [allow_map] in Hm. by apply lookup_delete_Some in Hm as [_ ?].
Qed.

Lemma purge_all_sub removed rt rt' r :
  try_fold purge_key_id removed rt = (rt', r) ->
  forall ip e, allow_map rt' !! ip = Some e -> allow_map rt !! ip = Some e.
Proof.
  revert rt; induction removed as [|k l IH]; intros rt; cbn [try_fold]; [by intros [= <- _]|].
  destruct (purge_key_id rt k) as [rt1 [[]|e1]] eqn:E; rewrite purge_key_id_eq in E.
  - intros H ip e Hm. eapply remove_sources_sub; [done|]. by eapply IH.
  - intros [= <- _]. by eapply remove_sources_sub.
Qed.

Lemma xdp_spec_allow_sub env s pkt ip e :
  ALLOW_MAP (xdp_spec en env s pkt).1 !! ip = Some e -> ALLOW_MAP s !! ip = Some e.
Proof.
  unfold xdp_spec. destruct (classify pkt) as [|src dport|src sport dport ulen off]; [done| |].
  - destruct (negb _); [done|]. destruct (ALLOW_MAP s !! src); [|done].
    destruct (_ <? _); [done|]. simpl. by intros [_ ?]%lookup_delete_Some.
  - destruct (_ || _); [done|]. destruct (_ && _ && _); [|done].
    unfold rate_limit_allows. destruct (_ =? 0); [done|]. cbn [negb].
    unfold global_rate_limit_allows. cbn [GLOBAL_RATE set_rate]. destruct (GLOBAL_RATE s); [|done].
    destruct (_ =? 0); [done|]. by destruct (reserve env).
Qed.

Lemma sys_step_justified sy ev sy' h :
  sys_step sy ev sy' -> justified h (ALLOW_MAP (sy_maps sy)) ->
  justified (h ++ [ev]) (ALLOW_MAP (sy_maps sy')) /\ genuine ev /\ pass_ok h ev.
Proof.
  intros Hs Hj. destruct Hs as [sy env data pkt s' act Hd He Hwf Hsz Hx|sy io item rest sl ev Hr H ->|
    sy io cand sl H|sy contents sl H|sy timespec sl H|sy timespec ip m r now H Hnow]; cbn [sy_maps loop_put ALLOW_MAP].
  - rewrite ghostbro_xdp_eq in Hx by done. injection Hx as Hx. split_and!.
    + apply justified_app. eapply justified_sub; [|done].
      intros ip e. rewrite <- (f_equal fst Hx : _ = s'). apply xdp_spec_allow_sub.
    + unfold frame_event. destruct (classify pkt); [done| |done]. destruct act; [|done].
      by destruct (_ =? _).
    + unfold frame_event. destruct (classify pkt) as [|src dport|] eqn:Hc; [done| |done].
      destruct act; [|done]. destruct (dport =? _) eqn:Hp; [|done].
      unfold xdp_spec in Hx. rewrite Hc, Hp in Hx. cbn [negb] in Hx.
      destruct (ALLOW_MAP (sy_maps sy) !! src) as [e|] eqn:Ha; [|discriminate].
      destruct (Z.ltb_spec (now_allow env) (expiry_ns e)); [|discriminate].
      destruct (Hj src e Ha) as (p & a & n & Hin & ->). simpl. eauto 10.
  - unfold handle_ring_item in H. destruct (parse_spa_event en item) as [e|].
    2: { injection H as <-. split; [by apply justified_app|done]. }
    destruct (_ <? _). { injection H as <-. split; [by apply justified_app|done]. }
    split; [by apply (handle_knock_justified io _ _ (loop_view sy))|].
    split; [apply knock_event_genuine|apply knock_event_pass].
  - split; [by apply (handle_knock_justified io _ _ (loop_view sy))|].
    split; [apply knock_event_genuine|apply knock_event_pass].
  - split; [|done]. apply justified_app. eapply justified_sub; [|done].
    unfold handle_reload in H. destruct (reload_authorized_keys _ _ _) as [v [removed|]].
    + destruct (try_fold _ _ _) as [rt r] eqn:E. injection H as <- _. by apply (purge_all_sub _ _ _ _ E).
    + by injection H as <-.
  - split; [|done]. apply justified_app. eapply justified_sub; [|done].
    unfold handle_reap, reap_expired_sources in H.
    destruct (monotonic_now_ns timespec) as [now|]; [|discriminate].
    rewrite remove_sources_nil_test in H.
    destruct (remove_sources _ _) as [rt r] eqn:E. injection H as <- _. by apply (remove_sources_sub _ _ _ _ E).
  - split; [by apply justified_app|done].
Qed.

Lemma sys_run_justified sy h sy' :
  sys_run sy h sy' -> ALLOW_MAP (sy_maps sy) = ∅ ->
  justified h (ALLOW_MAP (sy_maps sy')) /\ Forall genuine h /\
  forall i ev, h !! i = Some ev -> pass_ok (take i h) ev.
Proof.
  intros H H0. induction H as [sy|sy h sy1 ev sy2 _ IH Hs].
  - split_and!; [|constructor|done]. intros ip e. rewrite H0. by rewrite lookup_empty.
  - destruct (IH H0) as (Hj & Hg & Hp). destruct (sys_step_justified _ _ _ h Hs Hj) as (Hj' & Hg' & Hp').
    split_and!; [done|apply Forall_app; by split; [|constructor]|].
    intros i x Hi. pose proof (lookup_lt_Some _ _ _ Hi) as Hlt. rewrite length_app in Hlt. simpl in Hlt.
    destruct (decide (i < length h)%nat) as [Hi'|Hi'].
    + rewrite lookup_app_l in Hi by done. rewrite take_app_le by lia. by apply Hp.
    + replace i with (length h) in * by lia. rewrite lookup_app_r, Nat.sub_diag in Hi by done.
      injection Hi as <-. by rewrite take_app_length.
Qed.

(** C5: nothing reaches the proxy without a recent knock.  In every run of the
    gate that starts with nobody admitted, under any interleaving of frames,
    ring events, HTTPS candidates, reloads and reaps, a TCP frame delivered to
    the proxy port at kernel time [t] is preceded by a knock from the same
    address which the verifier accepted and which opened the gate less than the
    configured time to live before [t]. *)
Theorem gate_requires_recent_knock sy h sy' i src t :
  sys_run sy h sy' -> ALLOW_MAP (sy_maps sy) = ∅ -> h !! i = Some (EvPass src t) ->
  exists j payload accept opened_at,
    (j < i)%nat /\ h !! j = Some (EvKnock src payload accept opened_at) /\
    t < opened_at + ttl * 1000000000 /\
    exists v io now_ms v' ops, verify v io payload src now_ms = (v', ops, Ok accept).
Proof.
  intros Hr H0 Hi. destruct (sys_run_justified _ _ _ Hr H0) as (_ & Hg & Hp).
  destruct (Hp i _ Hi) as (payload & accept & opened_at & Hin & Hlt).
  apply list_elem_of_lookup in Hin as [j Hj]. pose proof (lookup_lt_Some _ _ _ Hj) as Hl.
  rewrite length_take in Hl. rewrite lookup_take in Hj. case_decide; [|discriminate].
  exists j, payload, accept, opened_at. split_and!; [lia|done| |].
  - cbn [expiry_ns entry_for] in Hlt. unfold sat_add, sat_mul in Hlt. lia.
  - rewrite Forall_lookup in Hg. by apply (Hg j _ Hj).
Qed.

(** * The mirror *)

Definition runtime_of (sy : system) : EbpfRuntime := sl_runtime (loop_view sy).

Lemma mirrors_sub t m m' mirror :
  (forall ip e, m' !! ip = Some e -> m !! ip = Some e) ->
  mirrors t {| allow_map := m; allowed_sources := mirror |} ->
  mirrors t {| allow_map := m'; allowed_sources := mirror |}.
Proof. intros Hs H ip e Hm Hlive. by apply H; [apply Hs|]. Qed.

Lemma allow_source_mirrors t timespec io rt src accept rt' r :
  allow_source timespec io rt src accept ttl = (rt', r) -> mirrors t rt -> mirrors t rt'.
Proof.
  unfold allow_source. destruct (monotonic_now_ns timespec) as [now|]; [|by intros [= <- _]].
  unfold bpf_update. destruct (upd_ok io); [|by intros [= <- _]]. intros [= <- _] Hm ip e.
  cbn [allow_map allowed_sources]. destruct (decide (ip = src)) as [->|Hne].
  - rewrite !lookup_insert_eq. intros [= <-] _. eauto.
  - rewrite !lookup_insert_ne by done. intros [Hl _]%map_lookup_filter_Some. by apply Hm.
Qed.

Lemma handle_knock_mirrors t io payload src sl sl' r :
  handle_knock ttl io payload src sl = (sl', r) -> mirrors t (sl_runtime sl) -> mirrors t (sl_runtime sl').
Proof.
  unfold handle_knock. destruct (wall_clock_now_ms (kn_wall io)) as [ms|]; [|by intros [= <- _]].
  destruct (verify _ _ _ _ _) as [[v ops] [accept|e]]; [|by intros [= <- _]].
  destruct (allow_source _ _ _ _ _ _) as [rt r'] eqn:E. intros [= <- _]. by eapply allow_source_mirrors.
Qed.

Lemma purge_all_mirrors t removed rt rt' r :
  try_fold purge_key_id removed rt = (rt', r) -> mirrors t rt -> mirrors t rt'.
Proof.
  revert rt; induction removed as [|k l IH]; intros rt; cbn [try_fold]; [by intros [= <- _]|].
  destruct (purge_key_id rt k) as [rt1 [[]|e1]] eqn:E; rewrite purge_key_id_eq in E.
  - intros H Hm. eapply IH; [done|]. by eapply remove_sources_mirrors.
  - intros [= <- _] Hm. by eapply remove_sources_mirrors.
Qed.

Definition tunnel_before (t : Z) (ev : sys_event) : Prop :=
  match ev with EvTunnel now => now <= t | _ => True end.

Lemma sys_step_mirrors t sy ev sy' :
  sys_step sy ev sy' -> tunnel_before t ev -> mirrors t (runtime_of sy) -> mirrors t (runtime_of sy').
Proof.
  intros Hs Ht Hm. destruct Hs as [sy env data pkt s' act Hd He Hwf Hsz Hx|sy io item rest sl ev Hr H ->|
    sy io cand sl H|sy contents sl H|sy timespec sl H|sy timespec ip m r now H Hnow].
  - rewrite ghostbro_xdp_eq in Hx by done. injection Hx as Hx. eapply mirrors_sub; [|exact Hm].
    intros ip e. cbn [sy_maps]. rewrite <- (f_equal fst Hx : _ = s'). apply xdp_spec_allow_sub.
  - unfold handle_ring_item in H. destruct (parse_spa_event en item) as [e|]; [|by injection H as <-].
    destruct (_ <? _); [by injection H as <-|].
    pose proof (handle_knock_mirrors t _ _ _ _ _ _ H Hm) as H'. by destruct sl as [[] ? ?].
  - pose proof (handle_knock_mirrors t _ _ _ _ _ _ H Hm) as H'. by destruct sl as [[] ? ?].
  - unfold handle_reload in H. destruct (reload_authorized_keys _ _ _) as [v [removed|]].
    + destruct (try_fold _ _ _) as [rt r] eqn:E. injection H as <- _.
      pose proof (purge_all_mirrors t _ _ _ _ E Hm) as H'. by destruct rt.
    + by injection H as <-.
  - unfold handle_reap, reap_expired_sources in H.
    destruct (monotonic_now_ns timespec) as [now|]; [|discriminate]. rewrite remove_sources_nil_test in H.
    destruct (remove_sources _ _) as [rt r] eqn:E. injection H as <- _.
    pose proof (remove_sources_mirrors t _ _ _ _ Hm E) as H'. by destruct rt.
  - simpl in Ht. intros ip' e Ha Hlive. destruct (Hm ip' e Ha Hlive) as (a & Hs & <-).
    cbn in *. exists a. split; [|done]. unfold admit_source in H.
    destruct (sy_mirror sy !! ip) as [source|] eqn:Hs'; [|by injection H as <- _].
    rewrite Hnow in H. destruct (Z.leb_spec (expiry_ns (as_entry source)) now); [|by injection H as <- _].
    injection H as <- _. rewrite lookup_delete_ne; [done|]. intros ->. simplify_eq. lia.
Qed.

Lemma sys_run_mirrors sy h sy' t :
  sys_run sy h sy' -> ALLOW_MAP (sy_maps sy) = ∅ -> Forall (tunnel_before t) h -> mirrors t (runtime_of sy').
Proof.
  intros H H0 Hf. induction H as [sy|sy h sy1 ev sy2 _ IH Hs].
  - intros ip e. cbn. by rewrite H0, lookup_empty.
  - apply Forall_app in Hf as [Hf Hev]. inversion Hev; subst. eapply sys_step_mirrors; [done..|]. by apply IH.
Qed.

(** C27: whoever the kernel admits, the tunnel knows.  In every run of the gate
    that starts with nobody admitted, every source the kernel map holds open
    beyond the latest clock reading of the tunnel is in the mirror with the same
    entry, so a revocation, which works from the mirror, finds it. *)
Theorem live_sources_mirrored sy h sy' t :
  sys_run sy h sy' -> ALLOW_MAP (sy_maps sy) = ∅ -> Forall (tunnel_before t) h ->
  forall ip e, ALLOW_MAP (sy_maps sy') !! ip = Some e -> t < expiry_ns e ->
    exists a, sy_mirror sy' !! ip = Some a /\ as_entry a = e.
Proof. intros H H0 Hf. exact (sys_run_mirrors _ _ _ _ H H0 Hf). Qed.

(** * An honest knock opens the gate *)

Lemma be16_range pkt off : in_u 16 (be16 pkt off).
Proof.
  unfold be16, in_u. change (umax 16) with 65535.
  pose proof (byte_at_range pkt off). pose proof (byte_at_range pkt (off + 1)). lia.
Qed.

Lemma be32_range pkt off : in_u 32 (be32 pkt off).
Proof.
  unfold be32, in_u. change (umax 32) with 4294967295.
  pose proof (byte_at_range pkt off). pose proof (byte_at_range pkt (off + 1)).
  pose proof (byte_at_range pkt (off + 2)). pose proof (byte_at_range pkt (off + 3)). lia.
Qed.

Lemma classify_udp_range pkt src sport dport len off :
  classify pkt = FUdp src sport dport len off -> in_u 32 src /\ in_u 16 sport.
Proof.
  unfold classify. intros H.
  repeat match type of H with context [if ?b then _ else _] => destruct b; try discriminate H end.
  injection H as <- <- _ _ _. split; [apply be32_range | apply be16_range].
Qed.

(** A datagram for the SPA port which both buckets admit. *)
Record admitted_knock (env : xdp_env) (s : xdp_maps) (pkt wire : bytes) (src sport : Z) (slot : bytes) : Prop := {
  ak_class : exists off, classify pkt = FUdp src sport (spa_port (load_config s)) (8 + blen wire) off /\
    off + blen wire <= blen pkt /\ slice (Z.to_nat off) (Z.to_nat (off + blen wire)) pkt = wire;
  ak_mode : Z.land (spa_mode (load_config s)) SPA_MODE_UDP <> 0;
  ak_buckets : exists s1 s2,
    rate_limit_allows env s src (rate_limit_per_minute (load_config s)) = (s1, true) /\
    global_rate_limit_allows env s1 (rate_limit_per_minute (load_config s)) = (s2, true);
  ak_slot : reserve env = Some slot
}.

Lemma admitted_emits env s data pkt wire src sport slot :
  0 <= data -> data + blen pkt < umax 64 -> env_wf env pkt -> blen pkt < 2 ^ 32 ->
  143 <= blen wire <= 176 -> admitted_knock env s pkt wire src sport slot -> SPA_RING s = [] ->
  exists s', ghostbro_xdp en env s data pkt = Some (s', XDP_DROP) /\
    SPA_RING s' = [event_bytes en src sport wire slot].
Proof.
  intros Hd He Hwf Hsz Hlen [(off & Hc & Hin & Hw) Hm (s1 & s2 & E1 & E2) Hslot] Hr.
  rewrite ghostbro_xdp_eq by done. unfold xdp_spec. rewrite Hc, Z.eqb_refl.
  rewrite (proj2 (Z.eqb_neq _ _)) by done. cbn [orb negb].
  replace (8 + blen wire - 8) with (blen wire) by lia.
  rewrite (proj2 (Z.leb_le 143 (blen wire))), (proj2 (Z.leb_le (blen wire) 176)),
    (proj2 (Z.leb_le _ (blen pkt))) by lia. cbn [andb].
  rewrite E1. cbn [negb]. rewrite E2, Hslot, Hw. eexists. split; [done|].
  cbn [SPA_RING submit]. assert (SPA_RING s2 = SPA_RING s) as ->; [|by rewrite Hr].
  unfold rate_limit_allows in E1. unfold global_rate_limit_allows in E2.
  destruct (_ =? 0) in E1; injection E1 as <-; cbn [GLOBAL_RATE set_rate] in E2;
    (destruct (GLOBAL_RATE s); [|discriminate]); by destruct (_ =? 0) in E2; injection E2 as <-.
Qed.

Context {L : CryptoLaws C}.

(** C12: an honest knock opens the gate.  A datagram that carries the packet an
    enrolled client built for this server, admitted by the rate limits, is
    dropped by the filter but handed to the server, whose event loop then opens
    the gate: TCP frames for the proxy port from that address pass until the
    time to live has elapsed. *)
Theorem knock_opens_gate env s data pkt src sport slot sl io sk c next_u32 fill eph ts ctr a ops now_ms now_ns :
  let wire := build next_u32 fill eph sk Udp ts ctr a (server_static_pubkey (sl_verifier sl)) in
  0 <= data -> data + blen pkt < umax 64 -> env_wf env pkt -> blen pkt < 2 ^ 32 ->
  admitted_knock env s pkt wire src sport slot -> SPA_RING s = [] ->
  honest_setup (sl_verifier sl) sk c -> in_u 64 ts -> in_u 64 ctr -> (forall n, length (fill n) = n) ->
  names_source a src ->
  wall_clock_now_ms (kn_wall io) = Ok now_ms -> Z.abs (now_ms - ts) <= time_window_ms (sl_verifier sl) ->
  default 0 (highest_counters (sl_verifier sl) !! key_id_for_public_key (ed_verifying_key sk)) < ctr ->
  persist_counters (with_counter (sl_verifier sl) (key_id_for_public_key (ed_verifying_key sk)) ctr) (kn_save io)
    = (ops, Ok tt) ->
  monotonic_now_ns (kn_mono io) = Ok now_ns -> upd_ok (kn_update io) = true ->
  exists s' item sl',
    ghostbro_xdp en env s data pkt = Some (s', XDP_DROP) /\ SPA_RING s' = [item] /\
    handle_ring_item en ttl sl (io, item) = (sl', Ok tt) /\
    forall env2 s2 data2 pkt2,
      0 <= data2 -> data2 + blen pkt2 < umax 64 -> env_wf env2 pkt2 -> blen pkt2 < 2 ^ 32 ->
      ALLOW_MAP s2 = allow_map (sl_runtime sl') -> load_config s2 = load_config s ->
      classify pkt2 = FTcp src (proxy_port (load_config s)) ->
      now_allow env2 < Z.min (now_ns + Z.min (ttl * 1000000000) (umax 64)) (umax 64) ->
      ghostbro_xdp en env2 s2 data2 pkt2 = Some (s2, XDP_PASS).
Proof.
  intros wire Hd He Hwf Hsz Hak Hring Hhs Hts Hctr Hfill Ha Hwall Hw Hnew Hp Hmono Hupd.
  assert (Hlen : (SPA_MIN_LEN <= length wire <= SPA_MAX_LEN)%nat) by (by apply length_build).
  change SPA_MIN_LEN with 143%nat in Hlen. change SPA_MAX_LEN with 176%nat in Hlen.
  assert (Hlz : 143 <= blen wire <= 176) by (unfold blen; lia).
  destruct (admitted_emits env s data pkt wire src sport slot) as (s' & Hx & Hr'); try done.
  exists s', (event_bytes en src sport wire slot).
  assert (Hrange : in_u 32 src /\ in_u 16 sport).
  { destruct Hak as [(off & Hc & _) _ _ _]. by eapply classify_udp_range. }
  destruct (parse_event_bytes en src sport wire slot) as (ev & Hev & Hsrc & _ & Hl & Hpay);
    [apply Hrange|apply Hrange|lia|by apply (wf_reserve _ _ Hwf), Hak|].
  unfold handle_ring_item. rewrite Hev, Hl, <- Hl, Hpay, Hsrc, Hl.
  rewrite (proj2 (Z.ltb_ge _ _)) by (change (Z.of_nat SPA_MAX_LEN) with 176; lia).
  unfold handle_knock. rewrite Hwall. unfold wire.
  rewrite (verify_honest (sl_verifier sl) (kn_save io) next_u32 fill eph sk Udp ts ctr a c src now_ms ops) by done.
  unfold allow_source. rewrite Hmono. unfold bpf_update. rewrite Hupd.
  eexists. split_and!; [done|done|done|].
  intros env2 s2 data2 pkt2 Hd2 He2 Hwf2 Hsz2 Hallow Hcfg Hc2 Ht.
  rewrite ghostbro_xdp_eq by done. unfold xdp_spec. rewrite Hc2, Hcfg, Z.eqb_refl, Hallow. cbn [negb].
  cbn [allow_map sl_runtime]. rewrite lookup_insert_eq. cbn [expiry_ns].
  unfold sat_add, sat_mul. by rewrite (proj2 (Z.ltb_lt _ _)) by done.
Qed.

End system.
