(* ===== verification/Watch.v ===== *)
(** The watcher of the enrolment file: [watch_authorized_keys] of
    [ghostbro-server/src/ebpf.rs], with the start of [run_spa].

    The events are what the library [notify] reports; the reload signals are the
    messages sent to the event loop. *)

From S2P Require Import Prelude Text Fs.

(** * Paths by component *)

(** [std::path::Path] as its components compare: whether it starts at the root,
    and the names; a leading [.] of a relative path is a component. *)
Record path := { absolute : bool; names : list bytes }.

#[global] Instance path_eq_dec : EqDecision path.
Proof. solve_decision. Defined.

Fixpoint segments (acc b : bytes) : list bytes :=
  match b with
  | [] => [reverse acc]
  | x :: b => if bool_decide (x = slash) then reverse acc :: segments [] b else segments (x :: acc) b
  end.

(** [Path::components] *)
Definition components (p : string) : path :=
  let b := str_bytes p in
  let abs := bool_decide (head b = Some slash) in
  let kept := filter (fun s => s <> [] /\ s <> [dot]) in
  {| absolute := abs;
     names := match segments [] b with
              | s :: rest => (if negb abs && bool_decide (s = [dot]) then [s] else kept [s]) ++ kept rest
              | [] => []
              end |}.

(** [Path::parent] *)
Definition parent (p : path) : option path :=
  match reverse (names p) with
  | [] => None
  | _ :: dirs => Some {| absolute := absolute p; names := reverse dirs |}
  end.

(** [as_os_str().is_empty()] *)
Definition path_empty (p : path) : bool := negb (absolute p) && bool_decide (names p = []).

(** [Path::join] of a file name. *)
Definition join_name (p : path) (name : bytes) : path := {| absolute := absolute p; names := names p ++ [name] |}.

(** * The watcher *)

Section watch.
(** The kinds of events and the errors of [notify]. *)
Context {EventKind NotifyError : Type}.

Record Event := { ev_kind : EventKind; ev_paths : list path }.

(** The directory that is watched, without its subdirectories. *)
Definition watch_path (authorized_keys_path : string) : path :=
  let p := components authorized_keys_path in
  match parent p with
  | Some dir => if path_empty dir then p else dir
  | None => p
  end.

(** The callback: whether it sends a reload signal. *)
Definition watch_event (authorized_keys_path : string) (event : result NotifyError Event) : bool :=
  match event with
  | Ok event => existsb (fun p => bool_decide (p = components authorized_keys_path)) (ev_paths event)
  | Err _ => false
  end.

(** [run_spa] before its loop: the watched path, if the file is watched, or why
    the server stops; whether the watcher can be created and set up. *)
Inductive WatchError := WatchCreate | WatchPath (p : path).

Definition watch_authorized_keys (authorized_keys_path : string) (create_ok watch_ok : bool) : result WatchError path :=
  let p := watch_path authorized_keys_path in
  if negb create_ok then Err WatchCreate else if negb watch_ok then Err (WatchPath p) else Ok p.

Definition start_watch (disable_auth_watch : option string) (authorized_keys_path : string) (create_ok watch_ok : bool)
    : result WatchError (option path) :=
  match disable_auth_watch with
  | Some _ => Ok None
  | None => Some <$> watch_authorized_keys authorized_keys_path create_ok watch_ok
  end.

(** The reload signals of a list of events, in order. *)
Definition reload_signals (authorized_keys_path : string) (events : list (result NotifyError Event)) : nat :=
  length (List.filter (watch_event authorized_keys_path) events).

(** The watched path makes events on the file come with a path equal to it: as the
    directory entry, or as the path itself. *)
Definition reported_path (watched p : path) : path :=
  match reverse (names p) with
  | name :: _ => if bool_decide (watched = p) then p else join_name watched name
  | [] => p
  end.

(** Whatever happens to the file, every event that [notify] reports for it in the
    watched place leads to a signal. *)
Lemma watch_sees_file p kind : watch_event p (Ok {| ev_kind := kind; ev_paths := [reported_path (watch_path p) (components p)] |}) = true.
Proof.
  unfold watch_event. cbn [ev_paths existsb]. rewrite orb_false_r. apply bool_decide_eq_true.
  unfold reported_path, watch_path, parent. destruct (components p) as [abs ns]. cbn [names absolute].
  destruct (reverse ns) as [|name dirs] eqn:E; [done|].
  assert (Hns : ns = reverse dirs ++ [name]) by (rewrite <-(reverse_involutive ns), E; by rewrite reverse_cons).
  destruct (path_empty _); [by rewrite bool_decide_eq_true_2|]. case_bool_decide as Hd; [done|].
  unfold join_name. cbn [absolute names]. by rewrite Hns.
Qed.

(** The kind of an event does not matter: an event for reading the file is a
    signal as well. *)
Lemma watch_ignores_kind p k1 k2 paths :
  watch_event p (Ok {| ev_kind := k1; ev_paths := paths |}) = watch_event p (Ok {| ev_kind := k2; ev_paths := paths |}).
Proof. done. Qed.

End watch.
