(* ===== verification/Revocation.v ===== *)
(** Revocation from end to end: a change of the enrolment file closes the gate
    for the keys that are gone, in the packet filter, in the tunnel's admission
    and for further knocks. *)

From S2P Require Import Prelude Text Protocol Crypto Keys Seal SpaPacket Fs AuthKeys Verifier Replay.
From S2P Require Import Xdp XdpFacts Runtime RuntimeFacts Tunnel Watch.

(** What a purge of some keys does to the maps. *)
Record purged (t : Z) (removed : list KeyId) (rt rt' : EbpfRuntime) : Prop := {
  pg_mirrors : mirrors t rt';
  pg_kernel : forall ip e, t < expiry_ns e ->
    allow_map rt' !! ip = Some e <-> allow_map rt !! ip = Some e /\ ae_key_id e ∉ removed;
  pg_mirror : forall ip a, allowed_sources rt' !! ip = Some a <-> allowed_sources rt !! ip = Some a /\ ae_key_id (as_entry a) ∉ removed;
  pg_deletes : forall ip e, allow_map rt' !! ip = Some e -> allow_map rt !! ip = Some e
}.

Lemma purged_refl t rt : mirrors t rt -> purged t [] rt rt.
Proof. intros Hm. split; [done|intros ip e _|intros ip a|done]; (split; [intros H; split; [done|apply not_elem_of_nil]|by intros [H _]]). Qed.

Lemma purge_deletes rt kid rt' ip e :
  purge_key_id rt kid = (rt', Ok tt) -> allow_map rt' !! ip = Some e -> allow_map rt !! ip = Some e.
Proof.
  rewrite purge_key_id_eq. intros H. destruct (remove_sources_lookup _ _ _ ip H) as [-> _]. by case_bool_decide.
Qed.

(** All removed keys are purged. *)
Lemma purge_all t removed : forall rt rt',
  mirrors t rt -> try_fold purge_key_id removed rt = (rt', Ok tt) -> purged t removed rt rt'.
Proof.
  induction removed as [|k removed IH]; intros rt rt' Hm; cbn [try_fold]; [intros [= <-]; by apply purged_refl|].
  destruct (purge_key_id rt k) as [rt1 [[]|e]] eqn:E; [|done]. intros H.
  destruct (purge_closes_key t rt k rt1 Hm E) as (Hm1 & Hk1 & Hs1). destruct (IH rt1 rt' Hm1 H) as [Hm' Hk Hs Hd].
  split; [done|intros ip e Hlt|intros ip a|intros ip e He].
  - rewrite (Hk _ _ Hlt), (Hk1 _ _ Hlt), not_elem_of_cons. tauto.
  - rewrite Hs, Hs1, not_elem_of_cons. tauto.
  - by eapply purge_deletes, Hd.
Qed.

Section revocation.
Context `{C : Crypto} {T : CounterToml}.
Context (en : endian) (toml_keys : string -> option (list AuthorizedClientConfig)).

(** Whether a list of clients enrols a key. *)
Definition enrols (cs : list AuthorizedClient) (k : KeyId) : Prop := exists c, c ∈ cs /\ ac_key_id c = k.

(** C26: revocation takes effect.  Every event that is reported for the enrolment
    file makes the event loop read it again.  When a key that was enrolled is not
    in the file any more and the reload succeeds: no live entry of it is left in
    the kernel's map, none at all in the mirror; every frame to the proxy port
    from an address it had opened is dropped and every connection from there is
    refused; its knocks are refused as those of an unknown key.  The live entries
    of all clients that are still enrolled, and the replay counters, are as they
    were. *)
Theorem revocation_takes_effect {EventKind NotifyError} (keys_path : string) (kind : EventKind) t sl contents configs cs sl' k :
  mirrors t (sl_runtime sl) ->
  load_authorized_keys (Some contents) toml_keys = Ok configs -> into_clients configs = Ok cs ->
  is_Some (clients (sl_verifier sl) !! k) -> ~ enrols cs k ->
  handle_reload toml_keys sl (Some contents) = (sl', Ok tt) ->
  watch_event (NotifyError := NotifyError) keys_path
    (Ok {| ev_kind := kind; ev_paths := [reported_path (watch_path keys_path) (components keys_path)] |}) = true /\
  (forall ip e, allow_map (sl_runtime sl') !! ip = Some e -> t < expiry_ns e -> ae_key_id e <> k) /\
  (forall ip a, allowed_sources (sl_runtime sl') !! ip = Some a -> ae_key_id (as_entry a) <> k) /\
  (forall env s data pkt ip e,
     0 <= data -> data + blen pkt < umax 64 -> env_wf env pkt -> blen pkt < 2 ^ 32 ->
     ALLOW_MAP s = allow_map (sl_runtime sl') -> t <= now_allow env ->
     allow_map (sl_runtime sl) !! ip = Some e -> ae_key_id e = k -> classify pkt = FTcp ip (proxy_port (load_config s)) ->
     exists s', ghostbro_xdp en env s data pkt = Some (s', XDP_DROP)) /\
  (forall ip a timespec handshake sessions,
     allowed_sources (sl_runtime sl) !! ip = Some a -> ae_key_id (as_entry a) = k ->
     handle_connection (Some ip) timespec handshake (allowed_sources (sl_runtime sl')) sessions
     = (allowed_sources (sl_runtime sl'), sessions, Err NoAllowEntry)) /\
  (forall io payload src now p,
     spa_open payload (server_static_private (sl_verifier sl)) = Ok p -> key_id p = k ->
     verify (sl_verifier sl') io payload src now = (sl_verifier sl', [], Err (UnknownKey (key_id_hex k)))) /\
  (forall ip e, allow_map (sl_runtime sl) !! ip = Some e -> t < expiry_ns e -> enrols cs (ae_key_id e) ->
     allow_map (sl_runtime sl') !! ip = Some e) /\
  highest_counters (sl_verifier sl') = highest_counters (sl_verifier sl).
Proof.
  intros Hm Hload Hcs Hk Hno. unfold handle_reload, reload_authorized_keys. rewrite Hload, Hcs.
  destruct (reload_clients (sl_verifier sl) cs) as [v removed] eqn:Hr.
  destruct (try_fold purge_key_id removed (sl_runtime sl)) as [rt [[]|e]] eqn:Hp; [|done]. intros [= <-].
  cbn [sl_runtime sl_verifier]. destruct (purge_all t removed (sl_runtime sl) rt Hm Hp) as [_ Hkern Hmir Hdel].
  assert (Hrem : forall k', k' ∈ removed <-> is_Some (clients (sl_verifier sl) !! k') /\ ~ enrols cs k')
    by (intros k'; apply (reload_revokes (sl_verifier sl) cs v removed k' Hr)).
  destruct (reload_revokes (sl_verifier sl) cs v removed k Hr) as (_ & Hctr & Hunk).
  assert (Hin : k ∈ removed) by by apply Hrem.
  assert (Hgone : forall ip e, allow_map rt !! ip = Some e -> t < expiry_ns e -> ae_key_id e <> k).
  { intros ip e He Hlt Hek. apply (Hkern ip e Hlt) in He as [_ He]. by rewrite Hek in He. }
  split; [apply watch_sees_file|]. split; [exact Hgone|]. split.
  { intros ip a Ha Hak. apply Hmir in Ha as [_ Ha]. by rewrite Hak in Ha. }
  split.
  { intros env s data pkt ip e Hd He Hwf Hsz Hmap Ht Hbefore Hek Hc. rewrite ghostbro_xdp_eq by done. unfold xdp_spec.
    rewrite Hc, Z.eqb_refl, Hmap. cbn [negb]. destruct (allow_map rt !! ip) as [e'|] eqn:E; [|by eexists].
    pose proof (Hdel _ _ E) as E'. assert (e' = e) as -> by congruence.
    destruct (Z.ltb_spec (now_allow env) (expiry_ns e)); [|by eexists]. exfalso. apply (Hgone ip e E); [lia|done]. }
  split.
  { intros ip a timespec handshake sessions Ha Hak. unfold handle_connection, admit_source.
    destruct (allowed_sources rt !! ip) as [a'|] eqn:E; [|done]. apply Hmir in E as [E Hnin]. congruence. }
  split; [intros io payload src now p Ho Hkp; by eapply Hunk|]. split; [|exact Hctr].
  intros ip e He Hlt Hen. apply (Hkern ip e Hlt). split; [done|]. by intros [_ Hx]%Hrem.
Qed.

End revocation.
