(* ===== verification/RelayWire.v ===== *)
(** The relay's wire format, validators and package specifications:
    [ghostbro-server/src/relay.rs]. *)

From S2P Require Import Prelude Text NetAddr Protocol Crypto Keys.

Inductive RelayError :=
| ReTruncated
| ReFieldTooLong (len max : Z)
| ReUtf8
| ReBadUrl
| ReScheme (scheme : string)
| ReMissingHost
| ReMissingPort
| ReResolve
| ReNoAddress
| ReDisallowed
| ReJobId
| RePackageNameLength
| RePackageNameDots
| RePackageNameChars
| RePackageVersionLength
| RePackageVersionChars
| ReEcosystem (eco : string)
| ReCratesVersion
| ReSpec
| ReClock
| ReIo
| ReMetadata
| ReKind (kind : string)
| ReQuota
| ReTooLarge
| ReFetch
| ReGit
| ReHttp (status : Z)
| ReRegistryHost
| ReRegistryJson
| ReMissingField (field : string)
| ReNoDigest
| ReDigest.

(** * Cursor *)

Record RelayCursor := { cur_bytes : bytes; cur_pos : nat }.

Definition cursor_new (b : bytes) : RelayCursor := {| cur_bytes := b; cur_pos := 0 |}.

Definition read_exact (len : nat) (c : RelayCursor) : result RelayError (bytes * RelayCursor) :=
  if (length (cur_bytes c) <? cur_pos c + len)%nat then Err ReTruncated
  else Ok (slice (cur_pos c) (cur_pos c + len) (cur_bytes c),
           {| cur_bytes := cur_bytes c; cur_pos := cur_pos c + len |}).

Definition read_u16 (c : RelayCursor) : result RelayError (Z * RelayCursor) :=
  '(b, c) ← read_exact 2 c; Ok (from_be b, c).

Definition read_u32 (c : RelayCursor) : result RelayError (Z * RelayCursor) :=
  '(b, c) ← read_exact 4 c; Ok (from_be b, c).

Definition read_optional_u8 (c : RelayCursor) : result RelayError (option Z * RelayCursor) :=
  match cur_bytes c !! cur_pos c with
  | None => Ok (None, c)
  | Some b => Ok (Some (b2z b), {| cur_bytes := cur_bytes c; cur_pos := cur_pos c + 1 |})
  end.

Definition read_string (max_len : Z) (c : RelayCursor) : result RelayError (string * RelayCursor) :=
  '(len, c) ← read_u16 c;
  if max_len <? len then Err (ReFieldTooLong len max_len)
  else
    '(b, c) ← read_exact (Z.to_nat len) c;
    if utf8_valid b then Ok (bytes_str b, c) else Err ReUtf8.

(** * Responses *)

Definition relay_header (status : Z) : bytes :=
  [z2b PROTOCOL_GHOST_RELAY; z2b GHOST_RELAY_VERSION; z2b status].

Definition relay_bytes_response (status : Z) (b : bytes) : bytes :=
  relay_header status ++ be_bytes 4 (default (umax 32) (try_from 32 (blen b))) ++ b.

Definition relay_status_response (status : Z) (message : string) : bytes :=
  relay_bytes_response status (str_bytes message).

(** * Validators *)

Definition validate_job_id (job_id : string) : result RelayError unit :=
  let b := str_bytes job_id in
  if bool_decide (b = []) || negb (forallb (fun b => is_ascii_hexdigit b || (b2z b =? 45)) b)
  then Err ReJobId else Ok tt.

Definition name_char (b : byte) : bool :=
  is_ascii_alphanumeric b || (b2z b =? 45) || (b2z b =? 95) || (b2z b =? 46) || (b2z b =? 47) || (b2z b =? 64).
Definition version_char (b : byte) : bool :=
  is_ascii_alphanumeric b || (b2z b =? 45) || (b2z b =? 95) || (b2z b =? 46) || (b2z b =? 43).

Definition validate_package_name (name : string) : result RelayError unit :=
  let b := str_bytes name in
  if bool_decide (b = []) || (256 <? blen b) then Err RePackageNameLength
  else if contains_sub (str_bytes "..") b then Err RePackageNameDots
  else if negb (forallb name_char b) then Err RePackageNameChars
  else Ok tt.

Definition validate_package_version (version : string) : result RelayError unit :=
  let b := str_bytes version in
  if 128 <? blen b then Err RePackageVersionLength
  else if negb (forallb version_char b) then Err RePackageVersionChars
  else Ok tt.

Definition non_empty (value : string) : option string :=
  let trimmed := trim (str_bytes value) in
  if bool_decide (trimmed = []) then None else Some (bytes_str trimmed).

Definition is_html (content_type : option string) (body : bytes) : bool :=
  let sniff :=
    let lowered := ascii_lower (take 1024 body) in
    contains_sub (str_bytes "<html") lowered || contains_sub (str_bytes "<!doctype html") lowered in
  match content_type with
  | Some content_type =>
      let lowered := ascii_lower (str_bytes content_type) in
      if contains_sub (str_bytes "text/html") lowered || contains_sub (str_bytes "application/xhtml") lowered
      then true
      else if contains_sub (str_bytes "text/plain") lowered || contains_sub (str_bytes "application/json") lowered
      then false
      else sniff
  | None => sniff
  end.

(** * Package specifications *)

Inductive Ecosystem := Pypi | Npm | Crates.

#[global] Instance Ecosystem_eq_dec : EqDecision Ecosystem.
Proof. solve_decision. Defined.

Record PackageSpec := {
  ps_ecosystem : Ecosystem;
  ps_name : string;
  ps_version : option string
}.

Definition parse_ecosystem (ecosystem : string) : result RelayError Ecosystem :=
  let eco := bytes_str (ascii_lower (str_bytes ecosystem)) in
  if bool_decide (eco = "pypi"%string) || bool_decide (eco = "pip"%string) then Ok Pypi
  else if bool_decide (eco = "npm"%string) then Ok Npm
  else if bool_decide (eco = "crates"%string) || bool_decide (eco = "cargo"%string) then Ok Crates
  else Err (ReEcosystem eco).

(** [PackageSpec::parse] *)
Definition spec_parse (ecosystem name version : string) : result RelayError PackageSpec :=
  eco ← parse_ecosystem ecosystem;
  _ ← validate_package_name name;
  _ ← match non_empty version with Some v => validate_package_version v | None => Ok tt end;
  if bool_decide (eco = Crates) && bool_decide (non_empty version = None) then Err ReCratesVersion
  else Ok {| ps_ecosystem := eco; ps_name := name; ps_version := non_empty version |}.

Definition ecosystem_tag (e : Ecosystem) : string :=
  match e with Pypi => "pypi" | Npm => "npm" | Crates => "crates" end.

(** [PackageSpec::encode] *)
Definition spec_encode (s : PackageSpec) : string :=
  match ps_version s with
  | Some version => ecosystem_tag (ps_ecosystem s) +:+ ":" +:+ ps_name s +:+ "@" +:+ version
  | None => ecosystem_tag (ps_ecosystem s) +:+ ":" +:+ ps_name s
  end.

(** [PackageSpec::decode] *)
Definition spec_decode (encoded : string) : result RelayError PackageSpec :=
  '(eco, rest) ← ok_or ReSpec (split_once x3a (str_bytes encoded));
  let '(name, version) :=
    match rsplit_once x40 rest with
    | Some (name, version) => if negb (bool_decide (name = [])) then (name, version) else (rest, [])
    | None => (rest, [])
    end in
  spec_parse (bytes_str eco) (bytes_str name) (bytes_str version).

(** * Addresses *)

Definition v4_octet (ip : Z) (i : Z) : Z := Z.land (Z.shiftr ip (8 * (3 - i))) 255.

Definition v4_is_loopback (ip : Z) : bool := v4_octet ip 0 =? 127.
Definition v4_is_multicast (ip : Z) : bool := (224 <=? v4_octet ip 0) && (v4_octet ip 0 <=? 239).
Definition v4_is_private (ip : Z) : bool :=
  (v4_octet ip 0 =? 10)
  || ((v4_octet ip 0 =? 172) && (16 <=? v4_octet ip 1) && (v4_octet ip 1 <=? 31))
  || ((v4_octet ip 0 =? 192) && (v4_octet ip 1 =? 168)).
Definition v4_is_link_local (ip : Z) : bool := (v4_octet ip 0 =? 169) && (v4_octet ip 1 =? 254).

(** The first 16-bit segment of an IPv6 address. *)
Definition v6_segment0 (ip : Z) : Z := Z.shiftr ip 112.

Definition is_unspecified (ip : IpAddr) : bool := match ip with V4 a | V6 a => a =? 0 end.
Definition is_multicast (ip : IpAddr) : bool :=
  match ip with V4 a => v4_is_multicast a | V6 a => Z.land (v6_segment0 a) 0xff00 =? 0xff00 end.
Definition is_loopback (ip : IpAddr) : bool :=
  match ip with V4 a => v4_is_loopback a | V6 a => a =? 1 end.

Definition is_private_ip (ip : IpAddr) : bool :=
  match ip with
  | V4 a => v4_is_private a || v4_is_link_local a
  | V6 a => (Z.land (v6_segment0 a) 0xfe00 =? 0xfc00) || (Z.land (v6_segment0 a) 0xffc0 =? 0xfe80)
  end.

(** The test of [resolve_guard]. *)
Definition ip_disallowed (allow_loopback : bool) (ip : IpAddr) : bool :=
  is_unspecified ip || is_multicast ip || (negb allow_loopback && is_loopback ip)
  || (negb allow_loopback && is_private_ip ip).

(** * URLs

    [reqwest::Url] and name resolution are parameters. *)
Class UrlLib := {
  Url : Type;
  url_parse : string -> option Url;
  url_join : Url -> string -> option Url;
  url_scheme : Url -> string;
  url_host_str : Url -> option string;
  url_port_or_known_default : Url -> option Z;
  url_string : Url -> string;
  (** [(host, port).to_socket_addrs()], as it answers the call at hand *)
  to_socket_addrs : string -> Z -> option (list IpAddr)
}.

Section urls.
Context `{U : UrlLib}.

(** The loop over the resolved addresses. *)
Fixpoint guard_addrs (allow_loopback : bool) (addrs : list IpAddr) : result RelayError (list IpAddr) :=
  match addrs with
  | [] => Ok []
  | ip :: addrs' =>
      if ip_disallowed allow_loopback ip then Err ReDisallowed
      else validated ← guard_addrs allow_loopback addrs'; Ok (ip :: validated)
  end.

Definition resolve_guard (parsed : Url) (allow_loopback : bool) : result RelayError (list IpAddr) :=
  host ← ok_or ReMissingHost (url_host_str parsed);
  port ← ok_or ReMissingPort (url_port_or_known_default parsed);
  addrs ← ok_or ReResolve (to_socket_addrs host port);
  validated ← guard_addrs allow_loopback addrs;
  if bool_decide (length validated = 0%nat) then Err ReNoAddress else Ok validated.

Definition validate_public_url (url : string) (allow_loopback : bool) : result RelayError unit :=
  parsed ← ok_or ReBadUrl (url_parse url);
  if bool_decide (url_scheme parsed = "http"%string) || bool_decide (url_scheme parsed = "https"%string)
  then _ ← resolve_guard parsed allow_loopback; Ok tt
  else Err (ReScheme (url_scheme parsed)).

Definition validate_git_url (url : string) (allow_loopback : bool) : result RelayError unit :=
  parsed ← ok_or ReBadUrl (url_parse url);
  if bool_decide (url_scheme parsed = "http"%string) || bool_decide (url_scheme parsed = "https"%string)
     || bool_decide (url_scheme parsed = "git"%string)
  then _ ← resolve_guard parsed allow_loopback; Ok tt
  else Err (ReScheme (url_scheme parsed)).

(** [validate_and_pin]: the addresses the request's client is pinned to. *)
Definition validate_and_pin (url : string) (allow_loopback : bool) : result RelayError (list IpAddr * Url) :=
  parsed ← ok_or ReBadUrl (url_parse url);
  if bool_decide (url_scheme parsed = "http"%string) || bool_decide (url_scheme parsed = "https"%string)
  then
    addrs ← resolve_guard parsed allow_loopback;
    _ ← ok_or ReMissingHost (url_host_str parsed);
    Ok (addrs, parsed)
  else Err (ReScheme (url_scheme parsed)).

(** The redirect policy of [relay_client_defaults]: whether hop number
    [previous] to [url] is followed. *)
Definition redirect_followed (allow_loopback : bool) (previous : nat) (url : Url) : bool :=
  if (5 <=? previous)%nat then false else is_ok (resolve_guard url allow_loopback).

Definition crates_download_url (dl_path : string) : result RelayError string :=
  base ← ok_or ReBadUrl (url_parse "https://crates.io/");
  joined ← ok_or ReBadUrl (url_join base dl_path);
  host ← ok_or ReMissingHost (url_host_str joined);
  if bool_decide (host = "crates.io"%string) || bool_decide (host = "static.crates.io"%string)
  then Ok (url_string joined) else Err ReRegistryHost.

Definition REGISTRY_HOSTS : list string := ["pypi.org"; "registry.npmjs.org"; "crates.io"].

Definition assert_registry_host (url : string) : result RelayError unit :=
  parsed ← ok_or ReBadUrl (url_parse url);
  host ← ok_or ReMissingHost (url_host_str parsed);
  if existsb (fun allowed => eq_ignore_ascii_case host allowed) REGISTRY_HOSTS
  then Ok tt else Err ReRegistryHost.

End urls.

(** * Digests *)

Inductive ExpectedDigest := DigestNone | DigestSha256 (hex : string) | DigestSha512 (b : bytes).

Section digests.
Context `{C : Crypto}.

Definition hex_string (b : bytes) : string := bytes_str (hex_encode b).

(** [ExpectedDigest::verify] *)
Definition digest_verify (d : ExpectedDigest) (body : bytes) : result RelayError unit :=
  match d with
  | DigestNone => Err ReNoDigest
  | DigestSha256 expected =>
      if eq_ignore_ascii_case (hex_string (sha256 body)) expected then Ok tt else Err ReDigest
  | DigestSha512 expected =>
      if bool_decide (sha512 body = expected) then Ok tt else Err ReDigest
  end.

(** [split_whitespace]: maximal runs without white space. *)
Fixpoint words (fuel : nat) (acc b : bytes) : list bytes :=
  match fuel with
  | O => []
  | S fuel' =>
      match b with
      | [] => if bool_decide (acc = []) then [] else [acc]
      | x :: b' =>
          match strip_any ws_chars b with
          | Some rest => if bool_decide (acc = []) then words fuel' [] rest else acc :: words fuel' [] rest
          | None => words fuel' (acc ++ [x]) b'
          end
      end
  end.

Definition split_whitespace (s : string) : list bytes :=
  words (S (length (str_bytes s))) [] (str_bytes s).

Definition parse_sri_sha512 (integrity : string) : option bytes :=
  encoded ← list_find (fun t => is_Some (strip_prefix (str_bytes "sha512-") t)) (split_whitespace integrity)
              ≫= (fun p => strip_prefix (str_bytes "sha512-") p.2);
  decoded ← b64_decode (bytes_str encoded);
  if (length decoded =? 64)%nat then Some decoded else None.

(** [relay_job_id] *)
Definition relay_job_id (kid : KeyId) (source : string) (now_ms : Z) : string :=
  bytes_str (take 24 (hex_encode (sha256 (kid ++ str_bytes source ++ be_bytes 8 now_ms)))).

End digests.
