(* ===== verification/RelayEngine.v ===== *)
(** The content-relay engine: [ghostbro-server/src/relay.rs].

    The spool directory is a map from client directories (named by the hex key
    id) to the files of their [jobs] and [objects] directories, beside the files
    elsewhere on the disk.  A path made from a job id that a client sends is
    resolved to the file it denotes, wherever that is; the names of jobs the
    server made itself stay in their directory.  Clock readings and the outcomes
    of file operations are arguments; HTTP, [git], JSON and TOML are parameters. *)

From S2P Require Import Prelude Text NetAddr Protocol Crypto Keys Fs RelayWire.

(** * Data *)

Record RelayConfig := {
  spool_dir : string;
  job_ttl_ms : Z;
  max_jobs_per_client : Z;
  max_bytes_per_client : Z;
  max_object_len : Z;
  worker_count : Z;
  reap_interval_ms : Z;
  fetch_timeout_ms : Z;
  git_timeout_ms : Z;
  allow_loopback : bool
}.

Definition relay_config_default : RelayConfig := {|
  spool_dir := "/var/lib/ghostbro/relay"; job_ttl_ms := 24 * 60 * 60 * 1000;
  max_jobs_per_client := 64; max_bytes_per_client := 256 * 1024 * 1024;
  max_object_len := 64 * 1024 * 1024; worker_count := 4; reap_interval_ms := 60000;
  fetch_timeout_ms := 20000; git_timeout_ms := 120000; allow_loopback := false |}.

(** [with_env_overrides]: the two environment variables, if set. *)
Definition with_env_overrides (c : RelayConfig) (env_spool : option string) (env_loopback : option string)
    : RelayConfig :=
  {| spool_dir := default (spool_dir c) env_spool; job_ttl_ms := job_ttl_ms c;
     max_jobs_per_client := max_jobs_per_client c; max_bytes_per_client := max_bytes_per_client c;
     max_object_len := max_object_len c; worker_count := worker_count c;
     reap_interval_ms := reap_interval_ms c; fetch_timeout_ms := fetch_timeout_ms c;
     git_timeout_ms := git_timeout_ms c;
     allow_loopback := match env_loopback with Some _ => true | None => allow_loopback c end |}.

Definition RELAY_MAX_URL_LEN : Z := 2048.
Definition RELAY_MAX_DOWNLOAD_CHUNK : Z := 16 * 1024 - 64.

Definition JOB_STATUS_QUEUED : string := "queued".
Definition JOB_STATUS_RUNNING : string := "running".
Definition JOB_STATUS_COMPLETE : string := "complete".
Definition JOB_STATUS_FAILED : string := "failed".

Record RelayJobMetadata := {
  job_id : string;
  kind : string;
  status : string;
  source : string;
  normalize : bool;
  http_status : option Z;
  content_type : option string;
  body_len : Z;
  normalized_len : option Z;
  sha256_hex : option string;
  error : option string;
  created_at_ms : Z;
  updated_at_ms : Z;
  expires_at_ms : Z
}.

Record JobRef := { jr_key_id_hex : string; jr_job_id : string }.
#[global] Instance JobRef_eq_dec : EqDecision JobRef.
Proof. solve_decision. Defined.

Record JobOutcome := {
  jo_body : bytes;
  jo_http_status : option Z;
  jo_content_type : option string
}.

(** [toml] on job metadata. *)
Class RelayToml := {
  toml_meta_encode : RelayJobMetadata -> option string;
  toml_meta_decode : string -> option RelayJobMetadata
}.

(** TOML integers are signed 64-bit. *)
Definition toml_int (z : Z) : Prop := 0 <= z <= 2 ^ 63 - 1.

Definition meta_fits (m : RelayJobMetadata) : Prop :=
  toml_int (body_len m) /\ toml_int (default 0 (normalized_len m)) /\ toml_int (created_at_ms m) /\
  toml_int (updated_at_ms m) /\ toml_int (expires_at_ms m).

#[global] Instance meta_fits_dec m : Decision (meta_fits m).
Proof. unfold meta_fits, toml_int. apply _. Defined.

Class RelayTomlLaws (T : RelayToml) : Prop := {
  toml_meta_roundtrip : forall m s, toml_meta_encode m = Some s -> toml_meta_decode s = Some m;
  toml_meta_total : forall m, meta_fits m -> is_Some (toml_meta_encode m);
  toml_meta_decode_fits : forall m s, toml_meta_decode s = Some m -> meta_fits m
}.

(** The files of one client. *)
Record client_store := {
  cs_jobs : gmap string string;
  cs_objects : gmap string bytes
}.

Definition no_files : client_store := {| cs_jobs := ∅; cs_objects := ∅ |}.

(** The spool, the files outside the jobs and objects directories, by their
    absolute paths, and the worker queue. *)
Record relay_state := {
  rs_spool : gmap string client_store;
  rs_outside : gmap (list bytes) bytes;
  rs_queue : list JobRef
}.

Definition client_files (st : relay_state) (dir : string) : client_store := default no_files (rs_spool st !! dir).
Definition put_files (st : relay_state) (dir : string) (cs : client_store) : relay_state :=
  {| rs_spool := <[dir := cs]> (rs_spool st); rs_outside := rs_outside st; rs_queue := rs_queue st |}.
Definition push_job (st : relay_state) (j : JobRef) : relay_state :=
  {| rs_spool := rs_spool st; rs_outside := rs_outside st; rs_queue := rs_queue st ++ [j] |}.

(** File names inside the [jobs] and [objects] directories. *)
Definition metadata_file (id : string) : string := id +:+ ".toml".
Definition primary_file (id : string) : string := id +:+ ".body".
Definition normalized_file (id : string) : string := id +:+ ".md".

(** * Paths

    The files a path denotes, [..] taken component by component: the directories
    on the way exist, and there are no symbolic links in the spool. *)

Definition path_component (c : bytes) : list bytes := if bool_decide (c = []) || bool_decide (c = [dot]) then [] else [c].

Fixpoint path_components (acc b : bytes) : list bytes :=
  match b with
  | [] => path_component acc
  | x :: b => if bool_decide (x = slash) then path_component acc ++ path_components [] b else path_components (acc ++ [x]) b
  end.

(** The directories walked through, the innermost first. *)
Fixpoint walk (at_ : list bytes) (cs : list bytes) : list bytes :=
  match cs with
  | [] => at_
  | c :: cs => walk (if bool_decide (c = [dot; dot]) then tail at_ else c :: at_) cs
  end.

Definition resolve_path (path : string) : list bytes := reverse (walk [] (path_components [] (str_bytes path))).

Fixpoint strip_components (base path : list bytes) : option (list bytes) :=
  match base, path with
  | [], _ => Some path
  | c :: base, d :: path => if bool_decide (c = d) then strip_components base path else None
  | _ :: _, [] => None
  end.

Inductive place :=
| InJobs (dir file : string)
| InObjects (dir file : string)
| Outside (path : list bytes).

Definition place_of (spool path : string) : place :=
  let p := resolve_path path in
  match strip_components (resolve_path spool) p with
  | Some [dir; sub; file] =>
      if bool_decide (sub = str_bytes "jobs") then InJobs (bytes_str dir) (bytes_str file)
      else if bool_decide (sub = str_bytes "objects") then InObjects (bytes_str dir) (bytes_str file)
      else Outside p
  | _ => Outside p
  end.

(** [fs::read] and [fs::remove_file], where they succeed. *)
Definition read_place (st : relay_state) (p : place) : option bytes :=
  match p with
  | InJobs dir file => str_bytes <$> cs_jobs (client_files st dir) !! file
  | InObjects dir file => cs_objects (client_files st dir) !! file
  | Outside path => rs_outside st !! path
  end.

Definition remove_place (st : relay_state) (p : place) : relay_state :=
  let change f dir := {| rs_spool := alter f dir (rs_spool st); rs_outside := rs_outside st; rs_queue := rs_queue st |} in
  match p with
  | InJobs dir file => change (fun cs => {| cs_jobs := delete file (cs_jobs cs); cs_objects := cs_objects cs |}) dir
  | InObjects dir file => change (fun cs => {| cs_jobs := cs_jobs cs; cs_objects := delete file (cs_objects cs) |}) dir
  | Outside path => {| rs_spool := rs_spool st; rs_outside := delete path (rs_outside st); rs_queue := rs_queue st |}
  end.

(** What the system decides while one request or one phase of a job runs: the
    clock as [client_usage] and as its caller read it, and whether a worker's
    reading of the metadata, the directories, the file (or temporary file), the normalized
    artifact, the rename and the removal succeed. *)
Record relay_io := {
  rio_now_usage : option Z;
  rio_now : option Z;
  rio_read : bool;
  rio_dirs : bool;
  rio_write : bool;
  rio_normalized : bool;
  rio_rename : bool;
  rio_remove : bool
}.

Section engine.
Context `{C : Crypto} `{U : UrlLib} {T : RelayToml}.
Context (config : RelayConfig).

(** * Storage *)

Definition unix_timestamp_ms (reading : option Z) : result RelayError Z :=
  ms ← ok_or ReClock reading; Ok (wrap 64 ms).

Definition read_metadata (cs : client_store) (file : string) : result RelayError RelayJobMetadata :=
  contents ← ok_or ReIo (cs_jobs cs !! file);
  ok_or ReMetadata (toml_meta_decode contents).

(** The paths of a client's files. *)
Definition client_dir (kid : KeyId) : string := path_join (spool_dir config) (key_id_hex kid).
Definition metadata_path (client_dir id : string) : place :=
  place_of (spool_dir config) (path_join (path_join client_dir "jobs") (metadata_file id)).
Definition primary_object_path (client_dir id : string) : place :=
  place_of (spool_dir config) (path_join (path_join client_dir "objects") (primary_file id)).
Definition normalized_object_path (client_dir id : string) : place :=
  place_of (spool_dir config) (path_join (path_join client_dir "objects") (normalized_file id)).

(** [read_metadata] by its path. *)
Definition read_metadata_at (st : relay_state) (p : place) : result RelayError RelayJobMetadata :=
  contents ← ok_or ReIo (read_place st p);
  ok_or ReMetadata (toml_meta_decode (bytes_str contents)).

(** [write_metadata]: a temporary file, then a rename. *)
Definition write_metadata (io : relay_io) (cs : client_store) (m : RelayJobMetadata)
    : client_store * result RelayError unit :=
  let path := metadata_file (job_id m) in
  let tmp := path +:+ ".tmp" in
  match toml_meta_encode m with
  | None => (cs, Err ReMetadata)
  | Some contents =>
      if negb (rio_write io) then (cs, Err ReIo)
      else if negb (rio_rename io)
      then ({| cs_jobs := <[tmp := contents]> (cs_jobs cs); cs_objects := cs_objects cs |}, Err ReIo)
      else ({| cs_jobs := <[path := contents]> (delete tmp (cs_jobs cs)); cs_objects := cs_objects cs |}, Ok tt)
  end.

(** Entries of the jobs directory with the extension [toml]. *)
Definition toml_entries (cs : client_store) : list (string * string) :=
  filter (fun e => extension e.1 = Some "toml"%string) (map_to_list (cs_jobs cs)).

(** The metadata that can be read, skipping the rest. *)
Definition readable_jobs (cs : client_store) : list RelayJobMetadata :=
  omap (fun e => toml_meta_decode e.2) (toml_entries cs).

(** [client_usage]: the number of jobs not expired, and their bytes. *)
Definition usage_at (cs : client_store) (now : Z) : Z * Z :=
  let live := filter (fun m => now < expires_at_ms m) (readable_jobs cs) in
  (blen live, foldr (fun m acc => wrap 64 (body_len m + default 0 (normalized_len m) + acc)) 0 live).

Definition client_usage (reading : option Z) (st : relay_state) (dir : string) : result RelayError (Z * Z) :=
  match rs_spool st !! dir with
  | None => Ok (0, 0)
  | Some cs => now ← unix_timestamp_ms reading; Ok (usage_at cs now)
  end.

(** * Requests *)

Definition enqueue (io : relay_io) (st : relay_state) (kid : KeyId) (k src : string) (norm : bool)
    : relay_state * result RelayError bytes :=
  let dir := key_id_hex kid in
  let cs := client_files st dir in
  match client_usage (rio_now_usage io) st dir with
  | Err e => (st, Err e)
  | Ok (job_count, byte_total) =>
      if max_jobs_per_client config <=? job_count
      then (st, Ok (relay_status_response GHOST_RELAY_STATUS_QUOTA
             ("job quota reached (" +:+ dec job_count +:+ " of " +:+ dec (max_jobs_per_client config) +:+ ")")))
      else if max_bytes_per_client config <=? byte_total
      then (st, Ok (relay_status_response GHOST_RELAY_STATUS_QUOTA "storage quota reached"))
      else if negb (rio_dirs io) then (st, Err ReIo)
      else
        match unix_timestamp_ms (rio_now io) with
        | Err e => (put_files st dir cs, Err e)
        | Ok now =>
            let id := relay_job_id kid src now in
            let metadata := {|
              job_id := id; kind := k; status := JOB_STATUS_QUEUED; source := src; normalize := norm;
              http_status := None; content_type := None; body_len := 0; normalized_len := None;
              sha256_hex := None; error := None; created_at_ms := now; updated_at_ms := now;
              expires_at_ms := wrap 64 (now + job_ttl_ms config) |} in
            match write_metadata io cs metadata with
            | (cs, Err e) => (put_files st dir cs, Err e)
            | (cs, Ok _) =>
                (push_job (put_files st dir cs) {| jr_key_id_hex := dir; jr_job_id := id |},
                 Ok (relay_bytes_response GHOST_RELAY_STATUS_OK (str_bytes id)))
            end
        end
  end.

(** Run a parser of the request, then an operation on the state. *)
Definition with_request {A} (st : relay_state) (r : result RelayError A)
    (f : A -> relay_state * result RelayError bytes) : relay_state * result RelayError bytes :=
  match r with Ok a => f a | Err e => (st, Err e) end.

Definition submit_web (io : relay_io) (st : relay_state) (kid : KeyId) (c : RelayCursor)
    : relay_state * result RelayError bytes :=
  with_request st
    ('(url, c) ← read_string RELAY_MAX_URL_LEN c;
     '(flag, _) ← read_optional_u8 c;
     _ ← validate_public_url url (allow_loopback config);
     Ok (url, negb (default 0 flag =? 0)))
    (fun '(url, norm) => enqueue io st kid "web_fetch" url norm).

Definition submit_git (io : relay_io) (st : relay_state) (kid : KeyId) (c : RelayCursor)
    : relay_state * result RelayError bytes :=
  with_request st
    ('(url, _) ← read_string RELAY_MAX_URL_LEN c;
     _ ← validate_git_url url (allow_loopback config);
     Ok url)
    (fun url => enqueue io st kid "git_mirror" url false).

Definition submit_package (io : relay_io) (st : relay_state) (kid : KeyId) (c : RelayCursor)
    : relay_state * result RelayError bytes :=
  with_request st
    ('(ecosystem, c) ← read_string 32 c;
     '(name, c) ← read_string 256 c;
     '(version, _) ← read_string 128 c;
     spec_parse ecosystem name version)
    (fun spec => enqueue io st kid "package" (spec_encode spec) false).

(** Byte-wise order of strings, and [sort] on a vector of them. *)
Fixpoint bytes_leb (a b : bytes) : bool :=
  match a, b with
  | [], _ => true
  | _ :: _, [] => false
  | x :: a', y :: b' => if b2z x <? b2z y then true else if b2z y <? b2z x then false else bytes_leb a' b'
  end.

Fixpoint insert_row (r : bytes) (l : list bytes) : list bytes :=
  match l with
  | [] => [r]
  | x :: l' => if bytes_leb r x then r :: l else x :: insert_row r l'
  end.

Definition sort_rows (l : list bytes) : list bytes := foldr insert_row [] l.

Fixpoint join_rows (l : list bytes) : bytes :=
  match l with
  | [] => []
  | [r] => r
  | r :: l' => r ++ [x0a] ++ join_rows l'
  end.

Definition tab : string := bytes_str [x09].

Definition list_row (m : RelayJobMetadata) : bytes :=
  str_bytes (job_id m +:+ tab +:+ kind m +:+ tab +:+ status m +:+ tab
    +:+ dec (default 0 (http_status m)) +:+ tab +:+ dec (body_len m) +:+ tab
    +:+ (match normalized_len m with Some _ => "1" | None => "0" end) +:+ tab +:+ source m).

(** [RelayInner::list] *)
Definition relay_list (io : relay_io) (st : relay_state) (kid : KeyId) : result RelayError bytes :=
  let cs := client_files st (key_id_hex kid) in
  now ← unix_timestamp_ms (rio_now io);
  metas ← result_map (fun e => ok_or ReMetadata (toml_meta_decode e.2)) (toml_entries cs);
  let live := filter (fun m => now < expires_at_ms m) metas in
  Ok (relay_bytes_response GHOST_RELAY_STATUS_OK (join_rows (sort_rows (map list_row live)))).

(** The chunk of an object a download returns. *)
Definition download_chunk (body : bytes) (offset max_len : Z) : bytes :=
  let total := blen body in
  let start := Z.min offset total in
  let end_ := Z.min total (start + max_len) in
  relay_header GHOST_RELAY_STATUS_OK ++ [z2b (if total <=? end_ then 1 else 0)]
  ++ be_bytes 4 (wrap 32 total) ++ be_bytes 4 (wrap 32 (end_ - start))
  ++ slice (Z.to_nat start) (Z.to_nat end_) body.

(** [RelayInner::download] *)
Definition relay_download (io : relay_io) (st : relay_state) (kid : KeyId) (c : RelayCursor)
    : result RelayError bytes :=
  '(id, c) ← read_string 128 c;
  _ ← validate_job_id id;
  '(offset, c) ← read_u32 c;
  '(requested, c) ← read_u16 c;
  let max_len := Z.min requested RELAY_MAX_DOWNLOAD_CHUNK in
  '(artifact, _) ← read_optional_u8 c;
  let artifact := default GHOST_RELAY_ARTIFACT_PRIMARY artifact in
  let dir := client_dir kid in
  match read_place st (metadata_path dir id) with
  | None => Ok (relay_status_response GHOST_RELAY_STATUS_NOT_FOUND "job not found")
  | Some _ =>
      m ← read_metadata_at st (metadata_path dir id);
      now ← unix_timestamp_ms (rio_now io);
      if expires_at_ms m <=? now
      then Ok (relay_status_response GHOST_RELAY_STATUS_NOT_FOUND "job expired")
      else if bool_decide (status m = JOB_STATUS_QUEUED) || bool_decide (status m = JOB_STATUS_RUNNING)
      then Ok (relay_status_response GHOST_RELAY_STATUS_PENDING "job not ready")
      else if bool_decide (status m = JOB_STATUS_FAILED)
      then Ok (relay_status_response GHOST_RELAY_STATUS_FAILED (default "job failed"%string (error m)))
      else if (artifact =? GHOST_RELAY_ARTIFACT_NORMALIZED) && bool_decide (normalized_len m = None)
      then Ok (relay_status_response GHOST_RELAY_STATUS_NOT_FOUND "no normalized artifact for job")
      else
        let object := if artifact =? GHOST_RELAY_ARTIFACT_NORMALIZED then normalized_object_path dir id
                      else primary_object_path dir id in
        body ← ok_or ReIo (read_place st object);
        Ok (download_chunk body offset max_len)
  end.

(** [RelayInner::delete] *)
Definition relay_delete (io : relay_io) (st : relay_state) (kid : KeyId) (c : RelayCursor)
    : relay_state * result RelayError bytes :=
  with_request st
    ('(id, _) ← read_string 128 c; _ ← validate_job_id id; Ok id)
    (fun id =>
      let dir := client_dir kid in
      match read_place st (metadata_path dir id) with
      | None => (st, Ok (relay_status_response GHOST_RELAY_STATUS_NOT_FOUND "job not found"))
      | Some _ =>
          let st := remove_place (remove_place st (primary_object_path dir id)) (normalized_object_path dir id) in
          if negb (rio_remove io) then (st, Err ReIo)
          else (remove_place st (metadata_path dir id), Ok (relay_status_response GHOST_RELAY_STATUS_OK "deleted"))
      end).

(** [RelayInner::dispatch] *)
Definition dispatch_inner (io : relay_io) (st : relay_state) (kid : KeyId) (request : bytes)
    : relay_state * result RelayError bytes :=
  match request with
  | proto :: version :: op :: rest =>
      if negb (b2z proto =? PROTOCOL_GHOST_RELAY) || negb (b2z version =? GHOST_RELAY_VERSION)
      then (st, Ok (relay_status_response GHOST_RELAY_STATUS_INVALID "invalid relay header"))
      else
        let cursor := cursor_new rest in
        let op := b2z op in
        if op =? GHOST_RELAY_OP_SUBMIT_WEB then submit_web io st kid cursor
        else if op =? GHOST_RELAY_OP_SUBMIT_GIT then submit_git io st kid cursor
        else if op =? GHOST_RELAY_OP_SUBMIT_PACKAGE then submit_package io st kid cursor
        else if op =? GHOST_RELAY_OP_LIST then (st, relay_list io st kid)
        else if op =? GHOST_RELAY_OP_DOWNLOAD then (st, relay_download io st kid cursor)
        else if op =? GHOST_RELAY_OP_DELETE then relay_delete io st kid cursor
        else (st, Ok (relay_status_response GHOST_RELAY_STATUS_UNSUPPORTED "unsupported relay operation"))
  | _ => (st, Ok (relay_status_response GHOST_RELAY_STATUS_INVALID "invalid relay header"))
  end.

(** [RelayEngine::dispatch]: an internal error becomes a response. *)
Definition dispatch (io : relay_io) (st : relay_state) (kid : KeyId) (request : bytes) : relay_state * bytes :=
  match dispatch_inner io st kid request with
  | (st, Ok response) => (st, response)
  | (st, Err _) => (st, relay_status_response GHOST_RELAY_STATUS_FAILED "internal relay error")
  end.

End engine.
