(* ===== verification/RelayJobs.v ===== *)
(** The relay's background work: [ghostbro-server/src/relay.rs], job processing,
    package resolution, expiry and recovery. *)

From S2P Require Import Prelude Text NetAddr Normalize Protocol Crypto Keys Fs RelayWire RelayEngine.

(** * Parameters: the outside world *)

#[warnings="-register-all"]
Inductive json :=
| JNull
| JBool (b : bool)
| JNumber
| JString (s : string)
| JArray (l : list json)
| JObject (l : list (string * json)).

Record http_response := {
  hr_status : Z;
  hr_content_type : option string;
  hr_content_length : option Z;
  hr_body : option bytes
}.

(** What one request meets: a response, or a redirect to a URL. *)
Inductive http_answer := HttpResponse (r : http_response) | HttpRedirect (location : string).

(** One request to a URL, which goes to the addresses the client is pinned to
    for this host, or, when it is pinned to none, to those it finds itself at that
    time; the same with a header that asks for JSON; [git clone] and [git bundle]
    of a source, with the size of the bundle and what reading it yields;
    [serde_json]. *)
Class RelayWorld := {
  http_hop : string -> option (list IpAddr) -> option http_answer;
  http_hop_json : string -> option (list IpAddr) -> option http_answer;
  git_bundle : string -> option (Z * option bytes);
  json_parse : bytes -> option json;
  (** [error.to_string()] *)
  error_text : RelayError -> string
}.

Definition json_get (key : string) (j : json) : option json :=
  match j with
  | JObject l => snd <$> List.find (fun e => bool_decide (e.1 = key)) l
  | _ => None
  end.
Definition as_str (j : json) : option string := match j with JString s => Some s | _ => None end.
Definition as_array (j : json) : option (list json) := match j with JArray l => Some l | _ => None end.
Definition get_str (key : string) (j : json) : option string := json_get key j ≫= as_str.

Record ResolvedPackage := { rp_url : string; rp_digest : ExpectedDigest }.

Section jobs.
Context `{C : Crypto} `{U : UrlLib} `{T : RelayToml} `{W : RelayWorld}.
Context (config : RelayConfig).

(** * Fetching *)

Section requests.
Context (hop : string -> option (list IpAddr) -> option http_answer).

(** A client pinned to [addrs] for [host], with the redirect policy of
    [relay_client_defaults]; [previous] URLs have been requested before the next
    redirect, and the policy follows none from the fifth on. *)
Definition pinned_for (host : string) (addrs : list IpAddr) (url : Url) : option (list IpAddr) :=
  if bool_decide (url_host_str url = Some host) then Some addrs else None.

Fixpoint http_follow (host : string) (addrs : list IpAddr) (previous todo : nat) (url : string) : option http_response :=
  match todo with
  | O => None
  | S todo =>
      parsed ← url_parse url;
      answer ← hop url (pinned_for host addrs parsed);
      match answer with
      | HttpResponse r => Some r
      | HttpRedirect location =>
          next ← url_parse location;
          if redirect_followed (allow_loopback config) previous next
          then http_follow host addrs (S previous) todo location else None
      end
  end.

(** [client.get(url).send()], the client being that of [validate_and_pin]. *)
Definition http_send (url : string) (addrs : list IpAddr) (parsed : Url) : option http_response :=
  host ← url_host_str parsed; http_follow host addrs 1 5 url.

End requests.

Definition http_get_bytes (url : string) (max_len : Z) : result RelayError (Z * option string * bytes) :=
  '(addrs, parsed) ← validate_and_pin url (allow_loopback config);
  response ← ok_or ReFetch (http_send http_hop url addrs parsed);
  if match hr_content_length response with Some len => max_len <? len | None => false end then Err ReTooLarge
  else
    body ← ok_or ReFetch (hr_body response);
    if max_len <? blen body then Err ReTooLarge
    else Ok (hr_status response, hr_content_type response, body).

Definition get_json (url : string) : result RelayError json :=
  _ ← assert_registry_host url;
  '(addrs, parsed) ← validate_and_pin url (allow_loopback config);
  response ← ok_or ReFetch (http_send http_hop_json url addrs parsed);
  body ← ok_or ReFetch (hr_body response);
  if negb ((200 <=? hr_status response) && (hr_status response <? 300)) then Err (ReHttp (hr_status response))
  else ok_or ReRegistryJson (json_parse body).

(** * Package resolution *)

Definition resolve_pypi (spec : PackageSpec) : result RelayError ResolvedPackage :=
  let url := match ps_version spec with
             | Some version => "https://pypi.org/pypi/" +:+ ps_name spec +:+ "/" +:+ version +:+ "/json"
             | None => "https://pypi.org/pypi/" +:+ ps_name spec +:+ "/json"
             end in
  j ← get_json url;
  urls ← ok_or (ReMissingField "urls") (json_get "urls" j ≫= as_array);
  chosen ← ok_or (ReMissingField "artifacts")
    (match List.find (fun e => bool_decide (get_str "packagetype" e = Some "bdist_wheel"%string)) urls with
     | Some e => Some e
     | None => head urls
     end);
  download ← ok_or (ReMissingField "url") (get_str "url" chosen);
  let digest := match json_get "digests" chosen ≫= get_str "sha256" with
                | Some value => DigestSha256 value
                | None => DigestNone
                end in
  Ok {| rp_url := download; rp_digest := digest |}.

Definition resolve_npm (spec : PackageSpec) : result RelayError ResolvedPackage :=
  j ← get_json ("https://registry.npmjs.org/" +:+ ps_name spec);
  version ← (match ps_version spec with
             | Some version => Ok version
             | None => ok_or (ReMissingField "dist-tags.latest") (json_get "dist-tags" j ≫= get_str "latest")
             end : result RelayError string);
  dist ← ok_or (ReMissingField "dist") ((json_get "versions" j ≫= json_get version) ≫= json_get "dist");
  tarball ← ok_or (ReMissingField "tarball") (get_str "tarball" dist);
  let digest := match get_str "integrity" dist ≫= parse_sri_sha512 with
                | Some b => DigestSha512 b
                | None => DigestNone
                end in
  Ok {| rp_url := tarball; rp_digest := digest |}.

Definition resolve_crates (spec : PackageSpec) : result RelayError ResolvedPackage :=
  version ← ok_or ReCratesVersion (ps_version spec);
  j ← get_json ("https://crates.io/api/v1/crates/" +:+ ps_name spec +:+ "/" +:+ version);
  version_obj ← ok_or (ReMissingField "version") (json_get "version" j);
  dl_path ← ok_or (ReMissingField "dl_path") (get_str "dl_path" version_obj);
  let digest := match get_str "checksum" version_obj with
                | Some value => DigestSha256 value
                | None => DigestNone
                end in
  url ← crates_download_url dl_path;
  Ok {| rp_url := url; rp_digest := digest |}.

(** [PackageSpec::resolve] *)
Definition spec_resolve (spec : PackageSpec) : result RelayError ResolvedPackage :=
  match ps_ecosystem spec with
  | Pypi => resolve_pypi spec
  | Npm => resolve_npm spec
  | Crates => resolve_crates spec
  end.

(** * The three kinds of job *)

Definition run_web_fetch (m : RelayJobMetadata) : result RelayError JobOutcome :=
  _ ← validate_public_url (source m) (allow_loopback config);
  '(st, ctype, body) ← http_get_bytes (source m) (max_object_len config);
  Ok {| jo_body := body; jo_http_status := Some st; jo_content_type := ctype |}.

Definition run_git_mirror (m : RelayJobMetadata) : result RelayError JobOutcome :=
  _ ← validate_git_url (source m) (allow_loopback config);
  '(bundle_len, contents) ← ok_or ReGit (git_bundle (source m));
  if max_object_len config <? bundle_len then Err ReTooLarge
  else
    body ← ok_or ReGit contents;
    Ok {| jo_body := body; jo_http_status := None;
          jo_content_type := Some "application/x-git-bundle"%string |}.

Definition run_package (m : RelayJobMetadata) : result RelayError JobOutcome :=
  spec ← spec_decode (source m);
  resolved ← spec_resolve spec;
  '(st, ctype, body) ← http_get_bytes (rp_url resolved) (max_object_len config);
  if 400 <=? st then Err (ReHttp st)
  else
    _ ← digest_verify (rp_digest resolved) body;
    Ok {| jo_body := body; jo_http_status := Some st; jo_content_type := ctype |}.

(** The dispatch on the kind in [process_job_inner]. *)
Definition run_job (m : RelayJobMetadata) : result RelayError JobOutcome :=
  if bool_decide (kind m = "web_fetch"%string) then run_web_fetch m
  else if bool_decide (kind m = "git_mirror"%string) then run_git_mirror m
  else if bool_decide (kind m = "package"%string) then run_package m
  else Err (ReKind (kind m)).

(** * Processing

    [process_job_inner] in its three parts: marking the job as running, the
    section under the client's quota lock, and recording the result.  Other
    workers may run between two parts. *)

Definition with_status (m : RelayJobMetadata) (s : string) (now : Z) : RelayJobMetadata :=
  {| job_id := job_id m; kind := kind m; status := s; source := source m; normalize := normalize m;
     http_status := http_status m; content_type := content_type m; body_len := body_len m;
     normalized_len := normalized_len m; sha256_hex := sha256_hex m; error := error m;
     created_at_ms := created_at_ms m; updated_at_ms := now; expires_at_ms := expires_at_ms m |}.

(** Up to the start of the fetch; [None] when there is nothing to do. *)
Definition job_begin (io : relay_io) (st : relay_state) (job : JobRef)
    : relay_state * result RelayError (option RelayJobMetadata) :=
  let dir := jr_key_id_hex job in
  let cs := client_files st dir in
  match (if rio_read io then read_metadata cs (metadata_file (jr_job_id job)) else Err ReIo) with
  | Err _ => (st, Ok None)
  | Ok m =>
      if bool_decide (status m = JOB_STATUS_COMPLETE) then (st, Ok None)
      else
        match unix_timestamp_ms (rio_now io) with
        | Err e => (st, Err e)
        | Ok now =>
            let m := with_status m JOB_STATUS_RUNNING now in
            match write_metadata io cs m with
            | (cs, Err e) => (put_files st dir cs, Err e)
            | (cs, Ok _) => (put_files st dir cs, Ok (Some m))
            end
        end
  end.

(** The section under the quota lock: check, then write the object. *)
Definition job_store (io : relay_io) (st : relay_state) (dir : string) (m : RelayJobMetadata) (o : JobOutcome)
    : relay_state * result RelayError unit :=
  let cs := client_files st dir in
  match client_usage (rio_now_usage io) st dir with
  | Err e => (st, Err e)
  | Ok (_, existing_bytes) =>
      if max_bytes_per_client config <? sat_add 64 existing_bytes (blen (jo_body o)) then (st, Err ReQuota)
      else if max_object_len config <? blen (jo_body o) then (st, Err ReTooLarge)
      else if negb (rio_write io) then (st, Err ReIo)
      else (put_files st dir {| cs_jobs := cs_jobs cs;
              cs_objects := <[primary_file (job_id m) := jo_body o]> (cs_objects cs) |}, Ok tt)
  end.

(** Recording the result, with the optional normalized artifact. *)
Definition job_finish (io : relay_io) (st : relay_state) (dir : string) (m : RelayJobMetadata) (o : JobOutcome)
    : relay_state * result RelayError unit :=
  let cs := client_files st dir in
  let norm := normalize m && is_html (jo_content_type o) (jo_body o) in
  let markdown := normalize_html (jo_body o) in
  if norm && negb (rio_normalized io) then (st, Err ReIo)
  else
    let cs := if norm then {| cs_jobs := cs_jobs cs;
                              cs_objects := <[normalized_file (job_id m) := markdown]> (cs_objects cs) |} else cs in
    match unix_timestamp_ms (rio_now io) with
    | Err e => (put_files st dir cs, Err e)
    | Ok now =>
        let m' := {| job_id := job_id m; kind := kind m; status := JOB_STATUS_COMPLETE; source := source m;
                     normalize := normalize m; http_status := jo_http_status o;
                     content_type := jo_content_type o; body_len := blen (jo_body o);
                     normalized_len := if norm then Some (blen markdown) else normalized_len m;
                     sha256_hex := Some (hex_string (sha256 (jo_body o))); error := None;
                     created_at_ms := created_at_ms m; updated_at_ms := now; expires_at_ms := expires_at_ms m |} in
        match write_metadata io cs m' with
        | (cs, r) => (put_files st dir cs, r)
        end
    end.

(** [process_job_inner] without interference. *)
Definition process_job_inner (io1 io2 io3 : relay_io) (st : relay_state) (job : JobRef)
    : relay_state * result RelayError unit :=
  match job_begin io1 st job with
  | (st, Err e) => (st, Err e)
  | (st, Ok None) => (st, Ok tt)
  | (st, Ok (Some m)) =>
      match run_job m with
      | Err e => (st, Err e)
      | Ok o =>
          match job_store io2 st (jr_key_id_hex job) m o with
          | (st, Err e) => (st, Err e)
          | (st, Ok _) => job_finish io3 st (jr_key_id_hex job) m o
          end
      end
  end.

(** The failure path of [process_job], with what becomes of the write; and as
    the code has it, which does not look at that. *)
Definition job_failure (io : relay_io) (st : relay_state) (job : JobRef) (e : RelayError)
    : relay_state * result RelayError unit :=
  let dir := jr_key_id_hex job in
  let cs := client_files st dir in
  match (if rio_read io then read_metadata cs (metadata_file (jr_job_id job)) else Err ReIo) with
  | Err e => (st, Err e)
  | Ok m =>
      let now := unwrap_or (updated_at_ms m) (unix_timestamp_ms (rio_now io)) in
      let m' := {| job_id := job_id m; kind := kind m; status := JOB_STATUS_FAILED; source := source m;
                   normalize := normalize m; http_status := http_status m; content_type := content_type m;
                   body_len := body_len m; normalized_len := normalized_len m; sha256_hex := sha256_hex m;
                   error := Some (error_text e); created_at_ms := created_at_ms m; updated_at_ms := now;
                   expires_at_ms := expires_at_ms m |} in
      let '(cs, r) := write_metadata io cs m' in
      (put_files st dir cs, r)
  end.

Definition job_fail (io : relay_io) (st : relay_state) (job : JobRef) (e : RelayError) : relay_state :=
  (job_failure io st job e).1.

Definition process_job (io1 io2 io3 io4 : relay_io) (st : relay_state) (job : JobRef) : relay_state :=
  match process_job_inner io1 io2 io3 st job with
  | (st, Ok _) => st
  | (st, Err e) => job_fail io4 st job e
  end.

(** * Maintenance *)

(** What the reaper meets: the clock; how many entries of a client's directory it
    reads before an error of [read_dir] stops it, if one does; and whether a
    file of a client can be removed. *)
Record reap_io := {
  rp_now : option Z;
  rp_stops : string -> option nat;
  rp_removes : string -> string -> bool
}.

(** The removals for one metadata file; their errors are ignored. *)
Definition reap_entry (removes : string -> bool) (now : Z) (cs : client_store) (e : string * string) : client_store :=
  match toml_meta_decode e.2 with
  | None => cs
  | Some m =>
      if expires_at_ms m <=? now
      then
        let remove {A} file (files : gmap string A) := if removes file then delete file files else files in
        {| cs_jobs := remove e.1 (cs_jobs cs);
           cs_objects := remove (normalized_file (job_id m)) (remove (primary_file (job_id m)) (cs_objects cs)) |}
      else cs
  end.

Definition reap_client (io : reap_io) (now : Z) (dir : string) (cs : client_store) : client_store :=
  let entries := toml_entries cs in
  foldl (reap_entry (rp_removes io dir) now) cs (match rp_stops io dir with Some n => take n entries | None => entries end).

(** [reap_expired]: after an error the rest is left. *)
Definition reap_expired (io : reap_io) (st : relay_state) : relay_state * result RelayError unit :=
  match unix_timestamp_ms (rp_now io) with
  | Err e => (st, Err e)
  | Ok now =>
      ({| rs_spool := map_imap (fun dir cs => Some (reap_client io now dir cs)) (rs_spool st);
          rs_outside := rs_outside st; rs_queue := rs_queue st |},
       if bool_decide (map_Forall (fun dir _ => rp_stops io dir = None) (rs_spool st)) then Ok tt else Err ReIo)
  end.

(** [recover_pending]: the jobs sent to the workers again. *)
Definition pending_job (m : RelayJobMetadata) : bool :=
  bool_decide (status m = JOB_STATUS_QUEUED) || bool_decide (status m = JOB_STATUS_RUNNING).

Definition recover_client (dir : string) (cs : client_store) : list JobRef :=
  map (fun m => {| jr_key_id_hex := dir; jr_job_id := job_id m |}) (filter (fun m => pending_job m = true) (readable_jobs cs)).

Definition recover_pending (st : relay_state) : relay_state :=
  {| rs_spool := rs_spool st; rs_outside := rs_outside st;
     rs_queue := rs_queue st ++ (map_to_list (rs_spool st) ≫= fun '(dir, cs) => recover_client dir cs) |}.

End jobs.
