(* ===== verification/Config.v ===== *)
(** Configuration: [ghostbro-server/src/config.rs] and the functions of
    [ghostbro-server/src/main.rs] that read it.

    Parsing of the TOML file is a parameter, which gives the structures with the
    defaults that [serde] fills in. *)

From S2P Require Import Prelude Text NetAddr Protocol Crypto Keys Fs RelayWire RelayEngine.

(** * Structures *)

Record ServerSection := { sv_identity : string }.

Inductive SpaModeConfig := ModeUdp | ModeHttps | ModeBoth.

#[global] Instance SpaModeConfig_eq_dec : EqDecision SpaModeConfig.
Proof. solve_decision. Defined.

Record SpaCommonSection := { sc_time_window : Z; sc_allow_ttl : Z; sc_counter_state : string }.
Record SpaUdpSection := { su_port : Z; su_rate_limit : option Z }.
Record SpaHttpsSection := {
  sh_path : string;
  sh_response_status : option Z;
  sh_trusted_proxy_cidrs : list string
}.
Record SpaSection := {
  sp_mode : SpaModeConfig;
  sp_common : option SpaCommonSection;
  sp_udp : option SpaUdpSection;
  sp_https : option SpaHttpsSection
}.
Record ProxySection := { px_port : Z; px_noise_pattern : string; px_bind : string }.
Record ClientsSection := { cl_authorized_keys : string }.

Inductive DecoyModeConfig := Builtin.

Record DecoySection := {
  ds_mode : option DecoyModeConfig;
  ds_bind : option string;
  ds_webroot : option string;
  ds_tls_cert : option string;
  ds_tls_key : option string
}.
Record LoggingSection := { lg_path : string; lg_level : string }.
Record RelaySection := {
  rs_spool_dir : option string;
  rs_job_ttl : option Z;
  rs_max_jobs_per_client : option Z;
  rs_max_bytes_per_client : option Z;
  rs_max_object_len : option Z;
  rs_workers : option Z;
  rs_fetch_timeout : option Z;
  rs_git_timeout : option Z;
  rs_allow_loopback : bool
}.
Record ServerConfig := {
  cfg_server : ServerSection;
  cfg_spa : SpaSection;
  cfg_proxy : ProxySection;
  cfg_clients : ClientsSection;
  cfg_decoy : option DecoySection;
  cfg_logging : option LoggingSection;
  cfg_relay : option RelaySection
}.

Inductive ConfigError := ConfigRead | ConfigParse.

(** [ServerConfig::load], on the contents of the file if it can be read. *)
Definition config_load (toml_config : string -> option ServerConfig) (contents : option string)
    : result ConfigError ServerConfig :=
  contents ← ok_or ConfigRead contents;
  ok_or ConfigParse (toml_config contents).

(** * Defaults *)

Definition DEFAULT_COUNTER_STATE : string := "/var/lib/ghostbro/spa-counters.toml".
Definition default_time_window : Z := DEFAULT_TIME_WINDOW_SECONDS.
Definition default_allow_ttl : Z := DEFAULT_ALLOW_TTL_SECONDS.
Definition default_counter_state : string := DEFAULT_COUNTER_STATE.

Definition tls_pair (d : DecoySection) : option (string * string) :=
  match ds_tls_cert d, ds_tls_key d with
  | Some cert, Some key => Some (cert, key)
  | _, _ => None
  end.

Definition bpf_mode (s : SpaSection) : Z :=
  match sp_mode s with
  | ModeUdp => SPA_MODE_UDP
  | ModeHttps => SPA_MODE_HTTPS
  | ModeBoth => SPA_MODE_BOTH
  end.

Definition https_path (s : SpaSection) : string :=
  default "/api/v1/telemetry"%string (sh_path <$> sp_https s).
Definition https_response_status (s : SpaSection) : Z :=
  default 204 (sp_https s ≫= sh_response_status).
Definition trusted_proxy_cidrs (s : SpaSection) : list string :=
  default [] (sh_trusted_proxy_cidrs <$> sp_https s).
Definition time_window_seconds (s : SpaSection) : Z :=
  default default_time_window (sc_time_window <$> sp_common s).
Definition allow_ttl_seconds (s : SpaSection) : Z :=
  default default_allow_ttl (sc_allow_ttl <$> sp_common s).
Definition cfg_counter_state_path (s : SpaSection) : string :=
  default DEFAULT_COUNTER_STATE (sc_counter_state <$> sp_common s).
Definition udp_port (s : SpaSection) : Z := default DEFAULT_SPA_PORT (su_port <$> sp_udp s).
Definition udp_rate_limit (s : SpaSection) : Z :=
  default DEFAULT_RATE_LIMIT_PER_MINUTE (sp_udp s ≫= su_rate_limit).

(** * The relay's configuration *)

(** [relay_config] of the start-up: the section over the defaults, the
    environment last.  A [Duration] is in milliseconds. *)
Definition relay_section_apply (relay : RelayConfig) (section : RelaySection) : RelayConfig := {|
  spool_dir := default (spool_dir relay) (rs_spool_dir section);
  job_ttl_ms := default (job_ttl_ms relay) ((fun s => s * 1000) <$> rs_job_ttl section);
  max_jobs_per_client := default (max_jobs_per_client relay) (rs_max_jobs_per_client section);
  max_bytes_per_client := default (max_bytes_per_client relay) (rs_max_bytes_per_client section);
  max_object_len := default (max_object_len relay) (rs_max_object_len section);
  worker_count := default (worker_count relay) (rs_workers section);
  reap_interval_ms := reap_interval_ms relay;
  fetch_timeout_ms := default (fetch_timeout_ms relay) ((fun s => s * 1000) <$> rs_fetch_timeout section);
  git_timeout_ms := default (git_timeout_ms relay) ((fun s => s * 1000) <$> rs_git_timeout section);
  allow_loopback := rs_allow_loopback section |}.

Definition relay_config (config : ServerConfig) (env_spool env_loopback : option string) : RelayConfig :=
  with_env_overrides
    (match cfg_relay config with
     | Some section => relay_section_apply relay_config_default section
     | None => relay_config_default
     end) env_spool env_loopback.

(** * Bind addresses *)

Definition proxy_bind_address (config : ServerConfig) : string :=
  if contains_sub [x3a] (str_bytes (px_bind (cfg_proxy config))) then px_bind (cfg_proxy config)
  else px_bind (cfg_proxy config) +:+ ":" +:+ dec (px_port (cfg_proxy config)).

(** The command line. *)
Record Cli := {
  cli_config : string;
  cli_iface : string;
  cli_ebpf_object : option string;
  cli_decoy_bind : option string
}.

Definition decoy_bind_address (cli : Cli) (config : option ServerConfig) : string :=
  match cli_decoy_bind cli with
  | Some bind => bind
  | None => default "127.0.0.1:8080"%string ((config ≫= cfg_decoy) ≫= ds_bind)
  end.
