(* ===== verification/Startup.v ===== *)
(** Start-up of the server: [main] of [ghostbro-server/src/main.rs], with
    [load_and_attach] of [ebpf.rs] and the start of [run_proxy_listener] of
    [noise.rs].

    Reading files, the environment and what the kernel answers are inputs; the
    effects that matter for the gate are listed in the order in which they
    happen. *)

From S2P Require Import Prelude Text NetAddr Protocol Crypto Keys Seal SpaPacket Fs AuthKeys Verifier Runtime.
From S2P Require Import Tunnel Decoy RelayWire RelayEngine Config.

(** * Loading the filter *)

Inductive boot_effect :=
| EffSetConfig (config : BpfConfig)
| EffLoadProgram
| EffAttach (iface : string)
| EffServe.

Inductive BootError :=
| BootConfig (e : ConfigError)
| BootLogging
| BootDecoy (e : DecoyError)
| BootKeysFile (e : KeysFileError)
| BootKeys (e : KeyError)
| BootIdentity (e : IdentityError)
| BootCounters (e : LoadError)
| BootEbpf.

(** Which steps of loading the filter succeed. *)
Record ebpf_io := {
  eb_load : bool;
  eb_config_map : bool;
  eb_config_set : bool;
  eb_program : bool;
  eb_program_load : bool;
  eb_attach : bool;
  eb_allow_map : bool;
  eb_ring : bool
}.

(** [EbpfRuntime::load_and_attach]: the runtime starts with empty maps. *)
Definition load_and_attach (io : ebpf_io) (iface : string) (config : BpfConfig)
    : list boot_effect * result BootError EbpfRuntime :=
  if negb (eb_load io && eb_config_map io && eb_config_set io) then ([], Err BootEbpf)
  else if negb (eb_program io && eb_program_load io) then ([EffSetConfig config], Err BootEbpf)
  else if negb (eb_attach io) then ([EffSetConfig config; EffLoadProgram], Err BootEbpf)
  else
    let effects := [EffSetConfig config; EffLoadProgram; EffAttach iface] in
    if negb (eb_allow_map io && eb_ring io) then (effects, Err BootEbpf)
    else (effects, Ok {| allow_map := ∅; allowed_sources := ∅ |}).

(** * Logging *)

Record boot_env := {
  be_files : store;
  be_unreadable : string -> bool;
  be_var : string -> option string;
  be_level : string -> bool;
  be_log_dirs : bool;
  be_log_open : bool;
  be_canonical : string -> option PathBuf;
  be_generated : bytes * bytes;
  be_id_write : bool * bool;
  be_ebpf : ebpf_io
}.

(** [init_logging]: whether it succeeds; [be_log_dirs] is the creation of the log
    file's directory, if there is one to create. *)
Definition init_logging (env : boot_env) (config : option ServerConfig) : result BootError unit :=
  match be_var env "RUST_LOG" with
  | Some _ => Ok tt
  | None =>
      match config ≫= cfg_logging with
      | None => Ok tt
      | Some logging =>
          if negb (be_level env (lg_level logging)) then Err BootLogging
          else if negb (bool_decide (lg_path logging = ""%string))
          then if negb (be_log_dirs env) then Err BootLogging
               else if negb (be_log_open env) then Err BootLogging else Ok tt
          else Ok tt
      end
  end.

(** [fs::read_to_string] *)
Definition boot_read (env : boot_env) (files : store) (path : string) : read_outcome :=
  if be_unreadable env path then RdFailed else read_file files path.
Definition readable (o : read_outcome) : option string := match o with RdOk s => Some s | _ => None end.
(** As the identity file's reader sees it: unreadable, or absent, or contents. *)
Definition id_contents (o : read_outcome) : option (option string) :=
  match o with RdOk s => Some (Some s) | RdNotFound => Some None | RdFailed => None end.

(** * The server *)

Section boot.
Context `{C : Crypto} {T : CounterToml} `{HL : HttpLib}.
Context (toml_config : string -> option ServerConfig).
Context (toml_keys : string -> option (list AuthorizedClientConfig)).

(** What runs when start-up is through. *)
Record Gate := {
  gt_verifier : SpaVerifier;
  gt_runtime : EbpfRuntime;
  gt_allow_ttl : Z;
  gt_bpf : BpfConfig;
  gt_proxy_bind : string;
  gt_listener_key : result IdentityError bytes;
  gt_relay : RelayConfig;
  gt_files : store
}.

Record Server := {
  sr_decoy : list (string * Method * Handler) * Handler * DecoyState;
  sr_decoy_bind : string;
  sr_decoy_tls : option (string * string);
  sr_gate : option Gate
}.

Definition boot_webroot (env : boot_env) (config : option ServerConfig) : option (option PathBuf) :=
  be_canonical env <$> ((config ≫= cfg_decoy) ≫= ds_webroot).
Definition boot_tls (config : option ServerConfig) : option (string * string) :=
  (config ≫= cfg_decoy) ≫= tls_pair.

(** The part of [main] with a filter to load. *)
Definition boot_gate (env : boot_env) (cli : Cli) (config : ServerConfig)
    : list boot_effect * result BootError Gate :=
  match load_authorized_keys (readable (boot_read env (be_files env) (cl_authorized_keys (cfg_clients config)))) toml_keys with
  | Err e => ([], Err (BootKeysFile e))
  | Ok configs =>
  match into_clients configs with
  | Err e => ([], Err (BootKeys e))
  | Ok clients =>
      let identity := sv_identity (cfg_server config) in
      let opt_in := bool_decide (is_Some (be_var env "GHOSTBRO_GENERATE_IDENTITY")) in
      match load_static_private_key identity (id_contents (boot_read env (be_files env) identity)) opt_in
              (be_generated env) (be_id_write env) with
      | (_, Err e) => ([], Err (BootIdentity e))
      | (ops, Ok private) =>
          let files := fs_run ops (be_files env) in
          let counters := cfg_counter_state_path (cfg_spa config) in
          match load clients (time_window_seconds (cfg_spa config)) counters (boot_read env files counters) private
                  (bool_decide (is_Some (be_var env "GHOSTBRO_SPA_COUNTER_INIT"))) with
          | Err e => ([], Err (BootCounters e))
          | Ok verifier =>
              let bpf := {| spa_port := udp_port (cfg_spa config); proxy_port := px_port (cfg_proxy config);
                            rate_limit_per_minute := udp_rate_limit (cfg_spa config);
                            spa_mode := bpf_mode (cfg_spa config) |} in
              match load_and_attach (be_ebpf env) (cli_iface cli) bpf with
              | (effects, Err e) => (effects, Err e)
              | (effects, Ok runtime) =>
                  (effects, Ok {|
                     gt_verifier := verifier; gt_runtime := runtime;
                     gt_allow_ttl := allow_ttl_seconds (cfg_spa config); gt_bpf := bpf;
                     gt_proxy_bind := proxy_bind_address config;
                     gt_listener_key := (load_or_generate_static_key identity
                       (id_contents (boot_read env files identity)) opt_in (be_generated env) (be_id_write env)).2;
                     gt_relay := relay_config config (be_var env "GHOSTBRO_RELAY_SPOOL_DIR")
                                   (be_var env "GHOSTBRO_RELAY_ALLOW_LOOPBACK");
                     gt_files := files |})
              end
          end
      end
  end
  end.

(** [main] up to the point where it serves. *)
Definition boot (env : boot_env) (cli : Cli) : list boot_effect * result BootError Server :=
  let loaded := config_load toml_config (readable (boot_read env (be_files env) (cli_config cli))) in
  match cli_ebpf_object cli with
  | Some _ =>
      match loaded with
      | Err e => ([], Err (BootConfig e))
      | Ok config =>
      match init_logging env (Some config) with
      | Err e => ([], Err e)
      | Ok _ =>
          let https := negb (Z.land (bpf_mode (cfg_spa config)) SPA_MODE_HTTPS =? 0) in
          match router https (https_path (cfg_spa config)) (https_response_status (cfg_spa config))
                  (trusted_proxy_cidrs (cfg_spa config)) (boot_webroot env (Some config)) with
          | Err e => ([], Err (BootDecoy e))
          | Ok app =>
              match boot_gate env cli config with
              | (effects, Err e) => (effects, Err e)
              | (effects, Ok gate) =>
                  (effects ++ [EffServe], Ok {|
                     sr_decoy := app; sr_decoy_bind := decoy_bind_address cli (Some config);
                     sr_decoy_tls := boot_tls (Some config); sr_gate := Some gate |})
              end
          end
      end
      end
  | None =>
      let config := to_option loaded in
      match init_logging env config with
      | Err e => ([], Err e)
      | Ok _ =>
          match router false "/api/v1/telemetry" 204 [] (boot_webroot env config) with
          | Err e => ([], Err (BootDecoy e))
          | Ok app =>
              ([EffServe], Ok {| sr_decoy := app; sr_decoy_bind := decoy_bind_address cli config;
                                 sr_decoy_tls := boot_tls config; sr_gate := None |})
          end
      end
  end.

End boot.
