(* ===== verification/StartupFacts.v ===== *)
(** A server that serves behind its gate has loaded the filter first, knocks and
    tunnel use one identity, and replay state is never silently fresh. *)

From S2P Require Import Prelude Text NetAddr Protocol Crypto Keys Seal SpaPacket Fs AuthKeys Verifier Runtime.
From S2P Require Import Tunnel TunnelFacts Decoy RelayWire RelayEngine Config Startup.

Section boot_facts.
Context `{C : Crypto} {L : CryptoLaws C} {T : CounterToml} `{HL : HttpLib}.
Context (toml_config : string -> option ServerConfig).
Context (toml_keys : string -> option (list AuthorizedClientConfig)).

(** The key a start loads is the one a second load of its files gives. *)
Lemma static_key_reloads path o opt_in generated write_ok s ops key (unreadable : bool) :
  public_key_path path <> path ->
  o = (if unreadable then RdFailed else read_file s path) ->
  load_static_private_key path (id_contents o) opt_in generated write_ok = (ops, Ok key) ->
  (load_or_generate_static_key path
     (id_contents (if unreadable then RdFailed else read_file (fs_run ops s) path)) opt_in generated write_ok).2 = Ok key.
Proof.
  intros Hne -> H. unfold load_static_private_key in H.
  destruct (load_or_generate_static_key _ _ _ _ _) as [ops' r] eqn:E. injection H as -> H.
  destruct r as [k|e]; [|done]. cbn in H. destruct (length k =? 32)%nat eqn:Hk; [|done]. injection H as ->.
  destruct unreadable; [done|]. unfold read_file in *. destruct (s !! path) as [c|] eqn:Ec.
  - cbn [id_contents] in E. assert (ops = []) as -> by (unfold load_or_generate_static_key in E; by simplify_eq).
    cbn [fs_run foldl]. rewrite Ec. cbn [id_contents]. by rewrite E.
  - cbn [id_contents] in E. unfold load_or_generate_static_key in E.
    destruct opt_in; [|done]. destruct generated as [private public], write_ok as [[] []]; cbn in E; try done.
    injection E as <- ->. apply Nat.eqb_eq in Hk. pose proof (generated_key_loads path key public s true (key, public) (true, true) Hk Hne) as H.
    cbn [fst snd app negb] in *.
    assert (Hrw : forall o, o = Some (fs_run (load_or_generate_static_key path (Some None) true (key, public) (true, true)).1 s !! path) ->
              (load_or_generate_static_key path o true (key, public) (true, true)).2 = Ok key) by (intros ? ->; by rewrite H).
    apply Hrw. cbn [load_or_generate_static_key negb fst snd app]. by destruct (fs_run _ s !! path).
Qed.

(** Every way through loading the filter. *)
Lemma load_and_attach_Ok io iface config effects rt :
  load_and_attach io iface config = (effects, Ok rt) ->
  effects = [EffSetConfig config; EffLoadProgram; EffAttach iface] /\ allow_map rt = ∅ /\ allowed_sources rt = ∅.
Proof. unfold load_and_attach. intros H. repeat case_match; simplify_eq. done. Qed.

Lemma load_and_attach_quiet io iface config effects r : load_and_attach io iface config = (effects, r) -> EffServe ∉ effects.
Proof. unfold load_and_attach. intros H. repeat case_match; simplify_eq; rewrite ?elem_of_cons; set_solver. Qed.

Lemma boot_gate_quiet env cli config effects r :
  boot_gate toml_keys env cli config = (effects, r) -> EffServe ∉ effects.
Proof.
  unfold boot_gate. intros H. repeat case_match; simplify_eq; try set_solver; by eapply load_and_attach_quiet.
Qed.

(** A gate that starts has come through every step of [boot_gate]. *)
Lemma boot_gate_Ok env cli config effects g :
  boot_gate toml_keys env cli config = (effects, Ok g) ->
  exists ops private clients,
    load_static_private_key (sv_identity (cfg_server config))
      (id_contents (boot_read env (be_files env) (sv_identity (cfg_server config))))
      (bool_decide (is_Some (be_var env "GHOSTBRO_GENERATE_IDENTITY"))) (be_generated env) (be_id_write env)
      = (ops, Ok private) /\
    gt_files g = fs_run ops (be_files env) /\
    load clients (time_window_seconds (cfg_spa config)) (cfg_counter_state_path (cfg_spa config))
      (boot_read env (gt_files g) (cfg_counter_state_path (cfg_spa config))) private
      (bool_decide (is_Some (be_var env "GHOSTBRO_SPA_COUNTER_INIT"))) = Ok (gt_verifier g) /\
    spa_mode (gt_bpf g) = bpf_mode (cfg_spa config) /\
    load_and_attach (be_ebpf env) (cli_iface cli) (gt_bpf g) = (effects, Ok (gt_runtime g)) /\
    gt_listener_key g = (load_or_generate_static_key (sv_identity (cfg_server config))
      (id_contents (boot_read env (gt_files g) (sv_identity (cfg_server config))))
      (bool_decide (is_Some (be_var env "GHOSTBRO_GENERATE_IDENTITY"))) (be_generated env) (be_id_write env)).2.
Proof.
  unfold boot_gate. intros H.
  destruct (load_authorized_keys _ _) as [configs|]; [|done]. destruct (into_clients configs) as [clients|]; [|done].
  destruct (load_static_private_key _ _ _ _ _) as [ops [private|]] eqn:Ek; [|done].
  destruct (load _ _ _ _ _ _) as [v|] eqn:Ev; [|done]. destruct (load_and_attach _ _ _) as [eff [rt|]] eqn:Ea; [|done].
  injection H as <- <-. exists ops, private, clients. by split_and!.
Qed.

(** A gate starts with nobody admitted. *)
Lemma boot_gate_empty env cli effects srv g :
  boot toml_config toml_keys env cli = (effects, Ok srv) -> sr_gate srv = Some g ->
  allow_map (gt_runtime g) = ∅ /\ allowed_sources (gt_runtime g) = ∅.
Proof.
  unfold boot. intros H Hg. destruct (cli_ebpf_object cli); [|repeat case_match; simplify_eq; done].
  destruct (config_load _ _) as [config|]; [|done]. destruct (init_logging _ _); [|done]. destruct (router _ _ _ _ _); [|done].
  destruct (boot_gate toml_keys env cli config) as [eff [g'|]] eqn:Eg; simplify_eq. cbn in Hg. injection Hg as ->.
  apply boot_gate_Ok in Eg as (ops & private & clients & _ & _ & _ & _ & Ha & _). by apply load_and_attach_Ok in Ha as (_ & ? & ?).
Qed.

(** What a loaded verifier holds. *)
Lemma load_Ok clients window path contents private fresh v :
  load clients window path contents private fresh = Ok v ->
  server_static_private v = private /\
  (fresh = false -> exists text state, contents = RdOk text /\ toml_counters_decode text = Some state /\
                      load_entries (map_to_list state) ∅ = Ok (highest_counters v)).
Proof.
  unfold load. intros H. destruct (load_counter_state contents fresh) as [highest|] eqn:E; [|done].
  injection H as <-. split; [done|]. intros ->. destruct contents as [text| |]; [|done..]. cbn in E.
  destruct (toml_counters_decode text) as [state|] eqn:Ed; [|done]. by exists text, state.
Qed.

Lemma router_state tx path status cidrs webroot app : router tx path status cidrs webroot = Ok app -> dc_spa_tx app.2 = tx.
Proof.
  unfold router. intros H. destruct (status_from_u16 status); [|done]. cbn in H.
  destruct (parse_trusted_proxy_cidrs cidrs); [|done]. cbn in H. by destruct webroot as [[]|]; simplify_eq/=.
Qed.

(** C20: start-up fails closed.  An error means that nothing is served; a server
    that serves a gate has first written the filter's configuration and attached
    it to the interface, starts with no source allowed, opens knocks with the
    same key with which its tunnel authenticates, has its replay counters from
    the file unless a fresh start was asked for, and takes knocks over HTTPS
    exactly if the mode says so; without a filter it takes none. *)
Theorem boot_fails_closed env cli effects r :
  boot toml_config toml_keys env cli = (effects, r) ->
  (forall e, r = Err e -> EffServe ∉ effects) /\
  (forall srv, r = Ok srv ->
   match sr_gate srv with
   | None => cli_ebpf_object cli = None /\ dc_spa_tx (sr_decoy srv).2 = false
   | Some g =>
       effects = [EffSetConfig (gt_bpf g); EffLoadProgram; EffAttach (cli_iface cli); EffServe] /\
       allow_map (gt_runtime g) = ∅ /\ allowed_sources (gt_runtime g) = ∅ /\
       (dc_spa_tx (sr_decoy srv).2 = true <-> Z.land (spa_mode (gt_bpf g)) SPA_MODE_HTTPS <> 0) /\
       exists config,
         config_load toml_config (readable (boot_read env (be_files env) (cli_config cli))) = Ok config /\
         (public_key_path (sv_identity (cfg_server config)) <> sv_identity (cfg_server config) ->
          gt_listener_key g = Ok (server_static_private (gt_verifier g))) /\
         (be_var env "GHOSTBRO_SPA_COUNTER_INIT" = None ->
          exists text state, boot_read env (gt_files g) (cfg_counter_state_path (cfg_spa config)) = RdOk text /\
            toml_counters_decode text = Some state /\
            load_entries (map_to_list state) ∅ = Ok (highest_counters (gt_verifier g)))
   end).
Proof.
  unfold boot. intros H. destruct (cli_ebpf_object cli) as [obj|] eqn:Eo.
  - destruct (config_load _ _) as [config|e] eqn:Ec; [|simplify_eq; split; [set_solver|done]].
    destruct (init_logging env (Some config)); [|simplify_eq; split; [set_solver|done]].
    destruct (router _ _ _ _ _) as [app|e] eqn:Er; [|simplify_eq; split; [set_solver|done]].
    destruct (boot_gate toml_keys env cli config) as [eff [g|e]] eqn:Eg; simplify_eq.
    + split; [done|]. intros srv [= <-]. cbn [sr_gate sr_decoy].
      apply boot_gate_Ok in Eg as (ops & private & clients & Hk & Hf & Hv & Hm & Ha & Hl).
      apply load_and_attach_Ok in Ha as (-> & Hmap & Hsrc). apply load_Ok in Hv as [Hp Hc].
      apply router_state in Er. split_and!; [done..| |].
      { rewrite Er, Hm. rewrite negb_true_iff, Z.eqb_neq. done. }
      exists config. split; [done|]. split.
      * intros Hne. rewrite Hl, Hf, Hp. by eapply static_key_reloads.
      * intros Hvar. apply Hc. by rewrite Hvar.
    + split; [|done]. intros _ _. by eapply boot_gate_quiet.
  - destruct (init_logging env _); [|simplify_eq; split; [set_solver|done]].
    destruct (router _ _ _ _ _) as [app|e] eqn:Er; simplify_eq; split; try done; [|set_solver].
    intros srv [= <-]. cbn. split; [done|]. by apply router_state in Er.
Qed.

(** A port in [proxy.bind] moves the listener, but the filter goes on guarding
    [proxy.port]. *)
Lemma bind_port_unfiltered env cli config effects g :
  boot_gate toml_keys env cli config = (effects, Ok g) ->
  contains_sub [x3a] (str_bytes (px_bind (cfg_proxy config))) = true ->
  gt_proxy_bind g = px_bind (cfg_proxy config) /\ proxy_port (gt_bpf g) = px_port (cfg_proxy config).
Proof.
  unfold boot_gate, proxy_bind_address. intros H Hc. rewrite Hc in H.
  destruct (load_authorized_keys _ _) as [configs|]; [|done]. destruct (into_clients configs) as [clients|]; [|done].
  destruct (load_static_private_key _ _ _ _ _) as [ops [private|]]; [|done].
  destruct (load _ _ _ _ _ _) as [v|]; [|done]. destruct (load_and_attach _ _ _) as [eff [rt|]]; [|done].
  by injection H as <- <-.
Qed.

End boot_facts.
