(* ===== verification/Privilege.v ===== *)
(** Privileges at start-up: [ghostbro-server/src/privilege.rs].

    The user and group of the process and the text of [/proc/self/status] are
    inputs; what is logged is the result. *)

From S2P Require Import Prelude Text.

Definition KNOWN_CAPS : list (Z * string) :=
  [(10, "CAP_NET_BIND_SERVICE"); (12, "CAP_NET_ADMIN"); (13, "CAP_NET_RAW");
   (21, "CAP_SYS_ADMIN"); (38, "CAP_PERFMON"); (39, "CAP_BPF")]%string.

Definition REQUIRED_CAPS : list string := ["CAP_BPF"; "CAP_NET_ADMIN"]%string.

Record PrivilegeStatus := {
  ps_uid : Z;
  ps_gid : Z;
  ps_effective_caps : list string;
  ps_is_root : bool
}.

Definition CAP_EFF : bytes := str_bytes "CapEff:".

(** The loop of [parse_cap_eff] over the lines: the first such line decides. *)
Fixpoint cap_eff_lines (ls : list bytes) : option Z :=
  match ls with
  | [] => None
  | line :: rest =>
      match strip_prefix CAP_EFF line with
      | Some value => from_str_radix 16 (umax 64) (trim value)
      | None => cap_eff_lines rest
      end
  end.

Definition parse_cap_eff (status : bytes) : option Z := cap_eff_lines (lines status).

Definition decode_caps (mask : Z) : list string :=
  map snd (List.filter (fun c => negb (Z.land mask (Z.shiftl 1 (fst c)) =? 0)) KNOWN_CAPS).

Definition read_effective_caps (status : option bytes) : option Z := status ≫= parse_cap_eff.

Definition report (uid gid : Z) (status : option bytes) : PrivilegeStatus := {|
  ps_uid := uid;
  ps_gid := gid;
  ps_effective_caps := default [] (decode_caps <$> read_effective_caps status);
  ps_is_root := uid =? 0 |}.

(** The warning that [log_startup_privileges] logs after the status, if any. *)
Inductive privilege_warning := NoWarning | WarnRoot | WarnMissing (missing : list string).

Definition log_startup_privileges (uid gid : Z) (status : option bytes) : PrivilegeStatus * privilege_warning :=
  let st := report uid gid status in
  (st,
   if ps_is_root st then WarnRoot
   else
     let missing := List.filter (fun cap => negb (bool_decide (cap ∈ ps_effective_caps st))) REQUIRED_CAPS in
     if bool_decide (missing = []) then NoWarning else WarnMissing missing).

(** * What the warning says *)

(** The bit of a capability, as [decode_caps] reads it. *)
Lemma mask_bit mask n : 0 <= n -> negb (Z.land mask (Z.shiftl 1 n) =? 0) = Z.testbit mask n.
Proof.
  intros Hn. rewrite Z.shiftl_mul_pow2, Z.mul_1_l by done. destruct (Z.testbit mask n) eqn:E.
  - apply negb_true_iff, Z.eqb_neq. intros H. assert (Z.testbit (Z.land mask (2 ^ n)) n = false) as Hb by (rewrite H; apply Z.bits_0).
    by rewrite Z.land_spec, E, Z.pow2_bits_true in Hb.
  - apply negb_false_iff, Z.eqb_eq, Z.bits_inj'. intros k Hk. rewrite Z.land_spec, Z.bits_0.
    destruct (decide (k = n)) as [->|]; [by rewrite E|]. rewrite Z.pow2_bits_false by done. apply andb_false_r.
Qed.

(** Nothing is missing exactly if the two bits the loader needs are set, and
    what the log lists are the tracked capabilities whose bits are set. *)
Lemma privileges_reported uid gid status mask name bit :
  parse_cap_eff status = Some mask -> (bit, name) ∈ KNOWN_CAPS ->
  (name ∈ ps_effective_caps (report uid gid (Some status)) <-> Z.testbit mask bit = true).
Proof.
  intros Hp Hin. unfold report. cbn. rewrite Hp. cbn [fmap option_fmap option_map default from_option ps_effective_caps].
  unfold decode_caps, KNOWN_CAPS in *. cbn [List.filter fst snd].
  rewrite !mask_bit by lia.
  rewrite !elem_of_cons in Hin. destruct Hin as [H|[H|[H|[H|[H|[H|H]]]]]]; [..|by apply elem_of_nil in H];
    injection H as -> ->; clear Hp;
    repeat match goal with |- context [Z.testbit mask ?n] => destruct (Z.testbit mask n) end;
    cbn [map snd]; (split; [intros Hx; first [done|exfalso; revert Hx; by apply (bool_decide_eq_false _)]|intros; first [done|by apply (bool_decide_eq_true _)]]).
Qed.

Lemma no_warning_iff uid gid status mask :
  parse_cap_eff status = Some mask ->
  ((log_startup_privileges uid gid (Some status)).2 = NoWarning <->
   uid <> 0 /\ Z.testbit mask 39 = true /\ Z.testbit mask 12 = true).
Proof.
  intros Hp. pose proof (privileges_reported uid gid status mask "CAP_BPF" 39 Hp) as H1.
  pose proof (privileges_reported uid gid status mask "CAP_NET_ADMIN" 12 Hp) as H2.
  rewrite <-H1, <-H2 by (unfold KNOWN_CAPS; set_solver). clear H1 H2.
  unfold log_startup_privileges. cbn [snd]. unfold REQUIRED_CAPS. cbn [List.filter].
  change (ps_is_root (report uid gid (Some status))) with (uid =? 0).
  destruct (Z.eqb_spec uid 0); [split; [done|tauto]|].
  destruct (bool_decide_reflect ("CAP_BPF"%string ∈ ps_effective_caps (report uid gid (Some status))));
    destruct (bool_decide_reflect ("CAP_NET_ADMIN"%string ∈ ps_effective_caps (report uid gid (Some status))));
    cbn; split; intros; try done; tauto.
Qed.

(** The example of the source's tests. *)
Example full_mask_parses :
  parse_cap_eff (str_bytes "Name:	ghost
Uid:	0	0	0	0
CapEff:	000001ffffffffff
Gid:	0
") = Some 0x1ffffffffff.
Proof. vm_compute. reflexivity. Qed.
