(* ===== verification/RelayWireFacts.v ===== *)
(** Facts on the relay's wire format, addresses and package specifications. *)

From S2P Require Import Prelude Text NetAddr Protocol Crypto Keys RelayWire.

(** * Splitting *)

Lemma split_once_none c b : c ∉ b -> split_once c b = None.
Proof.
  induction b as [|x b IH]; [done|]. intros [Hx Hb]%not_elem_of_cons.
  cbn [split_once]. rewrite bool_decide_eq_false_2 by congruence. by rewrite IH.
Qed.

Lemma split_once_app c l r : c ∉ l -> split_once c (l ++ c :: r) = Some (l, r).
Proof.
  induction l as [|x l IH]; intros H.
  - cbn. by rewrite bool_decide_eq_true_2.
  - apply not_elem_of_cons in H as [Hx Hl]. cbn [app split_once].
    rewrite bool_decide_eq_false_2 by congruence. by rewrite IH.
Qed.

Lemma rsplit_once_none c b : c ∉ b -> rsplit_once c b = None.
Proof. intros H. unfold rsplit_once. rewrite split_once_none; [done|]. by rewrite elem_of_reverse. Qed.

Lemma rsplit_once_app c l r : c ∉ r -> rsplit_once c (l ++ c :: r) = Some (l, r).
Proof.
  intros H. unfold rsplit_once. rewrite reverse_app, reverse_cons, <- app_assoc. cbn [app].
  rewrite split_once_app by (by rewrite elem_of_reverse). by rewrite !reverse_involutive.
Qed.

(** * Package specifications *)

Lemma forallb_not_elem (f : byte -> bool) c b : f c = false -> forallb f b = true -> c ∉ b.
Proof.
  intros Hc Hb Hin. rewrite forallb_forall in Hb.
  apply list_elem_of_In in Hin. apply Hb in Hin. congruence.
Qed.

Lemma version_char_graphic b : version_char b = true -> is_graphic b = true.
Proof.
  unfold version_char, is_graphic, is_ascii_alphanumeric, is_ascii_digit, is_ascii_alphabetic, in_range. lia.
Qed.

Lemma trim_nil_ends ps l :
  Forall (fun p => match p with a :: _ => is_graphic a = false | [] => False end) ps ->
  Forall (fun b => is_graphic b = true) l -> strip_while (length l) ps l = l.
Proof.
  intros Hps Hl. destruct Hl as [|b l Hb _]; [done|]. cbn [length strip_while].
  by rewrite strip_any_graphic.
Qed.

Lemma trim_graphic l : Forall (fun b => is_graphic b = true) l -> trim l = l.
Proof.
  intros Hl. destruct ws_chars_heads as [H1 H2]. unfold trim, trim_start. rewrite trim_nil_ends by done.
  unfold trim_end. rewrite <- length_reverse, trim_nil_ends; [apply reverse_involutive|done|].
  by apply Forall_reverse.
Qed.

Lemma non_empty_Some v s : non_empty v = Some s -> s <> ""%string.
Proof.
  unfold non_empty. case_bool_decide as H; [done|]. injection 1 as <-. intros He. apply H.
  rewrite <- (str_bytes_str (trim _)), He. done.
Qed.

(** A version accepted by the validator is its own trimmed form. *)
Lemma non_empty_valid v : validate_package_version v = Ok tt -> v <> ""%string -> non_empty v = Some v.
Proof.
  unfold validate_package_version. repeat case_test; try done. bool_props. intros _ Hv.
  unfold non_empty. rewrite trim_graphic.
  - rewrite bool_decide_eq_false_2, bytes_str_bytes; [done|]. intros He. apply Hv.
    by rewrite <- (bytes_str_bytes v), He.
  - apply Forall_forall. intros b Hb. apply version_char_graphic.
    match goal with H : forallb _ _ = true |- _ => rewrite forallb_forall in H; by apply H, list_elem_of_In end.
Qed.

(** What [PackageSpec::parse] guarantees of its result. *)
Definition spec_ok (s : PackageSpec) : Prop :=
  validate_package_name (ps_name s) = Ok tt /\
  match ps_version s with
  | Some v => validate_package_version v = Ok tt /\ v <> ""%string
  | None => ps_ecosystem s <> Crates
  end.

Lemma spec_parse_ok eco name version s : spec_parse eco name version = Ok s -> spec_ok s.
Proof.
  unfold spec_parse. intros H. inv_ok. rename x into e. destruct x0, x1.
  destruct (non_empty version) as [v|] eqn:Hv.
  - rewrite (bool_decide_eq_false_2 (Some v = None)) in H by done. rewrite andb_false_r in H. inv_ok.
    split; [done|]. cbn. split; [done|]. by eapply non_empty_Some.
  - case_test; [done|]. inv_ok. split; [done|]. cbn. bool_props. intros ->. done.
Qed.

Lemma parse_ecosystem_tag e : parse_ecosystem (ecosystem_tag e) = Ok e.
Proof. by destruct e. Qed.

Lemma ecosystem_tag_colon e : x3a ∉ str_bytes (ecosystem_tag e).
Proof. apply (bool_decide_unpack _). destruct e; vm_compute; exact I. Qed.

(** Parsing the parts of an accepted specification gives it back. *)
Lemma spec_parse_parts s :
  spec_ok s -> spec_parse (ecosystem_tag (ps_ecosystem s)) (ps_name s) (default ""%string (ps_version s)) = Ok s.
Proof.
  destruct s as [e n v]. intros [Hn Hv]. cbn [ps_ecosystem ps_name ps_version] in *.
  unfold spec_parse. rewrite parse_ecosystem_tag. cbn. rewrite Hn. cbn. destruct v as [v|]; cbn.
  - destruct Hv as [Hv Hne]. rewrite non_empty_valid by done. cbn. rewrite Hv. by destruct e.
  - change (non_empty "") with (@None string). cbn. by rewrite (bool_decide_eq_false_2 (e = Crates)).
Qed.

(** The names whose versionless encoding is unambiguous: the only [@] is the
    one of an npm scope. *)
Definition scope_only (name : string) : Prop := x40 ∉ drop 1 (str_bytes name).

Lemma split_scope_only name :
  scope_only name ->
  match rsplit_once x40 (str_bytes name) with Some (n, _) => n = [] | None => True end.
Proof.
  unfold scope_only. destruct (str_bytes name) as [|b l]; [done|]. cbn [drop]. rewrite drop_0. intros H.
  destruct (decide (b = x40)) as [->|Hb].
  - change (x40 :: l) with ([] ++ x40 :: l). by rewrite rsplit_once_app.
  - rewrite rsplit_once_none; [done|]. by apply not_elem_of_cons.
Qed.

Lemma encode_bytes s :
  str_bytes (spec_encode s) = str_bytes (ecosystem_tag (ps_ecosystem s)) ++ x3a ::
    str_bytes (ps_name s) ++ match ps_version s with Some v => x40 :: str_bytes v | None => [] end.
Proof.
  unfold spec_encode. destruct (ps_version s); rewrite !str_bytes_app; [done|]. by rewrite app_nil_r.
Qed.

(** A package specification that [parse] accepted survives the encoding
    stored in the job's metadata: [decode] of [encode] gives it back, when it
    has a version or its name has no [@] other than the first character (an npm
    scope). *)
Theorem spec_roundtrip eco name version s :
  spec_parse eco name version = Ok s ->
  is_Some (ps_version s) \/ scope_only (ps_name s) ->
  spec_decode (spec_encode s) = Ok s.
Proof.
  intros Hs%spec_parse_ok Hat. pose proof (spec_parse_parts s Hs) as Hparts.
  unfold spec_decode. rewrite encode_bytes, split_once_app by apply ecosystem_tag_colon. cbn.
  rewrite bytes_str_bytes. destruct Hs as [Hn Hv], (ps_version s) as [v|].
  - destruct Hv as [Hv _]. rewrite rsplit_once_app.
    + rewrite bool_decide_eq_false_2; [cbn; by rewrite !bytes_str_bytes|].
      intros He. unfold validate_package_name in Hn. by rewrite He in Hn.
    + unfold validate_package_version in Hv. repeat case_test; try done. bool_props.
      by apply (forallb_not_elem version_char).
  - rewrite app_nil_r. destruct Hat as [[? ?]|Hat]; [done|].
    pose proof (split_scope_only _ Hat) as H. destruct (rsplit_once _ _) as [[n r]|].
    + subst n. cbn. by rewrite bytes_str_bytes.
    + by rewrite bytes_str_bytes.
Qed.

(** Without the restriction it does not hold: [a@b] without a version is read
    back as the package [a] at version [b]. *)
Lemma spec_decode_ambiguous :
  spec_parse "npm" "a@b" "" = Ok {| ps_ecosystem := Npm; ps_name := "a@b"; ps_version := None |} /\
  spec_decode (spec_encode {| ps_ecosystem := Npm; ps_name := "a@b"; ps_version := None |})
    = Ok {| ps_ecosystem := Npm; ps_name := "a"; ps_version := Some "b"%string |}.
Proof. split; vm_compute; reflexivity. Qed.

(** * Addresses *)

(** [a] lies in the block of the given base and prefix length, of addresses of
    [w] bits. *)
Definition in_block (w base len a : Z) : Prop := a / 2 ^ (w - len) = base / 2 ^ (w - len).

(** The destinations a relay must never reach, and those it must not reach unless
    loopback is allowed: loopback, private and link-local addresses. *)
Definition special_address (ip : IpAddr) : Prop :=
  match ip with
  | V4 a => a = 0 \/ in_block 32 0xe0000000 4 a
  | V6 a => a = 0 \/ in_block 128 (0xff00 * 2 ^ 112) 8 a
  end.

Definition local_address (ip : IpAddr) : Prop :=
  match ip with
  | V4 a => in_block 32 0x7f000000 8 a \/ in_block 32 0x0a000000 8 a \/ in_block 32 0xac100000 12 a
            \/ in_block 32 0xc0a80000 16 a \/ in_block 32 0xa9fe0000 16 a
  | V6 a => a = 1 \/ in_block 128 (0xfc00 * 2 ^ 112) 7 a \/ in_block 128 (0xfe80 * 2 ^ 112) 10 a
  end.

Definition internal_family (allow_loopback : bool) (ip : IpAddr) : Prop :=
  special_address ip \/ (allow_loopback = false /\ local_address ip).

(** The IPv4 address that an IPv4-mapped IPv6 address stands for, and the internal
    addresses, these forms included. *)
Definition mapped_v4 (ip : IpAddr) : option IpAddr :=
  match ip with V6 a => if a / 2 ^ 32 =? 0xffff then Some (V4 (a mod 2 ^ 32)) else None | V4 _ => None end.

Definition internal_address (allow_loopback : bool) (ip : IpAddr) : Prop :=
  internal_family allow_loopback (default ip (mapped_v4 ip)).

Definition ip_in_range (ip : IpAddr) : Prop :=
  match ip with V4 a => in_u 32 a | V6 a => in_u 128 a end.

Lemma v4_octet_0 a : in_u 32 a -> v4_octet a 0 = a / 2 ^ 24.
Proof.
  intros H. unfold v4_octet. change (8 * (3 - 0)) with 24. rewrite Z.shiftr_div_pow2 by lia.
  change 255 with (Z.ones 8). rewrite Z.land_ones by lia. apply Z.mod_small.
  unfold in_u, umax in H. split; [apply Z.div_pos; lia | apply Z.div_lt_upper_bound; lia].
Qed.

Lemma v4_octet_1 a : v4_octet a 1 = a / 2 ^ 16 mod 256.
Proof.
  unfold v4_octet. change (8 * (3 - 1)) with 16. rewrite Z.shiftr_div_pow2 by lia.
  change 255 with (Z.ones 8). by rewrite Z.land_ones by lia.
Qed.

(** The two leading octets determine the first 16 bits. *)
Lemma v4_octets_01 a : in_u 32 a -> a / 2 ^ 16 = 256 * v4_octet a 0 + v4_octet a 1.
Proof.
  intros H. rewrite v4_octet_0, v4_octet_1 by done. change (2 ^ 24) with (2 ^ 16 * 256).
  rewrite <- Z.div_div by lia. apply Z.div_mod. lia.
Qed.

Lemma v4_octet_range a i : 0 <= v4_octet a i < 256.
Proof. unfold v4_octet. change 255 with (Z.ones 8). rewrite Z.land_ones by lia. apply Z.mod_pos_bound. lia. Qed.

Lemma v4_guard_exact a :
  in_u 32 a -> (is_unspecified (V4 a) || is_multicast (V4 a) = true <-> special_address (V4 a)) /\
    (is_loopback (V4 a) || is_private_ip (V4 a) = true <-> local_address (V4 a)).
Proof.
  intros Ha. unfold special_address, local_address, in_block, is_unspecified, is_multicast, is_loopback, is_private_ip,
    v4_is_multicast, v4_is_loopback, v4_is_private, v4_is_link_local. cbn [negb andb].
  change (32 - 8) with 24; change (32 - 12) with 20; change (32 - 16) with 16; change (32 - 4) with 28.
  pose proof (v4_octets_01 a Ha) as H16. pose proof (v4_octet_range a 0). pose proof (v4_octet_range a 1).
  assert (H24 : a / 2 ^ 24 = v4_octet a 0) by (symmetry; by apply v4_octet_0).
  assert (H28 : a / 2 ^ 28 = v4_octet a 0 / 16).
  { rewrite <- H24, Z.div_div by lia. done. }
  assert (H20 : a / 2 ^ 20 = (256 * v4_octet a 0 + v4_octet a 1) / 16).
  { rewrite <- H16, Z.div_div by lia. done. }
  rewrite H24, H28, H20, H16. set (x := v4_octet a 0) in *. set (y := v4_octet a 1) in *.
  change (0x7f000000 / 2 ^ 24) with 127; change (0x0a000000 / 2 ^ 24) with 10;
  change (0xac100000 / 2 ^ 20) with 2753; change (0xc0a80000 / 2 ^ 16) with 49320;
  change (0xa9fe0000 / 2 ^ 16) with 43518; change (0xe0000000 / 2 ^ 28) with 14.
  clearbody x y. clear H16 H24 H28 H20.
  pose proof (Z.div_mod x 16). pose proof (Z.mod_pos_bound x 16).
  pose proof (Z.div_mod (256 * x + y) 16). pose proof (Z.mod_pos_bound (256 * x + y) 16).
  lia.
Qed.

(** Masking the low [k] bits of a 16-bit segment. *)
Lemma segment_mask s k v :
  0 <= s < 2 ^ 16 -> 0 <= k <= 16 -> v mod 2 ^ k = 0 ->
  Z.land s (2 ^ 16 - 2 ^ k) = v <-> s / 2 ^ k = v / 2 ^ k.
Proof.
  intros Hs Hk Hv. assert (Hm : Z.land s (2 ^ 16 - 2 ^ k) = s / 2 ^ k * 2 ^ k).
  { replace (2 ^ 16 - 2 ^ k) with (Z.shiftl (Z.ones (16 - k)) k).
    - rewrite <- Z.shiftr_div_pow2, <- Z.shiftl_mul_pow2 by lia. apply Z.bits_inj'. intros n Hn.
      rewrite Z.land_spec, !Z.shiftl_spec by lia. destruct (Z.ltb_spec n k).
      + rewrite !(Z.testbit_neg_r _ (n - k)) by lia. by rewrite andb_false_r.
      + rewrite Z.shiftr_spec by lia. replace (n - k + k) with n by lia.
        destruct (Z.ltb_spec n 16).
        * rewrite Z.ones_spec_low by lia. by rewrite andb_true_r.
        * assert (Hb : Z.testbit s n = false); [|by rewrite Hb].
          apply Z.bits_above_log2; [lia|]. destruct (Z.eq_dec s 0) as [->|]; [cbn; lia|].
          assert (2 ^ 16 <= 2 ^ n) by (apply Z.pow_le_mono_r; lia). apply Z.log2_lt_pow2; lia.
    - rewrite Z.shiftl_mul_pow2, Z.ones_equiv by lia. rewrite <- Z.sub_1_r, Z.mul_sub_distr_r, <- Z.pow_add_r by lia.
      f_equal; [f_equal; lia|lia]. }
  rewrite Hm. pose proof (Z.div_mod v (2 ^ k)) as Hd. pose proof (Z.pow_pos_nonneg 2 k). nia.
Qed.

Lemma v6_block a k v :
  0 <= k <= 16 ->
  in_block 128 (v * 2 ^ 112) (16 - k) a <-> v6_segment0 a / 2 ^ k = v / 2 ^ k.
Proof.
  intros Hk. unfold in_block, v6_segment0. rewrite Z.shiftr_div_pow2 by lia.
  replace (128 - (16 - k)) with (112 + k) by lia. rewrite Z.pow_add_r by lia.
  rewrite <- !Z.div_div by (try lia; pose proof (Z.pow_pos_nonneg 2 k); lia).
  by rewrite Z.div_mul by lia.
Qed.

Lemma v6_guard_exact a :
  in_u 128 a -> (is_unspecified (V6 a) || is_multicast (V6 a) = true <-> special_address (V6 a)) /\
    (is_loopback (V6 a) || is_private_ip (V6 a) = true <-> local_address (V6 a)).
Proof.
  intros Ha. unfold special_address, local_address.
  assert (Hs : 0 <= v6_segment0 a < 2 ^ 16).
  { unfold v6_segment0, in_u, umax in *. rewrite Z.shiftr_div_pow2 by lia.
    split; [apply Z.div_pos; lia | apply Z.div_lt_upper_bound; lia]. }
  change 7 with (16 - 9); change 10 with (16 - 6); change 8 with (16 - 8).
  rewrite !v6_block by lia. rewrite <- !segment_mask by (done || lia).
  unfold is_unspecified, is_multicast, is_loopback, is_private_ip.
  change (2 ^ 16 - 2 ^ 9) with 0xfe00; change (2 ^ 16 - 2 ^ 6) with 0xffc0; change (2 ^ 16 - 2 ^ 8) with 0xff00.
  lia.
Qed.

(** The guard's test is exactly membership in the listed blocks. *)
Lemma guard_exact allow ip : ip_in_range ip -> ip_disallowed allow ip = true <-> internal_family allow ip.
Proof.
  intros H. assert (Hx : (is_unspecified ip || is_multicast ip = true <-> special_address ip) /\
    (is_loopback ip || is_private_ip ip = true <-> local_address ip)) by (destruct ip; [by apply v4_guard_exact|by apply v6_guard_exact]).
  unfold internal_family, ip_disallowed. destruct Hx as [<- <-]. destruct allow; cbn [negb andb]; rewrite ?orb_true_iff; intuition congruence.
Qed.

Lemma guard_addrs_ok lo addrs v :
  guard_addrs lo addrs = Ok v -> v = addrs /\ Forall (fun ip => ip_disallowed lo ip = false) addrs.
Proof.
  revert v. induction addrs as [|ip addrs IH]; intros v; cbn [guard_addrs].
  - intros [= <-]. done.
  - case_test; [done|]. intros H. inv_ok. destruct (IH _ H0) as [-> ?]. by split; [|constructor].
Qed.

Section urls.
Context `{U : UrlLib}.

Lemma resolve_guard_ok parsed lo v :
  resolve_guard parsed lo = Ok v ->
  v <> [] /\ Forall (fun ip => ip_disallowed lo ip = false) v /\
  exists host port, url_host_str parsed = Some host /\ url_port_or_known_default parsed = Some port /\
    to_socket_addrs host port = Some v.
Proof.
  unfold resolve_guard. intros H. inv_ok. case_test; [done|]. inv_ok. bool_props.
  match goal with H : guard_addrs _ _ = Ok _ |- _ => apply guard_addrs_ok in H as [-> HF] end. split; [by destruct x1|]. eauto 10.
Qed.

(** What the guard lets through. *)
Lemma resolve_guard_family parsed allow v :
  resolve_guard parsed allow = Ok v ->
  v <> [] /\ Forall (fun ip => ip_in_range ip -> ~ internal_family allow ip) v /\
  exists host port, url_host_str parsed = Some host /\ to_socket_addrs host port = Some v.
Proof.
  intros (Hne & HF & host & port & Hh & _ & Ha)%resolve_guard_ok. split_and!; [done| |by eauto].
  eapply Forall_impl; [exact HF|]. intros ip Hf Hr Hi. apply guard_exact in Hi; [congruence|done].
Qed.

(** C37: the SSRF guard.  When [validate_and_pin] accepts a URL, the request's
    client is pinned to a non-empty list of addresses, all those the host
    resolved to.  None of them is unspecified or multicast, and unless the
    configuration allows loopback none lies in a loopback, private or link-local
    block; this for addresses that are not IPv4-mapped, which the guard takes for
    what they are in IPv6.  The URL has the scheme http or https.  A redirect is
    followed exactly when fewer than five URLs came before and its host passes the
    same guard; the client is not pinned to what that finds. *)
Theorem pinned_addresses_public url allow addrs parsed :
  validate_and_pin url allow = Ok (addrs, parsed) ->
  let outside ip := ip_in_range ip -> mapped_v4 ip = None -> ~ internal_address allow ip in
  addrs <> [] /\ Forall outside addrs /\
  (url_scheme parsed = "http"%string \/ url_scheme parsed = "https"%string) /\
  (exists host port, url_host_str parsed = Some host /\ to_socket_addrs host port = Some addrs) /\
  (forall previous next, redirect_followed allow previous next = true <->
     (previous < 5)%nat /\ exists l, resolve_guard next allow = Ok l) /\
  (forall next l, resolve_guard next allow = Ok l ->
     l <> [] /\ Forall outside l /\ exists host port, url_host_str next = Some host /\ to_socket_addrs host port = Some l).
Proof.
  intros H outside. assert (Hg : forall next l, resolve_guard next allow = Ok l ->
     l <> [] /\ Forall outside l /\ exists host port, url_host_str next = Some host /\ to_socket_addrs host port = Some l).
  { intros next l (Hne & HF & Hr)%resolve_guard_family. split_and!; [done| |done].
    eapply Forall_impl; [exact HF|]. intros ip Hi Hin Hm. unfold internal_address. rewrite Hm. by apply Hi. }
  unfold validate_and_pin in H. inv_ok. case_test; [|done]. inv_ok.
  match goal with H : resolve_guard _ _ = Ok _ |- _ => apply Hg in H as (? & ? & ?) end. split_and!; [done..| |done| |exact Hg].
  - bool_props. apply orb_prop in Heqb as [?|?]; bool_props; auto.
  - intros previous next. unfold redirect_followed. destruct (Nat.leb_spec 5 previous); [split; [done|lia]|].
    destruct (resolve_guard next allow) as [l|]; cbn; split; try done; [eauto|]. by intros (_ & ? & ?).
Qed.

End urls.

(** The guard looks at IPv6 addresses only as such: the IPv4-mapped form of the
    loopback address, of a private one and of the link-local metadata address
    pass. *)
Lemma mapped_addresses_pass :
  ip_disallowed false (V6 0xffff7f000001) = false /\ ip_disallowed false (V4 0x7f000001) = true /\
  ip_disallowed false (V6 0xffffc0a80101) = false /\ ip_disallowed false (V4 0xc0a80101) = true /\
  ip_disallowed false (V6 0xffffa9fea9fe) = false /\ ip_disallowed false (V4 0xa9fea9fe) = true.
Proof. vm_compute. done. Qed.

(** * Job ids *)

(** An accepted job id names a file inside the client's directory. *)
Lemma validate_job_id_ok id :
  validate_job_id id = Ok tt -> id <> ""%string /\ (x2f ∉ str_bytes id) /\ (x2e ∉ str_bytes id).
Proof.
  unfold validate_job_id. case_test; [done|]. bool_props. intros _. split_and!.
  - intros ->. done.
  - by apply (forallb_not_elem (fun b => is_ascii_hexdigit b || (b2z b =? 45))).
  - by apply (forallb_not_elem (fun b => is_ascii_hexdigit b || (b2z b =? 45))).
Qed.

Section ids.
Context `{C : Crypto}.

Lemma hex_digit_hexdigit n : 0 <= n < 16 -> is_ascii_hexdigit (hex_digit n) = true.
Proof.
  intros H. unfold is_ascii_hexdigit, is_ascii_digit, in_range, hex_digit.
  rewrite b2z_z2b by (destruct (n <? 10); lia). destruct (Z.ltb_spec n 10); lia.
Qed.

Lemma hex_encode_hexdigits l : Forall (fun b => is_ascii_hexdigit b = true) (hex_encode l).
Proof.
  induction l as [|b l IH]; [done|]. destruct (nibbles b).
  repeat constructor; [by apply hex_digit_hexdigit..|apply IH].
Qed.

(** Every id the relay hands out passes the check of the later requests. *)
Lemma relay_job_id_valid {L : CryptoLaws C} kid src now :
  validate_job_id (relay_job_id kid src now) = Ok tt.
Proof.
  unfold validate_job_id, relay_job_id. rewrite str_bytes_str.
  set (h := hex_encode _). assert (Hl : length h = 64%nat).
  { unfold h. rewrite length_hex_encode. by rewrite sha256_length. }
  rewrite bool_decide_eq_false_2 by (intros He; apply (f_equal length) in He; rewrite length_take, Hl in He; done).
  cbn [orb]. rewrite (proj2 (forallb_forall _ _)); [done|]. intros b Hb%list_elem_of_In.
  pose proof (hex_encode_hexdigits (sha256 (kid ++ str_bytes src ++ be_bytes 8 now))) as HF.
  rewrite Forall_forall in HF. apply elem_of_take in Hb as (i & Hi & _).
  apply list_elem_of_lookup_2 in Hi. by rewrite HF.
Qed.

End ids.

(** * Responses *)

Lemma relay_bytes_response_inj s a b : relay_bytes_response s a = relay_bytes_response s b -> a = b.
Proof.
  unfold relay_bytes_response. intros H. apply app_inj_1 in H as [_ H]; [|done].
  by apply app_inj_1 in H as [_ H]; [|by rewrite !length_be_bytes].
Qed.

Lemma relay_ok_response_inj {E} s a b :
  @Ok E _ (relay_bytes_response s (str_bytes a)) = Ok (relay_bytes_response s (str_bytes b)) -> a = b.
Proof.
  intros H. apply str_bytes_inj, (relay_bytes_response_inj s). congruence.
Qed.

Lemma relay_bytes_response_status s s' a b :
  in_u 8 s -> in_u 8 s' -> relay_bytes_response s a = relay_bytes_response s' b -> s = s'.
Proof.
  intros Hs Hs' H. apply (f_equal (fun l => b2z <$> l !! 2%nat)) in H. cbn in H. injection H.
  unfold in_u, umax in *. by rewrite !b2z_z2b by lia.
Qed.
