(* ===== verification/RelayPaths.v ===== *)
(** The paths of the relay's files: with a job id that has passed
    [validate_job_id] they stay in the client's directories. *)

From S2P Require Import Prelude Text NetAddr Protocol Crypto Keys Fs RelayWire RelayEngine RelayWireFacts.

(** * Components of paths *)

(** A proper name: no separator, and neither empty nor a dot component. *)
Definition proper_name (c : bytes) : Prop := (slash ∉ c) /\ c <> [] /\ c <> [dot] /\ c <> [dot; dot].

Lemma components_plain b : forall acc, slash ∉ b -> path_components acc b = path_component (acc ++ b).
Proof.
  induction b as [|x b IH]; intros acc Hb; cbn [path_components]; [by rewrite app_nil_r|].
  apply not_elem_of_cons in Hb as [Hx Hb]. rewrite bool_decide_eq_false_2 by congruence.
  rewrite IH by done. by rewrite <-app_assoc.
Qed.

Lemma components_slash a : forall acc b,
  path_components acc (a ++ slash :: b) = path_components acc a ++ path_components [] b.
Proof.
  induction a as [|x a IH]; intros acc b; cbn [app path_components]; [by rewrite bool_decide_eq_true_2|].
  case_bool_decide; [by rewrite IH, app_assoc|apply IH].
Qed.

(** Joining a proper name adds a component. *)
Lemma components_join base name :
  proper_name (str_bytes name) ->
  path_components [] (str_bytes (path_join base name)) = path_components [] (str_bytes base) ++ [str_bytes name].
Proof.
  intros (Hs & Hn & Hd & _).
  assert (Hname : path_components [] (str_bytes name) = [str_bytes name]).
  { rewrite components_plain by done. unfold path_component. cbn [app]. by rewrite !bool_decide_eq_false_2. }
  unfold path_join. destruct (str_bytes name) as [|a l] eqn:E; [done|].
  rewrite bool_decide_eq_false_2 by (intros ->; apply Hs; left).
  destruct (reverse (str_bytes base)) as [|b r] eqn:Hr.
  - apply (f_equal reverse) in Hr. rewrite reverse_involutive in Hr. rewrite E, Hr. exact Hname.
  - apply (f_equal reverse) in Hr. rewrite reverse_involutive, reverse_cons in Hr. case_bool_decide as Hb.
    + rewrite str_bytes_app, Hr, Hb, <-app_assoc, E. cbn [app]. rewrite !components_slash, Hname. cbn. by rewrite app_nil_r.
    + rewrite !str_bytes_app, E. change (str_bytes "/") with [slash]. cbn [app]. by rewrite components_slash, Hname.
Qed.

Lemma walk_app cs : forall at_ ds, walk at_ (cs ++ ds) = walk (walk at_ cs) ds.
Proof. induction cs as [|c cs IH]; intros at_ ds; [done|apply IH]. Qed.

Lemma resolve_join base name :
  proper_name (str_bytes name) -> resolve_path (path_join base name) = resolve_path base ++ [str_bytes name].
Proof.
  intros H. unfold resolve_path. rewrite components_join, walk_app by done. cbn [walk].
  destruct H as (_ & _ & _ & Hdd). rewrite bool_decide_eq_false_2 by done. apply reverse_cons.
Qed.

Lemma strip_components_app base path : strip_components base (base ++ path) = Some path.
Proof. induction base as [|c base IH]; cbn; [done|]. by rewrite bool_decide_eq_true_2. Qed.

(** A file named in two steps below the spool. *)
Lemma place_of_join spool dir sub file :
  proper_name (str_bytes dir) -> proper_name (str_bytes sub) -> proper_name (str_bytes file) ->
  place_of spool (path_join (path_join (path_join spool dir) sub) file)
  = if bool_decide (sub = "jobs"%string) then InJobs dir file
    else if bool_decide (sub = "objects"%string) then InObjects dir file
    else Outside (resolve_path spool ++ [str_bytes dir; str_bytes sub; str_bytes file]).
Proof.
  intros Hd Hs Hf. unfold place_of. rewrite !resolve_join by done. rewrite <-!app_assoc. cbn [app].
  rewrite strip_components_app, !bytes_str_bytes.
  assert (He : forall s t, bool_decide (str_bytes s = str_bytes t) = bool_decide (s = t)).
  { intros s t. apply bool_decide_ext. split; [apply str_bytes_inj|by intros ->]. }
  by rewrite !He.
Qed.

(** * The client's files *)

Lemma hex_proper b : b <> [] -> proper_name (hex_encode b).
Proof.
  intros Hb. pose proof (hex_encode_hexdigits b) as HF. rewrite Forall_forall in HF.
  assert (Hdot : dot ∉ hex_encode b) by (by intros H%HF).
  split_and!; [by intros H%HF|intros He%(f_equal length); rewrite length_hex_encode in He; by destruct b| |]; intros He; apply Hdot; rewrite He; left.
Qed.

Lemma client_proper kid : length kid = KEY_ID_LEN -> proper_name (str_bytes (key_id_hex kid)).
Proof. intros H. unfold key_id_hex. rewrite str_bytes_str. apply hex_proper. by intros ->. Qed.

(** The id of a job, followed by an extension. *)
Lemma job_file_proper id ext :
  validate_job_id id = Ok tt -> slash ∉ str_bytes ext -> (2 <= length (str_bytes ext))%nat -> proper_name (str_bytes (id +:+ ext)).
Proof.
  unfold validate_job_id. case_test; [done|]. intros _ Hs Hl. apply orb_false_iff in Heqb as [Hne Hall]. bool_props.
  assert (Hid : str_bytes id <> []) by done. rewrite str_bytes_app. split_and!.
  - intros [H|H]%elem_of_app; [|done]. apply list_elem_of_In in H.
    match goal with H : forallb _ _ = true |- _ => rewrite forallb_forall in H end. by apply Hall in H.
  - by destruct (str_bytes id).
  - intros H%(f_equal length). rewrite length_app in H. destruct (str_bytes id); cbn in H; [done|lia].
  - intros H%(f_equal length). rewrite length_app in H. destruct (str_bytes id); cbn in H; [done|lia].
Qed.

Section files.
Context (config : RelayConfig) (kid : KeyId) (id : string).
Hypothesis Hkid : length kid = KEY_ID_LEN.
Hypothesis Hid : validate_job_id id = Ok tt.

Lemma metadata_path_own :
  metadata_path config (client_dir config kid) id = InJobs (key_id_hex kid) (metadata_file id).
Proof.
  unfold metadata_path, client_dir. rewrite place_of_join; [done|by apply client_proper|by vm_compute; set_solver|].
  apply job_file_proper; [done|by vm_compute; set_solver|cbn; lia].
Qed.

Lemma primary_object_path_own :
  primary_object_path config (client_dir config kid) id = InObjects (key_id_hex kid) (primary_file id).
Proof.
  unfold primary_object_path, client_dir. rewrite place_of_join; [done|by apply client_proper|by vm_compute; set_solver|].
  apply job_file_proper; [done|by vm_compute; set_solver|cbn; lia].
Qed.

Lemma normalized_object_path_own :
  normalized_object_path config (client_dir config kid) id = InObjects (key_id_hex kid) (normalized_file id).
Proof.
  unfold normalized_object_path, client_dir. rewrite place_of_join; [done|by apply client_proper|by vm_compute; set_solver|].
  apply job_file_proper; [done|by vm_compute; set_solver|cbn; lia].
Qed.

End files.

(** * What the operations on a job see and change *)

Section operations.
Context `{C : Crypto} `{U : UrlLib} {T : RelayToml}.
Context (config : RelayConfig) (kid : KeyId).
Hypothesis Hkid : length kid = KEY_ID_LEN.

Abbreviation own := (key_id_hex kid).

(** A download reads the client's own files. *)
Lemma relay_download_own io c s1 s2 :
  client_files s1 own = client_files s2 own -> relay_download config io s1 kid c = relay_download config io s2 kid c.
Proof.
  intros H. unfold relay_download. destruct (read_string 128 c) as [[id c1]|]; [|done]. cbn [mbind result_bind].
  destruct (validate_job_id id) as [[]|] eqn:Hid; [|done]. cbn [mbind result_bind].
  unfold read_metadata_at. rewrite metadata_path_own, primary_object_path_own, normalized_object_path_own by done.
  assert (Hp : forall b : bool, read_place s1 (if b then InObjects own (normalized_file id) else InObjects own (primary_file id))
    = read_place s2 (if b then InObjects own (normalized_file id) else InObjects own (primary_file id))) by (intros []; cbn; by rewrite H).
  cbn [read_place]. rewrite H. destruct (read_u32 c1) as [[o c2]|]; [|done]. cbn [mbind result_bind].
  destruct (read_u16 c2) as [[r c3]|]; [|done]. cbn [mbind result_bind].
  destruct (read_optional_u8 c3) as [[a c4]|]; [|done]. cbn [mbind result_bind].
  destruct (cs_jobs _ !! _); [|done]. by rewrite Hp.
Qed.

(** A deletion removes files of the client. *)
Definition delete_files (id : string) (metadata : bool) (cs : client_store) : client_store := {|
  cs_jobs := if metadata then delete (metadata_file id) (cs_jobs cs) else cs_jobs cs;
  cs_objects := delete (normalized_file id) (delete (primary_file id) (cs_objects cs)) |}.

Lemma relay_delete_own io c st :
  relay_delete config io st kid c = with_request st
    ('(id, _) ← read_string 128 c; _ ← validate_job_id id; Ok id)
    (fun id =>
      match cs_jobs (client_files st own) !! metadata_file id with
      | None => (st, Ok (relay_status_response GHOST_RELAY_STATUS_NOT_FOUND "job not found"))
      | Some _ =>
          (put_files st own (delete_files id (rio_remove io) (client_files st own)),
           if rio_remove io then Ok (relay_status_response GHOST_RELAY_STATUS_OK "deleted") else Err ReIo)
      end).
Proof.
  unfold relay_delete. destruct (read_string 128 c) as [[id c1]|]; [|done]. cbn [mbind result_bind].
  destruct (validate_job_id id) as [[]|] eqn:Hid; [|done]. cbn [mbind result_bind with_request].
  rewrite metadata_path_own, primary_object_path_own, normalized_object_path_own by done. cbn [read_place].
  destruct (cs_jobs (client_files st own) !! metadata_file id) eqn:Hm; [|done]. cbn [fmap option_fmap option_map].
  assert (Hd : exists cs, rs_spool st !! own = Some cs).
  { unfold client_files in Hm. destruct (rs_spool st !! own); [by eexists|]. cbn in Hm. by rewrite lookup_empty in Hm. }
  destruct Hd as [cs Hd]. unfold put_files, delete_files, client_files. rewrite Hd. cbn [default from_option Datatypes.id].
  destruct (rio_remove io); cbn [negb remove_place rs_spool rs_outside rs_queue]; (f_equal; f_equal).
  - apply map_eq. intros d. destruct (decide (own = d)) as [<-|Hne];
      [by rewrite !lookup_alter_eq, lookup_insert_eq, Hd|by rewrite !lookup_alter_ne, lookup_insert_ne by done].
  - apply map_eq. intros d. destruct (decide (own = d)) as [<-|Hne];
      [by rewrite !lookup_alter_eq, lookup_insert_eq, Hd|by rewrite !lookup_alter_ne, lookup_insert_ne by done].
Qed.

End operations.
