(* ===== verification/RelayFacts.v ===== *)
(** The relay's clients are isolated from each other, and its quota of jobs. *)

From S2P Require Import Prelude Text NetAddr Normalize Protocol Crypto Keys Fs RelayWire RelayEngine RelayJobs RelayWireFacts RelayPaths.

Create HintDb relay.

(** * Locality

    An operation is local to a client directory when it leaves the others and
    all files outside the spool alone, its result and its effect depend on that
    directory only, and the jobs it queues belong to it. *)
Record local {A} (dir : string) (f : relay_state -> relay_state * A) : Prop := {
  local_frame st d : d <> dir -> rs_spool (f st).1 !! d = rs_spool st !! d;
  local_outside st : rs_outside (f st).1 = rs_outside st;
  local_own s1 s2 : rs_spool s1 !! dir = rs_spool s2 !! dir ->
    rs_spool (f s1).1 !! dir = rs_spool (f s2).1 !! dir /\ (f s1).2 = (f s2).2;
  local_queue st : exists js, rs_queue (f st).1 = rs_queue st ++ js /\
    Forall (fun j => jr_key_id_hex j = dir) js
}.
Arguments local_frame {A dir f}.
Arguments local_outside {A dir f}.
Arguments local_own {A dir f}.
Arguments local_queue {A dir f}.

Lemma local_read {A} dir (f : option client_store -> A) : local dir (fun st => (st, f (rs_spool st !! dir))).
Proof.
  split; [done|done| |].
  - cbn. by intros s1 s2 ->.
  - intros st. exists []. by rewrite app_nil_r.
Qed.

Lemma local_ext {A} dir (f g : relay_state -> relay_state * A) :
  (forall st, f st = g st) -> local dir f -> local dir g.
Proof.
  intros E [H1 H0 H2 H3]. split; intros *; rewrite <- !E; eauto.
Qed.

Lemma local_const {A} dir (a : A) : local dir (fun st => (st, a)).
Proof. apply (local_read dir (fun _ => a)). Qed.

Section engine.
Context `{C : Crypto} `{U : UrlLib} `{T : RelayToml} `{W : RelayWorld}.
Context (config : RelayConfig).

Lemma client_files_own s1 s2 dir :
  rs_spool s1 !! dir = rs_spool s2 !! dir -> client_files s1 dir = client_files s2 dir.
Proof. unfold client_files. by intros ->. Qed.

Lemma client_usage_own r s1 s2 dir :
  rs_spool s1 !! dir = rs_spool s2 !! dir -> client_usage r s1 dir = client_usage r s2 dir.
Proof. unfold client_usage. by intros ->. Qed.

(** Solve the three conditions by the cases of the operation. *)
Ltac local_cases :=
  repeat (case_match; simplify_eq); cbn [fst snd rs_spool rs_outside rs_queue put_files push_job];
  rewrite ?lookup_insert_ne by done; rewrite ?lookup_insert_eq; try done.

Lemma enqueue_local io kid k src norm :
  local (key_id_hex kid) (fun st => enqueue config io st kid k src norm).
Proof.
  split; unfold enqueue.
  - intros st d Hd. local_cases.
  - intros st. local_cases.
  - intros s1 s2 H. rewrite (client_usage_own _ _ _ _ H), (client_files_own _ _ _ H). local_cases.
  - intros st. local_cases; try (exists []; by rewrite app_nil_r). eexists. split; [done|]. by repeat constructor.
Qed.

(** Cases on the parsed request. *)
Ltac local_request :=
  match goal with |- local _ (fun st => with_request st ?r _) => destruct r as [?|?] end;
  cbn [with_request]; [|apply local_const].

Lemma submit_web_local io kid c : local (key_id_hex kid) (fun st => submit_web config io st kid c).
Proof. unfold submit_web. local_request. case_match. apply enqueue_local. Qed.

Lemma submit_git_local io kid c : local (key_id_hex kid) (fun st => submit_git config io st kid c).
Proof. unfold submit_git. local_request. apply enqueue_local. Qed.

Lemma submit_package_local io kid c : local (key_id_hex kid) (fun st => submit_package config io st kid c).
Proof. unfold submit_package. local_request. apply enqueue_local. Qed.

Lemma relay_list_local io kid : local (key_id_hex kid) (fun st => (st, relay_list io st kid)).
Proof.
  refine (local_ext _ _ _ _ (local_read (key_id_hex kid)
    (fun o => relay_list io {| rs_spool := partial_alter (fun _ => o) (key_id_hex kid) ∅; rs_outside := ∅; rs_queue := [] |} kid))).
  intros st. unfold relay_list, client_files. cbn. by rewrite lookup_partial_alter_eq.
Qed.

Lemma relay_download_local io kid c :
  length kid = KEY_ID_LEN -> local (key_id_hex kid) (fun st => (st, relay_download config io st kid c)).
Proof.
  intros Hkid. refine (local_ext _ _ _ _ (local_read (key_id_hex kid)
    (fun o => relay_download config io
      {| rs_spool := partial_alter (fun _ => o) (key_id_hex kid) ∅; rs_outside := ∅; rs_queue := [] |} kid c))).
  intros st. f_equal. apply relay_download_own; [done|]. unfold client_files. cbn. by rewrite lookup_partial_alter_eq.
Qed.

Lemma relay_delete_local io kid c :
  length kid = KEY_ID_LEN -> local (key_id_hex kid) (fun st => relay_delete config io st kid c).
Proof.
  intros Hkid. apply (local_ext _ _ _ (fun st => eq_sym (relay_delete_own config kid Hkid io c st))). local_request. split.
  - intros st d Hd. local_cases.
  - intros st. local_cases.
  - intros s1 s2 H. rewrite (client_files_own _ _ _ H). local_cases.
  - intros st. exists []. rewrite app_nil_r. local_cases.
Qed.

#[local] Hint Resolve submit_web_local submit_git_local submit_package_local relay_list_local
  relay_download_local relay_delete_local local_const : relay.

Lemma dispatch_inner_local io kid request :
  length kid = KEY_ID_LEN -> local (key_id_hex kid) (fun st => dispatch_inner config io st kid request).
Proof.
  intros Hkid. unfold dispatch_inner. destruct request as [|p [|v [|o rest]]]; [auto with relay..|].
  repeat case_match; auto with relay.
Qed.

Lemma dispatch_local io kid request :
  length kid = KEY_ID_LEN -> local (key_id_hex kid) (fun st => dispatch config io st kid request).
Proof.
  intros Hkid. destruct (dispatch_inner_local io kid request Hkid) as [H1 H0 H2 H3]. unfold dispatch. split.
  - intros st d Hd. specialize (H1 st d Hd). cbn in *. by destruct (dispatch_inner _ _ _ _ _) as [? []].
  - intros st. specialize (H0 st). cbn in *. by destruct (dispatch_inner _ _ _ _ _) as [? []].
  - intros s1 s2 H. specialize (H2 s1 s2 H). cbn in *.
    destruct (dispatch_inner _ _ s1 _ _) as [? []], (dispatch_inner _ _ s2 _ _) as [? []]; cbn in *; by destruct H2; simplify_eq.
  - intros st. specialize (H3 st). cbn in *. by destruct (dispatch_inner _ _ _ _ _) as [? []].
Qed.

(** The parts of a worker's processing of a job. *)
Lemma job_begin_local io job : local (jr_key_id_hex job) (fun st => job_begin io st job).
Proof.
  split; unfold job_begin.
  - intros st d Hd. local_cases.
  - intros st. local_cases.
  - intros s1 s2 H. rewrite (client_files_own _ _ _ H). local_cases.
  - intros st. exists []. rewrite app_nil_r. local_cases.
Qed.

Lemma job_store_local io dir m o : local dir (fun st => job_store config io st dir m o).
Proof.
  split; unfold job_store.
  - intros st d Hd. local_cases.
  - intros st. local_cases.
  - intros s1 s2 H. rewrite (client_files_own _ _ _ H), (client_usage_own _ _ _ _ H). local_cases.
  - intros st. exists []. rewrite app_nil_r. local_cases.
Qed.

Lemma job_finish_local io dir m o : local dir (fun st => job_finish io st dir m o).
Proof.
  split; unfold job_finish.
  - intros st d Hd. local_cases.
  - intros st. local_cases.
  - intros s1 s2 H. rewrite (client_files_own _ _ _ H). local_cases.
  - intros st. exists []. rewrite app_nil_r. local_cases.
Qed.

Lemma job_fail_local io job e : local (jr_key_id_hex job) (fun st => (job_fail io st job e, tt)).
Proof.
  split; unfold job_fail, job_failure.
  - intros st d Hd. local_cases.
  - intros st. local_cases.
  - intros s1 s2 H. rewrite (client_files_own _ _ _ H). local_cases.
  - intros st. exists []. rewrite app_nil_r. local_cases.
Qed.

(** What the engine does, one atomic part at a time. *)
Inductive relay_event :=
| RvRequest (io : relay_io) (kid : KeyId) (request : bytes)
| RvBegin (io : relay_io) (job : JobRef)
| RvStore (io : relay_io) (dir : string) (m : RelayJobMetadata) (o : JobOutcome)
| RvFinish (io : relay_io) (dir : string) (m : RelayJobMetadata) (o : JobOutcome)
| RvFail (io : relay_io) (job : JobRef) (e : RelayError).

Definition event_dir (e : relay_event) : string :=
  match e with
  | RvRequest _ kid _ => key_id_hex kid
  | RvBegin _ job | RvFail _ job _ => jr_key_id_hex job
  | RvStore _ dir _ _ | RvFinish _ dir _ _ => dir
  end.

(** Key ids have their length. *)
Definition event_ok (e : relay_event) : Prop := match e with RvRequest _ kid _ => length kid = KEY_ID_LEN | _ => True end.

Definition event_run (st : relay_state) (e : relay_event) : relay_state :=
  match e with
  | RvRequest io kid request => (dispatch config io st kid request).1
  | RvBegin io job => (job_begin io st job).1
  | RvStore io dir m o => (job_store config io st dir m o).1
  | RvFinish io dir m o => (job_finish io st dir m o).1
  | RvFail io job e => job_fail io st job e
  end.

Definition serve (st : relay_state) (es : list relay_event) : relay_state := foldl event_run st es.

Lemma event_run_local e : event_ok e -> local (event_dir e) (fun st => (event_run st e, tt)).
Proof.
  assert (Hfst : forall A dir (f : relay_state -> relay_state * A), local dir f -> local dir (fun st => ((f st).1, tt))).
  { intros A dir f [H1 H0 H2 H3]. split; [done|done| |done]. intros s1 s2 H. split; [by apply H2|done]. }
  intros He. destruct e; cbn [event_run event_dir event_ok] in *.
  - by apply Hfst, dispatch_local.
  - apply Hfst, job_begin_local.
  - apply Hfst, job_store_local.
  - apply Hfst, job_finish_local.
  - apply job_fail_local.
Qed.

Lemma serve_frame es : forall st d,
  Forall (fun e => event_ok e /\ event_dir e <> d) es ->
  rs_spool (serve st es) !! d = rs_spool st !! d /\ rs_outside (serve st es) = rs_outside st.
Proof.
  induction es as [|e es IH]; intros st d H; [done|]. apply Forall_cons in H as [[Hok Hd] H]. cbn.
  change (foldl _ ?s es) with (serve s es). destruct (IH (event_run st e) d H) as [-> ->].
  destruct (event_run_local e Hok) as [H1 H0 _ _].
  specialize (H1 st d (not_eq_sym Hd)). specialize (H0 st). done.
Qed.

(** C16: clients are isolated.  Whatever job ids, file paths included, a client
    sends, its request answers and leaves the client's own files exactly as if
    the requests and the job processing of the other clients before it, in any
    interleaving, had never happened; it does not touch the files of another
    client or any file outside the spool, and every job it queues is the client's
    own.  (Key ids determine the directories uniquely, so distinct clients never
    share one.) *)
Theorem relay_isolation io st kid request others :
  length kid = KEY_ID_LEN ->
  Forall (fun e => event_ok e /\ event_dir e <> key_id_hex kid) others ->
  let alone := dispatch config io st kid request in
  let shared := dispatch config io (serve st others) kid request in
  shared.2 = alone.2 /\
  rs_spool shared.1 !! key_id_hex kid = rs_spool alone.1 !! key_id_hex kid /\
  (forall k, k <> kid -> rs_spool alone.1 !! key_id_hex k = rs_spool st !! key_id_hex k) /\
  rs_outside alone.1 = rs_outside st /\ rs_outside shared.1 = rs_outside st /\
  (exists js, rs_queue alone.1 = rs_queue st ++ js /\ Forall (fun j => jr_key_id_hex j = key_id_hex kid) js).
Proof.
  intros Hkid Ho alone shared. destruct (dispatch_local io kid request Hkid) as [H1 H0 H2 H3].
  destruct (serve_frame others st (key_id_hex kid) Ho) as [Hs Hout].
  destruct (H2 _ _ Hs) as [? ?]. split_and!; [done|done| |by apply H0|unfold shared; by rewrite H0|apply H3].
  intros k Hk. apply H1. intros He. by apply key_id_hex_inj in He.
Qed.

End engine.
