(* ===== verification/RelayJobFacts.v ===== *)
(** Jobs of the relay: the quotas, the life cycle of a job, package integrity. *)

From S2P Require Import Prelude Text NetAddr Normalize Protocol Crypto Keys Fs RelayWire RelayEngine RelayJobs RelayWireFacts.

(** * Files and directories *)

Lemma string_app_inj_r (a b s : string) : a +:+ s = b +:+ s -> a = b.
Proof.
  intros H. apply str_bytes_inj. apply (f_equal str_bytes) in H. rewrite !str_bytes_app in H.
  by apply app_inj_2 in H as [? _].
Qed.

Lemma string_app_ne (a s : string) : s <> ""%string -> a +:+ s <> a.
Proof.
  intros Hs H. apply Hs, str_bytes_inj. apply (f_equal str_bytes) in H. rewrite str_bytes_app in H.
  change (str_bytes "") with (@nil byte). apply (f_equal length) in H. rewrite length_app in H.
  destruct (str_bytes s); [done|]. cbn in H. lia.
Qed.

Lemma client_files_put st dir cs : client_files (put_files st dir cs) dir = cs.
Proof. unfold client_files, put_files. cbn. by rewrite lookup_insert_eq. Qed.

Lemma client_files_push st j dir : client_files (push_job st j) dir = client_files st dir.
Proof. done. Qed.

Lemma client_files_insert st dir cs : rs_spool (put_files st dir cs) !! dir = Some cs.
Proof. cbn. by rewrite lookup_insert_eq. Qed.

Create Rewrite HintDb relay_files.
#[export] Hint Rewrite client_files_put client_files_push client_files_insert : relay_files.

(** Counting along a permutation. *)
Section counting.
Context `{T : RelayToml}.

(** The number of unexpired readable jobs among directory entries. *)
Definition live_in (t : Z) (l : list (string * string)) : list RelayJobMetadata :=
  filter (fun m => t < expires_at_ms m)
    (omap (fun e => toml_meta_decode e.2) (filter (fun e => extension e.1 = Some "toml"%string) l)).

Lemma live_in_perm t l k : l ≡ₚ k -> length (live_in t l) = length (live_in t k).
Proof. intros H. apply Permutation_length. unfold live_in. by rewrite H. Qed.

Lemma live_in_cons t e l :
  (length (live_in t l) <= length (live_in t (e :: l)) <= S (length (live_in t l)))%nat.
Proof.
  unfold live_in. rewrite filter_cons. case_decide; [|lia]. cbn [omap list_omap].
  destruct (toml_meta_decode e.2) as [m|]; [|lia].
  change (list_omap ?f ?x) with (omap f x). rewrite filter_cons. case_decide; cbn [length]; lia.
Qed.

Lemma live_in_delete t (m : gmap string string) f :
  (length (live_in t (map_to_list (delete f m))) <= length (live_in t (map_to_list m)))%nat.
Proof.
  destruct (m !! f) as [v|] eqn:E; [|by rewrite delete_id].
  rewrite (live_in_perm t (map_to_list m) ((f, v) :: map_to_list (delete f m))).
  - apply live_in_cons.
  - by rewrite map_to_list_delete.
Qed.

Lemma live_in_insert t (m : gmap string string) f v :
  (length (live_in t (map_to_list (<[f := v]> m))) <= S (length (live_in t (map_to_list m))))%nat.
Proof.
  rewrite <- insert_delete_eq.
  rewrite (live_in_perm t _ _ (map_to_list_insert (delete f m) f v (lookup_delete_eq m f))).
  pose proof (live_in_cons t (f, v) (map_to_list (delete f m))). pose proof (live_in_delete t m f). lia.
Qed.

End counting.

Section jobs.
Context `{C : Crypto} `{U : UrlLib} `{T : RelayToml} `{W : RelayWorld} {TL : RelayTomlLaws T}.
Context (config : RelayConfig).

(** * Metadata *)

Lemma write_metadata_ok io cs m cs' :
  write_metadata io cs m = (cs', Ok tt) ->
  read_metadata cs' (metadata_file (job_id m)) = Ok m /\ cs_objects cs' = cs_objects cs /\
  (forall t, ((usage_at cs' t).1 <= (usage_at cs t).1 + 1)).
Proof.
  unfold write_metadata. destruct (toml_meta_encode m) as [s|] eqn:E; [|done]. repeat case_test; try done.
  intros [= <-]. unfold read_metadata. cbn. rewrite lookup_insert_eq. cbn. split_and!.
  - by rewrite (toml_meta_roundtrip _ _ E).
  - done.
  - intros t. unfold usage_at, readable_jobs, toml_entries, blen. cbn [fst cs_jobs].
    change (filter _ (omap _ (filter _ ?l))) with (live_in t l).
    pose proof (live_in_insert t (delete (metadata_file (job_id m) +:+ ".tmp") (cs_jobs cs)) (metadata_file (job_id m)) s).
    pose proof (live_in_delete t (cs_jobs cs) (metadata_file (job_id m) +:+ ".tmp")). lia.
Qed.

Lemma client_usage_files t st dir :
  in_u 64 t -> client_usage (Some t) st dir = Ok (usage_at (client_files st dir) t).
Proof.
  intros Ht. unfold client_usage, client_files. destruct (rs_spool st !! dir) as [cs|]; cbn.
  - unfold wrap. rewrite Z.mod_small; [done|]. unfold in_u, umax in Ht. lia.
  - unfold usage_at, readable_jobs, toml_entries, no_files. cbn. by rewrite map_to_list_empty.
Qed.

(** * Quotas *)

(** The quota of [enqueue].  A client at either limit gets a quota response
    and nothing changes.  When a submission is accepted, the client was below
    both limits, its unexpired jobs are then at most the maximum, the job's
    metadata is on disk as queued, and exactly this job is handed to the
    workers. *)
Theorem enqueue_quota io st kid k src norm t :
  rio_now_usage io = Some t -> in_u 64 t ->
  let dir := key_id_hex kid in
  let usage := usage_at (client_files st dir) t in
  let '(st', r) := enqueue config io st kid k src norm in
  (max_jobs_per_client config <= usage.1 \/ max_bytes_per_client config <= usage.2 ->
     st' = st /\ exists msg, r = Ok (relay_status_response GHOST_RELAY_STATUS_QUOTA msg)) /\
  (forall id, r = Ok (relay_bytes_response GHOST_RELAY_STATUS_OK (str_bytes id)) ->
     usage.1 < max_jobs_per_client config /\ usage.2 < max_bytes_per_client config /\
     (usage_at (client_files st' dir) t).1 <= max_jobs_per_client config /\
     rs_queue st' = rs_queue st ++ [{| jr_key_id_hex := dir; jr_job_id := id |}] /\
     exists m, read_metadata (client_files st' dir) (metadata_file id) = Ok m /\
       status m = JOB_STATUS_QUEUED /\ kind m = k /\ source m = src /\ normalize m = norm).
Proof.
  intros Hio Ht dir usage. unfold enqueue. fold dir. rewrite Hio, client_usage_files by done. fold usage.
  unfold usage in *; clear usage. destruct (usage_at (client_files st dir) t) as [n b] eqn:Hus. cbn [fst snd].
  assert (Hq : forall msg id, @Ok RelayError _ (relay_status_response GHOST_RELAY_STATUS_QUOTA msg)
    <> Ok (relay_bytes_response GHOST_RELAY_STATUS_OK (str_bytes id))).
  { intros msg id Hr. injection Hr. done. }
  destruct (Z.leb_spec (max_jobs_per_client config) n); [by split; [eauto|intros id Hr; by apply Hq in Hr]|].
  destruct (Z.leb_spec (max_bytes_per_client config) b); [by split; [eauto|intros id Hr; by apply Hq in Hr]|].
  case_test; [split; [lia|done]|]. destruct (unix_timestamp_ms _) as [now|e]; [|split; [lia|done]].
  match goal with |- context [write_metadata io ?cs ?m] => destruct (write_metadata io cs m) as [cs' [[]|e]] eqn:Hw end;
    [|split; [lia|done]].
  split; [lia|]. intros id <-%relay_ok_response_inj.
  apply write_metadata_ok in Hw as (Hr & _ & Hu). autorewrite with relay_files.
  specialize (Hu t). rewrite Hus in Hu. cbn [fst] in Hu.
  split_and!; [done|done|lia|done|]. eexists. split; [exact Hr|done].
Qed.
(** * The life cycle of a job *)

(** The clock is readable and the disk works. *)
Record disk_ok (io : relay_io) (t : Z) : Prop := {
  ok_usage : rio_now_usage io = Some t;
  ok_now : rio_now io = Some t;
  ok_read : rio_read io = true;
  ok_write : rio_write io = true;
  ok_normalized : rio_normalized io = true;
  ok_rename : rio_rename io = true;
  ok_fits : toml_int t
}.

Lemma unix_timestamp_small t : toml_int t -> unix_timestamp_ms (Some t) = Ok t.
Proof. intros H. unfold unix_timestamp_ms, toml_int in *. cbn. unfold wrap. rewrite Z.mod_small; [done|lia]. Qed.

Lemma write_metadata_total io t cs m :
  disk_ok io t -> meta_fits m -> exists cs', write_metadata io cs m = (cs', Ok tt).
Proof.
  intros [] Hm. unfold write_metadata. destruct (toml_meta_total m Hm) as [s ->].
  rewrite ok_write0, ok_rename0. cbn. eauto.
Qed.

Lemma with_status_fits m s t : meta_fits m -> toml_int t -> meta_fits (with_status m s t).
Proof. unfold meta_fits. cbn. tauto. Qed.

(** Fetching looks at the kind and the source only. *)
Lemma run_job_with_status m s t : run_job config (with_status m s t) = run_job config m.
Proof. done. Qed.

Lemma job_begin_runs io t st job m :
  disk_ok io t -> meta_fits m -> job_id m = jr_job_id job -> status m <> JOB_STATUS_COMPLETE ->
  read_metadata (client_files st (jr_key_id_hex job)) (metadata_file (jr_job_id job)) = Ok m ->
  exists cs, job_begin io st job = (put_files st (jr_key_id_hex job) cs, Ok (Some (with_status m JOB_STATUS_RUNNING t))) /\
    read_metadata cs (metadata_file (jr_job_id job)) = Ok (with_status m JOB_STATUS_RUNNING t).
Proof.
  intros Hio Hm Hid Hs Hr. pose proof Hio as []. unfold job_begin. rewrite ok_read0, Hr.
  rewrite bool_decide_eq_false_2 by done. rewrite ok_now0, unix_timestamp_small by done.
  destruct (write_metadata_total io t (client_files st (jr_key_id_hex job)) (with_status m JOB_STATUS_RUNNING t))
    as [cs Hw]; [done|by apply with_status_fits|].
  rewrite Hw. exists cs. split; [done|]. apply write_metadata_ok in Hw as [H _]. cbn in H. by rewrite Hid in H.
Qed.

Lemma job_store_ok io t st dir m o :
  disk_ok io t ->
  (exists cs, job_store config io st dir m o = (put_files st dir cs, Ok tt) /\
     cs_jobs cs = cs_jobs (client_files st dir) /\
     cs_objects cs = <[primary_file (job_id m) := jo_body o]> (cs_objects (client_files st dir)) /\
     blen (jo_body o) <= max_object_len config) \/
  (exists e, job_store config io st dir m o = (st, Err e) /\ (e = ReQuota \/ e = ReTooLarge)).
Proof.
  intros []. unfold job_store. rewrite ok_usage0, client_usage_files
    by (unfold in_u, umax, toml_int in *; lia).
  destruct (usage_at _ _) as [n b]. case_test; [right; by eauto|]. case_test; [right; by eauto|].
  rewrite ok_write0. cbn. left. eexists. split; [done|]. split_and!; [done..|lia].
Qed.

(** The result recorded for an outcome. *)
Definition completed (m' m : RelayJobMetadata) (o : JobOutcome) : Prop :=
  status m' = JOB_STATUS_COMPLETE /\ job_id m' = job_id m /\ expires_at_ms m' = expires_at_ms m /\
  body_len m' = blen (jo_body o) /\ sha256_hex m' = Some (hex_string (sha256 (jo_body o))) /\
  http_status m' = jo_http_status o /\ content_type m' = jo_content_type o /\ error m' = None.

Lemma job_finish_ok io t st dir m o :
  disk_ok io t -> meta_fits m -> toml_int (blen (jo_body o)) -> toml_int (blen (normalize_html (jo_body o))) ->
  exists cs m', job_finish io st dir m o = (put_files st dir cs, Ok tt) /\
    read_metadata cs (metadata_file (job_id m)) = Ok m' /\ completed m' m o /\
    cs_objects cs !! primary_file (job_id m) = cs_objects (client_files st dir) !! primary_file (job_id m) /\
    (normalize m && is_html (jo_content_type o) (jo_body o) = true ->
       normalized_len m' = Some (blen (normalize_html (jo_body o))) /\
       cs_objects cs !! normalized_file (job_id m) = Some (normalize_html (jo_body o))).
Proof.
  intros Hio Hm Hb Hn. pose proof Hio as []. unfold job_finish.
  rewrite ok_normalized0, andb_false_r, ok_now0, unix_timestamp_small by done.
  match goal with |- context [write_metadata io ?cs ?m] => destruct (write_metadata_total io t cs m) as [cs' Hw] end.
  { done. }
  { unfold meta_fits in *. cbn. split_and!; try tauto. case_match; cbn; tauto. }
  rewrite Hw. apply write_metadata_ok in Hw as (Hr & Ho & _). eexists cs', _.
  split; [done|]. split; [exact Hr|]. split; [done|]. rewrite Ho. split.
  - case_match; [|done]. cbn. rewrite lookup_insert_ne; [done|].
    intros Hf. apply (f_equal (fun s => last (str_bytes s))) in Hf. unfold normalized_file, primary_file in Hf.
    rewrite !str_bytes_app in Hf. by rewrite !last_app in Hf.
  - intros ->. cbn. by rewrite lookup_insert_eq.
Qed.

Lemma job_fail_ok io t st job m e :
  disk_ok io t -> meta_fits m -> job_id m = jr_job_id job ->
  read_metadata (client_files st (jr_key_id_hex job)) (metadata_file (jr_job_id job)) = Ok m ->
  exists m', read_metadata (client_files (job_fail io st job e) (jr_key_id_hex job)) (metadata_file (jr_job_id job)) = Ok m' /\
    status m' = JOB_STATUS_FAILED /\ error m' = Some (error_text e) /\ job_id m' = job_id m /\
    expires_at_ms m' = expires_at_ms m.
Proof.
  intros Hio Hm Hid Hr. pose proof Hio as []. unfold job_fail, job_failure. rewrite ok_read0, Hr, ok_now0, unix_timestamp_small by done.
  match goal with |- context [write_metadata io ?cs ?m] => destruct (write_metadata_total io t cs m) as [cs' Hw] end.
  { done. }
  { unfold meta_fits in *. cbn. tauto. }
  rewrite Hw. cbn [fst]. rewrite client_files_put. apply write_metadata_ok in Hw as (Hr' & _ & _).
  cbn in Hr'. rewrite Hid in Hr'. rewrite Hr'. by eexists.
Qed.

(** A job settles.  When the clock and the disk work, processing a job that
    is not complete ends with its metadata on disk either as complete, with the
    fetched object stored whole, its length and SHA-256 recorded and its size
    within the limit, or as failed with the error's text, the error being the
    one of the fetch or a size limit.  It is never left queued or running. *)
Theorem process_job_settles io1 io2 io3 io4 t1 t2 t3 t4 st job m :
  disk_ok io1 t1 -> disk_ok io2 t2 -> disk_ok io3 t3 -> disk_ok io4 t4 ->
  read_metadata (client_files st (jr_key_id_hex job)) (metadata_file (jr_job_id job)) = Ok m ->
  job_id m = jr_job_id job -> meta_fits m -> status m <> JOB_STATUS_COMPLETE ->
  toml_int (max_object_len config) ->
  (forall o, run_job config m = Ok o -> toml_int (blen (normalize_html (jo_body o)))) ->
  let cs := client_files (process_job config io1 io2 io3 io4 st job) (jr_key_id_hex job) in
  exists m', read_metadata cs (metadata_file (jr_job_id job)) = Ok m' /\ expires_at_ms m' = expires_at_ms m /\
    ((exists o, run_job config m = Ok o /\ completed m' m o /\ blen (jo_body o) <= max_object_len config /\
        cs_objects cs !! primary_file (jr_job_id job) = Some (jo_body o)) \/
     (exists e, status m' = JOB_STATUS_FAILED /\ error m' = Some (error_text e) /\
        (run_job config m = Err e \/ e = ReQuota \/ e = ReTooLarge))).
Proof.
  intros H1 H2 H3 H4 Hr Hid Hm Hs Hmax Hnorm cs.
  assert (Hm1 : meta_fits (with_status m JOB_STATUS_RUNNING t1)) by (apply with_status_fits; [done|apply H1]).
  destruct (job_begin_runs io1 t1 st job m) as (cs1 & Hb & Hr1); [done..|].
  unfold cs, process_job, process_job_inner. rewrite Hb, run_job_with_status.
  assert (Hfail : forall st' e, client_files st' (jr_key_id_hex job) = cs1 ->
    (run_job config m = Err e \/ e = ReQuota \/ e = ReTooLarge) ->
    exists m', read_metadata (client_files (job_fail io4 st' job e) (jr_key_id_hex job)) (metadata_file (jr_job_id job)) = Ok m' /\
      expires_at_ms m' = expires_at_ms m /\ exists e, status m' = JOB_STATUS_FAILED /\ error m' = Some (error_text e) /\
        (run_job config m = Err e \/ e = ReQuota \/ e = ReTooLarge)).
  { intros st' e Hst He. destruct (job_fail_ok io4 t4 st' job (with_status m JOB_STATUS_RUNNING t1) e)
      as (m' & ? & ? & ? & ? & ?); [done|done|done|by rewrite Hst|]. exists m'. split; [done|]. split; [done|]. by exists e. }
  destruct (run_job config m) as [o|e] eqn:Hrun.
  2:{ destruct (Hfail (put_files st (jr_key_id_hex job) cs1) e) as (m' & ? & ? & ?);
      [apply client_files_put|by left|]. exists m'. split_and!; [done..|by right]. }
  destruct (job_store_ok io2 t2 (put_files st (jr_key_id_hex job) cs1) (jr_key_id_hex job)
    (with_status m JOB_STATUS_RUNNING t1) o H2) as [(cs2 & Hst & Hj & Ho & Hlen)|(e & Hst & He)].
  2:{ rewrite Hst. destruct (Hfail (put_files st (jr_key_id_hex job) cs1) e) as (m' & ? & ? & ?);
      [apply client_files_put|by right|]. exists m'. split_and!; [done..|by right]. }
  rewrite Hst. set (st2 := put_files _ _ cs2).
  destruct (job_finish_ok io3 t3 st2 (jr_key_id_hex job) (with_status m JOB_STATUS_RUNNING t1) o)
    as (cs3 & m' & Hf & Hr3 & Hc & Hobj & _); [done|done| |by apply Hnorm|].
  { unfold toml_int, blen in *. lia. }
  rewrite Hf. cbn [job_id with_status] in *. rewrite Hid in *. rewrite client_files_put.
  exists m'. split; [done|]. split; [by destruct Hc as (_ & _ & ? & _)|]. left. exists o.
  split_and!; [done|done|done|]. rewrite Hobj. unfold st2. rewrite client_files_put, Ho. by rewrite lookup_insert_eq.
Qed.

(** * Package integrity *)

Definition digest_matches (d : ExpectedDigest) (body : bytes) : Prop :=
  match d with
  | DigestNone => False
  | DigestSha256 hex => ascii_lower (hex_encode (sha256 body)) = ascii_lower (str_bytes hex)
  | DigestSha512 digest => sha512 body = digest
  end.

Lemma digest_verify_ok d body : digest_verify d body = Ok tt -> digest_matches d body.
Proof.
  destruct d as [|hex|digest]; cbn [digest_verify digest_matches]; [done| |].
  - unfold eq_ignore_ascii_case, hex_string. rewrite str_bytes_str. case_test; [|done]. by bool_props.
  - case_test; [|done]. by bool_props.
Qed.

(** A chain of requests that ends with a body, [previous] URLs having been
    requested by then: each goes to the pinned addresses when its URL has the
    pinned host, and every redirect that was followed was one of at most four, to
    a URL that the guard let through. *)
Inductive chain (host : string) (addrs : list IpAddr) : nat -> string -> bytes -> Prop :=
| chain_end previous url parsed r body :
    url_parse url = Some parsed -> http_hop url (pinned_for host addrs parsed) = Some (HttpResponse r) ->
    hr_body r = Some body -> chain host addrs previous url body
| chain_redirect previous url parsed location next l body :
    url_parse url = Some parsed -> http_hop url (pinned_for host addrs parsed) = Some (HttpRedirect location) ->
    url_parse location = Some next -> (previous < 5)%nat -> resolve_guard next (allow_loopback config) = Ok l ->
    chain host addrs (S previous) location body -> chain host addrs previous url body.

(** The body of a URL was fetched: the first request went to the addresses that
    the guard had accepted for its host. *)
Definition fetched (url : string) (body : bytes) : Prop :=
  exists parsed host addrs, url_parse url = Some parsed /\ url_host_str parsed = Some host /\
    resolve_guard parsed (allow_loopback config) = Ok addrs /\ pinned_for host addrs parsed = Some addrs /\
    chain host addrs 1 url body.

Lemma http_follow_chain host addrs todo : forall previous url r body,
  http_follow config http_hop host addrs previous todo url = Some r -> hr_body r = Some body -> chain host addrs previous url body.
Proof.
  induction todo as [|todo IH]; intros previous url r body; [done|]. cbn [http_follow].
  destruct (url_parse url) as [parsed|] eqn:Hp; [|done]. cbn [mbind option_bind].
  destruct (http_hop url (pinned_for host addrs parsed)) as [[r'|location]|] eqn:Ha; cbn [mbind option_bind]; [| |done].
  - intros [= <-] Hb. by eapply chain_end.
  - destruct (url_parse location) as [next|] eqn:Hn; [|done]. cbn [mbind option_bind]. unfold redirect_followed.
    destruct (Nat.leb_spec 5 previous); [done|]. destruct (resolve_guard next (allow_loopback config)) as [l|] eqn:Hg; [|done].
    cbn [is_ok]. intros Hr Hb. eapply chain_redirect; [done|done|done|done|exact Hg|]. by eapply IH.
Qed.

Lemma http_get_bytes_ok url max_len st ctype body :
  http_get_bytes config url max_len = Ok (st, ctype, body) ->
  fetched url body /\ blen body <= max_len.
Proof.
  unfold http_get_bytes. intros H. apply bind_Ok_inv in H as ([addrs parsed] & Hp & H). inv_ok.
  case_test; [done|]. inv_ok. case_test; [done|]. inv_ok. bool_props. split; [|done].
  unfold validate_and_pin in Hp. apply bind_Ok_inv in Hp as (u & Hu%ok_or_Ok & Hp). case_test; [|done].
  apply bind_Ok_inv in Hp as (l & Hl & Hp). apply bind_Ok_inv in Hp as (host & Hhost%ok_or_Ok & Hp). injection Hp as -> ->.
  unfold http_send in *. rewrite Hhost in *. cbn [mbind option_bind] in *.
  exists parsed, host, addrs. split_and!; [done..|unfold pinned_for; by rewrite bool_decide_eq_true_2|].
  by eapply http_follow_chain.
Qed.

(** A redirect to another host leaves the addresses that were validated: the
    next request goes wherever the name leads by then. *)
Lemma redirect_hop_unpinned host addrs previous todo url parsed location next :
  url_parse url = Some parsed -> http_hop url (pinned_for host addrs parsed) = Some (HttpRedirect location) ->
  url_parse location = Some next -> url_host_str next <> Some host ->
  redirect_followed (allow_loopback config) previous next = true ->
  forall r, http_hop location None = Some (HttpResponse r) ->
  http_follow config http_hop host addrs previous (S (S todo)) url = Some r.
Proof.
  intros Hp Ha Hn Hh Hf r Hr. cbn [http_follow]. rewrite Hp. cbn [mbind option_bind]. rewrite Ha. cbn [mbind option_bind].
  rewrite Hn. cbn [mbind option_bind]. rewrite Hf, ?Hn. cbn [mbind option_bind].
  unfold pinned_for. rewrite bool_decide_eq_false_2 by done. by rewrite Hr.
Qed.

Lemma crates_download_host dl url :
  crates_download_url dl = Ok url ->
  exists base joined host, url_parse "https://crates.io/" = Some base /\ url_join base dl = Some joined /\
    url_string joined = url /\ url_host_str joined = Some host /\
    (host = "crates.io"%string \/ host = "static.crates.io"%string).
Proof.
  unfold crates_download_url. intros H. inv_ok. case_test; [|done]. inv_ok.
  do 3 eexists. split_and!; [done..|]. apply orb_prop in Heqb as [?|?]; bool_props; auto.
Qed.

(** C36: package integrity.  A package job yields bytes only if they match the
    SHA-256 or SHA-512 digest the registry announced for the resolved artifact
    (no digest means failure), they are within the size limit and the answer was
    no HTTP error.  The request for the artifact went to the addresses that the
    guard had accepted for its host; what redirects it met, at most four, were to
    URLs whose host the guard accepted too.  The artifact of a crate is requested
    from the crates.io hosts. *)
Theorem package_integrity m o :
  kind m = "package"%string -> run_job config m = Ok o ->
  exists spec resolved code, spec_decode (source m) = Ok spec /\ spec_resolve config spec = Ok resolved /\
    digest_matches (rp_digest resolved) (jo_body o) /\
    blen (jo_body o) <= max_object_len config /\ jo_http_status o = Some code /\ code < 400 /\
    fetched (rp_url resolved) (jo_body o) /\
    (ps_ecosystem spec = Crates -> exists u host, url_string u = rp_url resolved /\ url_host_str u = Some host /\
       (host = "crates.io"%string \/ host = "static.crates.io"%string)).
Proof.
  intros Hk. unfold run_job. rewrite Hk. cbn -[run_package]. unfold run_package. intros H.
  apply bind_Ok_inv in H as (spec & Hspec & H). apply bind_Ok_inv in H as (resolved & Hres & H).
  apply bind_Ok_inv in H as ([[code ctype] body] & Hget & H). case_test; [done|]. inv_ok. bool_props.
  apply http_get_bytes_ok in Hget as [Hf Hlen]. exists spec, resolved, code. cbn [jo_body jo_http_status].
  match goal with H : digest_verify _ _ = Ok ?u |- _ => destruct u; apply digest_verify_ok in H end.
  split_and!; try done. intros He. unfold spec_resolve in Hres. rewrite He in Hres. unfold resolve_crates in Hres.
  inv_ok. match goal with H : crates_download_url _ = Ok _ |- _ =>
    apply crates_download_host in H as (? & u & host & _ & _ & <- & ? & ?) end. by exists u, host.
Qed.

(** * Recovery and expiry *)

(** Crash recovery.  After a restart, exactly the jobs whose metadata says
    queued or running are handed to the workers again, each under the
    directory it was found in. *)
Theorem recover_exact st j :
  rs_spool (recover_pending st) = rs_spool st /\
  exists js, rs_queue (recover_pending st) = rs_queue st ++ js /\
    (j ∈ js <-> exists cs file contents m, rs_spool st !! jr_key_id_hex j = Some cs /\
       cs_jobs cs !! file = Some contents /\ extension file = Some "toml"%string /\
       toml_meta_decode contents = Some m /\ job_id m = jr_job_id j /\
       (status m = JOB_STATUS_QUEUED \/ status m = JOB_STATUS_RUNNING)).
Proof.
  split; [done|]. eexists. split; [done|]. rewrite list_elem_of_bind. split.
  - intros ([dir cs] & Hj & Hd%elem_of_map_to_list). unfold recover_client, readable_jobs, toml_entries in Hj.
    apply list_elem_of_fmap in Hj as (m & -> & [Hp Hm]%list_elem_of_filter).
    apply list_elem_of_omap in Hm as ([file contents] & [Hext Hf%elem_of_map_to_list]%list_elem_of_filter & Hdec).
    exists cs, file, contents, m. cbn in *. split_and!; try done.
    unfold pending_job in Hp. apply orb_prop in Hp as [?|?]; bool_props; auto.
  - intros (cs & file & contents & m & Hd & Hf & Hext & Hdec & Hid & Hst).
    exists (jr_key_id_hex j, cs). split; [|by apply elem_of_map_to_list].
    apply list_elem_of_fmap. exists m. split; [rewrite Hid; by destruct j|]. apply list_elem_of_filter. split.
    + unfold pending_job. destruct Hst as [->| ->]; done.
    + apply list_elem_of_omap. exists (file, contents). split; [|done]. apply list_elem_of_filter.
      split; [done|]. by apply elem_of_map_to_list.
Qed.

(** An entry [reap_expired] removes. *)
Definition expired_entry (now : Z) (e : string * string) : Prop :=
  extension e.1 = Some "toml"%string /\
  exists m, toml_meta_decode e.2 = Some m /\ expires_at_ms m <= now.

Lemma reap_fold_jobs now l f c : forall cs,
  (forall c', (f, c') ∈ l -> c' = c) ->
  cs_jobs (foldl (reap_entry (fun _ => true) now) cs l) !! f = Some c <->
  cs_jobs cs !! f = Some c /\ ~ ((f, c) ∈ l /\ exists m, toml_meta_decode c = Some m /\ expires_at_ms m <= now).
Proof.
  induction l as [|[f' c'] l IH]; intros cs Hl; cbn [foldl].
  - split; [intros H; split; [done|]; intros [H' _]; by apply not_elem_of_nil in H'|tauto].
  - rewrite IH by (intros c'' H; apply Hl; set_solver). unfold reap_entry. cbn [fst snd].
    assert (Hin : (f, c) ∈ (f', c') :: l <-> (f = f' /\ c = c') \/ (f, c) ∈ l).
    { rewrite elem_of_cons. split; (intros [H|H]; [left|right]); naive_solver. }
    rewrite Hin. destruct (toml_meta_decode c') as [m|] eqn:Hd; [|naive_solver].
    destruct (Z.leb_spec (expires_at_ms m) now); [|naive_solver lia].
    cbn [cs_jobs]. rewrite lookup_delete_Some. split; [naive_solver|]. intros [Hc Hn]. split; [|naive_solver].
    split; [|done]. intros ->. apply Hn. split; [|exists m]; assert (c' = c) as -> by (apply Hl; set_solver); eauto.
Qed.

Lemma reap_fold_subset removes now l f c : forall cs,
  cs_jobs (foldl (reap_entry removes now) cs l) !! f = Some c -> cs_jobs cs !! f = Some c.
Proof.
  induction l as [|e l IH]; intros cs; [done|]. cbn. intros H%IH. unfold reap_entry in H.
  destruct (toml_meta_decode e.2); [|done]. destruct (_ <=? _); [|done]. cbn in H. destruct (removes e.1); [|done].
  by apply lookup_delete_Some in H as [_ ?].
Qed.

(** A fold over some of the entries removes nothing that has not expired. *)
Lemma reap_fold_keeps removes now l f c : forall cs,
  cs_jobs cs !! f = Some c -> (forall c', (f, c') ∈ l -> c' = c) ->
  ~ (exists m, toml_meta_decode c = Some m /\ expires_at_ms m <= now) ->
  cs_jobs (foldl (reap_entry removes now) cs l) !! f = Some c.
Proof.
  induction l as [|[f' c'] l IH]; intros cs Hc Hl Hn; [done|]. cbn [foldl]. apply IH; [|set_solver|done].
  unfold reap_entry. cbn [fst snd]. destruct (toml_meta_decode c') as [m|] eqn:Hd; [|done].
  destruct (Z.leb_spec (expires_at_ms m) now); [|done]. cbn [cs_jobs]. destruct (removes f'); [|done].
  rewrite lookup_delete_ne; [done|]. intros ->. apply Hn. exists m. by rewrite <-(Hl c') by left.
Qed.

Lemma reap_fold_other removes now l f : forall cs,
  (forall c, (f, c) ∉ l) -> cs_jobs (foldl (reap_entry removes now) cs l) !! f = cs_jobs cs !! f.
Proof.
  induction l as [|e l IH]; intros cs Hno; [done|]. cbn. rewrite IH by (intros c Hi; apply (Hno c); by right).
  unfold reap_entry. destruct (toml_meta_decode e.2); [|done]. destruct (_ <=? _); [|done]. cbn [cs_jobs]. destruct (removes e.1); [|done].
  apply lookup_delete_ne. intros <-. apply (Hno e.2). destruct e. left.
Qed.

Lemma reap_fold_all removes now l : (forall f, removes f = true) -> forall cs,
  foldl (reap_entry removes now) cs l = foldl (reap_entry (fun _ => true) now) cs l.
Proof.
  intros Hrm. induction l as [|e l IH]; intros cs; [done|]. cbn. rewrite IH. f_equal. unfold reap_entry. destruct (toml_meta_decode e.2); [|done]. by rewrite !Hrm.
Qed.

(** Expiry is exact.  After [reap_expired] at time [now], when directories can be
    read and files removed, a job's metadata file is there just when it was there
    before and has not expired at [now]; whatever fails, nothing is removed that
    has not expired, and nothing appears.  (Files that are not readable metadata
    are kept.) *)
Theorem relay_reap_exact io now st dir cs file contents :
  rp_now io = Some now -> toml_int now -> rs_spool st !! dir = Some cs ->
  exists cs', rs_queue (reap_expired io st).1 = rs_queue st /\
    rs_spool (reap_expired io st).1 !! dir = Some cs' /\
    (cs_jobs cs' !! file = Some contents -> cs_jobs cs !! file = Some contents) /\
    (cs_jobs cs !! file = Some contents -> ~ expired_entry now (file, contents) -> cs_jobs cs' !! file = Some contents) /\
    (rp_stops io dir = None -> (forall f, rp_removes io dir f = true) -> expired_entry now (file, contents) ->
     cs_jobs cs' !! file <> Some contents).
Proof.
  intros Hio Hnow Hd. unfold reap_expired. rewrite Hio, unix_timestamp_small by done. cbn [fst rs_queue rs_spool].
  exists (reap_client io now dir cs). split; [done|]. split; [by rewrite map_lookup_imap, Hd|].
  assert (Hin : forall c, (file, c) ∈ toml_entries cs <-> cs_jobs cs !! file = Some c /\ extension file = Some "toml"%string).
  { intros c. unfold toml_entries. rewrite list_elem_of_filter, elem_of_map_to_list. cbn. tauto. }
  unfold reap_client, expired_entry. cbn [fst snd]. set (l := match rp_stops io dir with Some n => _ | None => _ end).
  assert (Hl : forall e, e ∈ l -> e ∈ toml_entries cs).
  { intros e. subst l. destruct (rp_stops io dir); [|done]. intros (i & Hi & _)%elem_of_take. by eapply list_elem_of_lookup_2. }
  split_and!.
  - apply reap_fold_subset.
  - intros Hc Hn. destruct (decide (extension file = Some "toml"%string)) as [Hext|Hext].
    + apply reap_fold_keeps; [done| |naive_solver]. intros c' [? _]%Hl%Hin. congruence.
    + rewrite reap_fold_other; [done|]. by intros c [_ ?]%Hl%Hin.
  - intros Hstop Hrm [Hext Hexp] Hc. assert (Hl' : l = toml_entries cs) by (subst l; by rewrite Hstop). rewrite Hl' in Hc.
    assert (Hc0 : cs_jobs cs !! file = Some contents) by (by apply reap_fold_subset in Hc).
    rewrite reap_fold_all in Hc by done. apply reap_fold_jobs in Hc as [_ Hn]; [|intros c' [? _]%Hin; congruence].
    apply Hn. split; [by apply Hin|done].
Qed.

(** * Two races

    The quota lock covers the check and the write of the object, but usage is
    computed from the metadata, which is written after the lock is released. *)

Lemma client_usage_blind r st dir objs :
  rs_spool st !! dir <> None ->
  client_usage r (put_files st dir {| cs_jobs := cs_jobs (client_files st dir); cs_objects := objs |}) dir
    = client_usage r st dir.
Proof.
  intros Hd. unfold client_usage. rewrite client_files_insert. unfold client_files. by destruct (rs_spool st !! dir).
Qed.

Lemma job_store_blind io st dir m1 o1 st1 m2 o2 :
  rs_spool st !! dir <> None -> job_store config io st dir m1 o1 = (st1, Ok tt) ->
  (job_store config io st1 dir m2 o2).2 = (job_store config io st dir m2 o2).2.
Proof.
  intros Hd H1. assert (Hst : exists objs, st1 =
    put_files st dir {| cs_jobs := cs_jobs (client_files st dir); cs_objects := objs |}).
  { unfold job_store in H1. repeat case_match; try done. injection H1 as <-. by eexists. }
  destruct Hst as [objs ->]. unfold job_store. rewrite client_usage_blind by done.
  destruct (client_usage _ st dir) as [[n b]|e]; [|done]. by repeat case_test.
Qed.

(** Two jobs of one client, each within the quota, are both stored although
    together they exceed it, when the second reaches the check before the first
    has recorded its length. *)
Theorem quota_race io t st dir m1 o1 m2 o2 :
  disk_ok io t -> job_id m1 <> job_id m2 ->
  (usage_at (client_files st dir) t).2 = 0 -> rs_spool st !! dir <> None ->
  blen (jo_body o1) <= max_object_len config -> blen (jo_body o2) <= max_object_len config ->
  blen (jo_body o1) <= max_bytes_per_client config -> blen (jo_body o2) <= max_bytes_per_client config ->
  max_bytes_per_client config < blen (jo_body o1) + blen (jo_body o2) ->
  exists st1 st2, job_store config io st dir m1 o1 = (st1, Ok tt) /\ job_store config io st1 dir m2 o2 = (st2, Ok tt) /\
    cs_objects (client_files st2 dir) !! primary_file (job_id m1) = Some (jo_body o1) /\
    cs_objects (client_files st2 dir) !! primary_file (job_id m2) = Some (jo_body o2) /\
    max_bytes_per_client config < blen (jo_body o1) + blen (jo_body o2).
Proof.
  intros Hio Hne Hu Hd Ho1 Ho2 Hb1 Hb2 Hsum.
  assert (Hok : forall m o, blen (jo_body o) <= max_object_len config -> blen (jo_body o) <= max_bytes_per_client config ->
    (job_store config io st dir m o).2 = Ok tt).
  { intros m o Ho Hb. destruct Hio. unfold job_store. rewrite ok_usage0, client_usage_files
      by (unfold in_u, umax, toml_int in *; lia).
    destruct (usage_at _ t) as [n b]. cbn in Hu. subst b. unfold sat_add.
    rewrite Z.add_0_l. destruct (Z.ltb_spec (max_bytes_per_client config) (Z.min (blen (jo_body o)) (umax 64))); [lia|].
    destruct (Z.ltb_spec (max_object_len config) (blen (jo_body o))); [lia|]. by rewrite ok_write0. }
  pose proof (Hok m1 o1 Ho1 Hb1) as H1. destruct (job_store_ok io t st dir m1 o1 Hio) as [(cs1 & Hs1 & Hj1 & Hc1 & _)|(e & Hs1 & _)];
    [|by rewrite Hs1 in H1].
  pose proof (Hok m2 o2 Ho2 Hb2) as H2. rewrite <- (job_store_blind _ _ _ _ _ _ _ _ Hd Hs1) in H2.
  destruct (job_store_ok io t (put_files st dir cs1) dir m2 o2 Hio) as [(cs2 & Hs2 & _ & Hc2 & _)|(e & Hs2 & _)];
    [|by rewrite Hs2 in H2].
  do 2 eexists. split; [exact Hs1|]. split; [exact Hs2|]. rewrite client_files_put, Hc2, lookup_insert_eq.
  split; [|done]. rewrite lookup_insert_ne, client_files_put, Hc1 by (intros H%string_app_inj_r; congruence).
  by rewrite lookup_insert_eq.
Qed.

(** A job deleted while it is being fetched comes back: the worker writes the
    object and the metadata again, as complete. *)
Theorem deleted_job_reappears io t st job m o objs :
  disk_ok io t -> meta_fits m -> job_id m = jr_job_id job -> toml_int (max_object_len config) ->
  toml_int (blen (normalize_html (jo_body o))) ->
  let dir := jr_key_id_hex job in
  let deleted := put_files st dir {| cs_jobs := delete (metadata_file (job_id m)) (cs_jobs (client_files st dir)); cs_objects := objs |} in
  forall stored, job_store config io deleted dir m o = (stored, Ok tt) ->
  exists m', read_metadata (client_files (job_finish io stored dir m o).1 dir) (metadata_file (job_id m)) = Ok m' /\
    status m' = JOB_STATUS_COMPLETE.
Proof.
  intros Hio Hm Hid Hmax Hn dir deleted stored Hs.
  destruct (job_store_ok io t deleted dir m o Hio) as [(cs & Hs' & _ & _ & Hlen)|(e & Hs' & _)]; [|congruence].
  destruct (job_finish_ok io t stored dir m o) as (cs' & m' & Hf & Hr & Hc & _); [done|done| |done|].
  { unfold toml_int, blen in *. lia. }
  rewrite Hf. cbn [fst]. rewrite client_files_put. exists m'. split; [done|]. apply Hc.
Qed.

End jobs.
