(* ===== verification/RelayPool.v ===== *)
(** The worker pool of the relay: [RelayEngine::start] of
    [ghostbro-server/src/relay.rs].

    The workers, the requests, the reaper and the recovery scan work on one
    spool and one queue; a worker's turn is one of the atomic parts of
    [process_job] in [RelayJobs], so that any of the others may happen between
    two turns.  The scan reads one client's directory at a time.  A crash is
    possible at any point; the spool survives it. *)

From S2P Require Import Prelude Text NetAddr Normalize Protocol Crypto Keys Fs RelayWire RelayEngine RelayJobs.

(** Where a worker is in its loop. *)
Inductive worker :=
| Waiting
| Fetching (job : JobRef) (m : RelayJobMetadata)
| Storing (job : JobRef) (m : RelayJobMetadata) (o : JobOutcome)
| Recording (job : JobRef) (m : RelayJobMetadata) (o : JobOutcome)
| Failing (job : JobRef) (e : RelayError).

(** The engine: the spool and the queue, the workers, and the directories the
    recovery scan has still to read. *)
Record pool := {
  po_state : relay_state;
  po_workers : list worker;
  po_scan : list string
}.

(** Labelled runs. *)
Inductive traced {S E : Type} (step : S -> E -> S -> Prop) : S -> list E -> S -> Prop :=
| traced_nil s : traced step s [] s
| traced_snoc s tr s1 ev s2 : traced step s tr s1 -> step s1 ev s2 -> traced step s (tr ++ [ev]) s2.

(** A step, whatever it is noted as. *)
Definition next {S E : Type} (step : S -> E -> S -> Prop) (s s' : S) : Prop := exists ev, step s ev s'.

Section pool.
Context `{C : Crypto} `{U : UrlLib} `{T : RelayToml} `{W : RelayWorld}.
Context (config : RelayConfig).

(** The queue is received from. *)
Definition pop_job (st : relay_state) (rest : list JobRef) : relay_state :=
  {| rs_spool := rs_spool st; rs_outside := rs_outside st; rs_queue := rest |}.

Definition take_job (io : relay_io) (st : relay_state) (job : JobRef) : relay_state * worker :=
  match job_begin io st job with
  | (st, Ok None) => (st, Waiting)
  | (st, Ok (Some m)) => (st, Fetching job m)
  | (st, Err e) => (st, Failing job e)
  end.

(** One turn of a worker; [None] while it waits for the queue. *)
Definition worker_turn (io : relay_io) (st : relay_state) (w : worker) : option (relay_state * worker) :=
  match w with
  | Waiting =>
      match rs_queue st with
      | [] => None
      | job :: rest => Some (take_job io (pop_job st rest) job)
      end
  | Fetching job m =>
      Some (st, match run_job config m with Ok o => Storing job m o | Err e => Failing job e end)
  | Storing job m o =>
      Some (match job_store config io st (jr_key_id_hex job) m o with
            | (st, Ok _) => (st, Recording job m o)
            | (st, Err e) => (st, Failing job e)
            end)
  | Recording job m o =>
      Some (match job_finish io st (jr_key_id_hex job) m o with
            | (st, Ok _) => (st, Waiting)
            | (st, Err e) => (st, Failing job e)
            end)
  | Failing job e => Some (job_fail io st job e, Waiting)
  end.

(** [RelayEngine::start] on the files it finds. *)
Definition pool_start (st : relay_state) : pool := {|
  po_state := {| rs_spool := rs_spool st; rs_outside := rs_outside st; rs_queue := [] |};
  po_workers := repeat Waiting (Z.to_nat (Z.max (worker_count config) 1));
  po_scan := (map_to_list (rs_spool st)).*1 |}.

(** The scan reads [n] entries of one directory and sends the unfinished jobs. *)
Definition scan_entries (st : relay_state) (jobs : list JobRef) : relay_state :=
  {| rs_spool := rs_spool st; rs_outside := rs_outside st; rs_queue := rs_queue st ++ jobs |}.
Definition scan_client (st : relay_state) (dir : string) : relay_state :=
  scan_entries st (recover_client dir (client_files st dir)).

Definition with_worker (p : pool) (i : nat) (s : relay_state * worker) : pool :=
  {| po_state := s.1; po_workers := <[i := s.2]> (po_workers p); po_scan := po_scan p |}.

(** The job that a worker lets go in this turn although it has neither finished
    nor failed on disk: its metadata cannot be read when it is taken from the
    queue, or its failure cannot be recorded. *)
Definition turn_drops (io : relay_io) (st : relay_state) (w : worker) : option JobRef :=
  match w with
  | Waiting => if rio_read io then None else head (rs_queue st)
  | Failing job e => if is_ok (job_failure io st job e).2 then None else Some job
  | _ => None
  end.

(** What is worth noting of a step. *)
Inductive pool_event :=
| PeQuiet
| PeDropped (job : JobRef)
| PeSkipped (jobs : list JobRef)
| PeUnscanned (dirs : list string)
| PeRestart.

Inductive worker_step : pool -> pool_event -> pool -> Prop :=
| worker_step_turn p i w io s :
    po_workers p !! i = Some w -> worker_turn io (po_state p) w = Some s ->
    worker_step p (from_option PeDropped PeQuiet (turn_drops io (po_state p) w)) (with_worker p i s).

(** The scan passes over the jobs whose metadata it cannot read, and over a
    directory it cannot look into.  An error of [read_dir] ends it, after some
    entries of the directory have been sent. *)
Inductive pool_step : pool -> pool_event -> pool -> Prop :=
| pool_request p io kid request :
    pool_step p PeQuiet {| po_state := (dispatch config io (po_state p) kid request).1;
                           po_workers := po_workers p; po_scan := po_scan p |}
| pool_worker p ev p' : worker_step p ev p' -> pool_step p ev p'
| pool_reap p io :
    pool_step p PeQuiet {| po_state := (reap_expired io (po_state p)).1; po_workers := po_workers p; po_scan := po_scan p |}
| pool_scan p dir rest :
    po_scan p = dir :: rest ->
    pool_step p PeQuiet {| po_state := scan_client (po_state p) dir; po_workers := po_workers p; po_scan := rest |}
| pool_scan_skips p dir rest skipped :
    po_scan p = dir :: rest ->
    pool_step p (PeSkipped skipped)
      {| po_state := scan_entries (po_state p) (filter (fun j => j ∉ skipped) (recover_client dir (client_files (po_state p) dir)));
         po_workers := po_workers p; po_scan := rest |}
| pool_scan_stops p dir rest jobs :
    po_scan p = dir :: rest -> jobs `sublist_of` recover_client dir (client_files (po_state p) dir) ->
    pool_step p (PeUnscanned (dir :: rest))
      {| po_state := scan_entries (po_state p) jobs; po_workers := po_workers p; po_scan := [] |}
| pool_crash p : pool_step p PeRestart (pool_start (po_state p)).

(** The work that is left for the workers. *)
Definition worker_left (w : worker) : nat :=
  match w with
  | Waiting => 0
  | Failing _ _ => 1
  | Recording _ _ _ => 2
  | Storing _ _ _ => 3
  | Fetching _ _ => 4
  end.

Definition pool_left (p : pool) : nat :=
  (5 * length (rs_queue (po_state p)) + sum_list_with worker_left (po_workers p))%nat.

(** The metadata of a job on disk, if it can be read. *)
Definition job_at (st : relay_state) (dir id : string) : option RelayJobMetadata :=
  to_option (read_metadata (client_files st dir) (metadata_file id)).

Definition held (w : worker) : option JobRef :=
  match w with
  | Waiting => None
  | Fetching job _ | Storing job _ _ | Recording job _ _ | Failing job _ => Some job
  end.

(** Someone will come back to the job. *)
Definition tracked (p : pool) (j : JobRef) : Prop :=
  j ∈ rs_queue (po_state p) \/ Exists (fun w => held w = Some j) (po_workers p) \/ jr_key_id_hex j ∈ po_scan p.

(** What happened last is at the end of a trace. *)
Definition since_start (tr : list pool_event) (ev : pool_event) : Prop :=
  exists before after, tr = before ++ ev :: after /\ PeRestart ∉ after.

(** Since the last start a worker had to let the job go, or the scan passed over
    it or ended before it had read the job's directory. *)
Definition given_up (tr : list pool_event) (j : JobRef) : Prop :=
  since_start tr (PeDropped j) \/
  (exists jobs, since_start tr (PeSkipped jobs) /\ j ∈ jobs) \/
  (exists dirs, since_start tr (PeUnscanned dirs) /\ jr_key_id_hex j ∈ dirs).

(** The files of a spool are named after the jobs they describe. *)
Definition well_named (st : relay_state) : Prop :=
  forall dir id m, job_at st dir id = Some m -> job_id m = id /\ validate_job_id id = Ok tt.

End pool.
