(* ===== verification/RelayPoolFacts.v ===== *)
(** The worker pool: no job is forgotten but those a fault of the disk costs, and
    the workers come to an end. *)

From stdpp Require Import relations.
From S2P Require Import Prelude Text NetAddr Normalize Protocol Crypto Keys Fs RelayWire RelayEngine RelayJobs RelayWireFacts.
From S2P Require Import RelayJobFacts RelayPool.

Lemma metadata_file_inj id id' : metadata_file id = metadata_file id' -> id = id'.
Proof. apply string_app_inj_r. Qed.

Lemma tmp_not_metadata id id' : metadata_file id +:+ ".tmp" <> metadata_file id'.
Proof.
  intros H. apply (f_equal (fun s => last (str_bytes s))) in H. unfold metadata_file in H.
  rewrite !str_bytes_app in H. by rewrite !last_app in H.
Qed.

(** The metadata of a job whose id is valid is an entry of the directory. *)
Lemma metadata_file_toml id : validate_job_id id = Ok tt -> extension (metadata_file id) = Some "toml"%string.
Proof.
  unfold validate_job_id. case_test; [done|]. intros _. bool_props.
  apply extension_dot; [done| |done|by repeat constructor].
  intros Hl. apply last_Some_elem_of in Hl as Hin.
  match goal with H : forallb _ _ = true |- _ => rewrite forallb_forall in H; specialize (H slash (proj1 (list_elem_of_In _ _) Hin)) end.
  done.
Qed.

Section pool_facts.
Context `{C : Crypto} `{U : UrlLib} `{T : RelayToml} `{W : RelayWorld} {TL : RelayTomlLaws T} {L : CryptoLaws C}.
Context (config : RelayConfig).

(** * What the operations do to the metadata

    An operation either adds nothing, or makes one entry be [m]. *)

Definition keeps (st st' : relay_state) : Prop :=
  forall dir id x, job_at st' dir id = Some x -> job_at st dir id = Some x.

Definition records (d : string) (m : RelayJobMetadata) (st st' : relay_state) : Prop :=
  forall dir id x, job_at st' dir id = Some x ->
    (dir = d /\ id = job_id m /\ x = m) \/ (~ (dir = d /\ id = job_id m) /\ job_at st dir id = Some x).

Definition outcome {A} (ok : A -> relay_state -> Prop) (bad : relay_state -> Prop) (r : relay_state * result RelayError A) : Prop :=
  match r with (st', Ok a) => ok a st' | (st', Err _) => bad st' end.

Lemma job_at_put st d cs dir id :
  job_at (put_files st d cs) dir id
  = if decide (dir = d) then to_option (read_metadata cs (metadata_file id)) else job_at st dir id.
Proof.
  unfold job_at. destruct (decide (dir = d)) as [->|Hne]; [by rewrite client_files_put|].
  unfold client_files, put_files. cbn. by rewrite lookup_insert_ne by done.
Qed.

Lemma keeps_refl st : keeps st st.
Proof. by intros dir id x. Qed.

Lemma keeps_put st d cs :
  (forall id x, to_option (read_metadata cs (metadata_file id)) = Some x -> job_at st d id = Some x) ->
  keeps st (put_files st d cs).
Proof. intros H dir id x. rewrite job_at_put. case_decide; [subst; apply H|done]. Qed.

(** Writing metadata, into a directory whose jobs are those of [st]. *)
Lemma write_metadata_effect io st d cs m :
  cs_jobs cs = cs_jobs (client_files st d) ->
  let w := write_metadata io cs m in
  match w.2 with
  | Ok _ => records d m st (put_files st d w.1)
  | Err _ => keeps st (put_files st d w.1)
  end.
Proof.
  intros Hcs. unfold write_metadata. destruct (toml_meta_encode m) as [s|] eqn:E.
  2:{ cbn. apply keeps_put. intros id x. unfold job_at, read_metadata. by rewrite Hcs. }
  assert (Hread : forall cs' id x, to_option (read_metadata cs' (metadata_file id)) = Some x ->
    cs_jobs cs' !! metadata_file id = cs_jobs cs !! metadata_file id -> job_at st d id = Some x).
  { intros cs' id x H1 H2. unfold job_at, read_metadata in *. by rewrite <-Hcs, <-H2. }
  destruct (rio_write io); cbn [negb snd fst]; [|apply keeps_put; by intros id x Hx; apply (Hread cs)].
  destruct (rio_rename io); cbn [negb snd fst].
  2:{ apply keeps_put. intros id x Hx. apply (Hread _ _ _ Hx). cbn. apply lookup_insert_ne, tmp_not_metadata. }
  intros dir id x. rewrite job_at_put. case_decide; [subst dir|naive_solver]. intros Hx.
  destruct (decide (id = job_id m)) as [->|Hne].
  - left. split_and!; [done..|]. unfold read_metadata in Hx. cbn in Hx. rewrite lookup_insert_eq in Hx. cbn in Hx.
    rewrite (toml_meta_roundtrip _ _ E) in Hx. by injection Hx.
  - right. split; [naive_solver|]. apply (Hread _ _ _ Hx). cbn.
    rewrite lookup_insert_ne by (by intros ?%metadata_file_inj). apply lookup_delete_ne, tmp_not_metadata.
Qed.

Lemma write_metadata_step io st d cs m cs' r :
  cs_jobs cs = cs_jobs (client_files st d) -> write_metadata io cs m = (cs', r) ->
  match r with Ok _ => records d m st (put_files st d cs') | Err _ => keeps st (put_files st d cs') end.
Proof. intros H1 H2. pose proof (write_metadata_effect io st d cs m H1) as H. by rewrite H2 in H. Qed.

Lemma keeps_files st d cs : cs_jobs cs = cs_jobs (client_files st d) -> keeps st (put_files st d cs).
Proof. intros H. apply keeps_put. intros id x. unfold job_at, read_metadata. by rewrite H. Qed.

(** * The parts of a job *)

Definition at_job (st : relay_state) (job : JobRef) : option RelayJobMetadata :=
  job_at st (jr_key_id_hex job) (jr_job_id job).

Lemma job_begin_effect io st job :
  rs_queue (job_begin io st job).1 = rs_queue st /\
  outcome (fun started st' =>
      match started with
      | None => st' = st /\ (rio_read io = true -> forall m, at_job st job = Some m -> pending_job m = false)
      | Some m => records (jr_key_id_hex job) m st st' /\ exists m0, at_job st job = Some m0 /\ job_id m = job_id m0
      end) (keeps st) (job_begin io st job).
Proof.
  unfold job_begin, at_job, job_at. destruct (rio_read io); [|by cbn]. destruct (read_metadata _ _) as [m|e]; [|by cbn].
  case_bool_decide as Hs.
  { split; [done|]. split; [done|]. intros _ m' [= <-]. unfold pending_job. by rewrite Hs. }
  destruct (unix_timestamp_ms _) as [now|e]; [|split; [done|apply keeps_refl]].
  destruct (write_metadata _ _ _) as [cs' [?|e]] eqn:Hw; (split; [done|]); cbn [outcome];
    apply (write_metadata_step _ st (jr_key_id_hex job)) in Hw; try done.
  split; [done|]. by exists m.
Qed.

Lemma job_store_effect io st dir m o :
  rs_queue (job_store config io st dir m o).1 = rs_queue st /\
  outcome (fun _ => keeps st) (keeps st) (job_store config io st dir m o).
Proof.
  unfold job_store. destruct (client_usage _ _ _) as [[? b]|e]; [|split; [done|apply keeps_refl]].
  repeat case_test; (split; [done|]); [apply keeps_refl..|]. by apply keeps_files.
Qed.

Lemma job_finish_effect io st dir m o :
  rs_queue (job_finish io st dir m o).1 = rs_queue st /\
  outcome (fun _ st' => exists m', records dir m' st st' /\ job_id m' = job_id m /\ pending_job m' = false) (keeps st)
    (job_finish io st dir m o).
Proof.
  unfold job_finish. destruct (_ && negb _); [split; [done|apply keeps_refl]|].
  match goal with |- context [put_files st dir ?cs] => set (cs0 := cs) end.
  assert (Hcs : cs_jobs cs0 = cs_jobs (client_files st dir)) by (unfold cs0; by case_match).
  destruct (unix_timestamp_ms _) as [now|e]; [|split; [done|by apply keeps_files]].
  destruct (write_metadata _ _ _) as [cs' [?|e]] eqn:Hw; (split; [done|]); cbn [outcome];
    apply (write_metadata_step _ st dir) in Hw; try done.
  eexists. split; [exact Hw|]. done.
Qed.

Lemma job_failure_effect io st job e :
  rs_queue (job_failure io st job e).1 = rs_queue st /\
  outcome (fun _ st' => exists m m', at_job st job = Some m /\ records (jr_key_id_hex job) m' st st' /\
      job_id m' = job_id m /\ pending_job m' = false) (keeps st) (job_failure io st job e).
Proof.
  unfold job_failure, at_job, job_at. destruct (rio_read io); [|split; [done|apply keeps_refl]].
  destruct (read_metadata _ _) as [m|e'] eqn:Hm; [|split; [done|apply keeps_refl]].
  destruct (write_metadata _ _ _) as [cs' [u|e']] eqn:Hw; (split; [done|]); cbn [outcome];
    apply (write_metadata_step _ st (jr_key_id_hex job)) in Hw; try done.
  eexists m, _. split; [done|]. split; [exact Hw|]. done.
Qed.

(** * Requests, the reaper and the scan *)

(** A request keeps the jobs, or adds one and sends it to the workers. *)
Definition admits_job (kid : KeyId) (st st' : relay_state) : Prop :=
  (rs_queue st' = rs_queue st /\ keeps st st') \/
  (exists m, records (key_id_hex kid) m st st' /\ validate_job_id (job_id m) = Ok tt /\
     rs_queue st' = rs_queue st ++ [{| jr_key_id_hex := key_id_hex kid; jr_job_id := job_id m |}]).

Lemma admits_refl kid st : admits_job kid st st.
Proof. left. split; [done|apply keeps_refl]. Qed.

Lemma enqueue_admits io st kid k src norm : admits_job kid st (enqueue config io st kid k src norm).1.
Proof.
  unfold enqueue. destruct (client_usage _ _ _) as [[n b]|e]; [|apply admits_refl].
  do 3 (case_test; [apply admits_refl|]).
  destruct (unix_timestamp_ms _) as [now|e]; [|left; split; [done|by apply keeps_files]].
  destruct (write_metadata _ _ _) as [cs' [?|e]] eqn:Hw; apply (write_metadata_step _ st (key_id_hex kid)) in Hw; try done;
    [right|by left]. eexists. split_and!; [exact Hw| |done]. apply relay_job_id_valid.
Qed.

Lemma with_request_admits {A} kid st (r : result RelayError A) f :
  (forall a, admits_job kid st (f a).1) -> admits_job kid st (with_request st r f).1.
Proof. intros H. destruct r; cbn; [apply H|apply admits_refl]. Qed.

(** Removing a file adds no job, wherever the file is. *)
Lemma remove_place_keeps st p : rs_queue (remove_place st p) = rs_queue st /\ keeps st (remove_place st p).
Proof.
  assert (Ha : forall f dir, (forall cs file x, cs_jobs (f cs) !! file = Some x -> cs_jobs cs !! file = Some x) ->
    keeps st {| rs_spool := alter f dir (rs_spool st); rs_outside := rs_outside st; rs_queue := rs_queue st |}).
  { intros f dir Hf d id x. unfold job_at, client_files, read_metadata. cbn. rewrite lookup_alter.
    destruct (decide (dir = d)) as [->|]; [|done]. destruct (rs_spool st !! d) as [cs|]; cbn; [|done].
    destruct (cs_jobs (f cs) !! metadata_file id) as [c|] eqn:E; [|done]. cbn. by rewrite (Hf _ _ _ E). }
  destruct p as [dir file|dir file|path]; (split; [done|]); [apply Ha|by apply Ha|by intros d id x].
  intros cs g x. cbn. intros H. by apply lookup_delete_Some in H as [_ ?].
Qed.

Lemma keeps_trans st1 st2 st3 : keeps st1 st2 -> keeps st2 st3 -> keeps st1 st3.
Proof. intros H1 H2 dir id x Hx. by apply H1, H2. Qed.

Lemma relay_delete_admits io st kid c : admits_job kid st (relay_delete config io st kid c).1.
Proof.
  apply with_request_admits. intros id. cbn zeta. case_match; [|apply admits_refl].
  left. destruct (rio_remove io); cbn [negb fst];
    (split; [by rewrite !(proj1 (remove_place_keeps _ _))|]); repeat (eapply keeps_trans; [|by apply remove_place_keeps]);
    apply keeps_refl.
Qed.

Lemma dispatch_admits io st kid request : admits_job kid st (dispatch config io st kid request).1.
Proof.
  unfold dispatch. destruct (dispatch_inner _ _ _ _ _) as [st' r] eqn:E.
  replace (fst _) with st' by by destruct r. replace st' with (dispatch_inner config io st kid request).1 by by rewrite E.
  clear E st' r. unfold dispatch_inner. destruct request as [|? [|? [|? rest]]]; try apply admits_refl.
  repeat (case_test; [first [apply admits_refl|apply relay_delete_admits|apply with_request_admits]|]); try apply admits_refl.
  - intros [url norm]. apply enqueue_admits.
  - intros url. apply enqueue_admits.
  - intros spec. apply enqueue_admits.
Qed.

Lemma reap_expired_effect io st :
  rs_queue (reap_expired io st).1 = rs_queue st /\ keeps st (reap_expired io st).1.
Proof.
  unfold reap_expired. destruct (unix_timestamp_ms _) as [now|e]; [|split; [done|apply keeps_refl]].
  split; [done|]. intros dir id y. unfold job_at, client_files, read_metadata. cbn [fst rs_spool].
  rewrite map_lookup_imap. destruct (rs_spool st !! dir) as [cs|]; [cbn|done]. unfold reap_client.
  destruct (cs_jobs (foldl _ _ _) !! metadata_file id) as [c|] eqn:Hc; [|done].
  by apply reap_fold_subset in Hc as ->.
Qed.

Lemma job_at_entry st dir id m :
  job_at st dir id = Some m -> exists cs contents, rs_spool st !! dir = Some cs /\ cs_jobs cs !! metadata_file id = Some contents /\
    toml_meta_decode contents = Some m.
Proof.
  unfold job_at, client_files, read_metadata. destruct (rs_spool st !! dir) as [cs|]; cbn; [|done].
  destruct (cs_jobs cs !! metadata_file id) as [contents|] eqn:Hf; cbn; [|done].
  destruct (toml_meta_decode contents) as [m'|] eqn:E; cbn; [|done]. intros [= <-]. eauto.
Qed.

(** The scan sends every unfinished job of the directory. *)
Lemma recover_client_sends st dir id m :
  job_at st dir id = Some m -> validate_job_id id = Ok tt -> job_id m = id -> pending_job m = true ->
  {| jr_key_id_hex := dir; jr_job_id := id |} ∈ recover_client dir (client_files st dir).
Proof.
  intros Hat Hv Hid Hp. apply job_at_entry in Hat as (cs & contents & Hd & Hf & Hdec).
  unfold recover_client, readable_jobs, toml_entries, client_files. rewrite Hd. cbn.
  apply list_elem_of_fmap. exists m. split; [by rewrite Hid|]. apply list_elem_of_filter. split; [done|].
  apply list_elem_of_omap. exists (metadata_file id, contents). split; [|done]. apply list_elem_of_filter.
  split; [by apply metadata_file_toml|by apply elem_of_map_to_list].
Qed.

(** * The invariant *)

Definition worker_wf (w : worker) : Prop :=
  match w with
  | Fetching job m | Storing job m _ | Recording job m _ =>
      job_id m = jr_job_id job /\ validate_job_id (job_id m) = Ok tt
  | Waiting | Failing _ _ => True
  end.

Record pool_inv (p : pool) (tr : list pool_event) : Prop := {
  pi_named : well_named (po_state p);
  pi_workers : Forall worker_wf (po_workers p);
  pi_some : po_workers p <> [];
  pi_tracked : forall dir id m, job_at (po_state p) dir id = Some m -> pending_job m = true ->
    let j := {| jr_key_id_hex := dir; jr_job_id := id |} in tracked p j \/ given_up tr j
}.

Lemma since_start_last tr ev : since_start (tr ++ [ev]) ev.
Proof. exists tr, []. split; [done|]. by apply not_elem_of_nil. Qed.

Lemma since_start_snoc tr ev ev' : ev' <> PeRestart -> since_start tr ev -> since_start (tr ++ [ev']) ev.
Proof.
  intros Hne (before & after & -> & Hn). exists before, (after ++ [ev']). rewrite <-app_assoc. split; [done|].
  intros [?|H%list_elem_of_singleton]%elem_of_app; [done|congruence].
Qed.

Lemma given_up_snoc tr ev j : ev <> PeRestart -> given_up tr j -> given_up (tr ++ [ev]) j.
Proof.
  intros Hne [H|[(jobs & H & Hin)|(dirs & H & Hin)]]; [left; by apply since_start_snoc| |];
    right; [left; exists jobs|right; exists dirs]; (split; [by apply since_start_snoc|done]).
Qed.

Lemma well_named_keeps st st' : keeps st st' -> well_named st -> well_named st'.
Proof. intros Hk Hn dir id m Hm. by apply (Hn dir), Hk. Qed.

Lemma well_named_records d m st st' :
  records d m st st' -> validate_job_id (job_id m) = Ok tt -> well_named st -> well_named st'.
Proof. intros Hr Hv Hn dir id x [(-> & -> & ->)|[_ Hx]]%Hr; [done|by apply (Hn dir)]. Qed.

(** A step that is not the scan's, a worker's or a restart. *)
Lemma quiet_inv st st' ws scan tr :
  (well_named st -> well_named st') ->
  (forall dir id m, job_at st' dir id = Some m -> pending_job m = true ->
     job_at st dir id = Some m \/ {| jr_key_id_hex := dir; jr_job_id := id |} ∈ rs_queue st') ->
  (forall j, j ∈ rs_queue st -> j ∈ rs_queue st') ->
  pool_inv {| po_state := st; po_workers := ws; po_scan := scan |} tr ->
  pool_inv {| po_state := st'; po_workers := ws; po_scan := scan |} (tr ++ [PeQuiet]).
Proof.
  intros Hnamed Hat Hq [Hn Hw Hs Ht]. split; [by apply Hnamed|done|done|]. intros dir id m Hm Hp j.
  destruct (Hat _ _ _ Hm Hp) as [Hm'|Hin]; [|by left; left].
  destruct (Ht _ _ _ Hm' Hp) as [[?|?]|?]; [left; left; by apply Hq|by left; right|right; by apply given_up_snoc].
Qed.

Lemma pool_inv_start st tr : well_named st -> pool_inv (pool_start config st) tr.
Proof.
  intros Hn. split; [done| | |].
  - apply Forall_forall. by intros w ->%list_elem_of_In%repeat_spec.
  - intros H%(f_equal length). cbn in H. rewrite repeat_length in H. cbn in H. lia.
  - intros dir id m Hm _. left; right; right. apply job_at_entry in Hm as (cs & _ & Hd & _). cbn.
    apply list_elem_of_fmap. exists (dir, cs). split; [done|]. by apply elem_of_map_to_list.
Qed.

(** Nothing is left to do for a job. *)
Definition settled (st : relay_state) (j : JobRef) : Prop :=
  forall m, at_job st j = Some m -> pending_job m = false.

Lemma records_settled d m st st' j :
  records d m st st' -> pending_job m = false -> jr_key_id_hex j = d -> jr_job_id j = job_id m -> settled st' j.
Proof. intros Hr Hp <- Hid x. unfold at_job. by intros [(_ & _ & ->)|[[] _]]%Hr. Qed.

(** What a turn has to guarantee: of the jobs it was responsible for, each is
    still someone's or settled or the one it drops, and it makes no others
    unfinished. *)
Record turn_ok (st : relay_state) (w : worker) (drops : option JobRef) (st' : relay_state) (w' : worker) : Prop := {
  to_named : well_named st -> well_named st';
  to_wf : worker_wf w';
  to_queue : forall j, j ∈ rs_queue st -> j ∈ rs_queue st' \/ held w' = Some j \/ settled st' j \/ drops = Some j;
  to_held : forall j, held w = Some j -> held w' = Some j \/ settled st' j \/ drops = Some j;
  to_new : forall dir id m, job_at st' dir id = Some m -> pending_job m = true ->
    job_at st dir id = Some m \/ held w' = Some {| jr_key_id_hex := dir; jr_job_id := id |}
}.

Lemma turn_keeps st w d st' w' :
  keeps st st' -> rs_queue st' = rs_queue st -> worker_wf w' -> held w' = held w \/ held w = d -> turn_ok st w d st' w'.
Proof.
  intros Hk Hq Hwf Hh. split; [by apply well_named_keeps|done|rewrite Hq; auto|destruct Hh as [->| ->]; auto|].
  intros dir id m Hm _. left. by apply Hk.
Qed.

Lemma turn_settles st w st' job m :
  records (jr_key_id_hex job) m st st' -> rs_queue st' = rs_queue st -> held w = Some job -> job_id m = jr_job_id job ->
  pending_job m = false -> validate_job_id (job_id m) = Ok tt -> turn_ok st w None st' Waiting.
Proof.
  intros Hr Hq Hh Hid Hp Hv. split; [by eapply well_named_records|done|rewrite Hq; auto| |].
  - intros j. rewrite Hh. intros [= <-]. right; left. by eapply records_settled.
  - intros dir id x Hx Hpx. apply Hr in Hx as [(_ & _ & ->)|[_ ?]]; [congruence|by left].
Qed.

Lemma take_job_ok io st job rest :
  well_named st -> rs_queue st = job :: rest ->
  let s := take_job io (pop_job st rest) job in turn_ok st Waiting (turn_drops io st Waiting) s.1 s.2.
Proof.
  intros Hn Hq. unfold take_job. pose proof (job_begin_effect io (pop_job st rest) job) as [Hq' He].
  cbn [turn_drops]. rewrite Hq. cbn [head].
  destruct (job_begin io (pop_job st rest) job) as [st' [[m|]|e]]; cbn [fst snd outcome] in *.
  - destruct He as (Hr & m0 & Hm0 & Hid). pose proof (Hn _ _ _ Hm0) as [Hid0 Hv].
    split; [|cbn; by rewrite Hid, Hid0| |done|].
    + intros _. eapply well_named_records; [exact Hr|by rewrite Hid, Hid0|done].
    + intros j. rewrite Hq, Hq'. intros [->|?]%elem_of_cons; [by right; left|by left].
    + intros dir id x Hx _. apply Hr in Hx as [(-> & -> & ->)|[_ ?]]; [right|by left].
      cbn. rewrite Hid, Hid0. by destruct job.
  - destruct He as [-> Hs]. split; [done..| |done|by auto].
    intros j. rewrite Hq. intros [->|?]%elem_of_cons; [right; right|by left].
    destruct (rio_read io); [left; exact (Hs eq_refl)|by right].
  - split; [by apply well_named_keeps|done| |done|].
    + intros j. rewrite Hq, Hq'. intros [->|?]%elem_of_cons; [by right; left|by left].
    + intros dir id x Hx _. left. by apply He in Hx.
Qed.

Lemma worker_turn_ok io st w st' w' :
  well_named st -> worker_wf w -> worker_turn config io st w = Some (st', w') ->
  turn_ok st w (turn_drops io st w) st' w'.
Proof.
  intros Hn Hwf. destruct w as [|job m|job m o|job m o|job e]; cbn [worker_turn].
  - destruct (rs_queue st) as [|job rest] eqn:Hq; [done|].
    pose proof (take_job_ok io st job rest Hn Hq) as H. destruct (take_job _ _ _) as [s w]. by intros [= <- <-].
  - intros [= <- <-]. destruct (run_job config m); apply turn_keeps; (done || apply keeps_refl || by left).
  - pose proof (job_store_effect io st (jr_key_id_hex job) m o) as [Hq He].
    destruct (job_store _ _ _ _ _ _) as [s [?|e]]; cbn in *; intros [= <- <-]; apply turn_keeps; (done || by left).
  - pose proof (job_finish_effect io st (jr_key_id_hex job) m o) as [Hq He].
    destruct (job_finish _ _ _ _ _) as [s [?|e]]; cbn in *; intros [= <- <-]; [|apply turn_keeps; (done || by left)].
    destruct He as (m' & Hr & Hid & Hp), Hwf as [Hidm Hv]. by eapply turn_settles; rewrite ?Hid.
  - pose proof (job_failure_effect io st job e) as [Hq He]. unfold job_fail. cbn [turn_drops].
    destruct (job_failure io st job e) as [s [u|e']]; cbn in *; intros [= <- <-]; [|apply turn_keeps; (done || by right)].
    destruct He as (m & m' & Hm & Hr & Hid & Hp). destruct (Hn _ _ _ Hm) as [Hidm Hv].
    by eapply turn_settles; rewrite ?Hid, ?Hidm.
Qed.

Lemma pool_inv_worker p tr ev p' : pool_inv p tr -> worker_step config p ev p' -> pool_inv p' (tr ++ [ev]).
Proof.
  intros [Hn Hws Hne Ht]. destruct 1 as [p i w io [st' w'] Hi Hturn].
  pose proof (Forall_lookup_1 _ _ _ _ Hws Hi) as Hwf.
  destruct (worker_turn_ok io (po_state p) w st' w' Hn Hwf Hturn) as [Hn' Hwf' Hq Hh Hnew].
  split; cbn [with_worker po_state po_workers fst snd]; [by apply Hn'|by apply Forall_insert| |].
  { intros H%(f_equal length). rewrite length_insert in H. by destruct (po_workers p). }
  intros dir id m Hm Hp. set (j := {| jr_key_id_hex := dir; jr_job_id := id |}). set (d := turn_drops io (po_state p) w) in *.
  assert (Hev : from_option PeDropped PeQuiet d <> PeRestart) by by destruct d.
  assert (Hnow : held w' = Some j -> tracked (with_worker p i (st', w')) j).
  { intros Hj. right; left. cbn. apply Exists_exists. exists w'. split; [|done].
    apply list_elem_of_lookup. exists i. apply list_lookup_insert_eq. by eapply lookup_lt_Some. }
  assert (Hd : d = Some j -> given_up (tr ++ [from_option PeDropped PeQuiet d]) j)
    by (intros ->; left; apply since_start_last).
  assert (Hns : ~ settled st' j) by (intros Hs; specialize (Hs m Hm); congruence).
  destruct (Hnew dir id m Hm Hp) as [Hold|Hj]; [|by left; apply Hnow].
  destruct (Ht dir id m Hold Hp) as [[Hin|[Hex|Hsc]]|Hg]; [|clear Hq|by left; right; right|by right; apply given_up_snoc].
  - destruct (Hq j Hin) as [?|[?|[?|?]]]; [by left; left|by left; apply Hnow|done|by right; apply Hd].
  - apply Exists_exists in Hex as (w0 & [k Hk]%list_elem_of_lookup & Hw0). destruct (decide (k = i)) as [->|Hki].
    + rewrite Hk in Hi. injection Hi as ->. destruct (Hh j Hw0) as [?|[?|?]]; [by left; apply Hnow|done|by right; apply Hd].
    + left; right; left. apply Exists_exists. exists w0. split; [|done]. apply list_elem_of_lookup. exists k.
      cbn. by rewrite list_lookup_insert_ne.
Qed.

(** The scan has dealt with a directory, in full or not. *)
Lemma scan_inv p dir rest jobs ev tr :
  pool_inv p tr -> ev <> PeRestart -> po_scan p = dir :: rest ->
  (forall j, jr_key_id_hex j = dir -> j ∈ recover_client dir (client_files (po_state p) dir) -> j ∈ jobs \/ given_up (tr ++ [ev]) j) ->
  forall scan, (forall j, jr_key_id_hex j ∈ rest -> jr_key_id_hex j ∈ scan \/ given_up (tr ++ [ev]) j) ->
  pool_inv {| po_state := scan_entries (po_state p) jobs; po_workers := po_workers p; po_scan := scan |} (tr ++ [ev]).
Proof.
  intros [Hn Hws Hne Ht] Hev Hscan Hsent scan Hrest. split; cbn; [exact Hn|done|done|].
  intros d id m Hm Hp. set (j := {| jr_key_id_hex := d; jr_job_id := id |}). destruct (Hn _ _ _ Hm) as [Hid Hv].
  destruct (Ht d id m Hm Hp) as [[Hin|[Hex|Hd]]|Hg]; [| | |by right; apply given_up_snoc].
  - left; left. cbn. apply elem_of_app. by left.
  - by left; right; left.
  - rewrite Hscan in Hd. apply elem_of_cons in Hd as [Hd|Hd].
    + cbn in Hd. subst d. destruct (Hsent j eq_refl) as [?|?]; [|left; left; cbn; apply elem_of_app; by right|by right].
      by apply (recover_client_sends (po_state p) dir id m).
    + destruct (Hrest j Hd) as [?|?]; [by left; right; right|by right].
Qed.

Lemma pool_inv_step p tr ev p' : pool_inv p tr -> pool_step config p ev p' -> pool_inv p' (tr ++ [ev]).
Proof.
  intros Hinv. destruct 1 as [p io kid request|p ev p' H|p io|p dir rest H|p dir rest skipped H|p dir rest jobs H _|p].
  - destruct (dispatch_admits io (po_state p) kid request) as [[Hq Hk]|(m & Hr & Hv & Hq)]; destruct p as [st ws scan]; cbn in *;
      (eapply (quiet_inv st); [| | |exact Hinv]).
    + by apply well_named_keeps.
    + auto.
    + by rewrite Hq.
    + by eapply well_named_records.
    + rewrite Hq. intros dir id x Hx _. apply Hr in Hx as [(-> & -> & ->)|[_ ?]]; [right; set_solver|by left].
    + rewrite Hq. set_solver.
  - by eapply pool_inv_worker.
  - destruct (reap_expired_effect io (po_state p)) as [Hq Hk]. destruct p as [st ws scan]. cbn in *.
    eapply (quiet_inv st); [by apply well_named_keeps|by auto|by rewrite Hq|done].
  - eapply scan_inv; [done|done|exact H|by left|by left].
  - eapply scan_inv; [done|done|exact H| |by left]. intros j Hj Hin. destruct (decide (j ∈ skipped)) as [Hs|Hs].
    + right; right; left. exists skipped. split; [apply since_start_last|done].
    + left. by apply list_elem_of_filter.
  - eapply scan_inv; [done|done|exact H| |]; intros j Hj; right; right; right; exists (dir :: rest);
      (split; [apply since_start_last|]); [rewrite Hj; left|by right].
  - apply pool_inv_start. exact (pi_named _ _ Hinv).
Qed.

Lemma pool_inv_run p tr p' : traced (pool_step config) p tr p' -> forall tr0, pool_inv p tr0 -> pool_inv p' (tr0 ++ tr).
Proof.
  induction 1 as [p|p tr p1 ev p2 _ IH Hs]; intros tr0 Hinv; [by rewrite app_nil_r|].
  rewrite app_assoc. eapply pool_inv_step; [by apply IH|done].
Qed.

(** C17: no job is forgotten, unless the disk fails.  From the start of the engine
    on a spool with its own file names, through any interleaving of requests,
    worker turns, reaping, the recovery scan and crashes with restarts, every
    job that is queued or running on disk is in the queue, in the hands of a
    worker, or in a directory that the scan has still to read; or it has been
    given up since the last start: a worker could not read its metadata or could
    not record its failure, or the scan could not read its metadata, or ended at
    an error of reading before it had read the job's directory.  After the next start it is in line again. *)
Theorem no_job_forgotten st tr p dir id m :
  well_named st -> traced (pool_step config) (pool_start config st) tr p ->
  job_at (po_state p) dir id = Some m -> pending_job m = true ->
  let j := {| jr_key_id_hex := dir; jr_job_id := id |} in
  tracked p j \/ given_up tr j.
Proof. intros Hn Hrun. apply pi_tracked, (pool_inv_run _ _ _ Hrun []). by apply pool_inv_start. Qed.

(** * Termination *)

Lemma worker_turn_left io st w st' w' :
  worker_turn config io st w = Some (st', w') ->
  (5 * length (rs_queue st') + worker_left w' < 5 * length (rs_queue st) + worker_left w)%nat.
Proof.
  destruct w as [|job m|job m o|job m o|job e]; cbn [worker_turn].
  - destruct (rs_queue st) as [|job rest] eqn:Hq; [done|]. unfold take_job.
    pose proof (job_begin_effect io (pop_job st rest) job) as [Hq' _].
    destruct (job_begin io (pop_job st rest) job) as [st1 [[m|]|e]]; intros [= <- <-]; cbn in *; rewrite Hq'; lia.
  - intros [= <- <-]. destruct (run_job config m); cbn; lia.
  - pose proof (job_store_effect io st (jr_key_id_hex job) m o) as [Hq _].
    destruct (job_store _ _ _ _ _ _) as [s [?|e]]; intros [= <- <-]; cbn in *; rewrite Hq; lia.
  - pose proof (job_finish_effect io st (jr_key_id_hex job) m o) as [Hq _].
    destruct (job_finish _ _ _ _ _) as [s [?|e]]; intros [= <- <-]; cbn in *; rewrite Hq; lia.
  - intros [= <- <-]. unfold job_fail. rewrite (proj1 (job_failure_effect io st job e)). cbn. lia.
Qed.

Lemma worker_step_left p p' : next (worker_step config) p p' -> (pool_left p' < pool_left p)%nat.
Proof.
  intros [ev H]. destruct H as [p i w io [st' w'] Hi Hturn]. apply worker_turn_left in Hturn.
  pose proof (sum_list_with_insert worker_left _ _ _ w' Hi). unfold pool_left. cbn. lia.
Qed.

Lemma worker_steps_left n p p' : nsteps (next (worker_step config)) n p p' -> (n + pool_left p' <= pool_left p)%nat.
Proof. induction 1 as [|n p p1 p2 H%worker_step_left _ IH]; lia. Qed.

Lemma worker_run_pool p tr p' : traced (worker_step config) p tr p' -> traced (pool_step config) p tr p' /\ po_scan p' = po_scan p.
Proof.
  induction 1 as [p|p tr p1 ev p2 _ [IH Hs] H]; [by repeat constructor|]. split.
  - eapply traced_snoc; [exact IH|by apply pool_worker].
  - by destruct H.
Qed.

(** A disk that takes everything, its clock unreadable. *)
Definition good_io : relay_io := {|
  rio_now_usage := None; rio_now := None; rio_read := true; rio_dirs := true; rio_write := true; rio_normalized := true;
  rio_rename := true; rio_remove := true |}.

(** A worker with a job, or with one in the queue, has a turn. *)
Lemma worker_moves p i w :
  po_workers p !! i = Some w -> held w <> None \/ rs_queue (po_state p) <> [] ->
  exists p', next (worker_step config) p p'.
Proof.
  intros Hi Hw. assert (Ht : exists s, worker_turn config good_io (po_state p) w = Some s).
  { destruct w; cbn [worker_turn]; [|by eexists..]. destruct (rs_queue (po_state p)); [by destruct Hw|by eexists]. }
  destruct Ht as [s Hs]. eexists _, _. by eapply worker_step_turn.
Qed.

(** Only an idle pool with an empty queue has no turn to make. *)
Lemma worker_step_nf p tr :
  pool_inv p tr -> nf (next (worker_step config)) p ->
  rs_queue (po_state p) = [] /\ Forall (fun w => held w = None) (po_workers p).
Proof.
  intros Hinv Hnf.
  assert (Hstuck : forall i w, po_workers p !! i = Some w -> held w = None /\ rs_queue (po_state p) = []).
  { intros i w Hi. destruct (decide (rs_queue (po_state p) = [])) as [Hq|Hq], (held w) eqn:Hh; [|done|..];
      destruct Hnf; (eapply worker_moves; [exact Hi|]); (by left; rewrite Hh) || by right. }
  split.
  - pose proof (pi_some _ _ Hinv) as Hne. destruct (po_workers p) as [|w ws] eqn:E; [done|]. by destruct (Hstuck 0%nat w).
  - apply Forall_lookup. intros i w Hi. by destruct (Hstuck i w).
Qed.

Lemma worker_steps_end n p : (pool_left p <= n)%nat ->
  exists p', rtc (next (worker_step config)) p p' /\ nf (next (worker_step config)) p'.
Proof.
  revert p; induction n as [|n IH]; intros p Hn.
  - exists p. split; [done|]. intros [p' H%worker_step_left]. lia.
  - destruct (decide (rs_queue (po_state p) = [])) as [Hq|Hq], (decide (Forall (fun w => held w = None) (po_workers p))) as [Hw|Hw].
    + exists p. split; [done|]. intros [p1 [ev H]]. inversion H as [p0 i w io s Hi Hturn]; subst p0.
      pose proof (Forall_lookup_1 _ _ _ _ Hw Hi) as Hh. destruct w; try done. cbn in Hturn. by rewrite Hq in Hturn.
    + apply not_Forall_Exists in Hw; [|apply _]. apply Exists_exists in Hw as (w & [i Hi]%list_elem_of_lookup & Hh).
      destruct (worker_moves p i w Hi (or_introl Hh)) as [p1 H1]. destruct (IH p1) as (p' & Hrun & Hnf); [apply worker_step_left in H1; lia|].
      exists p'. split; [by eapply rtc_l|done].
    + destruct (po_workers p) as [|w ws] eqn:E.
      * exists p. split; [done|]. intros [p1 [ev H]]. inversion H as [p0 i w io s Hi _]; subst p0. by rewrite E in Hi.
      * destruct (worker_moves p 0 w) as [p1 H1]; [by rewrite E|by right|].
        destruct (IH p1) as (p' & Hrun & Hnf); [apply worker_step_left in H1; lia|]. exists p'. split; [by eapply rtc_l|done].
    + apply not_Forall_Exists in Hw; [|apply _]. apply Exists_exists in Hw as (w & [i Hi]%list_elem_of_lookup & Hh).
      destruct (worker_moves p i w Hi (or_introl Hh)) as [p1 H1]. destruct (IH p1) as (p' & Hrun & Hnf); [apply worker_step_left in H1; lia|].
      exists p'. split; [by eapply rtc_l|done].
Qed.

(** C18: the workers come to an end, and every job they were given settles.  Once
    the recovery scan is over, the workers can make only a bounded number of
    turns without new requests, whatever fails; they can always go on until no
    turn is left, and then the queue is empty, and every job on disk is complete
    or failed, but for those given up since the last start: where a worker could
    not read the metadata or could not record the failure, or the scan did not
    get to read the metadata or the directory. *)
Theorem pool_drains st tr p :
  well_named st -> traced (pool_step config) (pool_start config st) tr p -> po_scan p = [] ->
  (forall n p', nsteps (next (worker_step config)) n p p' -> (n <= pool_left p)%nat) /\
  (exists p', rtc (next (worker_step config)) p p' /\ nf (next (worker_step config)) p') /\
  (forall tr' p', traced (worker_step config) p tr' p' -> nf (next (worker_step config)) p' ->
     rs_queue (po_state p') = [] /\ forall j, settled (po_state p') j \/ given_up (tr ++ tr') j).
Proof.
  intros Hn Hrun Hscan. pose proof (pool_inv_run _ _ _ Hrun [] (pool_inv_start st [] Hn)) as Hinv.
  split; [intros n p' H%worker_steps_left; lia|]. split; [by apply (worker_steps_end (pool_left p))|].
  intros tr' p' [Hsteps Hs]%worker_run_pool Hnf. pose proof (pool_inv_run _ _ _ Hsteps tr Hinv) as Hinv'.
  destruct (worker_step_nf p' _ Hinv' Hnf) as [Hq Hw]. split; [done|].
  intros [dir id]. unfold settled, at_job. cbn. destruct (job_at (po_state p') dir id) as [m|] eqn:Hm; [|by left].
  destruct (pending_job m) eqn:Hp; [|left; by intros ? [= <-]].
  destruct (pi_tracked _ _ Hinv' dir id m Hm Hp) as [[Hin|[Hex|Hin]]|?]; [exfalso..|by right].
  - rewrite Hq in Hin. by apply not_elem_of_nil in Hin.
  - apply Exists_exists in Hex as (w & Hin & Hh). rewrite Forall_forall in Hw. by rewrite (Hw w Hin) in Hh.
  - rewrite Hs, Hscan in Hin. by apply not_elem_of_nil in Hin.
Qed.

(** A worker that nobody interrupts does what [process_job] does. *)
Lemma worker_alone io1 io2 io3 io4 st job rest :
  rs_queue st = job :: rest ->
  rtc (fun s s' => exists io, worker_turn config io s.1 s.2 = Some s') (st, Waiting)
    (process_job config io1 io2 io3 io4 (pop_job st rest) job, Waiting).
Proof.
  intros Hq. unfold process_job, process_job_inner.
  eapply rtc_l; [exists io1; cbn; rewrite Hq; reflexivity|]. unfold take_job.
  destruct (job_begin io1 (pop_job st rest) job) as [st1 [[m|]|e]]; [| |apply rtc_once; by exists io4]; [|done].
  eapply rtc_l; [by exists io1|]. cbn [fst].
  destruct (run_job config m) as [o|e]; [|apply rtc_once; by exists io4].
  eapply rtc_l; [by exists io2|]. cbn [fst].
  destruct (job_store config io2 st1 (jr_key_id_hex job) m o) as [st2 [u|e]]; [|apply rtc_once; by exists io4].
  eapply rtc_l; [by exists io3|]. cbn [fst].
  destruct (job_finish io3 st2 (jr_key_id_hex job) m o) as [st3 [u'|e]]; [done|apply rtc_once; by exists io4].
Qed.

(** * A job that runs twice

    A job submitted while the scan has not yet read its client's directory is
    sent to the workers by the submission and again by the scan.  When two
    workers have it and one fails after the other has finished, the complete
    result is marked as failed. *)
Theorem scan_sends_twice st dir id m :
  job_at st dir id = Some m -> validate_job_id id = Ok tt -> job_id m = id -> pending_job m = true ->
  let j := {| jr_key_id_hex := dir; jr_job_id := id |} in
  j ∈ rs_queue st ->
  exists q1 q2 q3, rs_queue (scan_client st dir) = q1 ++ j :: q2 ++ j :: q3.
Proof.
  intros Hat Hv Hid Hp j (q1 & q2 & Hq)%list_elem_of_split.
  pose proof (recover_client_sends st dir id m Hat Hv Hid Hp) as Hin.
  apply list_elem_of_split in Hin as (r1 & r2 & Hr). cbn in Hr. exists q1, (q2 ++ r1), r2.
  unfold scan_client, scan_entries. cbn.
  rewrite Hr, Hq, <-!app_assoc. done.
Qed.

Theorem late_failure_spoils io t st job m e :
  disk_ok io t -> well_named st -> at_job st job = Some m -> status m = JOB_STATUS_COMPLETE ->
  exists m', at_job (job_fail io st job e) job = Some m' /\ status m' = JOB_STATUS_FAILED.
Proof.
  intros Hio Hn Hm _. destruct (Hn _ _ _ Hm) as [Hid _].
  pose proof (job_at_entry _ _ _ _ Hm) as (_ & c & _ & _ & Hf%toml_meta_decode_fits).
  assert (Hr : read_metadata (client_files st (jr_key_id_hex job)) (metadata_file (jr_job_id job)) = Ok m).
  { unfold at_job, job_at in Hm. destruct (read_metadata _ _); [by injection Hm as ->|done]. }
  destruct (job_fail_ok io t st job m e Hio Hf Hid Hr) as (m' & Hr' & Hs & _).
  exists m'. split; [|done]. unfold at_job, job_at. by rewrite Hr'.
Qed.

End pool_facts.
