(* ===== verification/RelayTunnel.v ===== *)
(** The relay behind the tunnel: [handle_ghost_relay] of
    [ghostbro-server/src/noise.rs]. *)

From S2P Require Import Prelude Text NetAddr Protocol Crypto Keys Fs Tunnel TunnelFacts RelayWire RelayEngine RelayWireFacts.

Section relay_tunnel.
Context `{C : Crypto} `{U : UrlLib} {T : RelayToml} `{N : Noise} {NL : NoiseLaws N}.
Context (config : RelayConfig).

(** One request, and the bytes of the response put on the wire. *)
Definition handle_ghost_relay (io : relay_io) (st : relay_state) (kid : KeyId) (request : bytes) (t : TransportState)
    : relay_state * result FrameError (TransportState * bytes) :=
  let '(st, response) := dispatch config io st kid request in (st, write_encrypted_frame t response).

(** Every chunk fits into a frame. *)
Lemma download_chunk_fits body offset requested :
  0 <= offset -> 0 <= requested ->
  (length (download_chunk body offset (Z.min requested RELAY_MAX_DOWNLOAD_CHUNK)) <= max_plaintext_len)%nat.
Proof.
  intros Ho Hr. unfold download_chunk. rewrite !length_app, !length_be_bytes.
  assert (Hs : forall lo hi (l : bytes), (length (slice lo hi l) <= hi - lo)%nat)
    by (intros lo hi l; unfold slice; rewrite length_take; lia).
  pose proof (Hs (Z.to_nat (Z.min offset (blen body))) (Z.to_nat (Z.min (blen body)
    (Z.min offset (blen body) + Z.min requested RELAY_MAX_DOWNLOAD_CHUNK))) body) as Hl.
  change max_plaintext_len with (Z.to_nat 16368). cbn [length relay_header].
  assert (RELAY_MAX_DOWNLOAD_CHUNK = 16320) by done. unfold blen in *. lia.
Qed.

(** A response that does not fit into a frame is not sent at all, although the
    request took effect. *)
Lemma oversized_response_lost io st kid request t :
  (max_plaintext_len < length (dispatch config io st kid request).2)%nat ->
  handle_ghost_relay io st kid request t = ((dispatch config io st kid request).1, Err FrameEncrypt).
Proof.
  intros H. unfold handle_ghost_relay. destruct (dispatch config io st kid request) as [st' response]. cbn [fst snd] in *.
  unfold write_encrypted_frame. rewrite write_message_fits; [done|].
  unfold max_plaintext_len, MAX_FRAME_LEN, NOISE_TAG_LEN in *. lia.
Qed.

End relay_tunnel.
