(* ===== verification/ProxyListener.v ===== *)
(** The proxy listener: [run_proxy_listener] and [handle_connection] of
    [ghostbro-server/src/noise.rs], with the services behind a connection.

    A connection is a task of its own.  Its turns are the parts between which
    others may run: the lookup in the mirror, the handshake up to the session
    slot, the first message, the service.  Of the peer a connection has the bytes
    it will send; the SOCKS5 server ([fast-socks5]) is a parameter. *)

From S2P Require Import Prelude Text NetAddr Protocol Crypto Keys Fs Runtime Tunnel RelayWire RelayEngine RelayTunnel.

(** * The responder's handshake *)

Section respond.
Context `{N : Noise} {NH : NoiseHandshake}.

(** Message 1 read and message 2 written: the state, the bytes still to come and
    the frame to send. *)
Definition respond_hello (noise : HandshakeState) (input : bytes) : result FrameError (HandshakeState * bytes * bytes) :=
  '(msg1, rest) ← read_frame input;
  '(noise, _) ← ok_or FrameDecrypt (hs_read noise msg1 MAX_FRAME_LEN);
  '(noise, msg2) ← ok_or FrameEncrypt (hs_write noise [] MAX_FRAME_LEN);
  wire ← write_frame msg2;
  Ok (noise, rest, wire).

(** The three messages: what is sent, and the state with the bytes still to come. *)
Definition respond_xk (noise : HandshakeState) (input : bytes) : bytes * result FrameError (HandshakeState * bytes) :=
  match respond_hello noise input with
  | Err e => ([], Err e)
  | Ok (noise, rest, wire) =>
      (wire, '(msg3, rest) ← read_frame rest;
             '(noise, _) ← ok_or FrameDecrypt (hs_read noise msg3 MAX_FRAME_LEN);
             Ok (noise, rest))
  end.

(** The prologue is the key id of the source's entry. *)
Definition connection_handshake (static_key : bytes) (kid : KeyId) (input : bytes)
    : bytes * option (HandshakeState * bytes) :=
  match build_responder static_key kid with
  | None => ([], None)
  | Some noise => let '(out, r) := respond_xk noise input in (out, to_option r)
  end.

(** The first message of the tunnel. *)
Definition first_message (noise : HandshakeState) (input : bytes) : result FrameError (TransportState * bytes * bytes) :=
  t ← ok_or FrameTransport (into_transport_mode noise); read_encrypted_frame t input.

(** What [handle_connection] takes of the handshake. *)
Definition handshake_of (static_key input : bytes) (kid : KeyId) : option (option bytes * result FrameError bytes) :=
  '(noise, rest) ← (connection_handshake static_key kid input).2;
  Some (get_remote_static noise, '(_, message, _) ← first_message noise rest; Ok message).

End respond.

(** * The SOCKS5 service *)

(** [fast-socks5] on a stream: negotiation without authentication, the command
    with its target, name resolution, replies, and the connection to the target. *)
Class Socks5Lib `{N : Noise} := {
  accept_no_auth : NoiseFramedStream -> NoiseFramedStream * bool;
  read_command : NoiseFramedStream -> NoiseFramedStream * option (Socks5Command * bytes);
  resolve_dns : bytes -> option bytes;
  reply_error : NoiseFramedStream -> ReplyError -> NoiseFramedStream * bool;
  run_tcp_proxy : NoiseFramedStream -> bytes -> NoiseFramedStream * bool
}.

Inductive Socks5Error :=
| SkGreeting
| SkCommand
| SkResolve
| SkReply
| SkUnsupported (command : Socks5Command)
| SkProxy (target : bytes).

Section listener.
Context `{C : Crypto} `{U : UrlLib} {T : RelayToml} `{N : Noise} {NH : NoiseHandshake} {S5 : Socks5Lib}.
Context (config : RelayConfig) (static_key : bytes).

Definition handle_socks5 (greeting : bytes) (s : TcpStream) (t : TransportState) : TcpStream * result Socks5Error unit :=
  match accept_no_auth (framed_new s t greeting) with
  | (ns, false) => (stream ns, Err SkGreeting)
  | (ns, true) =>
      match read_command ns with
      | (ns, None) => (stream ns, Err SkCommand)
      | (ns, Some (command, target)) =>
          match resolve_dns target with
          | None => (stream ns, Err SkResolve)
          | Some target =>
              if negb (bool_decide (command = TCPConnect))
              then match reply_error ns CommandNotSupported with
                   | (ns, false) => (stream ns, Err SkReply)
                   | (ns, true) => (stream ns, Err (SkUnsupported command))
                   end
              else match run_tcp_proxy ns target with
                   | (ns, false) => (stream ns, Err (SkProxy target))
                   | (ns, true) => (stream ns, Ok tt)
                   end
          end
      end
  end.

(** * Connections *)

Inductive ConnFailure :=
| CfRejected (e : ConnError)
| CfFrame (e : FrameError)
| CfSocks5 (e : Socks5Error).

Inductive conn_phase :=
| CnNew
| CnHandshake (source : AllowedSource)
| CnAccepted (kid : KeyId) (noise : HandshakeState)
| CnServing (kid : KeyId) (service : ConnService) (t : TransportState)
| CnClosed (r : result ConnFailure unit).

(** A task: the peer's address, [None] when it is not IPv4, the bytes it still
    sends, the bytes sent to it. *)
Record conn := {
  cn_peer : option Z;
  cn_input : bytes;
  cn_sent : bytes;
  cn_phase : conn_phase
}.

(** The session slot the task holds: [_session] lives until the task ends. *)
Definition holding (c : conn) : option KeyId :=
  match cn_phase c with CnAccepted kid _ | CnServing kid _ _ => Some kid | _ => None end.

(** What the tasks share: the mirror of the allow map, the session counts, the
    relay; and the tasks. *)
Record listener := {
  li_sources : gmap Z AllowedSource;
  li_sessions : SessionCounts;
  li_relay : relay_state;
  li_conns : list conn
}.

(** [run_proxy_listener] once the port is bound. *)
Definition listener_start (sources : gmap Z AllowedSource) (relay : relay_state) : listener :=
  {| li_sources := sources; li_sessions := ∅; li_relay := relay; li_conns := [] |}.

Definition to_phase (c : conn) (input out : bytes) (p : conn_phase) : conn :=
  {| cn_peer := cn_peer c; cn_input := input; cn_sent := cn_sent c ++ out; cn_phase := p |}.

Definition close (c : conn) (out : bytes) (r : result ConnFailure unit) : conn := to_phase c (cn_input c) out (CnClosed r).

(** The lookup in the mirror. *)
Definition turn_admit (timespec : option (Z * Z)) (sources : gmap Z AllowedSource) (c : conn) : gmap Z AllowedSource * conn :=
  match cn_peer c with
  | None => (sources, close c [] (Err (CfRejected NotIpv4)))
  | Some src_ip =>
      match admit_source timespec sources src_ip with
      | (sources, Err e) => (sources, close c [] (Err (CfRejected e)))
      | (sources, Ok source) => (sources, to_phase c (cn_input c) [] (CnHandshake source))
      end
  end.

(** The handshake, the check of the peer's static key, and the session slot. *)
Definition turn_handshake (sessions : SessionCounts) (c : conn) (source : AllowedSource) : SessionCounts * conn :=
  let kid := ae_key_id (as_entry source) in
  match connection_handshake static_key kid (cn_input c) with
  | (out, None) => (sessions, close c out (Err (CfRejected HandshakeFailed)))
  | (out, Some (noise, rest)) =>
      match verify_client_noise_static (get_remote_static noise) (as_noise_public_key source) with
      | Err e => (sessions, close c out (Err (CfRejected e)))
      | Ok _ =>
          match acquire_session sessions kid (as_max_concurrent_sessions source) with
          | (sessions, false) => (sessions, close c out (Err (CfRejected SessionLimit)))
          | (sessions, true) => (sessions, to_phase c rest out (CnAccepted kid noise))
          end
      end
  end.

(** The first message, by which the service is chosen. *)
Definition turn_first (sessions : SessionCounts) (c : conn) (kid : KeyId) (noise : HandshakeState) : SessionCounts * conn :=
  match first_message noise (cn_input c) with
  | Err e => (drop_session sessions kid, close c [] (Err (CfRejected (ConnFrame e))))
  | Ok (t, message, rest) => (sessions, to_phase c rest [] (CnServing kid (select_service kid message) t))
  end.

(** The service; a relay request and an echo write one frame. *)
Definition serve_once (io : relay_io) (writes : list wr_event) (relay : relay_state) (c : conn) (service : ConnService) (t : TransportState)
    : relay_state * bytes * result ConnFailure unit :=
  match service with
  | ServeSocks5 greeting =>
      let '(s, r) := handle_socks5 greeting {| rd_script := [RdData (cn_input c)]; wr_script := writes; sent := [] |} t in
      (relay, sent s, map_err CfSocks5 r)
  | ServeRelay kid request =>
      match handle_ghost_relay config io relay kid request t with
      | (relay, Ok (_, wire)) => (relay, wire, Ok tt)
      | (relay, Err e) => (relay, [], Err (CfFrame e))
      end
  | ServeEcho message =>
      match write_encrypted_frame t message with
      | Ok (_, wire) => (relay, wire, Ok tt)
      | Err e => (relay, [], Err (CfFrame e))
      end
  end.

Definition turn_serve (io : relay_io) (writes : list wr_event) (sessions : SessionCounts) (relay : relay_state) (c : conn)
    (kid : KeyId) (service : ConnService) (t : TransportState) : SessionCounts * relay_state * conn :=
  let '(relay, out, r) := serve_once io writes relay c service t in
  (drop_session sessions kid, relay, close c out r).

(** The listener after a turn of the task at [i]. *)
Definition after_turn (l : listener) (i : nat) (sources : gmap Z AllowedSource) (sessions : SessionCounts)
    (relay : relay_state) (c : conn) : listener :=
  {| li_sources := sources; li_sessions := sessions; li_relay := relay; li_conns := <[i := c]> (li_conns l) |}.

(** What a turn meets: the clock, the relay's clock and disk, the writes that the
    socket takes. *)
Record turn_io := {
  tu_timespec : option (Z * Z);
  tu_relay : relay_io;
  tu_writes : list wr_event
}.

(** One turn of the task at [i]; [None] when there is none, or it has ended. *)
Definition conn_turn (io : turn_io) (l : listener) (i : nat) : option listener :=
  c ← li_conns l !! i;
  match cn_phase c with
  | CnNew =>
      let '(sources, c) := turn_admit (tu_timespec io) (li_sources l) c in
      Some (after_turn l i sources (li_sessions l) (li_relay l) c)
  | CnHandshake source =>
      let '(sessions, c) := turn_handshake (li_sessions l) c source in
      Some (after_turn l i (li_sources l) sessions (li_relay l) c)
  | CnAccepted kid noise =>
      let '(sessions, c) := turn_first (li_sessions l) c kid noise in
      Some (after_turn l i (li_sources l) sessions (li_relay l) c)
  | CnServing kid service t =>
      let '(sessions, relay, c) := turn_serve (tu_relay io) (tu_writes io) (li_sessions l) (li_relay l) c kid service t in
      Some (after_turn l i (li_sources l) sessions relay c)
  | CnClosed _ => None
  end.

(** The task at [i] makes one turn after the other. *)
Fixpoint conn_run (ios : list turn_io) (l : listener) (i : nat) : option listener :=
  match ios with [] => Some l | io :: ios => l ← conn_turn io l i; conn_run ios l i end.

(** The accept loop: a new task. *)
Definition listener_accept (l : listener) (peer : option Z) (input : bytes) : listener :=
  {| li_sources := li_sources l; li_sessions := li_sessions l; li_relay := li_relay l;
     li_conns := li_conns l ++ [{| cn_peer := peer; cn_input := input; cn_sent := []; cn_phase := CnNew |}] |}.

(** * Runs

    What is recorded of a step: the entry a task was admitted with, and when. *)

Inductive listen_event :=
| LeQuiet
| LeAdmit (i : nat) (src_ip : Z) (source : AllowedSource) (now : Z).

(** The other tasks of the server change the mirror ([gate]) and the relay's
    state ([relay]) between turns; the process may have [max_open] connections
    open, beyond which [accept] fails. *)
Context (gate : gmap Z AllowedSource -> gmap Z AllowedSource -> Prop) (relay : relay_state -> relay_state -> Prop).
Context (max_open : nat).

Definition is_open (c : conn) : nat := match cn_phase c with CnClosed _ => 0 | _ => 1 end.
Definition open_conns (conns : list conn) : nat := sum_list_with is_open conns.

Definition turn_event (io : turn_io) (l l' : listener) (i : nat) : listen_event :=
  match li_conns l !! i, li_conns l' !! i with
  | Some c, Some c' =>
      match cn_phase c, cn_phase c', cn_peer c, monotonic_now_ns (tu_timespec io) with
      | CnNew, CnHandshake source, Some src_ip, Ok now => LeAdmit i src_ip source now
      | _, _, _, _ => LeQuiet
      end
  | _, _ => LeQuiet
  end.

Inductive listen_step : listener -> listen_event -> listener -> Prop :=
| listen_accept l peer input : (open_conns (li_conns l) < max_open)%nat -> listen_step l LeQuiet (listener_accept l peer input)
| listen_turn l i io l' : conn_turn io l i = Some l' -> listen_step l (turn_event io l l' i) l'
| listen_gate l sources :
    gate (li_sources l) sources ->
    listen_step l LeQuiet {| li_sources := sources; li_sessions := li_sessions l; li_relay := li_relay l; li_conns := li_conns l |}
| listen_relay l st :
    relay (li_relay l) st ->
    listen_step l LeQuiet {| li_sources := li_sources l; li_sessions := li_sessions l; li_relay := st; li_conns := li_conns l |}.

Inductive listen_run : listener -> list listen_event -> listener -> Prop :=
| listen_nil l : listen_run l [] l
| listen_snoc l h l1 ev l2 : listen_run l h l1 -> listen_step l1 ev l2 -> listen_run l (h ++ [ev]) l2.

(** The open sessions of a key. *)
Definition serving (kid : KeyId) (conns : list conn) : nat :=
  sum_list_with (fun c => if decide (holding c = Some kid) then 1 else 0)%nat conns.

End listener.
