(* ===== verification/ProxyListenerFacts.v ===== *)
(** Who is served by the proxy listener, and how many at a time, whatever the
    interleaving of its tasks. *)

From S2P Require Import Prelude Text NetAddr Protocol Crypto Keys Fs Runtime Tunnel TunnelFacts RelayWire RelayEngine RelayTunnel.
From S2P Require Import ProxyListener.

(** * Granted sessions *)

(** Whether there is a session left for a client. *)
Definition below_cap (cap : option Z) (n : nat) : bool :=
  match cap with Some m => (m =? 0) || (Z.of_nat n <? m) | None => true end.

Lemma acquire_granted counts kid cap n :
  default 0 (counts !! kid) = Z.of_nat n -> (forall m, cap = Some m -> 0 <= m) ->
  (acquire_session counts kid cap).2 = below_cap cap n.
Proof.
  intros Hn Hm. unfold acquire_session, below_cap. rewrite Hn. destruct cap as [m|]; [|done]. specialize (Hm m eq_refl).
  destruct (Z.ltb_spec 0 m), (Z.leb_spec m (Z.of_nat n)), (Z.eqb_spec m 0), (Z.ltb_spec (Z.of_nat n) m); done || lia.
Qed.

Lemma acquire_below counts kid cap counts' :
  acquire_session counts kid (Some cap) = (counts', true) -> 0 < cap -> default 0 (counts !! kid) < cap.
Proof. unfold acquire_session. destruct (Z.ltb_spec 0 cap), (Z.leb_spec cap (default 0 (counts !! kid))); cbn; (done || lia). Qed.

Section listener_facts.
Context `{C : Crypto} `{U : UrlLib} {T : RelayToml} `{N : Noise} {NH : NoiseHandshake} {S5 : Socks5Lib}.
Context (config : RelayConfig) (static_key : bytes).
Context (gate : gmap Z AllowedSource -> gmap Z AllowedSource -> Prop) (relay : relay_state -> relay_state -> Prop).
Context (max_open : nat) (Hmax : Z.of_nat max_open < 2 ^ 32 - 1).

Abbreviation step := (listen_step config static_key gate relay max_open).
Abbreviation run := (listen_run config static_key gate relay max_open).

(** * Counting sessions *)

(** The counts are those of the tasks that hold a slot. *)
Definition sessions_exact (sessions : SessionCounts) (conns : list conn) : Prop :=
  forall kid, default 0 (sessions !! kid) = Z.of_nat (serving kid conns).

Lemma serving_le kid conns : (serving kid conns <= open_conns conns)%nat.
Proof.
  apply sum_list_with_mono. intros c. unfold holding, is_open. destruct (cn_phase c); repeat case_decide; lia || done.
Qed.

Lemma serving_insert kid conns i c c' :
  conns !! i = Some c ->
  (serving kid (<[i := c']> conns) + (if decide (holding c = Some kid) then 1 else 0)
   = serving kid conns + (if decide (holding c' = Some kid) then 1 else 0))%nat.
Proof. apply sum_list_with_insert. Qed.

Lemma serving_snoc kid conns c : holding c = None -> serving kid (conns ++ [c]) = serving kid conns.
Proof. intros Hc. unfold serving. rewrite sum_list_with_app. cbn. rewrite Hc. case_decide; [done|lia]. Qed.

Lemma exact_keep sessions sessions' conns i c c' :
  sessions_exact sessions conns -> conns !! i = Some c -> holding c' = holding c ->
  (forall k, default 0 (sessions' !! k) = default 0 (sessions !! k)) -> sessions_exact sessions' (<[i := c']> conns).
Proof.
  intros He Hi Hh Hs kid. pose proof (serving_insert kid conns i c c' Hi) as H. rewrite Hh in H. rewrite Hs, He. lia.
Qed.

Lemma exact_acquire sessions sessions' conns i c c' kid cap :
  sessions_exact sessions conns -> conns !! i = Some c -> (open_conns conns <= max_open)%nat ->
  holding c = None -> holding c' = Some kid -> acquire_session sessions kid cap = (sessions', true) ->
  sessions_exact sessions' (<[i := c']> conns).
Proof.
  intros He Hi Hlen Hc Hc' Ha k. pose proof (serving_insert k conns i c c' Hi) as H. rewrite Hc, Hc' in H.
  rewrite (acquire_session_count _ _ _ _ _ k Ha), !He. pose proof (serving_le kid conns).
  destruct (decide (k = kid)) as [->|Hne].
  - repeat case_decide; simplify_eq. unfold wrap. rewrite Z.mod_small; lia.
  - repeat case_decide; simplify_eq; lia.
Qed.

Lemma exact_release sessions conns i c c' kid :
  sessions_exact sessions conns -> conns !! i = Some c -> holding c = Some kid -> holding c' = None ->
  sessions_exact (drop_session sessions kid) (<[i := c']> conns).
Proof.
  intros He Hi Hc Hc' k. pose proof (serving_insert k conns i c c' Hi) as H. rewrite Hc, Hc' in H.
  assert (Hpos : (0 < serving kid conns)%nat).
  { pose proof (serving_insert kid conns i c c' Hi) as H1. rewrite Hc, Hc' in H1. repeat case_decide; simplify_eq; lia. }
  rewrite drop_session_count by (rewrite He; lia). rewrite !He. destruct (decide (k = kid)) as [->|Hne].
  - repeat case_decide; simplify_eq; lia.
  - repeat case_decide; simplify_eq; lia.
Qed.

(** * Turns *)

(** What a turn does to a task [c] and the session counts. *)
Inductive turn_case (io : turn_io) (l l' : listener) (c c' : conn) : Prop :=
| case_admit src source now :
    cn_phase c = CnNew -> cn_phase c' = CnHandshake source -> cn_peer c = Some src -> li_sources l !! src = Some source ->
    monotonic_now_ns (tu_timespec io) = Ok now -> now < expiry_ns (as_entry source) -> li_sessions l' = li_sessions l ->
    turn_case io l l' c c'
| case_enter source noise out rest :
    cn_phase c = CnHandshake source -> cn_phase c' = CnAccepted (ae_key_id (as_entry source)) noise ->
    connection_handshake static_key (ae_key_id (as_entry source)) (cn_input c) = (out, Some (noise, rest)) ->
    get_remote_static noise = Some (as_noise_public_key source) ->
    acquire_session (li_sessions l) (ae_key_id (as_entry source)) (as_max_concurrent_sessions source) = (li_sessions l', true) ->
    turn_case io l l' c c'
| case_first kid noise t message rest :
    cn_phase c = CnAccepted kid noise -> cn_phase c' = CnServing kid (select_service kid message) t ->
    first_message noise (cn_input c) = Ok (t, message, rest) -> li_sessions l' = li_sessions l ->
    turn_case io l l' c c'
| case_leave kid r :
    holding c = Some kid -> cn_phase c' = CnClosed r -> li_sessions l' = drop_session (li_sessions l) kid ->
    turn_case io l l' c c'
| case_refused r :
    holding c = None -> cn_phase c' = CnClosed r ->
    (forall k, default 0 (li_sessions l' !! k) = default 0 (li_sessions l !! k)) ->
    turn_case io l l' c c'.

Lemma verify_static_Ok rs key : verify_client_noise_static rs key = Ok tt -> rs = Some key.
Proof.
  unfold verify_client_noise_static. destruct rs as [k|]; [|done]. cbn.
  destruct (_ && _) eqn:E; [|done]. intros _. bool_props. by subst.
Qed.

Lemma turn_admit_case io l c sources c' :
  turn_admit (tu_timespec io) (li_sources l) c = (sources, c') -> cn_phase c = CnNew ->
  forall l', li_sessions l' = li_sessions l -> turn_case io l l' c c' /\ cn_peer c' = cn_peer c.
Proof.
  intros H Hc l' Hl. unfold turn_admit, admit_source in H.
  assert (Href : forall r, cn_phase c' = CnClosed r -> turn_case io l l' c c').
  { intros r Hr. apply (case_refused _ _ _ _ _ r); [unfold holding; by rewrite Hc|done|by rewrite Hl]. }
  destruct (cn_peer c) as [src|] eqn:Hp; [|injection H as <- <-; split; [by eapply Href|done]].
  destruct (li_sources l !! src) as [source|] eqn:Hs; [|injection H as <- <-; split; [by eapply Href|done]].
  destruct (monotonic_now_ns _) as [now|e] eqn:Hn; [|injection H as <- <-; split; [by eapply Href|done]].
  destruct (Z.leb_spec (expiry_ns (as_entry source)) now); injection H as <- <-; (split; [|done]); [by eapply Href|].
  by apply (case_admit _ _ _ _ _ src source now).
Qed.

Lemma turn_handshake_case io l c source sessions c' :
  turn_handshake static_key (li_sessions l) c source = (sessions, c') -> cn_phase c = CnHandshake source ->
  forall l', li_sessions l' = sessions -> turn_case io l l' c c' /\ cn_peer c' = cn_peer c.
Proof.
  intros H Hc l' Hl. unfold turn_handshake in H.
  assert (Hh : holding c = None) by (unfold holding; by rewrite Hc).
  destruct (connection_handshake _ _ _) as [out [[noise rest]|]] eqn:Hx.
  2: { injection H as <- <-. split; [|done]. eapply case_refused; [done|done|by rewrite Hl]. }
  destruct (verify_client_noise_static _ _) as [[]|e] eqn:Hv.
  2: { injection H as <- <-. split; [|done]. eapply case_refused; [done|done|by rewrite Hl]. }
  destruct (acquire_session _ _ _) as [s [|]] eqn:Ha; injection H as <- <-; (split; [|done]).
  - eapply case_enter; [done|done|done|by apply verify_static_Ok|by rewrite Hl].
  - eapply case_refused; [done|done|]. intros k. rewrite Hl, (acquire_session_count _ _ _ _ _ k Ha). by case_decide; subst.
Qed.

Lemma turn_first_case io l c kid noise sessions c' :
  turn_first (li_sessions l) c kid noise = (sessions, c') -> cn_phase c = CnAccepted kid noise ->
  forall l', li_sessions l' = sessions -> turn_case io l l' c c' /\ cn_peer c' = cn_peer c.
Proof.
  intros H Hc l' Hl. unfold turn_first in H. destruct (first_message _ _) as [[[t m] rest]|e] eqn:Hm; injection H as <- <-; (split; [|done]).
  - by eapply case_first.
  - eapply (case_leave _ _ _ _ _ kid); [unfold holding; by rewrite Hc|done|done].
Qed.

(** A turn changes its own task only, in one of these ways. *)
Lemma conn_turn_case io l i l' :
  conn_turn config static_key io l i = Some l' ->
  exists c c', li_conns l !! i = Some c /\ li_conns l' = <[i := c']> (li_conns l) /\ cn_peer c' = cn_peer c /\ turn_case io l l' c c'.
Proof.
  unfold conn_turn. destruct (li_conns l !! i) as [c|]; [|done]. cbn [mbind option_bind].
  destruct (cn_phase c) as [|source|kid noise|kid service t|r] eqn:Hc; [| | | |done].
  - destruct (turn_admit _ _ _) as [sources c'] eqn:E. intros [= <-]. exists c, c'.
    edestruct (turn_admit_case io l c sources c' E Hc) as [? ?]; [|by split_and!]. done.
  - destruct (turn_handshake _ _ _ _) as [sessions c'] eqn:E. intros [= <-]. exists c, c'.
    edestruct (turn_handshake_case io l c source sessions c' E Hc) as [? ?]; [|by split_and!]. done.
  - destruct (turn_first _ _ _ _) as [sessions c'] eqn:E. intros [= <-]. exists c, c'.
    edestruct (turn_first_case io l c kid noise sessions c' E Hc) as [? ?]; [|by split_and!]. done.
  - unfold turn_serve. destruct (serve_once _ _ _ _ _ _) as [[rl out] r]. intros [= <-]. eexists c, _. split_and!; [done..|].
    eapply (case_leave _ _ _ _ _ kid); [unfold holding; by rewrite Hc|done|done].
Qed.

(** * Invariants *)

(** The task was admitted with an entry that was live then. *)
Definition admitted (h : list listen_event) (i : nat) (c : conn) (source : AllowedSource) : Prop :=
  exists src now, cn_peer c = Some src /\ LeAdmit i src source now ∈ h /\ now < expiry_ns (as_entry source).

(** The peer proved to hold the enrolled Noise key, under a prologue of its key id. *)
Definition authenticated (h : list listen_event) (i : nat) (c : conn) (kid : KeyId) (noise : HandshakeState) : Prop :=
  exists source input out rest, admitted h i c source /\ ae_key_id (as_entry source) = kid /\
    connection_handshake static_key kid input = (out, Some (noise, rest)) /\
    get_remote_static noise = Some (as_noise_public_key source).

Definition phase_ok (h : list listen_event) (i : nat) (c : conn) : Prop :=
  match cn_phase c with
  | CnHandshake source => admitted h i c source
  | CnAccepted kid noise => authenticated h i c kid noise
  | CnServing kid service t =>
      exists noise input message rest, authenticated h i c kid noise /\
        first_message noise input = Ok (t, message, rest) /\ service = select_service kid message
  | _ => True
  end.

Lemma admitted_mono h h' i c c' source : h ⊆ h' -> cn_peer c' = cn_peer c -> admitted h i c source -> admitted h' i c' source.
Proof. intros Hh Hp (src & now & Hs & Hin & Hlt). exists src, now. rewrite Hp. split_and!; [done|by apply Hh|done]. Qed.

Lemma authenticated_mono h h' i c c' kid noise :
  h ⊆ h' -> cn_peer c' = cn_peer c -> authenticated h i c kid noise -> authenticated h' i c' kid noise.
Proof. intros Hh Hp (source & input & out & rest & Ha & H). exists source, input, out, rest. split; [by eapply admitted_mono|done]. Qed.

Lemma phase_ok_mono h h' i c : h ⊆ h' -> phase_ok h i c -> phase_ok h' i c.
Proof. intros Hh. unfold phase_ok. destruct (cn_phase c); naive_solver eauto using admitted_mono, authenticated_mono. Qed.

Record listener_inv (h : list listen_event) (l : listener) : Prop := {
  inv_open : (open_conns (li_conns l) <= max_open)%nat;
  inv_sessions : sessions_exact (li_sessions l) (li_conns l);
  inv_phases : forall i c, li_conns l !! i = Some c -> phase_ok h i c
}.

Lemma turn_phase_ok h io l l' i c c' :
  li_conns l !! i = Some c -> li_conns l' !! i = Some c' -> phase_ok h i c -> cn_peer c' = cn_peer c ->
  turn_case io l l' c c' -> phase_ok (h ++ [turn_event io l l' i]) i c'.
Proof.
  intros Hi Hi' Hok Hp Hcase. assert (Hsub : h ⊆ h ++ [turn_event io l l' i]) by set_solver. unfold phase_ok in *.
  destruct Hcase as [src source now Hc Hc' Hs _ Hn Hlt _|source noise out rest Hc Hc' Hx Hr _|kid noise t m rest Hc Hc' Hm _|kid r _ Hc' _|r _ Hc' _];
    rewrite Hc'; [|rewrite Hc in Hok|rewrite Hc in Hok|done|done].
  - exists src, now. split_and!; [by rewrite Hp|apply elem_of_app; right|done]. unfold turn_event.
    rewrite Hi, Hi', Hc, Hc', Hs, Hn. by apply list_elem_of_singleton.
  - exists source, (cn_input c), out, rest. split_and!; [by eapply admitted_mono|done..].
  - exists noise, (cn_input c), m, rest. split_and!; [by eapply authenticated_mono|done..].
Qed.

(** A task does not open again. *)
Lemma turn_open io l l' i c c' :
  li_conns l !! i = Some c -> turn_case io l l' c c' -> (open_conns (<[i := c']> (li_conns l)) <= open_conns (li_conns l))%nat.
Proof.
  intros Hi Hcase. pose proof (sum_list_with_insert is_open _ _ _ c' Hi) as H. unfold open_conns in *.
  cut (is_open c' <= is_open c)%nat; [lia|]. unfold is_open.
  destruct Hcase as [? ? ? Hc Hc' _ _ _ _ _|? ? ? ? Hc Hc' _ _ _|? ? ? ? ? Hc Hc' _ _|? ? _ Hc' _|? _ Hc' _]; rewrite Hc'; rewrite ?Hc; lia.
Qed.

Lemma turn_sessions_exact io l l' i c c' :
  sessions_exact (li_sessions l) (li_conns l) -> (open_conns (li_conns l) <= max_open)%nat ->
  li_conns l !! i = Some c -> turn_case io l l' c c' -> sessions_exact (li_sessions l') (<[i := c']> (li_conns l)).
Proof.
  intros He Hlen Hi Hcase.
  destruct Hcase as [src source now Hc Hc' _ _ _ _ Hs|source noise out rest Hc Hc' _ _ Ha|kid noise t m rest Hc Hc' _ Hs|kid r Hh Hc' ->|r Hh Hc' Hs].
  - eapply exact_keep; [done|done| |by rewrite Hs]. unfold holding. by rewrite Hc, Hc'.
  - eapply exact_acquire; [done..| | |done]; unfold holding; by rewrite ?Hc, ?Hc'.
  - eapply exact_keep; [done|done| |by rewrite Hs]. unfold holding. by rewrite Hc, Hc'.
  - eapply exact_release; [done..|]. unfold holding. by rewrite Hc'.
  - eapply exact_keep; [done|done| |done]. rewrite Hh. unfold holding. by rewrite Hc'.
Qed.

Lemma listener_inv_step h l ev l' :
  step l ev l' -> listener_inv h l -> listener_inv (h ++ [ev]) l'.
Proof.
  intros Hstep [Hlen He Hp]. assert (Hsub : h ⊆ h ++ [ev]) by set_solver.
  destruct Hstep as [l peer input Hfree|l i io l' Hturn|l sources _|l st _].
  - split; cbn [listener_accept li_sessions li_conns].
    + unfold open_conns in *. rewrite sum_list_with_app. cbn. lia.
    + intros kid. rewrite serving_snoc by done. apply He.
    + intros i c [Hi|[_ Hi]]%lookup_app_Some; [by eapply phase_ok_mono, Hp|].
      apply list_lookup_singleton_Some in Hi as [_ <-]. done.
  - apply conn_turn_case in Hturn as (c & c' & Hi & Hconns & Hpeer & Hcase). split.
    + rewrite Hconns. pose proof (turn_open io l l' i c c' Hi Hcase). lia.
    + rewrite Hconns. by eapply turn_sessions_exact.
    + assert (Hi' : li_conns l' !! i = Some c') by (rewrite Hconns; apply list_lookup_insert_eq; by eapply lookup_lt_Some).
      intros j cj Hj. destruct (decide (j = i)) as [->|Hne].
      * assert (cj = c') as -> by congruence. by eapply turn_phase_ok; eauto.
      * rewrite Hconns, list_lookup_insert_ne in Hj by done. by eapply phase_ok_mono, Hp.
  - split; [done|done|]. intros i c Hi. by eapply phase_ok_mono, Hp.
  - split; [done|done|]. intros i c Hi. by eapply phase_ok_mono, Hp.
Qed.

Lemma listener_inv_run h sources rl l : run (listener_start sources rl) h l -> listener_inv h l.
Proof.
  intros Hrun. remember (listener_start sources rl) as l0. induction Hrun as [l|l h l1 ev l2 _ IH Hstep]; subst.
  - by split; [cbn; lia| |].
  - eapply listener_inv_step; [done|]. by apply IH.
Qed.

(** A turn is recorded as an admission only with the live entry of the mirror. *)
Lemma turn_event_admit io l l' j i src source now :
  conn_turn config static_key io l j = Some l' -> turn_event io l l' j = LeAdmit i src source now ->
  li_sources l !! src = Some source /\ now < expiry_ns (as_entry source).
Proof.
  intros Hturn Heq. apply conn_turn_case in Hturn as (c & c' & Hi & Hconns & Hpeer & Hcase).
  assert (Hi' : li_conns l' !! j = Some c') by (rewrite Hconns; apply list_lookup_insert_eq; by eapply lookup_lt_Some).
  unfold turn_event in Heq. rewrite Hi, Hi' in Heq.
  destruct Hcase as [src' source' now' Hc Hc' Hs Hl Hn Hlt _|? ? ? ? Hc Hc' _ _ _|? ? ? ? ? Hc Hc' _ _|? ? _ Hc' _|? _ Hc' _].
  - rewrite Hc, Hc', Hs, Hn in Heq. by injection Heq as <- <- <- <-.
  - by rewrite Hc in Heq.
  - by rewrite Hc in Heq.
  - rewrite Hc' in Heq. by destruct (cn_phase c).
  - rewrite Hc' in Heq. by destruct (cn_phase c).
Qed.

(** A recorded admission was from the mirror of that moment. *)
Lemma admission_recorded l0 h l i src source now :
  run l0 h l -> LeAdmit i src source now ∈ h ->
  exists h1 h2 l1, h = h1 ++ LeAdmit i src source now :: h2 /\ run l0 h1 l1 /\ li_sources l1 !! src = Some source /\
    now < expiry_ns (as_entry source).
Proof.
  induction 1 as [l|l h l1 ev l2 Hrun IH Hstep]; [by intros ?%not_elem_of_nil|].
  intros [Hin|Hin]%elem_of_app.
  - destruct (IH Hin) as (h1 & h2 & l' & -> & ? & ? & ?). exists h1, (h2 ++ [ev]), l'. by rewrite <-app_assoc.
  - apply list_elem_of_singleton in Hin as <-. exists h, [], l1. split; [done|]. split; [done|].
    remember (LeAdmit i src source now) as ev eqn:Heq.
    destruct Hstep as [l1 peer input _|l1 j io l2 Hturn|l1 sources _|l1 st _]; [done| |done|done].
    by eapply turn_event_admit.
Qed.

(** A step before a run. *)
Lemma listen_run_cons l ev l1 h l2 : step l ev l1 -> run l1 h l2 -> run l (ev :: h) l2.
Proof.
  intros Hs. induction 1 as [l1|l1 h l2 ev2 l3 _ IH Hs2].
  - apply (listen_snoc _ _ _ _ _ l [] l ev l1); [constructor|done].
  - apply (listen_snoc _ _ _ _ _ l (ev :: h) l2 ev2 l3); [by apply IH|done].
Qed.

(** What a turn does to the mirror: nothing, or the lookup of a source. *)
Lemma conn_turn_sources io l i l' :
  conn_turn config static_key io l i = Some l' ->
  li_sources l' = li_sources l \/
  exists src now, monotonic_now_ns (tu_timespec io) = Ok now /\
    li_sources l' = (admit_source (tu_timespec io) (li_sources l) src).1.
Proof.
  unfold conn_turn. destruct (li_conns l !! i) as [c|]; [|done]. cbn [mbind option_bind].
  destruct (cn_phase c) as [|source|kid noise|kid service t|r]; [| | | |done].
  - unfold turn_admit. destruct (cn_peer c) as [src|]; [|intros [= <-]; by left].
    destruct (monotonic_now_ns (tu_timespec io)) as [now|e] eqn:Hn.
    + destruct (admit_source _ _ _) as [m r] eqn:E. intros H. right. exists src, now. split; [done|].
      rewrite E. by destruct r; injection H as <-.
    + unfold admit_source. rewrite Hn. destruct (li_sources l !! src); intros [= <-]; by left.
  - destruct (turn_handshake _ _ _ _). intros [= <-]. by left.
  - destruct (turn_first _ _ _ _). intros [= <-]. by left.
  - destruct (turn_serve _ _ _ _ _ _ _ _ _) as [[? ?] ?]. intros [= <-]. by left.
Qed.

(** A turn only takes entries from the mirror. *)
Lemma conn_turn_shrinks io l i l' ip a :
  conn_turn config static_key io l i = Some l' -> li_sources l' !! ip = Some a -> li_sources l !! ip = Some a.
Proof.
  intros H. apply conn_turn_sources in H as [->|(src & now & Hn & ->)]; [done|]. unfold admit_source.
  destruct (li_sources l !! src); [|done]. rewrite Hn. destruct (_ <=? _); [cbn [fst]|done].
  by intros [_ Ha]%lookup_delete_Some.
Qed.

(** A task that was never admitted has been sent nothing, and has no session. *)
Definition silent (c : conn) : Prop := cn_sent c = [] /\ (cn_phase c = CnNew \/ exists r, cn_phase c = CnClosed r).

Lemma turn_silent io l l' i c c' :
  conn_turn config static_key io l i = Some l' -> li_conns l !! i = Some c -> li_conns l' !! i = Some c' -> silent c ->
  silent c' \/ exists src source now, cn_peer c' = Some src /\ turn_event io l l' i = LeAdmit i src source now.
Proof.
  intros Hturn Hi Hi' [Hs [Hp|[r Hp]]]; [|unfold conn_turn in Hturn; rewrite Hi in Hturn; cbn in Hturn; by rewrite Hp in Hturn].
  pose proof Hturn as Hcase. apply conn_turn_case in Hcase as (c0 & c1 & Hi0 & Hconns & Hpeer & Hcase). simplify_eq.
  rewrite Hconns, list_lookup_insert_eq in Hi' by (by eapply lookup_lt_Some). injection Hi' as ->.
  assert (Hi' : li_conns l' !! i = Some c') by (rewrite Hconns; apply list_lookup_insert_eq; by eapply lookup_lt_Some).
  destruct Hcase as [src source now Hc Hc' Hsrc _ Hn _ _|? ? ? ? Hc _ _ _ _|? ? ? ? ? Hc _ _ _|? ? Hh _ _|r Hh Hc' _]; [|congruence..| |].
  - right. exists src, source, now. rewrite Hpeer. split; [done|]. unfold turn_event. by rewrite Hi, Hi', Hc, Hc', Hsrc, Hn.
  - unfold holding in Hh. by rewrite Hp in Hh.
  - left. split; [|right; by exists r]. unfold conn_turn in Hturn. rewrite Hi in Hturn. cbn in Hturn. rewrite Hp in Hturn.
    destruct (turn_admit _ _ c) as [sources c1] eqn:E. injection Hturn as <-. cbn in Hi'.
    rewrite list_lookup_insert_eq in Hi' by (by eapply lookup_lt_Some). injection Hi' as ->. unfold turn_admit in E.
    destruct (cn_peer c); [destruct (admit_source _ _ _) as [? []]|]; injection E as <- <-; cbn; by rewrite Hs.
Qed.

Lemma unadmitted_silent h sources rl l i c :
  run (listener_start sources rl) h l -> li_conns l !! i = Some c ->
  (forall src source now, cn_peer c = Some src -> LeAdmit i src source now ∉ h) -> silent c.
Proof.
  intros Hrun Hi Hno. cut (silent c \/ exists src source now, cn_peer c = Some src /\ LeAdmit i src source now ∈ h).
  { intros [H|(src & source & now & Hp & Hin)]; [done|]. by destruct (Hno _ source now Hp). }
  clear Hno. revert i c Hi. remember (listener_start sources rl) as l0. induction Hrun as [l|l h l1 ev l2 Hrun IH Hstep]; subst; [done|].
  specialize (IH eq_refl).
  assert (Hold : forall i c, li_conns l1 !! i = Some c ->
            silent c \/ exists src source now, cn_peer c = Some src /\ LeAdmit i src source now ∈ h ++ [ev]).
  { intros i c Hi. destruct (IH i c Hi) as [?|(src & source & now & Hp & Hin)]; [by left|right].
    exists src, source, now. split; [done|]. apply elem_of_app. by left. }
  clear IH. destruct Hstep as [l1 peer input _|l1 j io l2 Hturn|l1 src _|l1 st _]; [| |done|done].
  - intros i c [Hi|[_ Hi]]%lookup_app_Some; [by apply Hold|]. apply list_lookup_singleton_Some in Hi as [_ <-].
    left. split; [done|by left].
  - intros i c Hi. pose proof Hturn as Hcase. apply conn_turn_case in Hcase as (c0 & c1 & Hj & Hconns & Hpeer & _).
    destruct (decide (i = j)) as [->|Hne]; [|rewrite Hconns, list_lookup_insert_ne in Hi by done; by apply Hold].
    destruct (Hold j c0 Hj) as [Hs|(src & source & now & Hp & Hin)].
    + destruct (turn_silent _ _ _ _ _ _ Hturn Hj Hi Hs) as [?|(src & source & now & Hp & He)]; [by left|right].
      exists src, source, now. split; [done|]. apply elem_of_app. right. rewrite He. by apply list_elem_of_singleton.
    + rewrite Hconns, list_lookup_insert_eq in Hi by (by eapply lookup_lt_Some). injection Hi as <-.
      right. exists src, source, now. by rewrite Hpeer.
Qed.

(** * The session cap *)

(** All entries a key was admitted with had a cap, of at most [m]. *)
Definition capped (h : list listen_event) (kid : KeyId) (m : Z) : Prop :=
  forall i src source now, LeAdmit i src source now ∈ h -> ae_key_id (as_entry source) = kid ->
    exists cap, as_max_concurrent_sessions source = Some cap /\ 0 < cap <= m.

Lemma serving_capped h sources rl l kid m :
  run (listener_start sources rl) h l -> 0 <= m -> capped h kid m -> Z.of_nat (serving kid (li_conns l)) <= m.
Proof.
  intros Hrun Hm. remember (listener_start sources rl) as l0. induction Hrun as [l|l h l1 ev l2 Hrun IH Hstep]; subst; [done|].
  intros Hcap. pose proof (listener_inv_run _ _ _ _ Hrun) as [_ He Hp].
  assert (IH' : Z.of_nat (serving kid (li_conns l1)) <= m).
  { apply IH; [done|]. intros i src source now Hin. apply (Hcap i src source now). set_solver. }
  destruct Hstep as [l1 peer input _|l1 i io l2 Hturn|l1 src _|l1 st _]; [|  |done|done].
  - cbn [listener_accept li_conns]. by rewrite serving_snoc.
  - apply conn_turn_case in Hturn as (c & c' & Hi & Hconns & _ & Hcase).
    pose proof (serving_insert kid _ _ _ c' Hi) as Hs. rewrite <-Hconns in Hs.
    destruct Hcase as [src source now Hc Hc' _ _ _ _ _|source noise out rest Hc Hc' _ _ Ha|k noise t msg rest Hc Hc' _ _|k r Hh Hc' _|r Hh Hc' _].
    + unfold holding in Hs. rewrite Hc, Hc' in Hs. lia.
    + unfold holding in Hs. rewrite Hc, Hc' in Hs. destruct (decide (ae_key_id (as_entry source) = kid)) as [<-|Hne].
      * specialize (Hp i c Hi). unfold phase_ok in Hp. rewrite Hc in Hp. destruct Hp as (src & now & _ & Hin & _).
        destruct (Hcap i src source now) as (cap & Hcp & Hcm); [set_solver|done|]. rewrite Hcp in Ha.
        apply acquire_below in Ha; [|lia]. rewrite He in Ha. repeat case_decide; simplify_eq; lia.
      * repeat case_decide; simplify_eq; lia.
    + unfold holding in Hs. rewrite Hc, Hc' in Hs. lia.
    + unfold holding in Hs. rewrite Hc' in Hs. repeat case_decide; simplify_eq; lia.
    + rewrite Hh in Hs. unfold holding in Hs. rewrite Hc' in Hs. lia.
Qed.

Lemma turn_handshake_granted sessions c source out noise rest n :
  connection_handshake static_key (ae_key_id (as_entry source)) (cn_input c) = (out, Some (noise, rest)) ->
  get_remote_static noise = Some (as_noise_public_key source) ->
  default 0 (sessions !! ae_key_id (as_entry source)) = Z.of_nat n ->
  (forall m, as_max_concurrent_sessions source = Some m -> 0 <= m) ->
  cn_phase (turn_handshake static_key sessions c source).2
  = if below_cap (as_max_concurrent_sessions source) n then CnAccepted (ae_key_id (as_entry source)) noise
    else CnClosed (Err (CfRejected SessionLimit)).
Proof.
  intros Hx Hr Hn Hm. unfold turn_handshake. rewrite Hx, Hr. unfold verify_client_noise_static. cbn [ok_or mbind result_bind].
  rewrite Nat.eqb_refl, bool_decide_eq_true_2 by done. cbn [andb negb]. rewrite <-(acquire_granted _ _ _ _ Hn Hm).
  by destruct (acquire_session _ _ _) as [s [|]].
Qed.

(** C11: the sessions of the proxy, under any interleaving.  Whatever the order in
    which connections are accepted, handshake, are served and end, while the
    mirror of the allow map and the relay change between their turns: the session
    counts are those of the open sessions; a key never has more of them than the
    caps of its entries allow; each belongs to a peer whose address had a live
    entry when it was admitted, and which proved to hold the Noise key of that
    entry in a handshake bound to its key id; and a peer that does so is refused
    exactly when its cap is reached. *)
Theorem sessions_within_cap sources rl h l :
  run (listener_start sources rl) h l ->
  (forall kid, default 0 (li_sessions l !! kid) = Z.of_nat (serving kid (li_conns l))) /\
  (forall kid m, 0 <= m -> capped h kid m -> Z.of_nat (serving kid (li_conns l)) <= m) /\
  (forall i c kid, li_conns l !! i = Some c -> holding c = Some kid ->
     exists src source now h1 h2 l1 input out noise rest,
       cn_peer c = Some src /\ h = h1 ++ LeAdmit i src source now :: h2 /\ run (listener_start sources rl) h1 l1 /\
       li_sources l1 !! src = Some source /\ now < expiry_ns (as_entry source) /\ ae_key_id (as_entry source) = kid /\
       connection_handshake static_key kid input = (out, Some (noise, rest)) /\
       get_remote_static noise = Some (as_noise_public_key source)) /\
  (forall io i c source out noise rest,
     li_conns l !! i = Some c -> cn_phase c = CnHandshake source ->
     connection_handshake static_key (ae_key_id (as_entry source)) (cn_input c) = (out, Some (noise, rest)) ->
     get_remote_static noise = Some (as_noise_public_key source) ->
     (forall m, as_max_concurrent_sessions source = Some m -> 0 <= m) ->
     exists l' c', conn_turn config static_key io l i = Some l' /\ li_conns l' !! i = Some c' /\
       cn_phase c' = if below_cap (as_max_concurrent_sessions source) (serving (ae_key_id (as_entry source)) (li_conns l))
                     then CnAccepted (ae_key_id (as_entry source)) noise else CnClosed (Err (CfRejected SessionLimit))).
Proof.
  intros Hrun. destruct (listener_inv_run _ _ _ _ Hrun) as [_ He Hp].
  split; [exact He|]. split; [intros kid m; by eapply serving_capped|]. split.
  - intros i c kid Hi Hh. specialize (Hp i c Hi).
    assert (Ha : exists noise, authenticated h i c kid noise).
    { unfold phase_ok, holding in *. destruct (cn_phase c); simplify_eq; naive_solver. }
    destruct Ha as (noise & source & input & out & rest & (src & now & Hs & Hin & Hlt) & Hk & Hx & Hr).
    destruct (admission_recorded _ _ _ _ _ _ _ Hrun Hin) as (h1 & h2 & l1 & -> & Hr1 & Hl1 & _).
    exists src, source, now, h1, h2, l1, input, out, noise, rest. by split_and!.
  - intros io i c source out noise rest Hi Hc Hx Hr Hm. unfold conn_turn. rewrite Hi. cbn [mbind option_bind]. rewrite Hc.
    pose proof (turn_handshake_granted (li_sessions l) c source out noise rest _ Hx Hr (He _) Hm) as Hg.
    destruct (turn_handshake _ _ _ _) as [s c']. eexists _, c'. split; [done|]. split; [|exact Hg].
    cbn [after_turn li_conns]. apply list_lookup_insert_eq. by eapply lookup_lt_Some.
Qed.

(** What happens to an open session does not depend on the mirror: a session
    goes on when its key is revoked or its entry expires. *)
Lemma open_session_ignores_mirror io l i c sources :
  li_conns l !! i = Some c -> is_Some (holding c) ->
  conn_turn config static_key io {| li_sources := sources; li_sessions := li_sessions l; li_relay := li_relay l; li_conns := li_conns l |} i
  = (fun l' => {| li_sources := sources; li_sessions := li_sessions l'; li_relay := li_relay l'; li_conns := li_conns l' |})
    <$> conn_turn config static_key io l i.
Proof.
  intros Hi [kid Hh]. unfold conn_turn. cbn [li_conns]. rewrite Hi. cbn [mbind option_bind]. unfold holding in Hh.
  destruct (cn_phase c) as [|source|k noise|k service t|r]; [done|done| |by destruct (turn_serve _ _ _ _ _ _ _ _ _) as [[? ?] ?]|done].
  cbn [li_sessions li_sources li_relay]. by destruct (turn_first _ _ _ _).
Qed.

(** A peer over its cap gets no answer beyond the handshake. *)
Lemma session_limit_silent sessions c source c' s' :
  turn_handshake static_key sessions c source = (s', c') -> cn_phase c' = CnClosed (Err (CfRejected SessionLimit)) ->
  cn_sent c' = cn_sent c ++ (connection_handshake static_key (ae_key_id (as_entry source)) (cn_input c)).1.
Proof.
  unfold turn_handshake. destruct (connection_handshake _ _ _) as [out [[noise rest]|]]; [|by intros [= _ <-]].
  destruct (verify_client_noise_static _ _); [|by intros [= _ <-]]. by destruct (acquire_session _ _ _) as [? []]; intros [= _ <-].
Qed.

End listener_facts.
