(* ===== verification/Client.v ===== *)
(** The client: [ghostbro-client/src/main.rs].

    Knocking and the counter file, the encrypted identity file, the choice of
    servers, and the relay requests.  The network is a parameter: an exchange of
    a request for a response over the tunnel, and the attempt to connect to a
    candidate.  Command-line parsing and printing are left out. *)

From S2P Require Import Prelude Text NetAddr Protocol Crypto Keys SpaPacket Fs Verifier RelayWire.

Inductive ClientError :=
| CeCounterParse
| CeCounterRead
| CeCounterWrite
| CeClock
| CeIdentityRead
| CeIdentityVersion (v : Z)
| CeIdentityKdf (kdf : string)
| CeIdentityAead (aead : string)
| CeIdentityParams
| CeIdentityBase64
| CeIdentityNonce
| CeIdentityDecrypt
| CeIdentityLength (n : Z)
| CeIdentityLegacy (e : KeyError)
| CeIdentitySerialize
| CePrompt
| CeKdf
| CeNoServers
| CeStrategy (s : string)
| CeConnect
| CeRefresh
| CeStringTooLong
| CeChunkTooLong
| CeResponse
| CePending
| CeRelay (message : bytes)
| CeRelayStatus (status : Z)
| CeTruncated
| CeLength
| CeTotal (got expected : Z)
| CeNoiseKeyBase64
| CeNoiseKeyLength (n : Z)
| CeDrift (secs : Z).

(** * The counter file *)

(** How [fs::write] ends: done; the file could not be opened; or an error after
    the file was opened, which truncates it, and [kept] bytes were written. *)
Inductive write_outcome := WrDone | WrUnopened | WrTorn (kept : nat).

(** What the file holds then, if it was opened; an error leaves less than all. *)
Definition fs_write (contents : string) (o : write_outcome) : option string :=
  match o with
  | WrDone => Some contents
  | WrUnopened => None
  | WrTorn kept => Some (bytes_str (take (Nat.min kept (length (str_bytes contents) - 1)) (str_bytes contents)))
  end.

(** [next_counter]: what the file is left with, if it was opened for writing, and
    the counter. *)
Definition next_counter (file : read_outcome) (floor : Z) (write : write_outcome)
    : option string * result ClientError Z :=
  let current :=
    match file with
    | RdOk contents => ok_or CeCounterParse (from_str_radix 10 (umax 64) (trim (str_bytes contents)))
    | RdNotFound => Ok 0
    | RdFailed => Err CeCounterRead
    end in
  match current with
  | Err e => (None, Err e)
  | Ok current =>
      let next := Z.max (sat_add 64 current 1) floor in
      (fs_write (dec next +:+ bytes_str [x0a]) write,
       match write with WrDone => Ok next | _ => Err CeCounterWrite end)
  end.

Definition default_counter_path (identity_key : string) : string :=
  if bool_decide (extension identity_key = Some "key"%string) then with_extension identity_key "counter"
  else identity_key +:+ ".counter".

(** The path used for a knock. *)
Definition counter_path (counter_file : option string) (identity_key : string) : string :=
  default (default_counter_path identity_key) counter_file.

(** [unix_timestamp_ms]: the [u128] milliseconds, capped. *)
Definition client_timestamp_ms (reading : option Z) : result ClientError Z :=
  ms ← ok_or CeClock reading; Ok (default (umax 64) (try_from 64 ms)).

(** * The identity file *)

(** [argon2id] with the parameters of the program, and [toml] on the file. *)
Record EncryptedIdentityParams := { memory_kib : Z; iterations : Z; parallelism : Z }.
Record EncryptedIdentityKey := {
  ei_version : Z;
  ei_kdf : string;
  ei_aead : string;
  ei_params : EncryptedIdentityParams;
  ei_salt : string;
  ei_nonce : string;
  ei_ciphertext : string
}.

#[global] Instance EncryptedIdentityParams_eq_dec : EqDecision EncryptedIdentityParams.
Proof. solve_decision. Defined.

Class IdentityLib := {
  argon2id : bytes -> bytes -> option bytes;
  toml_identity_encode : EncryptedIdentityKey -> option string;
  toml_identity_decode : string -> option EncryptedIdentityKey
}.

(** Documented behaviour: serialized files parse back; a line of base64 is not a
    TOML document. *)
Class IdentityLaws (C : Crypto) (I : IdentityLib) : Prop := {
  toml_identity_roundtrip : forall k s, toml_identity_encode k = Some s -> toml_identity_decode s = Some k;
  toml_identity_legacy : forall key, toml_identity_decode (b64_encode key +:+ bytes_str [x0a]) = None
}.

Definition IDENTITY_KEY_VERSION : Z := 1.
Definition IDENTITY_KEY_KDF : string := "argon2id".
Definition IDENTITY_KEY_AEAD : string := "chacha20poly1305".
Definition ARGON2_MEMORY_KIB : Z := 64 * 1024.
Definition ARGON2_ITERATIONS : Z := 3.
Definition ARGON2_PARALLELISM : Z := 1.
Definition SALT_LEN : nat := 16.
Definition NONCE_LEN : nat := 12.

Section identity.
Context `{C : Crypto} `{I : IdentityLib}.

Definition derive_identity_key (passphrase : string) (salt : bytes) : result ClientError bytes :=
  ok_or CeKdf (argon2id (str_bytes passphrase) salt).

Definition encrypt_signing_key_with_salt_nonce (signing_key : bytes) (passphrase : string) (salt nonce : bytes)
    : result ClientError string :=
  if negb (length nonce =? NONCE_LEN)%nat then Err CeIdentityNonce
  else
    key ← derive_identity_key passphrase salt;
    let ciphertext := aead_encrypt key nonce [] signing_key in
    ok_or CeIdentitySerialize (toml_identity_encode {|
      ei_version := IDENTITY_KEY_VERSION; ei_kdf := IDENTITY_KEY_KDF; ei_aead := IDENTITY_KEY_AEAD;
      ei_params := {| memory_kib := ARGON2_MEMORY_KIB; iterations := ARGON2_ITERATIONS;
                      parallelism := ARGON2_PARALLELISM |};
      ei_salt := b64_encode salt; ei_nonce := b64_encode nonce; ei_ciphertext := b64_encode ciphertext |}).

(** [encrypt_signing_key]: [fill] is the random number generator. *)
Definition encrypt_signing_key (fill : nat -> nat -> bytes) (signing_key : bytes) (passphrase : string)
    : result ClientError string :=
  encrypt_signing_key_with_salt_nonce signing_key passphrase (fill 0%nat SALT_LEN) (fill 1%nat NONCE_LEN).

Definition decrypt_signing_key (identity : EncryptedIdentityKey) (passphrase : string)
    : result ClientError bytes :=
  if negb (ei_version identity =? IDENTITY_KEY_VERSION) then Err (CeIdentityVersion (ei_version identity))
  else if negb (bool_decide (ei_kdf identity = IDENTITY_KEY_KDF)) then Err (CeIdentityKdf (ei_kdf identity))
  else if negb (bool_decide (ei_aead identity = IDENTITY_KEY_AEAD)) then Err (CeIdentityAead (ei_aead identity))
  else if negb (memory_kib (ei_params identity) =? ARGON2_MEMORY_KIB)
       || negb (iterations (ei_params identity) =? ARGON2_ITERATIONS)
       || negb (parallelism (ei_params identity) =? ARGON2_PARALLELISM) then Err CeIdentityParams
  else
    salt ← ok_or CeIdentityBase64 (b64_decode (ei_salt identity));
    nonce ← ok_or CeIdentityBase64 (b64_decode (ei_nonce identity));
    ciphertext ← ok_or CeIdentityBase64 (b64_decode (ei_ciphertext identity));
    if negb (length nonce =? NONCE_LEN)%nat then Err CeIdentityNonce
    else
      key ← derive_identity_key passphrase salt;
      plaintext ← ok_or CeIdentityDecrypt (aead_decrypt key nonce [] ciphertext);
      if (length plaintext =? 32)%nat then Ok plaintext else Err (CeIdentityLength (blen plaintext)).

(** [read_signing_key]: the passphrase is asked for when the file is encrypted. *)
Definition read_signing_key (file : read_outcome) (prompt : option string) : result ClientError bytes :=
  match file with
  | RdOk contents =>
      match toml_identity_decode contents with
      | Some identity => passphrase ← ok_or CePrompt prompt; decrypt_signing_key identity passphrase
      | None => map_err CeIdentityLegacy (decode_signing_key (bytes_str (trim (str_bytes contents))))
      end
  | _ => Err CeIdentityRead
  end.

(** [decode_noise_public_key] of the client. *)
Definition client_decode_noise_public_key (encoded : string) : result ClientError bytes :=
  key ← ok_or CeNoiseKeyBase64 (b64_decode (bytes_str (trim (str_bytes encoded))));
  if negb (length key =? 32)%nat then Err (CeNoiseKeyLength (blen key)) else Ok key.

(** * Knocking *)

(** The outside inputs of one knock: the files, the prompt, the clock and the
    random numbers. *)
Record knock_input := {
  ki_identity : read_outcome;
  ki_prompt : option string;
  ki_clock : option Z;
  ki_counter : read_outcome;
  ki_write : write_outcome;
  ki_next_u32 : Z;
  ki_fill : nat -> bytes;
  ki_ephemeral : bytes
}.

(** [send_udp_spa] and [send_https_spa] up to the transmission: what the counter
    file is left with, and the payload with its counter. *)
Definition spa_payload (m : SpaMode) (i : knock_input) (server_static_pubkey : bytes)
    : option string * result ClientError (bytes * Z) :=
  match read_signing_key (ki_identity i) (ki_prompt i) with
  | Err e => (None, Err e)
  | Ok signing_key =>
      match client_timestamp_ms (ki_clock i) with
      | Err e => (None, Err e)
      | Ok timestamp_ms =>
          match next_counter (ki_counter i) timestamp_ms (ki_write i) with
          | (written, Err e) => (written, Err e)
          | (written, Ok counter) =>
              (written, Ok (build (ki_next_u32 i) (ki_fill i) (ki_ephemeral i) signing_key m timestamp_ms counter
                              PacketSource server_static_pubkey, counter))
          end
      end
  end.

End identity.

(** * Clock drift *)

Inductive DriftVerdict := DriftOk | DriftWarn (secs : Z) | DriftExceeded (secs : Z).

(** [clock_drift_seconds] on times in nanoseconds. *)
Definition clock_drift_seconds (server local : Z) : Z :=
  if server <=? local then (local - server) / 1000000000 else - ((server - local) / 1000000000).

Definition classify_drift (drift_secs window_secs : Z) : DriftVerdict :=
  if window_secs <? Z.abs drift_secs then DriftExceeded drift_secs
  else if window_secs <? Z.abs drift_secs * 2 then DriftWarn drift_secs
  else DriftOk.

Definition ASSUMED_SPA_WINDOW_SECONDS : Z := DEFAULT_TIME_WINDOW_SECONDS.

(** [check_clock_drift_from_http_date], the parsed date an argument. *)
Definition check_clock_drift (server_time : option Z) (now : Z) : result ClientError unit :=
  match server_time with
  | None => Ok tt
  | Some server_time =>
      match classify_drift (clock_drift_seconds server_time now) ASSUMED_SPA_WINDOW_SECONDS with
      | DriftExceeded secs => Err (CeDrift secs)
      | _ => Ok tt
      end
  end.

Definition refresh_interval (allow_ttl_seconds : Z) : result ClientError Z :=
  if allow_ttl_seconds <? 2 then Err CeRefresh else Ok (allow_ttl_seconds / 2).

(** * Choosing a server *)

Inductive SpaTransport := TransportUdp | TransportHttps.

#[global] Instance SpaTransport_eq_dec : EqDecision SpaTransport.
Proof. solve_decision. Defined.

Record ServerConfigEntry := {
  se_endpoint : string;
  se_spa_endpoint : string;
  se_spa_mode : SpaTransport;
  se_spa_port : Z;
  se_server_public_key : string;
  se_priority : option Z
}.

Inductive FailoverStrategy := Priority | Random | Latency.

Record FailoverConfig := { fc_strategy : string; fc_retry_interval_ms : Z; fc_max_retries : Z }.
Record ClientConfig := { cc_servers : list ServerConfigEntry; cc_failover : option FailoverConfig }.
Record FailoverPolicy := { fp_strategy : FailoverStrategy; fp_retry_interval_ms : Z; fp_max_retries : Z }.

(** [FailoverStrategy::parse] *)
Definition strategy_parse (value : string) : result ClientError FailoverStrategy :=
  let value := bytes_str (ascii_lower (str_bytes value)) in
  if bool_decide (value = "priority"%string) then Ok Priority
  else if bool_decide (value = "random"%string) then Ok Random
  else if bool_decide (value = "latency"%string) then Ok Latency
  else Err (CeStrategy value).

Definition failover_policy_default : FailoverPolicy :=
  {| fp_strategy := Priority; fp_retry_interval_ms := 0; fp_max_retries := 0 |}.

(** [FailoverPolicy::from_config] *)
Definition policy_from_config (config : ClientConfig) : result ClientError FailoverPolicy :=
  match cc_failover config with
  | None => Ok failover_policy_default
  | Some failover =>
      strategy ← strategy_parse (fc_strategy failover);
      Ok {| fp_strategy := strategy; fp_retry_interval_ms := fc_retry_interval_ms failover;
            fp_max_retries := fc_max_retries failover |}
  end.

(** [sort_by_key]: stable. *)
Section sort.
Context {A : Type} (key : A -> Z).

Fixpoint insert_by_key (x : A) (l : list A) : list A :=
  match l with
  | [] => [x]
  | y :: l' => if key x <=? key y then x :: l else y :: insert_by_key x l'
  end.

Definition sort_by_key (l : list A) : list A := foldr insert_by_key [] l.

End sort.

Definition ordered_servers (config : ClientConfig) : result ClientError (list ServerConfigEntry) :=
  if bool_decide (length (cc_servers config) = 0%nat) then Err CeNoServers
  else Ok (sort_by_key (fun server => default (umax 32) (se_priority server)) (cc_servers config)).

(** [Duration::MAX] in nanoseconds. *)
Definition DURATION_MAX : Z := (2 ^ 64 - 1) * 1000000000 + 999999999.

Definition order_by_latency (latencies : list (option Z)) : list nat :=
  sort_by_key (fun index => default DURATION_MAX (latencies !! index ≫= id)) (seq 0 (length latencies)).

(** [order_candidates]: [shuffle] and [probe] are the random number generator
    and the latency probe of this round. *)
Definition order_candidates (strategy : FailoverStrategy) (n : nat) (shuffle : list nat -> list nat)
    (probe : nat -> option Z) : list nat :=
  match strategy with
  | Priority => seq 0 n
  | Random => shuffle (seq 0 n)
  | Latency => order_by_latency (map probe (seq 0 n))
  end.

Section failover.
Context {S A E : Type} (no_servers : E).
(** One connection attempt to the candidate of an index, over the world [S];
    what order the candidates have in a round; the pause between rounds. *)
Context (connect : S -> nat -> S * result E A).
Context (order : nat -> S -> S * list nat).

(** The inner loop over the order of a round. *)
Fixpoint try_candidates (st : S) (indices : list nat) (last_error : option E)
    : S * (option (A * nat) * option E) :=
  match indices with
  | [] => (st, (None, last_error))
  | index :: rest =>
      match connect st index with
      | (st, Ok a) => (st, (Some (a, index), last_error))
      | (st, Err e) => try_candidates st rest (Some e)
      end
  end.

(** The outer loop: [todo] rounds from number [round]. *)
Fixpoint try_rounds (st : S) (round todo : nat) (last_error : option E)
    : S * (option (A * nat) * option E) :=
  match todo with
  | O => (st, (None, last_error))
  | Datatypes.S todo' =>
      let '(st, indices) := order round st in
      match try_candidates st indices last_error with
      | (st, (Some r, e)) => (st, (Some r, e))
      | (st, (None, e)) => try_rounds st (Datatypes.S round) todo' e
      end
  end.

Definition connect_noise_with_failover (st : S) (candidates : nat) (policy : FailoverPolicy)
    : S * result E (A * nat) :=
  if (candidates =? 0)%nat then (st, Err no_servers)
  else
    let rounds := sat_add 32 (fp_max_retries policy) 1 in
    match try_rounds st 0 (Z.to_nat rounds) None with
    | (st, (Some r, _)) => (st, Ok r)
    | (st, (None, Some e)) => (st, Err e)
    | (st, (None, None)) => (st, Err no_servers)
    end.

End failover.

(** * URLs of the server *)

Definition https_spa_url_for (server : ServerConfigEntry) (spa_mode : SpaTransport) : option string :=
  match spa_mode with
  | TransportUdp => None
  | TransportHttps =>
      Some ("https://" +:+ se_spa_endpoint server +:+ ":" +:+ dec (se_spa_port server) +:+ "/api/v1/telemetry")
  end.

Definition revoke_url_for (server : ServerConfigEntry) : option string :=
  if bool_decide (se_spa_mode server = TransportHttps)
  then Some ("https://" +:+ se_spa_endpoint server +:+ ":" +:+ dec (se_spa_port server) +:+ "/api/v1/revoke")
  else None.

(** * Relay requests *)

Definition client_relay_request (op : Z) : bytes :=
  [z2b PROTOCOL_GHOST_RELAY; z2b GHOST_RELAY_VERSION; z2b op].

Definition relay_push_string (request : bytes) (value : string) : result ClientError bytes :=
  len ← ok_or CeStringTooLong (try_from 16 (blen (str_bytes value)));
  Ok (request ++ be_bytes 2 len ++ str_bytes value).

Definition parse_relay_bytes_response (response : bytes) : result ClientError bytes :=
  match response with
  | p :: v :: s :: l0 :: l1 :: l2 :: l3 :: rest =>
      if negb (b2z p =? PROTOCOL_GHOST_RELAY) || negb (b2z v =? GHOST_RELAY_VERSION) then Err CeResponse
      else if negb (b2z s =? GHOST_RELAY_STATUS_OK) then Err (CeRelay rest)
      else if negb (blen response =? 7 + from_be [l0; l1; l2; l3]) then Err CeLength
      else Ok rest
  | _ => Err CeResponse
  end.

Definition parse_relay_download_response (response : bytes) : result ClientError (bool * Z * bytes) :=
  match response with
  | p :: v :: s :: _ =>
      if negb (b2z p =? PROTOCOL_GHOST_RELAY) || negb (b2z v =? GHOST_RELAY_VERSION) then Err CeResponse
      else if b2z s =? GHOST_RELAY_STATUS_PENDING then Err CePending
      else if negb (b2z s =? GHOST_RELAY_STATUS_OK)
      then if 7 <? blen response then Err (CeRelay (drop 7 response)) else Err (CeRelayStatus (b2z s))
      else if blen response <? 12 then Err CeTruncated
      else
        let terminal := negb (b2z (nth 3 response x00) =? 0) in
        let total := from_be (slice 4 8 response) in
        let len := from_be (slice 8 12 response) in
        if negb (blen response =? 12 + len) then Err CeLength
        else Ok (terminal, total, drop 12 response)
  | _ => Err CeResponse
  end.

Inductive RelayArtifact := ArtifactPrimary | ArtifactMarkdown.

Definition selector (a : RelayArtifact) : Z :=
  match a with
  | ArtifactPrimary => GHOST_RELAY_ARTIFACT_PRIMARY
  | ArtifactMarkdown => GHOST_RELAY_ARTIFACT_NORMALIZED
  end.

Definition submit_url_request (url : string) (normalize : bool) : result ClientError bytes :=
  request ← relay_push_string (client_relay_request GHOST_RELAY_OP_SUBMIT_WEB) url;
  Ok (request ++ [z2b (if normalize then 1 else 0)]).

Definition submit_git_request (git_url : string) : result ClientError bytes :=
  relay_push_string (client_relay_request GHOST_RELAY_OP_SUBMIT_GIT) git_url.

Definition submit_package_request (ecosystem name version : string) : result ClientError bytes :=
  request ← relay_push_string (client_relay_request GHOST_RELAY_OP_SUBMIT_PACKAGE) ecosystem;
  request ← relay_push_string request name;
  relay_push_string request version.

Definition download_request (job_id : string) (offset : Z) (artifact : RelayArtifact) : result ClientError bytes :=
  request ← relay_push_string (client_relay_request GHOST_RELAY_OP_DOWNLOAD) job_id;
  Ok (request ++ be_bytes 4 offset ++ be_bytes 2 8192 ++ [z2b (selector artifact)]).

Definition delete_request (job_id : string) : result ClientError bytes :=
  relay_push_string (client_relay_request GHOST_RELAY_OP_DELETE) job_id.

Section exchange.
Context {S : Type}.
(** [run_relay_request]: one exchange over a fresh tunnel. *)
Context (run_relay_request : S -> bytes -> S * result ClientError bytes).

(** Send a request, then parse the response. *)
Definition ask {A} (st : S) (request : result ClientError bytes) (parse : bytes -> result ClientError A)
    : S * result ClientError A :=
  match request with
  | Err e => (st, Err e)
  | Ok request =>
      match run_relay_request st request with
      | (st, Err e) => (st, Err e)
      | (st, Ok response) => (st, parse response)
      end
  end.

Definition client_relay_submit_url (st : S) (url : string) (normalize : bool) : S * result ClientError bytes :=
  ask st (submit_url_request url normalize) parse_relay_bytes_response.
Definition client_relay_submit_git (st : S) (git_url : string) : S * result ClientError bytes :=
  ask st (submit_git_request git_url) parse_relay_bytes_response.
Definition client_relay_submit_package (st : S) (ecosystem name version : string) : S * result ClientError bytes :=
  ask st (submit_package_request ecosystem name version) parse_relay_bytes_response.
Definition client_relay_list (st : S) : S * result ClientError bytes :=
  ask st (Ok (client_relay_request GHOST_RELAY_OP_LIST)) parse_relay_bytes_response.
Definition client_relay_delete (st : S) (job_id : string) : S * result ClientError bytes :=
  ask st (delete_request job_id) parse_relay_bytes_response.

(** The loop of [relay_download], with at most [fuel] requests; [None] when they
    do not suffice. *)
Fixpoint client_relay_download (fuel : nat) (st : S) (job_id : string) (artifact : RelayArtifact)
    (offset : Z) (body : bytes) : option (S * result ClientError bytes) :=
  match fuel with
  | O => None
  | Datatypes.S fuel' =>
      match ask st (download_request job_id offset artifact) parse_relay_download_response with
      | (st, Err e) => Some (st, Err e)
      | (st, Ok (terminal, total, chunk)) =>
          let body := body ++ chunk in
          match try_from 32 (blen chunk) with
          | None => Some (st, Err CeChunkTooLong)
          | Some len =>
              let offset := wrap 32 (offset + len) in
              if terminal
              then if negb (blen body =? total) then Some (st, Err (CeTotal (blen body) total))
                   else Some (st, Ok body)
              else client_relay_download fuel' st job_id artifact offset body
          end
      end
  end.

End exchange.
