(* ===== verification/ClientFacts.v ===== *)
(** Facts on the client: counters, the identity file and the choice of servers. *)

From stdpp Require Import sorting.
From S2P Require Import Prelude Text Numerals NetAddr Protocol Crypto Keys Seal SpaPacket Fs AuthKeys Verifier Replay RelayWire RelayWireFacts Client.

(** * Counters *)

(** The number the counter file holds. *)
Definition file_counter (file : read_outcome) (n : Z) : Prop :=
  match file with
  | RdOk contents => from_str_radix 10 (umax 64) (trim (str_bytes contents)) = Some n
  | RdNotFound => n = 0
  | RdFailed => False
  end.

(** Counters increase.  On a file that holds [n] (none counts as zero), the
    next counter is at least the clock's floor and above [n] until the [u64] is
    exhausted, and the file then holds it; so the counters of successive knocks
    are strictly increasing, across restarts too. *)
Theorem next_counter_increases file n floor :
  file_counter file n -> 0 <= n < umax 64 -> in_u 64 floor ->
  exists c written, next_counter file floor WrDone = (Some written, Ok c) /\
    n < c /\ floor <= c /\ in_u 64 c /\ file_counter (RdOk written) c.
Proof.
  intros Hf Hn Hfl. unfold in_u, umax in *. unfold next_counter.
  assert (Hcur : match file with
    | RdOk contents => ok_or CeCounterParse (from_str_radix 10 (umax 64) (trim (str_bytes contents)))
    | RdNotFound => Ok 0
    | RdFailed => Err CeCounterRead
    end = Ok n).
  { destruct file as [s| |]; cbn in Hf; [|by subst|done]. unfold umax in *. by rewrite Hf. }
  rewrite Hcur. eexists _, _. split; [done|]. unfold sat_add, umax.
  split_and!; try lia. cbn [file_counter]. apply parse_dec_line. unfold umax. lia.
Qed.

Lemma next_counter_bound file n floor w c :
  next_counter file floor WrDone = (w, Ok c) -> file_counter file n -> 0 <= n -> c <= Z.max (n + 1) floor.
Proof.
  unfold next_counter. intros H Hf Hn.
  destruct file as [s| |]; cbn in Hf; [rewrite Hf in H|subst|done]; cbn in H; injection H as _ <-; unfold sat_add, umax; lia.
Qed.

Section knocks.
Context `{C : Crypto} {L : CryptoLaws C} `{T : CounterToml} `{I : IdentityLib}.

(** The server has not seen a counter of this client above the one in its file. *)
Definition in_sync (v : SpaVerifier) (sk : bytes) (file : read_outcome) : Prop :=
  exists n, file_counter file n /\ 0 <= n < i64_max /\
    default 0 (highest_counters v !! key_id_for_public_key (ed_verifying_key sk)) <= n.

(** A knock of a client in step with its server. *)
Lemma client_knock_ok v sk c i io src now ts m ops :
  honest_setup v sk c -> in_sync v sk (ki_counter i) ->
  read_signing_key (ki_identity i) (ki_prompt i) = Ok sk ->
  ki_clock i = Some ts -> 0 <= ts <= i64_max -> ki_write i = WrDone -> (forall n, length (ki_fill i n) = n) ->
  Z.abs (now - ts) <= time_window_ms v ->
  (forall ctr, 0 <= ctr <= i64_max -> persist_counters (with_counter v (key_id_for_public_key (ed_verifying_key sk)) ctr) io = (ops ctr, Ok tt)) ->
  exists written payload ctr v' acc,
    spa_payload m i (server_static_pubkey v) = (Some written, Ok (payload, ctr)) /\
    verify v io payload src now = (v', ops ctr, Ok acc) /\
    acc_client_id acc = ac_client_id c /\
    (acc_key_id acc = key_id_for_public_key (ed_verifying_key sk) /\ acc_noise_public_key acc = ac_noise_public_key c /\
     acc_max_concurrent_sessions acc = ac_max_concurrent_sessions c) /\ acc_counter acc = ctr /\ ts <= ctr /\
    (ctr < i64_max -> in_sync v' sk (RdOk written)).
Proof.
  intros Hs (n & Hf & Hn & Hle) Hsk Hclk Hts Hw Hfill Hwin Hp. unfold i64_max in *.
  destruct (next_counter_increases (ki_counter i) n ts Hf) as (ctr & written & Hnext & Hgt & Hfl & Hu & Hfile);
    [unfold in_u, umax; lia..|].
  assert (Hc : ctr <= 2 ^ 63 - 1) by (pose proof (next_counter_bound _ n _ _ _ Hnext Hf); lia).
  assert (Ht : client_timestamp_ms (Some ts) = Ok ts).
  { unfold client_timestamp_ms, try_from, umax. 
    assert (Hb : (0 <=? ts) && (ts <=? 2 ^ 64 - 1) = true) by lia. cbn [ok_or mbind result_bind]. by rewrite Hb. }
  unfold spa_payload. rewrite Hsk, Hclk, Ht, Hw, Hnext.
  pose proof (verify_honest v io (ki_next_u32 i) (ki_fill i) (ki_ephemeral i) sk m ts ctr PacketSource c src now (ops ctr)
    Hs ltac:(unfold in_u, umax; lia) Hu Hfill Logic.I Hwin ltac:(lia) (Hp ctr ltac:(lia))) as Hv.
  do 5 eexists. split; [done|]. split; [exact Hv|]. split_and!; try done.
  intros Hmax. exists ctr. split_and!; [done|lia|unfold i64_max; lia|].
  cbn. rewrite lookup_insert_eq. done.
Qed.

(** An enrolled client gets in, knock after knock.  When client and server
    are in step, their clocks agree within the window and both can write their
    counter files, the knock the client builds is accepted with the client's
    identity; and they are in step again afterwards, as long as the counter is
    below the largest one that the counter file of the server can hold. *)
Theorem client_knock_accepted v sk c i io src now ts m ops :
  honest_setup v sk c -> in_sync v sk (ki_counter i) ->
  read_signing_key (ki_identity i) (ki_prompt i) = Ok sk ->
  ki_clock i = Some ts -> 0 <= ts <= i64_max -> ki_write i = WrDone -> (forall n, length (ki_fill i n) = n) ->
  Z.abs (now - ts) <= time_window_ms v ->
  (forall ctr, 0 <= ctr <= i64_max -> persist_counters (with_counter v (key_id_for_public_key (ed_verifying_key sk)) ctr) io = (ops ctr, Ok tt)) ->
  exists written payload ctr v' acc,
    spa_payload m i (server_static_pubkey v) = (Some written, Ok (payload, ctr)) /\
    verify v io payload src now = (v', ops ctr, Ok acc) /\
    acc_client_id acc = ac_client_id c /\ acc_counter acc = ctr /\ ts <= ctr /\
    (ctr < i64_max -> in_sync v' sk (RdOk written)).
Proof.
  intros Hs Hy Hsk Hclk Hts Hw Hfill Hwin Hp.
  destruct (client_knock_ok v sk c i io src now ts m ops Hs Hy Hsk Hclk Hts Hw Hfill Hwin Hp)
    as (written & payload & ctr & v' & acc & ? & ? & ? & _ & ? & ? & ?).
  exists written, payload, ctr, v', acc. by split_and!.
Qed.

End knocks.

(** * The identity file *)

Section identity.
Context `{C : Crypto} {L : CryptoLaws C} `{I : IdentityLib} {IL : IdentityLaws C I}.

(** What was written is read back. *)
Lemma identity_reads_back fill sk passphrase contents prompt :
  length sk = 32%nat -> (forall i n, length (fill i n) = n) ->
  (encrypt_signing_key fill sk passphrase = Ok contents ->
   read_signing_key (RdOk contents) (Some passphrase) = Ok sk) /\
  read_signing_key (RdOk (encode_signing_key sk +:+ bytes_str [x0a])) prompt = Ok sk.
Proof.
  intros Hsk Hfill. split.
  - unfold encrypt_signing_key, encrypt_signing_key_with_salt_nonce. rewrite Hfill. cbn [negb Nat.eqb NONCE_LEN].
    intros H. apply bind_Ok_inv in H as (key & Hkey & H). apply ok_or_Ok in H.
    apply toml_identity_roundtrip in H. unfold read_signing_key. rewrite H. cbn.
    unfold decrypt_signing_key. cbn. rewrite !b64_decode_encode. cbn. rewrite Hfill. cbn.
    rewrite Hkey. cbn. rewrite aead_decrypt_encrypt. cbn. by rewrite Hsk.
  - unfold read_signing_key, encode_signing_key. rewrite toml_identity_legacy.
    rewrite str_bytes_app, str_bytes_str, trim_line by apply b64_graphic. rewrite bytes_str_bytes.
    change (b64_encode sk) with (encode_signing_key sk). by rewrite decode_encode_signing_key.
Qed.

(** The identity file gives the key back: an encrypted file with the
    passphrase it was written with, whatever the random salt and nonce, and a
    plaintext file of the older format without asking for one. *)
Theorem identity_file_roundtrip fill sk passphrase contents prompt :
  length sk = 32%nat -> (forall i n, length (fill i n) = n) ->
  (encrypt_signing_key fill sk passphrase = Ok contents ->
   read_signing_key (RdOk contents) (Some passphrase) = Ok sk) /\
  read_signing_key (RdOk (encode_signing_key sk +:+ bytes_str [x0a])) prompt = Ok sk.
Proof. intros. by apply identity_reads_back. Qed.

End identity.

(** * Stable sorting *)

Section sort.
Context {A : Type} (key : A -> Z).

Lemma insert_by_key_perm x l : insert_by_key key x l ≡ₚ x :: l.
Proof.
  induction l as [|y l IH]; [done|]. cbn. case_test; [done|]. rewrite IH. by constructor.
Qed.

Lemma sort_by_key_perm l : sort_by_key key l ≡ₚ l.
Proof. induction l as [|x l IH]; [done|]. cbn. by rewrite insert_by_key_perm, IH. Qed.

(** Ascending keys. *)
Definition ascending (l : list A) : Prop := StronglySorted (fun x y => key x <= key y) l.

Lemma insert_by_key_sorted x l : ascending l -> ascending (insert_by_key key x l).
Proof.
  induction 1 as [|y l Hs IH Hy]; cbn; [by repeat constructor|]. case_test; bool_props.
  - constructor; [by constructor|]. constructor; [done|]. eapply Forall_impl; [exact Hy|]. cbn. lia.
  - constructor; [done|]. rewrite insert_by_key_perm. constructor; [lia|done].
Qed.

Lemma sort_by_key_sorted l : ascending (sort_by_key key l).
Proof. induction l as [|x l IH]; [constructor|]. cbn. by apply insert_by_key_sorted. Qed.

(** Elements of one key keep their order. *)
Lemma insert_by_key_stable k x l :
  filter (fun y => key y = k) (insert_by_key key x l) = filter (fun y => key y = k) (x :: l).
Proof.
  induction l as [|y l IH]; [done|]. cbn [insert_by_key]. case_test; [done|]. bool_props.
  rewrite filter_cons, IH, !filter_cons. destruct (decide (key y = k)), (decide (key x = k)); try done. lia.
Qed.

Lemma sort_by_key_stable k l :
  filter (fun y => key y = k) (sort_by_key key l) = filter (fun y => key y = k) l.
Proof.
  induction l as [|x l IH]; [done|]. cbn [sort_by_key foldr]. rewrite insert_by_key_stable.
  rewrite !filter_cons. fold (sort_by_key key l). by rewrite IH.
Qed.

End sort.

(** The configured servers are tried in ascending priority; a server without
    one comes last, and servers of equal priority keep the order of the file.
    None is lost or added. *)
Theorem ordered_servers_spec config servers :
  ordered_servers config = Ok servers ->
  let key server := default (umax 32) (se_priority server) in
  servers ≡ₚ cc_servers config /\ ascending key servers /\
  (forall k, filter (fun s => key s = k) servers = filter (fun s => key s = k) (cc_servers config)) /\ servers <> [].
Proof.
  unfold ordered_servers. case_test; [done|]. bool_props. intros [= <-]. cbn zeta. split_and!.
  - apply sort_by_key_perm.
  - apply sort_by_key_sorted.
  - intros k. apply sort_by_key_stable.
  - intros He. pose proof (sort_by_key_perm (fun server => default (umax 32) (se_priority server)) (cc_servers config)) as Hp.
    rewrite He in Hp. apply Permutation_nil in Hp. by rewrite Hp in *.
Qed.

(** * Failover *)

(** Every strategy tries each candidate once per round. *)
Lemma order_candidates_perm strategy n shuffle probe :
  (forall l, shuffle l ≡ₚ l) -> order_candidates strategy n shuffle probe ≡ₚ seq 0 n.
Proof.
  intros Hs. destruct strategy; cbn; [done|apply Hs|]. unfold order_by_latency.
  rewrite sort_by_key_perm, length_map, length_seq. done.
Qed.

Section failover.
Context {S A E : Type} (no_servers : E).
Context (connect : S -> nat -> S * result E A) (order : nat -> S -> S * list nat).

(** The attempts of a run, in order: the world before and the candidate. *)
Inductive failed_run : S -> list nat -> S -> Prop :=
| failed_nil st : failed_run st [] st
| failed_cons st index st' e rest st'' :
    connect st index = (st', Err e) -> failed_run st' rest st'' -> failed_run st (index :: rest) st''.

Lemma try_candidates_spec indices : forall st e0,
  match try_candidates connect st indices e0 with
  | (st', (Some (a, index), _)) =>
      exists before after mid, indices = before ++ index :: after /\ failed_run st before mid /\ connect mid index = (st', Ok a)
  | (st', (None, e)) => failed_run st indices st' /\ (indices = [] -> e = e0) /\ (indices <> [] -> e <> None)
  end.
Proof.
  induction indices as [|i indices IH]; intros st e0; cbn; [split; [constructor|done]|].
  destruct (connect st i) as [st1 [a|e]] eqn:Hc.
  - exists [], indices, st. split; [done|]. split; [constructor|done].
  - specialize (IH st1 (Some e)). destruct (try_candidates connect st1 indices (Some e)) as [st2 [[[a index]|] e']].
    + destruct IH as (before & after & mid & -> & Hf & Hm). exists (i :: before), after, mid.
      split; [done|]. split; [by econstructor|done].
    + destruct IH as (Hf & He & Hne). split; [by econstructor|]. split; [done|]. intros _.
      destruct indices; [by rewrite He|by apply Hne].
Qed.

(** All rounds from [round] on fail. *)
Inductive failed_rounds : S -> nat -> nat -> S -> Prop :=
| rounds_nil st round : failed_rounds st round 0 st
| rounds_cons st round todo st1 indices st2 st3 :
    order round st = (st1, indices) -> failed_run st1 indices st2 ->
    failed_rounds st2 (Datatypes.S round) todo st3 -> failed_rounds st round (Datatypes.S todo) st3.

Lemma try_rounds_spec todo : forall st round e0,
  match try_rounds connect order st round todo e0 with
  | (st', (Some (a, index), _)) =>
      exists k st1 st2 indices before after mid, (k < todo)%nat /\ failed_rounds st round k st1 /\
        order (round + k)%nat st1 = (st2, indices) /\
        indices = before ++ index :: after /\ failed_run st2 before mid /\ connect mid index = (st', Ok a)
  | (st', (None, e)) => failed_rounds st round todo st' /\
      ((forall r s, (order r s).2 <> []) -> (todo > 0)%nat \/ e0 <> None -> e <> None)
  end.
Proof.
  induction todo as [|todo IH]; intros st round e0; cbn; [split; [constructor|]; intros _ [?|?]; [lia|done]|].
  destruct (order round st) as [st1 indices] eqn:Ho. pose proof (try_candidates_spec indices st1 e0) as Ht.
  destruct (try_candidates connect st1 indices e0) as [st2 [[[a index]|] e]].
  - destruct Ht as (before & after & mid & -> & Hf & Hm).
    exists 0%nat, st, st1, (before ++ index :: after), before, after, mid. rewrite Nat.add_0_r.
    split; [lia|]. split; [constructor|]. done.
  - destruct Ht as (Hf & He & Hne). specialize (IH st2 (Datatypes.S round) e).
    destruct (try_rounds connect order st2 (Datatypes.S round) todo e) as [st3 [[[a index]|] e']].
    + destruct IH as (k & s1 & s2 & idx & before & after & mid & Hk & Hr & Ho' & Hrest).
      exists (Datatypes.S k), s1, s2, idx, before, after, mid. split; [lia|]. split; [by econstructor|].
      replace (round + Datatypes.S k)%nat with (Datatypes.S round + k)%nat by lia. done.
    + destruct IH as [Hr Hn]. split; [by econstructor|]. intros Hord _. apply Hn; [done|]. right. apply Hne.
      specialize (Hord round st). by rewrite Ho in Hord.
Qed.

(** C39: failover.  The client connects through the first candidate, in the order
    of the round, that accepts, after every earlier attempt failed; and it gives
    up only after every candidate of every round failed, the rounds being the
    configured retries plus one. *)
Theorem failover_exhaustive st n policy :
  (0 < n)%nat -> 0 <= fp_max_retries policy < umax 32 ->
  (forall r s, (order r s).2 ≡ₚ seq 0 n) ->
  match connect_noise_with_failover no_servers connect order st n policy with
  | (st', Ok (a, index)) =>
      (index < n)%nat /\
      exists k st1 st2 indices before after mid, Z.of_nat k <= fp_max_retries policy /\ failed_rounds st 0 k st1 /\
        order k st1 = (st2, indices) /\ indices = before ++ index :: after /\
        failed_run st2 before mid /\ connect mid index = (st', Ok a)
  | (st', Err _) => failed_rounds st 0 (Z.to_nat (fp_max_retries policy + 1)) st'
  end.
Proof.
  intros Hn Hr Hord. unfold connect_noise_with_failover. destruct (Nat.eqb_spec n 0); [lia|].
  assert (Hs : sat_add 32 (fp_max_retries policy) 1 = fp_max_retries policy + 1) by (unfold sat_add; lia).
  rewrite Hs. pose proof (try_rounds_spec (Z.to_nat (fp_max_retries policy + 1)) st 0 None) as Ht.
  destruct (try_rounds _ _ _ _ _ _) as [st' [[[a index]|] e]].
  - destruct Ht as (k & st1 & st2 & indices & before & after & mid & Hk & Hf & Ho & -> & Hrest).
    cbn [Nat.add] in Ho. split.
    + pose proof (Hord k st1) as Hp. rewrite Ho in Hp. cbn in Hp.
      assert (Hin : index ∈ seq 0 n) by (rewrite <- Hp; set_solver). apply elem_of_seq in Hin. lia.
    + exists k, st1, st2, (before ++ index :: after), before, after, mid. split; [lia|]. done.
  - destruct Ht as [Hf He]. destruct e as [e|]; [done|]. exfalso. apply He; [|by left; lia|done].
    intros r s Hnil. pose proof (Hord r s) as Hp. rewrite Hnil in Hp. apply Permutation_nil in Hp.
    by destruct n.
Qed.

End failover.
