(* ===== verification/Schedule.v ===== *)
(** Schedules of the gate: the transition system of [System] as an executable
    function of what happens, and when exactly the gate is open.

    [System] says what may follow from what; here a run is a list of actions,
    each with the clock readings and kernel answers it meets. *)

From S2P Require Import Prelude Protocol Crypto Keys SpaPacket Fs AuthKeys Verifier.
From S2P Require Import Xdp XdpFacts Runtime RuntimeFacts Tunnel System Client.

Section schedule.
Context `{C : Crypto} {T : CounterToml}.
Context (en : endian) (ttl : Z) (toml_keys : string -> option (list AuthorizedClientConfig)).

(** What happens next. *)
Inductive sys_act :=
| ActFrame (env : xdp_env) (data : Z) (pkt : bytes)
| ActRing (io : knock_io)
| ActHttps (io : knock_io) (cand : HttpsSpaCandidate)
| ActReload (contents : option string)
| ActReap (timespec : option (Z * Z))
| ActTunnel (timespec : option (Z * Z)) (ip : Z).

Definition ring_event (io : knock_io) (item : bytes) (v : SpaVerifier) : sys_event :=
  match parse_spa_event en item with
  | Some e =>
      if Z.of_nat SPA_MAX_LEN <? ev_payload_len e then EvQuiet
      else knock_event io (take (Z.to_nat (ev_payload_len e)) (ev_payload e)) (ev_src_ip e) v
  | None => EvQuiet
  end.

(** The next event and state; [None] when the server stops on an error, or there
    is nothing to read. *)
Definition sys_do (sy : system) (a : sys_act) : option (sys_event * system) :=
  match a with
  | ActFrame env data pkt =>
      '(s', act) ← ghostbro_xdp en env (sy_maps sy) data pkt;
      Some (frame_event env (sy_maps sy) pkt act,
            {| sy_maps := s'; sy_mirror := sy_mirror sy; sy_verifier := sy_verifier sy; sy_files := sy_files sy |})
  | ActRing io =>
      match SPA_RING (sy_maps sy) with
      | [] => None
      | item :: rest =>
          match handle_ring_item en ttl (loop_view sy) (io, item) with
          | (sl, Ok _) => Some (ring_event io item (sy_verifier sy), loop_put rest sl sy)
          | (_, Err _) => None
          end
      end
  | ActHttps io cand =>
      match handle_https_item ttl (loop_view sy) (io, cand) with
      | (sl, Ok _) =>
          Some (knock_event io (cand_payload cand) (cand_src_ip cand) (sy_verifier sy),
                loop_put (SPA_RING (sy_maps sy)) sl sy)
      | (_, Err _) => None
      end
  | ActReload contents =>
      match handle_reload toml_keys (loop_view sy) contents with
      | (sl, Ok _) => Some (EvQuiet, loop_put (SPA_RING (sy_maps sy)) sl sy)
      | (_, Err _) => None
      end
  | ActReap timespec =>
      match handle_reap (loop_view sy) timespec with
      | (sl, Ok _) => Some (EvQuiet, loop_put (SPA_RING (sy_maps sy)) sl sy)
      | (_, Err _) => None
      end
  | ActTunnel timespec ip =>
      now ← to_option (monotonic_now_ns timespec);
      Some (EvTunnel now,
            {| sy_maps := sy_maps sy; sy_mirror := (admit_source timespec (sy_mirror sy) ip).1;
               sy_verifier := sy_verifier sy; sy_files := sy_files sy |})
  end.

Fixpoint sys_exec (sy : system) (acts : list sys_act) : option (list sys_event * system) :=
  match acts with
  | [] => Some ([], sy)
  | a :: acts =>
      '(ev, sy1) ← sys_do sy a;
      '(h, sy2) ← sys_exec sy1 acts;
      Some (ev :: h, sy2)
  end.

(** Frames as the kernel delivers them. *)
Definition act_ok (a : sys_act) : Prop :=
  match a with
  | ActFrame env data pkt => 0 <= data /\ data + blen pkt < umax 64 /\ env_wf env pkt /\ blen pkt < 2 ^ 32
  | _ => True
  end.

(** An action is a step of the system. *)
Lemma sys_do_step sy a ev sy' :
  act_ok a -> sys_do sy a = Some (ev, sy') -> sys_step en ttl toml_keys sy ev sy'.
Proof.
  destruct a as [env data pkt|io|io cand|contents|timespec|timespec ip]; cbn [sys_do act_ok].
  - intros (? & ? & ? & ?). destruct (ghostbro_xdp _ _ _ _ _) as [[s' act]|] eqn:E; [|done]. intros [= <- <-].
    by apply (step_frame en ttl toml_keys sy env data).
  - intros _. destruct (SPA_RING (sy_maps sy)) as [|item rest] eqn:Hr; [done|].
    destruct (handle_ring_item _ _ _ _) as [sl [[]|e]] eqn:E; [|done]. intros [= <- <-].
    by eapply step_ring.
  - intros _. destruct (handle_https_item _ _ _) as [sl [[]|e]] eqn:E; [|done]. intros [= <- <-]. by apply step_https.
  - intros _. destruct (handle_reload _ _ _) as [sl [[]|e]] eqn:E; [|done]. intros [= <- <-]. by eapply step_reload.
  - intros _. destruct (handle_reap _ _) as [sl [[]|e]] eqn:E; [|done]. intros [= <- <-]. by eapply step_reap.
  - intros _. destruct (monotonic_now_ns timespec) as [now|] eqn:Hn; [|done]. intros [= <- <-].
    destruct (admit_source timespec (sy_mirror sy) ip) as [m r] eqn:E. by eapply step_tunnel.
Qed.

Lemma sys_run_cons sy ev sy1 h sy' :
  sys_step en ttl toml_keys sy ev sy1 -> sys_run en ttl toml_keys sy1 h sy' -> sys_run en ttl toml_keys sy (ev :: h) sy'.
Proof.
  intros Hs. induction 1 as [sy1|sy1 h sy2 ev2 sy3 _ IH Hs2].
  - apply (run_snoc _ _ _ sy [] sy ev sy1); [constructor|done].
  - apply (run_snoc _ _ _ sy (ev :: h) sy2 ev2 sy3); [by apply IH|done].
Qed.

(** So what holds of all runs holds of all schedules. *)
Lemma sys_exec_run sy acts h sy' :
  Forall act_ok acts -> sys_exec sy acts = Some (h, sy') -> sys_run en ttl toml_keys sy h sy'.
Proof.
  intros Hok. revert sy h. induction Hok as [|a acts Ha _ IH]; intros sy h; cbn [sys_exec].
  - intros [= <- <-]. constructor.
  - destruct (sys_do sy a) as [[ev sy1]|] eqn:E; [|done]. cbn.
    destruct (sys_exec sy1 acts) as [[h1 sy2]|] eqn:E1; [|done]. cbn. intros [= <- <-].
    eapply sys_run_cons; [by eapply sys_do_step|by apply IH].
Qed.

(** * Time *)

Definition act_time (a : sys_act) : option Z :=
  match a with
  | ActFrame env _ _ => Some (now_allow env)
  | ActRing io | ActHttps io _ => to_option (monotonic_now_ns (kn_mono io))
  | ActReap timespec | ActTunnel timespec _ => to_option (monotonic_now_ns timespec)
  | ActReload _ => None
  end.

(** All readings are of the one monotonic clock, and are taken in turn. *)
Fixpoint clocked (t : Z) (acts : list sys_act) : Prop :=
  match acts with
  | [] => True
  | a :: acts => match act_time a with Some t' => t <= t' /\ clocked t' acts | None => clocked t acts end
  end.

(** The kernel does not evict the source, and no reload removes the key it
    knocked with. *)
Definition spares (src : Z) (sy : system) (a : sys_act) : Prop :=
  match a with
  | ActRing io | ActHttps io _ => src ∉ upd_evicted (kn_update io)
  | ActReload contents =>
      match reload_authorized_keys toml_keys contents (sy_verifier sy) with
      | (_, Ok removed) => forall a, sy_mirror sy !! src = Some a -> ae_key_id (as_entry a) ∉ removed
      | (_, Err _) => True
      end
  | _ => True
  end.

Fixpoint spared (src : Z) (sy : system) (acts : list sys_act) : Prop :=
  match acts with
  | [] => True
  | a :: acts =>
      spares src sy a /\ match sys_do sy a with Some (_, sy1) => spared src sy1 acts | None => True end
  end.

(** When an accepted knock of [opened_at] expires. *)
Definition knock_expiry (opened_at : Z) : Z := sat_add 64 opened_at (sat_mul 64 ttl 1000000000).

(** The source has knocked with success, and the time is not up. *)
Definition recently (src : Z) (h : list sys_event) (now : Z) : Prop :=
  exists payload accept opened_at, EvKnock src payload accept opened_at ∈ h /\ now < knock_expiry opened_at.

End schedule.
