(* ===== verification/ScheduleFacts.v ===== *)
(** When the gate is open: exactly from an accepted knock until its time is up. *)

From S2P Require Import Prelude Protocol Crypto Keys SpaPacket Fs AuthKeys Verifier.
From S2P Require Import Xdp XdpFacts Runtime RuntimeFacts Tunnel System Client Schedule.

Lemma xdp_spec_config en env s pkt : CONFIG (xdp_spec en env s pkt).1 = CONFIG s.
Proof.
  unfold xdp_spec. destruct (classify pkt) as [|src dport|src sport dport ulen off]; [done| |].
  - destruct (negb _); [done|]. destruct (ALLOW_MAP s !! src); [|done]. by destruct (_ <? _).
  - destruct (_ || _); [done|]. destruct (_ && _ && _); [|done].
    unfold rate_limit_allows. destruct (_ =? 0); [done|]. cbn [negb].
    unfold global_rate_limit_allows. cbn [GLOBAL_RATE set_rate]. destruct (GLOBAL_RATE s); [|done].
    destruct (_ =? 0); [done|]. by destruct (reserve env).
Qed.

(** The filter deletes an entry only when its time is up. *)
Lemma xdp_spec_allow_live en env s pkt ip e :
  ALLOW_MAP s !! ip = Some e -> now_allow env < expiry_ns e -> ALLOW_MAP (xdp_spec en env s pkt).1 !! ip = Some e.
Proof.
  intros Ha Ht. unfold xdp_spec. destruct (classify pkt) as [|src dport|src sport dport ulen off]; [done| |].
  - destruct (negb _); [done|]. destruct (ALLOW_MAP s !! src) as [e'|] eqn:E; [|done].
    destruct (Z.ltb_spec (now_allow env) (expiry_ns e')); [done|]. cbn. rewrite lookup_delete_ne; [done|].
    intros ->. rewrite Ha in E. injection E as ->. lia.
  - destruct (_ || _); [done|]. destruct (_ && _ && _); [|done].
    unfold rate_limit_allows. destruct (_ =? 0); [done|]. cbn [negb].
    unfold global_rate_limit_allows. cbn [GLOBAL_RATE set_rate]. destruct (GLOBAL_RATE s); [|done].
    destruct (_ =? 0); [done|]. by destruct (reserve env).
Qed.

Lemma remove_sources_spared rt l rt' ip :
  remove_sources rt l = (rt', Ok tt) -> ip ∉ l ->
  allow_map rt' !! ip = allow_map rt !! ip /\ allowed_sources rt' !! ip = allowed_sources rt !! ip.
Proof. intros H Hn. apply remove_sources_lookup with (ip := ip) in H. by rewrite !bool_decide_eq_false_2 in H. Qed.

(** Purging other keys leaves a source alone. *)
Lemma purge_all_spared removed rt rt' ip :
  try_fold purge_key_id removed rt = (rt', Ok tt) ->
  (forall a, allowed_sources rt !! ip = Some a -> ae_key_id (as_entry a) ∉ removed) ->
  allow_map rt' !! ip = allow_map rt !! ip /\ allowed_sources rt' !! ip = allowed_sources rt !! ip.
Proof.
  revert rt; induction removed as [|k l IH]; intros rt; cbn [try_fold]; [by intros [= <-]|].
  destruct (purge_key_id rt k) as [rt1 [[]|e1]] eqn:E; [|done]. rewrite purge_key_id_eq in E. intros H Ha.
  apply remove_sources_spared with (ip := ip) in E as [E1 E2].
  - apply IH in H as [-> ->]; [done|]. intros a. rewrite E2. intros Hs%Ha. set_solver.
  - rewrite (select_sources (fun a => bool_decide (ae_key_id (as_entry a) = k))). intros (a & Hs & Hk).
    bool_props. specialize (Ha a Hs). set_solver.
Qed.

Section exact.
Context `{C : Crypto} {T : CounterToml}.
Context (en : endian) (ttl : Z) (toml_keys : string -> option (list AuthorizedClientConfig)) (src : Z).

Abbreviation expiry := (knock_expiry ttl).

Lemma knock_expiry_mono a b : a <= b -> expiry a <= expiry b.
Proof. unfold knock_expiry, sat_add. lia. Qed.

(** At time [t] after [h], the entries of the source end at [d], and it is open
    before [d] just when it knocked recently. *)
Record gate_state (d t : Z) (h : list sys_event) (sy : system) : Prop := {
  gs_open : t < d -> exists e, ALLOW_MAP (sy_maps sy) !! src = Some e;
  gs_entry : forall e, ALLOW_MAP (sy_maps sy) !! src = Some e -> expiry_ns e = d;
  gs_mirror : forall a, sy_mirror sy !! src = Some a -> expiry_ns (as_entry a) = d;
  gs_recent : forall now, t <= now -> now < d <-> recently ttl src h now;
  gs_past : forall p a o, EvKnock src p a o ∈ h -> o <= t
}.

Definition no_knock (ev : sys_event) : Prop := forall p a o, ev <> EvKnock src p a o.

Lemma recently_snoc h ev now : no_knock ev -> recently ttl src (h ++ [ev]) now <-> recently ttl src h now.
Proof.
  intros Hn. unfold recently. setoid_rewrite elem_of_app. setoid_rewrite list_elem_of_singleton. split.
  - intros (p & a & o & [?|He] & ?); [eauto 10|]. by destruct (Hn p a o).
  - intros (p & a & o & ? & ?). eauto 10.
Qed.

(** A step that is no knock of the source, and takes nothing unexpired of it away. *)
Lemma gate_state_quiet d t t' h sy ev sy' :
  gate_state d t h sy -> t <= t' -> no_knock ev ->
  (forall e, ALLOW_MAP (sy_maps sy) !! src = Some e -> t' < expiry_ns e -> ALLOW_MAP (sy_maps sy') !! src = Some e) ->
  (forall e, ALLOW_MAP (sy_maps sy') !! src = Some e -> ALLOW_MAP (sy_maps sy) !! src = Some e) ->
  (forall a, sy_mirror sy' !! src = Some a -> sy_mirror sy !! src = Some a) ->
  gate_state d t' (h ++ [ev]) sy'.
Proof.
  intros [Ho He Hm Hr Hp] Ht Hev Hkeep Hsub Hmir. split.
  - intros Hd. destruct Ho as [e Ha]; [lia|]. exists e. apply Hkeep; [done|]. by rewrite (He e Ha).
  - eauto.
  - eauto.
  - intros now Hnow. rewrite recently_snoc by done. apply Hr. lia.
  - intros p a o [Hin|Hin%list_elem_of_singleton]%elem_of_app; [specialize (Hp _ _ _ Hin); lia|]. by destruct (Hev p a o).
Qed.

(** An accepted knock of the source. *)
Lemma gate_state_knock d t t' h sy p a sy' e src' :
  gate_state d t h sy -> t <= t' -> expiry_ns e = expiry t' ->
  ALLOW_MAP (sy_maps sy') !! src = Some e -> sy_mirror sy' !! src = Some src' -> as_entry src' = e ->
  gate_state (expiry t') t' (h ++ [EvKnock src p a t']) sy'.
Proof.
  intros [Ho He Hm Hr Hp] Ht Hee Ha Hs Hse. split.
  - eauto.
  - intros e' Ha'. by rewrite Ha in Ha'; simplify_eq.
  - intros a' Hs'. by rewrite Hs in Hs'; simplify_eq.
  - intros now Hnow. unfold recently. setoid_rewrite elem_of_app. setoid_rewrite list_elem_of_singleton. split.
    + intros Hlt. exists p, a, t'. auto.
    + intros (p' & a' & o & [Hin|Hin] & Hlt); [|by injection Hin as _ _ ->].
      apply Hp in Hin. pose proof (knock_expiry_mono o t'). lia.
  - intros p' a' o [Hin|Hin%list_elem_of_singleton]%elem_of_app; [specialize (Hp _ _ _ Hin); lia|].
    by injection Hin as _ _ ->.
Qed.

(** What handling a knock does to the source. *)
Lemma handle_knock_cases io payload from sl sl' :
  handle_knock ttl io payload from sl = (sl', Ok tt) -> src ∉ upd_evicted (kn_update io) ->
  let ev := knock_event io payload from (sl_verifier sl) in
  let rt := sl_runtime sl in
  let rt' := sl_runtime sl' in
  (no_knock ev /\ allow_map rt' !! src = allow_map rt !! src /\ allowed_sources rt' !! src = allowed_sources rt !! src) \/
  (exists a t' e src', ev = EvKnock src payload a t' /\ monotonic_now_ns (kn_mono io) = Ok t' /\ expiry_ns e = expiry t' /\
     allow_map rt' !! src = Some e /\ allowed_sources rt' !! src = Some src' /\ as_entry src' = e).
Proof.
  unfold handle_knock, knock_event. intros H Hev. destruct (wall_clock_now_ms (kn_wall io)) as [ms|]; [|discriminate].
  destruct (verify _ _ _ _ _) as [[v ops] [accept|e]]; cbn [snd].
  2:{ injection H as <-. left. split; [|done]. intros p a o. by destruct (monotonic_now_ns _). }
  destruct (allow_source _ _ _ _ _ _) as [rt r] eqn:E. injection H as <- ->. cbn [sl_runtime].
  unfold allow_source in E. destruct (monotonic_now_ns (kn_mono io)) as [now|err]; [|discriminate].
  unfold bpf_update in E. destruct (upd_ok (kn_update io)); [|discriminate]. injection E as <-. cbn [allow_map allowed_sources].
  destruct (decide (from = src)) as [->|Hne].
  - right. rewrite !lookup_insert_eq. do 4 eexists. split_and!; [done|done| |done|done|done]. done.
  - left. rewrite !lookup_insert_ne by done. split; [by intros p a o [= ]|]. split; [|done].
    destruct (allow_map (sl_runtime sl) !! src) as [e|] eqn:Ha.
    + by apply map_lookup_filter_Some.
    + apply map_lookup_filter_None. by left.
Qed.

(** So it does in the system. *)
Lemma gate_state_handle d t h sy io payload from sl ring t' :
  gate_state d t h sy -> handle_knock ttl io payload from (loop_view sy) = (sl, Ok tt) ->
  src ∉ upd_evicted (kn_update io) ->
  (forall now, monotonic_now_ns (kn_mono io) = Ok now -> t' = now) -> t <= t' ->
  exists d', gate_state d' t' (h ++ [knock_event io payload from (sy_verifier sy)]) (loop_put ring sl sy).
Proof.
  intros Hg H Hev Ht Hle.
  pose proof (handle_knock_cases io payload from (loop_view sy) sl H Hev) as Hc.
  cbn [loop_view sl_verifier sl_runtime allow_map allowed_sources] in Hc.
  destruct Hc as [(Hn & Ha & Hm)|(a & now & e & s & -> & Hmono & He & Ha & Hm & Hs)].
  - exists d. eapply gate_state_quiet; [done|done|done| | |]; cbn; congruence.
  - rewrite <-(Ht now Hmono) in *. exists (expiry t'). by eapply gate_state_knock.
Qed.

(** Every action keeps the correspondence. *)
Lemma gate_state_step d t h sy act ev sy' :
  gate_state d t h sy -> act_ok act -> spares toml_keys src sy act ->
  (forall t', act_time act = Some t' -> t <= t') -> sys_do en ttl toml_keys sy act = Some (ev, sy') ->
  exists d', gate_state d' (default t (act_time act)) (h ++ [ev]) sy'.
Proof.
  intros Hg Hok Hsp Ht. destruct act as [env data pkt|io|io cand|contents|timespec|timespec ip];
    cbn [sys_do act_ok spares act_time default] in *.
  - destruct Hok as (Hd & He & Hwf & Hsz). rewrite ghostbro_xdp_eq by done. cbn. intros H.
    destruct (xdp_spec en env (sy_maps sy) pkt) as [s' act] eqn:E. injection H as <- <-.
    assert (Hs : s' = (xdp_spec en env (sy_maps sy) pkt).1) by by rewrite E.
    exists d. eapply gate_state_quiet; [done|by apply Ht| | | |]; cbn [sy_maps sy_mirror]; [| |intros e; rewrite Hs; apply xdp_spec_allow_sub|done].
    + intros p a o. unfold frame_event. destruct (classify pkt); [done| |done]. destruct act; [|done]. by destruct (_ =? _).
    + intros e Ha Hlive. rewrite Hs. by apply xdp_spec_allow_live.
  - destruct (SPA_RING (sy_maps sy)) as [|item rest]; [done|].
    destruct (handle_ring_item _ _ _ _) as [sl [[]|e]] eqn:H; [|done]. intros [= <- <-].
    assert (Hle : t <= default t (to_option (monotonic_now_ns (kn_mono io)))).
    { destruct (monotonic_now_ns (kn_mono io)); cbn in *; [by apply Ht|done]. }
    unfold handle_ring_item in H. unfold ring_event.
    assert (Hquiet : sl = loop_view sy -> exists d', gate_state d' (default t (to_option (monotonic_now_ns (kn_mono io))))
      (h ++ [EvQuiet]) (loop_put rest sl sy)).
    { intros ->. exists d. by eapply gate_state_quiet. }
    destruct (parse_spa_event en item) as [e|]; [|apply Hquiet; by injection H as <-].
    destruct (_ <? _); [apply Hquiet; by injection H as <-|].
    eapply gate_state_handle; [done|done|done| |done]. intros now Hn. by rewrite Hn.
  - destruct (handle_https_item _ _ _) as [sl [[]|e]] eqn:H; [|done]. intros [= <- <-].
    eapply gate_state_handle; [done|done|done|intros now Hn; by rewrite Hn|].
    destruct (monotonic_now_ns (kn_mono io)); cbn in *; [by apply Ht|done].
  - unfold handle_reload. cbn [loop_view sl_verifier sl_runtime sl_files] in *.
    destruct (reload_authorized_keys _ _ _) as [v [removed|]].
    + destruct (try_fold _ _ _) as [rt [[]|e]] eqn:E; [|done]. intros [= <- <-].
      apply (purge_all_spared _ _ _ src) in E as [E1 E2]; [|exact Hsp]. cbn in E1, E2.
      exists d. eapply gate_state_quiet; [done|done|done|..]; cbn; congruence.
    + intros [= <- <-]. exists d. by eapply gate_state_quiet.
  - unfold handle_reap. cbn [loop_view sl_verifier sl_runtime sl_files].
    destruct (monotonic_now_ns timespec) as [now|] eqn:Hn; [|by unfold reap_expired_sources; rewrite Hn].
    rewrite (reap_eq _ _ now) by done. cbn [allowed_sources]. destruct (remove_sources _ _) as [rt [[]|e]] eqn:E; [|done].
    intros [= <- <-]. apply (remove_sources_lookup _ _ _ src) in E as [E1 E2]. cbn in E1, E2, Ht.
    exists d. eapply gate_state_quiet; [done|by apply Ht|done|..]; cbn; rewrite ?E1, ?E2.
    + intros e Ha Hlive. rewrite bool_decide_eq_false_2; [done|]. rewrite expired_sources_spec. intros (a & Hs & Hx).
      rewrite (gs_entry _ _ _ _ Hg _ Ha) in Hlive. rewrite (gs_mirror _ _ _ _ Hg _ Hs) in Hx. cbn in Hlive. lia.
    + intros e. by case_bool_decide.
    + intros e. by case_bool_decide.
  - destruct (monotonic_now_ns timespec) as [now|] eqn:Hn; [|done]. cbn. intros [= <- <-].
    exists d. eapply gate_state_quiet; [done|by apply Ht|done|done|done|]. cbn [sy_mirror].
    intros a. unfold admit_source. destruct (sy_mirror sy !! ip); [|done]. rewrite Hn.
    destruct (_ <=? _); [|done]. cbn. by intros [_ ?]%lookup_delete_Some.
Qed.

Lemma sys_do_config sy act ev sy' :
  act_ok act -> sys_do en ttl toml_keys sy act = Some (ev, sy') -> CONFIG (sy_maps sy') = CONFIG (sy_maps sy).
Proof.
  destruct act as [env data pkt|io|io cand|contents|timespec|timespec ip]; cbn [sys_do act_ok].
  - intros (Hd & He & Hwf & Hsz). rewrite ghostbro_xdp_eq by done. cbn. destruct (xdp_spec _ _ _ _) as [s' act] eqn:E.
    intros [= _ <-]. cbn. replace s' with (xdp_spec en env (sy_maps sy) pkt).1 by by rewrite E. apply xdp_spec_config.
  - intros _. destruct (SPA_RING _); [done|]. destruct (handle_ring_item _ _ _ _) as [sl [[]|e]]; [|done]. by intros [= _ <-].
  - intros _. destruct (handle_https_item _ _ _) as [sl [[]|e]]; [|done]. by intros [= _ <-].
  - intros _. destruct (handle_reload _ _ _) as [sl [[]|e]]; [|done]. by intros [= _ <-].
  - intros _. destruct (handle_reap _ _) as [sl [[]|e]]; [|done]. by intros [= _ <-].
  - intros _. destruct (monotonic_now_ns timespec); [|done]. by intros [= _ <-].
Qed.

(** A frame of the source for the proxy port passes just before the deadline. *)
Lemma frame_exact d t h sy env data pkt ev sy' :
  gate_state d t h sy -> act_ok (ActFrame env data pkt) -> t <= now_allow env ->
  classify pkt = FTcp src (proxy_port (load_config (sy_maps sy))) ->
  sys_do en ttl toml_keys sy (ActFrame env data pkt) = Some (ev, sy') ->
  ev = EvPass src (now_allow env) <-> recently ttl src h (now_allow env).
Proof.
  intros Hg (Hd & He & Hwf & Hsz) Ht Hc. cbn [sys_do]. rewrite ghostbro_xdp_eq by done. cbn.
  unfold xdp_spec, frame_event. rewrite Hc, Z.eqb_refl. cbn [negb].
  rewrite <-(gs_recent _ _ _ _ Hg) by done. destruct (ALLOW_MAP (sy_maps sy) !! src) as [e|] eqn:Ha.
  - rewrite (gs_entry _ _ _ _ Hg _ Ha). destruct (Z.ltb_spec (now_allow env) d); intros [= <- <-]; [done|].
    split; [done|lia].
  - intros [= <- <-]. split; [done|]. intros Hlt. destruct (gs_open _ _ _ _ Hg) as [e He']; [lia|]. congruence.
Qed.

Lemma sys_exec_exact acts : forall d t h0 sy h sy' k env data pkt,
  gate_state d t h0 sy -> Forall act_ok acts -> clocked t acts -> spared en ttl toml_keys src sy acts ->
  sys_exec en ttl toml_keys sy acts = Some (h, sy') ->
  acts !! k = Some (ActFrame env data pkt) -> classify pkt = FTcp src (proxy_port (load_config (sy_maps sy))) ->
  h !! k = Some (EvPass src (now_allow env)) <-> recently ttl src (h0 ++ take k h) (now_allow env).
Proof.
  induction acts as [|act acts IH]; intros d t h0 sy h sy' k env data pkt Hg Hok Hcl Hsp Hx Hk Hc; [done|].
  apply Forall_cons in Hok as [Ha Hok]. destruct Hsp as [Hs Hsp]. cbn [sys_exec] in Hx.
  destruct (sys_do en ttl toml_keys sy act) as [[ev sy1]|] eqn:E; [|done]. cbn in Hx.
  destruct (sys_exec en ttl toml_keys sy1 acts) as [[h1 sy2]|] eqn:E1; [|done]. injection Hx as <- <-.
  destruct k as [|k].
  - injection Hk as ->. cbn in Hcl |- *. rewrite app_nil_r. rewrite <-(frame_exact d t h0 sy env data pkt ev sy1) by tauto.
    split; [by intros [= ->]|by intros ->].
  - assert (Ht : forall t', act_time act = Some t' -> t <= t') by (intros t' Et; cbn [clocked] in Hcl; rewrite Et in Hcl; tauto).
    destruct (gate_state_step d t h0 sy act ev sy1 Hg Ha Hs Ht E) as [d' Hg'].
    cbn [lookup list_lookup take]. replace (h0 ++ ev :: take k h1) with ((h0 ++ [ev]) ++ take k h1) by by rewrite <-app_assoc.
    apply (IH d' (default t (act_time act)) (h0 ++ [ev]) sy1 h1 sy2 k env data pkt); try done.
    + cbn [clocked] in Hcl. destruct (act_time act); cbn; tauto.
    + unfold load_config in *. by rewrite (sys_do_config _ _ _ _ Ha E).
Qed.

(** C6: when the gate is open.  In every schedule of the system that starts
    with nobody admitted and reads one monotonic clock, in which the kernel does
    not evict the source and no reload removes its key, a frame of the source
    for the proxy port passes if and only if the source has made an accepted
    knock before, whose time to live has not yet run out. *)
Theorem gate_open_exactly sy acts h sy' t k env data pkt :
  ALLOW_MAP (sy_maps sy) = ∅ -> sy_mirror sy = ∅ ->
  Forall act_ok acts -> clocked t acts -> spared en ttl toml_keys src sy acts ->
  sys_exec en ttl toml_keys sy acts = Some (h, sy') ->
  acts !! k = Some (ActFrame env data pkt) -> classify pkt = FTcp src (proxy_port (load_config (sy_maps sy))) ->
  h !! k = Some (EvPass src (now_allow env)) <-> recently ttl src (take k h) (now_allow env).
Proof.
  intros H1 H2 Hok Hcl Hsp Hx Hk Hc.
  apply (sys_exec_exact acts t t [] sy h sy' k env data pkt); try done.
  split; [lia|by rewrite H1; intros e|by rewrite H2; intros a| |by intros p a o ?%not_elem_of_nil].
  intros now Hnow. split; [lia|]. by intros (p & a & o & ?%not_elem_of_nil & _).
Qed.

(** A client that refreshes at the interval of its time to live stays admitted:
    a frame passes when the last accepted knock is at most one refresh interval
    and a delay of less than the other half of the time to live back. *)
Theorem refresh_keeps_open sy acts h sy' t k env data pkt interval delay p a o :
  refresh_interval ttl = Ok interval -> delay < (ttl - interval) * 1000000000 ->
  ALLOW_MAP (sy_maps sy) = ∅ -> sy_mirror sy = ∅ ->
  Forall act_ok acts -> clocked t acts -> spared en ttl toml_keys src sy acts ->
  sys_exec en ttl toml_keys sy acts = Some (h, sy') ->
  acts !! k = Some (ActFrame env data pkt) -> classify pkt = FTcp src (proxy_port (load_config (sy_maps sy))) ->
  EvKnock src p a o ∈ take k h -> 0 <= o -> now_allow env <= o + interval * 1000000000 + delay ->
  now_allow env < umax 64 ->
  h !! k = Some (EvPass src (now_allow env)).
Proof.
  intros Hi Hdelay H1 H2 Hok Hcl Hsp Hx Hk Hc Hin Ho Hnow Hu.
  apply (gate_open_exactly sy acts h sy' t k env data pkt); try done. exists p, a, o. split; [done|].
  unfold knock_expiry, sat_add, sat_mul. lia.
Qed.

End exact.
