(* ===== verification/ClientRelay.v ===== *)
(** The client's relay requests against the server's engine. *)

From S2P Require Import Prelude Text NetAddr Protocol Crypto Keys SpaPacket Fs Verifier RelayWire RelayEngine RelayWireFacts RelayPaths Client.

(** * Reading what was written *)

Lemma read_exact_app p m r n :
  n = length m ->
  read_exact n {| cur_bytes := p ++ m ++ r; cur_pos := length p |}
  = Ok (m, {| cur_bytes := p ++ m ++ r; cur_pos := length p + n |}).
Proof.
  intros ->. unfold read_exact. cbn [cur_bytes cur_pos]. rewrite !length_app.
  destruct (Nat.ltb_spec (length p + (length m + length r)) (length p + length m)); [lia|].
  by rewrite slice_app_mid.
Qed.

(** A field as [relay_push_string] writes it. *)
Definition field (s : string) : bytes := be_bytes 2 (blen (str_bytes s)) ++ str_bytes s.

Lemma push_string_field request s :
  blen (str_bytes s) <= umax 16 -> relay_push_string request s = Ok (request ++ field s).
Proof.
  intros H. unfold relay_push_string, try_from.
  assert (Hb : (0 <=? blen (str_bytes s)) && (blen (str_bytes s) <=? umax 16) = true) by (unfold blen in *; lia).
  by rewrite Hb.
Qed.

(** Valid text of at most [max] bytes. *)
Definition text (max : Z) (s : string) : Prop := utf8_valid (str_bytes s) = true /\ blen (str_bytes s) <= max.

Lemma read_string_field max p s r :
  text max s -> max <= umax 16 ->
  read_string max {| cur_bytes := p ++ field s ++ r; cur_pos := length p |}
  = Ok (s, {| cur_bytes := p ++ field s ++ r; cur_pos := length (p ++ field s) |}).
Proof.
  intros [Hu Hl] Hm. unfold read_string, read_u16, field. rewrite <- (app_assoc (be_bytes 2 _)).
  rewrite read_exact_app by (by rewrite length_be_bytes). cbn [mbind result_bind].
  rewrite from_be_u by (unfold in_u, umax, blen in *; cbn; lia).
  destruct (Z.ltb_spec max (blen (str_bytes s))); [lia|].
  rewrite (app_assoc p). replace (length p + 2)%nat with (length (p ++ be_bytes 2 (blen (str_bytes s))))
    by (by rewrite length_app, length_be_bytes).
  rewrite read_exact_app by (unfold blen; lia). cbn [mbind result_bind]. rewrite Hu, bytes_str_bytes.
  do 3 f_equal. rewrite !length_app. unfold blen. lia.
Qed.

Lemma read_string_first max s r :
  text max s -> max <= umax 16 ->
  read_string max (cursor_new (field s ++ r)) = Ok (s, {| cur_bytes := field s ++ r; cur_pos := length (field s) |}).
Proof. apply (read_string_field max []). Qed.

Lemma read_string_only max s :
  text max s -> max <= umax 16 ->
  read_string max (cursor_new (field s)) = Ok (s, {| cur_bytes := field s; cur_pos := length (field s) |}).
Proof. intros Ht Hm. pose proof (read_string_first max s [] Ht Hm) as H. by rewrite app_nil_r in H. Qed.

Lemma read_u32_app p z r :
  in_u 32 z ->
  read_u32 {| cur_bytes := p ++ be_bytes 4 z ++ r; cur_pos := length p |}
  = Ok (z, {| cur_bytes := p ++ be_bytes 4 z ++ r; cur_pos := length (p ++ be_bytes 4 z) |}).
Proof.
  intros Hz. unfold read_u32. rewrite read_exact_app by (by rewrite length_be_bytes). cbn [mbind result_bind].
  rewrite from_be_u by done. do 3 f_equal. by rewrite length_app, length_be_bytes.
Qed.

Lemma read_u16_app p z r :
  in_u 16 z ->
  read_u16 {| cur_bytes := p ++ be_bytes 2 z ++ r; cur_pos := length p |}
  = Ok (z, {| cur_bytes := p ++ be_bytes 2 z ++ r; cur_pos := length (p ++ be_bytes 2 z) |}).
Proof.
  intros Hz. unfold read_u16. rewrite read_exact_app by (by rewrite length_be_bytes). cbn [mbind result_bind].
  rewrite from_be_u by done. do 3 f_equal. by rewrite length_app, length_be_bytes.
Qed.

Lemma read_optional_app p b r :
  read_optional_u8 {| cur_bytes := p ++ b :: r; cur_pos := length p |}
  = Ok (Some (b2z b), {| cur_bytes := p ++ b :: r; cur_pos := length p + 1 |}).
Proof. unfold read_optional_u8. cbn. by rewrite list_lookup_middle. Qed.

Section requests.
Context `{C : Crypto} `{U : UrlLib} {T : RelayToml}.
Context (config : RelayConfig).

(** The server's dispatch of a request with the relay header. *)
Lemma dispatch_header io st kid op rest :
  in_u 8 op ->
  dispatch_inner config io st kid (client_relay_request op ++ rest)
  = if op =? GHOST_RELAY_OP_SUBMIT_WEB then submit_web config io st kid (cursor_new rest)
    else if op =? GHOST_RELAY_OP_SUBMIT_GIT then submit_git config io st kid (cursor_new rest)
    else if op =? GHOST_RELAY_OP_SUBMIT_PACKAGE then submit_package config io st kid (cursor_new rest)
    else if op =? GHOST_RELAY_OP_LIST then (st, relay_list io st kid)
    else if op =? GHOST_RELAY_OP_DOWNLOAD then (st, relay_download config io st kid (cursor_new rest))
    else if op =? GHOST_RELAY_OP_DELETE then relay_delete config io st kid (cursor_new rest)
    else (st, Ok (relay_status_response GHOST_RELAY_STATUS_UNSUPPORTED "unsupported relay operation")).
Proof.
  intros Hop. unfold client_relay_request, dispatch_inner. cbn [app].
  change (b2z (z2b PROTOCOL_GHOST_RELAY) =? PROTOCOL_GHOST_RELAY) with true.
  change (b2z (z2b GHOST_RELAY_VERSION) =? GHOST_RELAY_VERSION) with true. cbn [negb orb].
  rewrite b2z_z2b; [done|]. unfold in_u, umax in Hop. lia.
Qed.

(** The server understands what the client sends.  A submission of the
    client reaches the engine with exactly the arguments the user gave: the URL
    and the normalize flag, the git URL, or the package's three fields, each
    checked by its own validator before it is queued. *)
Theorem submissions_understood io st kid url norm git eco name version :
  text RELAY_MAX_URL_LEN url -> text RELAY_MAX_URL_LEN git -> text 32 eco -> text 256 name -> text 128 version ->
  (exists req, submit_url_request url norm = Ok req /\ dispatch_inner config io st kid req =
     with_request st (validate_public_url url (allow_loopback config)) (fun _ => enqueue config io st kid "web_fetch" url norm)) /\
  (exists req, submit_git_request git = Ok req /\ dispatch_inner config io st kid req =
     with_request st (validate_git_url git (allow_loopback config)) (fun _ => enqueue config io st kid "git_mirror" git false)) /\
  (exists req, submit_package_request eco name version = Ok req /\ dispatch_inner config io st kid req =
     with_request st (spec_parse eco name version) (fun spec => enqueue config io st kid "package" (spec_encode spec) false)).
Proof.
  intros Hurl Hgit Heco Hname Hver. split_and!.
  - unfold submit_url_request. rewrite push_string_field by (destruct Hurl; unfold RELAY_MAX_URL_LEN, umax in *; lia). cbn [mbind result_bind].
    eexists. split; [done|]. rewrite <- app_assoc, dispatch_header by done.
    change (GHOST_RELAY_OP_SUBMIT_WEB =? GHOST_RELAY_OP_SUBMIT_WEB) with true. cbn iota. unfold submit_web.
    rewrite (read_string_first RELAY_MAX_URL_LEN url) by done. cbn [app mbind result_bind].
    rewrite read_optional_app. cbn [mbind result_bind]. destruct (validate_public_url url _); [|done].
    cbn. by destruct norm.
  - unfold submit_git_request. rewrite push_string_field by (destruct Hgit; unfold RELAY_MAX_URL_LEN, umax in *; lia).
    eexists. split; [done|]. rewrite dispatch_header by done. cbn [Z.eqb Pos.eqb GHOST_RELAY_OP_SUBMIT_GIT GHOST_RELAY_OP_SUBMIT_WEB].
    unfold submit_git. rewrite (read_string_only RELAY_MAX_URL_LEN git) by done. cbn [mbind result_bind]. by destruct (validate_git_url git _).
  - unfold submit_package_request. rewrite push_string_field by (destruct Heco; unfold umax; lia). cbn [mbind result_bind].
    rewrite push_string_field by (destruct Hname; unfold umax; lia). cbn [mbind result_bind].
    rewrite push_string_field by (destruct Hver; unfold umax; lia). eexists. split; [done|].
    rewrite <- !app_assoc, dispatch_header by done.
    cbn [Z.eqb Pos.eqb GHOST_RELAY_OP_SUBMIT_GIT GHOST_RELAY_OP_SUBMIT_WEB GHOST_RELAY_OP_SUBMIT_PACKAGE].
    unfold submit_package. rewrite (read_string_first 32 eco) by (done || (unfold umax; lia)).
    cbn [app mbind result_bind]. rewrite (read_string_field 256 (field eco) name) by (done || (unfold umax; lia)).
    cbn [mbind result_bind]. rewrite (app_assoc (field eco)).
    pose proof (read_string_field 128 (field eco ++ field name) version [] Hver) as Hr. rewrite app_nil_r in Hr.
    rewrite Hr by (unfold umax; lia). cbn [mbind result_bind]. by destruct (spec_parse eco name version).
Qed.

(** * Downloading *)

(** The number of bytes the client asks for. *)
Definition chunk_len : nat := 8 * 1024.

Lemma chunk_len_Z : Z.of_nat chunk_len = 8192.
Proof. by vm_compute. Qed.
#[local] Opaque chunk_len.

(** The chunk the server returns for one request of the client. *)
Definition chunk_at (body : bytes) (offset : nat) : bytes := take chunk_len (drop offset body).

Lemma chunk_slice body o :
  (o <= length body)%nat ->
  slice o (Z.to_nat (Z.min (blen body) (Z.of_nat o + 8192))) body = chunk_at body o.
Proof.
  intros Ho. unfold slice, chunk_at, blen. pose proof chunk_len_Z.
  destruct (Nat.le_gt_cases (length body) (o + chunk_len)).
  - rewrite !take_ge; [done|rewrite length_drop; lia..].
  - f_equal. lia.
Qed.

Lemma chunk_blen body o :
  (o <= length body)%nat -> blen (chunk_at body o) = Z.min (blen body) (Z.of_nat o + 8192) - Z.of_nat o.
Proof.
  intros Ho. pose proof chunk_len_Z. unfold chunk_at, blen. rewrite length_take, length_drop. lia.
Qed.

(** The parser on a well-formed response. *)
Lemma parse_download_fields t tot len chunk :
  in_u 8 t -> in_u 32 tot -> in_u 32 len -> blen chunk = len ->
  parse_relay_download_response
    (relay_header GHOST_RELAY_STATUS_OK ++ [z2b t] ++ be_bytes 4 tot ++ be_bytes 4 len ++ chunk)
  = Ok (negb (t =? 0), tot, chunk).
Proof.
  intros Ht Htot Hlen Hc.
  set (r := relay_header GHOST_RELAY_STATUS_OK ++ [z2b t] ++ be_bytes 4 tot ++ be_bytes 4 len ++ chunk).
  assert (Hr : blen r = 12 + len).
  { unfold r, blen, relay_header in *. rewrite !length_app, !length_be_bytes. cbn [length]. lia. }
  assert (Hd : drop 12 r = chunk) by done.
  assert (Hs1 : slice 4 8 r = be_bytes 4 tot) by done.
  assert (Hs2 : slice 8 12 r = be_bytes 4 len) by done.
  assert (Hn : nth 3 r x00 = z2b t) by done.
  assert (Hp : exists rest, r = z2b PROTOCOL_GHOST_RELAY :: z2b GHOST_RELAY_VERSION :: z2b GHOST_RELAY_STATUS_OK :: rest)
    by (by eexists).
  clearbody r. unfold parse_relay_download_response. destruct Hp as [rest Hp]. rewrite Hp at 1.
  change (b2z (z2b PROTOCOL_GHOST_RELAY) =? PROTOCOL_GHOST_RELAY) with true.
  change (b2z (z2b GHOST_RELAY_VERSION) =? GHOST_RELAY_VERSION) with true.
  change (b2z (z2b GHOST_RELAY_STATUS_OK) =? GHOST_RELAY_STATUS_PENDING) with false.
  change (b2z (z2b GHOST_RELAY_STATUS_OK) =? GHOST_RELAY_STATUS_OK) with true. cbn [negb orb].
  rewrite Hr, Hn, Hs1, Hs2, Hd, !from_be_u by done.
  unfold in_u in *. destruct (Z.ltb_spec (12 + len) 12); [lia|]. rewrite Z.eqb_refl. cbn [negb].
  rewrite b2z_z2b; [done|]. unfold umax in Ht. lia.
Qed.

Lemma parse_download_chunk body o :
  (o <= length body)%nat -> blen body <= umax 32 ->
  parse_relay_download_response (download_chunk body (Z.of_nat o) (Z.min 8192 RELAY_MAX_DOWNLOAD_CHUNK))
  = Ok (blen body <=? Z.of_nat o + 8192, blen body, chunk_at body o).
Proof.
  intros Ho Hb. change (Z.min 8192 RELAY_MAX_DOWNLOAD_CHUNK) with 8192. unfold download_chunk.
  rewrite (Z.min_l (Z.of_nat o)) by (unfold blen; lia). rewrite Nat2Z.id, chunk_slice by done.
  pose proof (chunk_blen body o Ho) as Hlen. set (e := Z.min (blen body) (Z.of_nat o + 8192)) in *.
  assert (He : 0 <= e - Z.of_nat o <= umax 32) by (unfold e, umax, blen in *; lia).
  assert (Hw : forall z, 0 <= z <= umax 32 -> wrap 32 z = z)
    by (intros z Hz; unfold wrap, umax in *; apply Z.mod_small; lia).
  rewrite !Hw by (unfold blen in *; lia).
  rewrite parse_download_fields; [|case_test; done|unfold in_u, blen in *; lia|done|done].
  do 3 f_equal. unfold e. destruct (Z.leb_spec (blen body) (Z.of_nat o + 8192)), (Z.leb_spec (blen body) (Z.min (blen body) (Z.of_nat o + 8192))); cbn; try lia; done.
Qed.

(** The object an artifact selects. *)
Definition artifact_object (cs : client_store) (m : RelayJobMetadata) (id : string) (a : RelayArtifact) : option bytes :=
  match a with
  | ArtifactPrimary => cs_objects cs !! primary_file id
  | ArtifactMarkdown => match normalized_len m with Some _ => cs_objects cs !! normalized_file id | None => None end
  end.

(** A finished, unexpired job with an object. *)
Record downloadable (st : relay_state) (kid : KeyId) (id : string) (a : RelayArtifact) (m : RelayJobMetadata)
    (body : bytes) : Prop := {
  dl_kid : length kid = KEY_ID_LEN;
  dl_id : validate_job_id id = Ok tt;
  dl_id_len : blen (str_bytes id) <= 128;
  dl_meta : read_metadata (client_files st (key_id_hex kid)) (metadata_file id) = Ok m;
  dl_complete : status m = JOB_STATUS_COMPLETE;
  dl_object : artifact_object (client_files st (key_id_hex kid)) m id a = Some body;
  dl_size : blen body <= umax 32
}.

(** The tunnel to the server: each request is one dispatch. *)
Definition relay_tunnel (ios : nat -> relay_io) (kid : KeyId) (s : nat * relay_state) (request : bytes)
    : (nat * relay_state) * result ClientError bytes :=
  let '(st, response) := dispatch config (ios s.1) s.2 kid request in ((S s.1, st), Ok response).

Lemma job_id_text id : validate_job_id id = Ok tt -> blen (str_bytes id) <= 128 -> text 128 id.
Proof.
  unfold validate_job_id. case_test; [done|]. bool_props. intros _ Hl. split; [|done].
  apply utf8_valid_ascii, Forall_forall. intros b Hb.
  match goal with H : forallb _ _ = true |- _ => rewrite forallb_forall in H; apply list_elem_of_In, H in Hb end.
  unfold is_ascii_hexdigit, is_ascii_digit, in_range in *. lia.
Qed.

Lemma server_download io t st kid id a m body o :
  downloadable st kid id a m body -> rio_now io = Some t -> in_u 64 t -> t < expires_at_ms m ->
  (o <= length body)%nat ->
  relay_download config io st kid (cursor_new (field id ++ be_bytes 4 (Z.of_nat o) ++ be_bytes 2 8192 ++ [z2b (selector a)]))
  = Ok (download_chunk body (Z.of_nat o) (Z.min 8192 RELAY_MAX_DOWNLOAD_CHUNK)).
Proof.
  intros [Hkid Hid Hidl Hm Hc Ho Hsz] Hnow Ht Hexp Hle. unfold relay_download.
  rewrite (read_string_first 128 id) by (by apply job_id_text || done). cbn [mbind result_bind]. rewrite Hid. cbn [mbind result_bind].
  rewrite read_u32_app by (unfold in_u, umax, blen in *; lia). cbn [mbind result_bind].
  rewrite (app_assoc (field id)), read_u16_app by done. cbn [mbind result_bind].
  rewrite (app_assoc (field id ++ _)), read_optional_app. cbn [mbind result_bind].
  pose proof Hm as Hm'. unfold read_metadata in Hm'. apply bind_Ok_inv in Hm' as (contents & Hf%ok_or_Ok & _).
  unfold read_metadata_at. rewrite metadata_path_own, primary_object_path_own, normalized_object_path_own by done.
  cbn [read_place]. rewrite Hf. cbn [fmap option_fmap option_map ok_or mbind result_bind]. rewrite bytes_str_bytes.
  unfold read_metadata in Hm. rewrite Hf in Hm. cbn [ok_or mbind result_bind] in Hm. rewrite Hm. cbn [mbind result_bind]. rewrite Hnow. unfold unix_timestamp_ms. cbn [ok_or mbind result_bind].
  assert (Hw : wrap 64 t = t) by (unfold wrap, in_u, umax in *; apply Z.mod_small; lia). rewrite Hw.
  destruct (Z.leb_spec (expires_at_ms m) t); [lia|]. rewrite Hc. cbn [orb].
  change (bool_decide (JOB_STATUS_COMPLETE = JOB_STATUS_QUEUED) || bool_decide (JOB_STATUS_COMPLETE = JOB_STATUS_RUNNING)) with false.
  change (bool_decide (JOB_STATUS_COMPLETE = JOB_STATUS_FAILED)) with false. cbn iota.
  assert (Hsel : default GHOST_RELAY_ARTIFACT_PRIMARY (Some (b2z (z2b (selector a)))) = selector a) by (by destruct a).
  rewrite Hsel. destruct a; cbn [selector artifact_object] in *.
  - change (GHOST_RELAY_ARTIFACT_PRIMARY =? GHOST_RELAY_ARTIFACT_NORMALIZED) with false. cbn [andb read_place]. by rewrite Ho.
  - change (GHOST_RELAY_ARTIFACT_NORMALIZED =? GHOST_RELAY_ARTIFACT_NORMALIZED) with true. cbn [andb].
    destruct (normalized_len m); [|done]. cbn [read_place]. by rewrite Ho.
Qed.

(** One request of the download loop. *)
Lemma download_step ios n t st kid id a m body o :
  downloadable st kid id a m body -> rio_now (ios n) = Some t -> in_u 64 t -> t < expires_at_ms m ->
  (o <= length body)%nat ->
  ask (relay_tunnel ios kid) (n, st) (download_request id (Z.of_nat o) a) parse_relay_download_response
  = ((S n, st), Ok (blen body <=? Z.of_nat o + 8192, blen body, chunk_at body o)).
Proof.
  intros Hd Hnow Ht Hexp Ho. unfold ask, download_request.
  rewrite push_string_field by (destruct Hd; unfold umax; lia). cbn [mbind result_bind].
  unfold relay_tunnel, dispatch. cbn [fst snd]. rewrite <- app_assoc, dispatch_header by done.
  cbn [Z.eqb Pos.eqb GHOST_RELAY_OP_SUBMIT_WEB GHOST_RELAY_OP_SUBMIT_GIT GHOST_RELAY_OP_SUBMIT_PACKAGE
       GHOST_RELAY_OP_LIST GHOST_RELAY_OP_DOWNLOAD].
  rewrite (server_download _ t st kid id a m body o) by done. by rewrite parse_download_chunk by (done || apply Hd).
Qed.

Lemma download_loop ios st kid id a m body fuel : forall n o,
  downloadable st kid id a m body ->
  (forall n, exists t, rio_now (ios n) = Some t /\ in_u 64 t /\ t < expires_at_ms m) ->
  (o <= length body)%nat -> blen body - Z.of_nat o < Z.of_nat fuel * 8192 \/ (length body = o /\ 0 < fuel)%nat ->
  exists n', client_relay_download (relay_tunnel ios kid) fuel (n, st) id a (Z.of_nat o) (take o body) = Some ((n', st), Ok body).
Proof.
  induction fuel as [|fuel IH]; intros n o Hd Hios Ho Hf; [unfold blen in *; lia|].
  destruct (Hios n) as (t & Hnow & Ht & Hexp). cbn [client_relay_download].
  rewrite (download_step ios n t st kid id a m body o) by done.
  pose proof (chunk_blen body o Ho) as Hlen. pose proof chunk_len_Z as Hcl. pose proof (dl_size _ _ _ _ _ _ Hd) as Hsz.
  assert (Hb : take o body ++ chunk_at body o = take (o + chunk_len) body) by (unfold chunk_at; by rewrite take_take_drop).
  assert (Htf : try_from 32 (blen (chunk_at body o)) = Some (blen (chunk_at body o))).
  { unfold try_from. rewrite (proj2 (andb_true_iff _ _)); [done|]. rewrite Hlen. unfold umax, blen in *. lia. }
  rewrite Htf, Hb. destruct (Z.leb_spec (blen body) (Z.of_nat o + 8192)).
  - rewrite take_ge by (unfold blen in *; lia). rewrite Z.eqb_refl. cbn. by eexists.
  - rewrite Hlen, Z.min_r by lia.
    replace (wrap 32 (Z.of_nat o + (Z.of_nat o + 8192 - Z.of_nat o))) with (Z.of_nat (o + chunk_len)).
    + apply IH; [done|done|unfold blen in *; lia|]. left. unfold blen in *. lia.
    + unfold wrap. rewrite Z.mod_small; [lia|]. unfold umax, blen in *. lia.
Qed.

(** C25: a download is complete.  For a finished, unexpired job of the client, of
    at most 4 GiB - 1, the client's download loop over the server's download
    operation ends, within one request per 8 KiB plus one, with exactly the
    bytes of the stored artifact, raw or normalized, and changes nothing on the
    server. *)
Theorem download_reassembles ios st kid id a m body fuel :
  downloadable st kid id a m body ->
  (forall n, exists t, rio_now (ios n) = Some t /\ in_u 64 t /\ t < expires_at_ms m) ->
  blen body / 8192 < Z.of_nat fuel ->
  exists n, client_relay_download (relay_tunnel ios kid) fuel (0%nat, st) id a 0 [] = Some ((n, st), Ok body).
Proof.
  intros Hd Hios Hf. apply (download_loop ios st kid id a m body fuel 0 0); [done|done|lia|].
  left. pose proof (Z.div_mod (blen body) 8192). pose proof (Z.mod_pos_bound (blen body) 8192). lia.
Qed.

End requests.
