(* ===== verification/ClientSetup.v ===== *)
(** Setting up a client: the key generation commands, enrolment and the choice of
    the servers to connect to, of [ghostbro-client/src/main.rs].

    A command is the list of file operations it performs and its result; the
    prompts, the random numbers and whether the writes succeed are inputs. *)

From S2P Require Import Prelude Text NetAddr Protocol Crypto Keys Seal SpaPacket Fs AuthKeys Verifier RelayWire Client.

Inductive SetupError :=
| SeClient (e : ClientError)
| SePrompt
| SePassphraseMismatch
| SePassphraseEmpty
| SeKeypair
| SeWrite (path : string)
| SeMkdir
| SeEndpoint (endpoint : string)
| SeSpaEndpoint (host : string) (port : Z)
| SeSerialize
| SeConfigRead
| SeConfigParse
| SeServerKey
| SeServerKeyRead
| SeMissing (option_name : string).

(** * Files *)

(** [fs::write] and [write_private_key_file]: the file is created or truncated
    and then written. *)
Definition write_file (path contents : string) : list fs_op := [OpCreate path; OpWrite path contents].

(** Files written one after the other until a write fails; [ok i] is whether the
    [i]-th succeeds. *)
Fixpoint write_files (files : list (string * string)) (ok : nat -> bool) (i : nat)
    : list fs_op * result SetupError unit :=
  match files with
  | [] => ([], Ok tt)
  | (path, contents) :: rest =>
      if negb (ok i) then ([], Err (SeWrite path))
      else let '(ops, r) := write_files rest ok (S i) in (write_file path contents ++ ops, r)
  end.

Definition line (s : string) : string := s +:+ bytes_str [x0a].

(** Whether [Path::parent] is a non-empty path. *)
Definition parent_given (path : string) : bool :=
  let r := strip_trailing (reverse (str_bytes path)) in
  let seg := take_until slash r in
  negb (bool_decide (seg = [])) && (length seg <? length r)%nat.

(** * Key generation *)

Section setup.
Context `{C : Crypto} `{I : IdentityLib}.

(** What the two prompts give. *)
Definition prompt_new_passphrase (first second : option string) : result SetupError string :=
  passphrase ← ok_or SePrompt first;
  confirm ← ok_or SePrompt second;
  if negb (bool_decide (passphrase = confirm)) then Err SePassphraseMismatch
  else if bool_decide (passphrase = ""%string) then Err SePassphraseEmpty
  else Ok passphrase.

(** The entry for the server's file that [keygen] prints. *)
Definition keygen_entry (signing_key : bytes) : AuthorizedClientConfig := {|
  cfg_name := "debug-client";
  cfg_public_key := encode_public_key (ed_verifying_key signing_key);
  cfg_noise_public_key := encode_noise_public_key (derive_noise_static_public_key signing_key);
  cfg_tier := Full;
  cfg_max_concurrent_sessions := None |}.

Definition keygen (output : string) (plaintext_debug : bool) (signing_key : bytes)
    (first second : option string) (fill : nat -> nat -> bytes) (ok : nat -> bool)
    : list fs_op * result SetupError AuthorizedClientConfig :=
  let public_key := ed_verifying_key signing_key in
  let key_file :=
    if plaintext_debug then Ok (line (encode_signing_key signing_key))
    else passphrase ← prompt_new_passphrase first second;
         map_err SeClient (encrypt_signing_key fill signing_key passphrase) in
  match key_file with
  | Err e => ([], Err e)
  | Ok contents =>
      let '(ops, r) := write_files
        [(output +:+ ".key", contents);
         (output +:+ ".pub", line (encode_public_key public_key));
         (output +:+ ".keyid", line (key_id_hex (key_id_for_public_key public_key)));
         (output +:+ ".noise", line (encode_noise_public_key (derive_noise_static_public_key signing_key)));
         (output +:+ ".counter", line "0")]%string ok 0 in
      (ops, _ ← r; Ok (keygen_entry signing_key))
  end.

(** [generate_keypair] of the Noise library is an input. *)
Definition server_keygen (output : string) (keypair : option (bytes * bytes)) (ok : nat -> bool)
    : list fs_op * result SetupError unit :=
  match keypair with
  | None => ([], Err SeKeypair)
  | Some (private, public) =>
      write_files [(output +:+ ".key", line (b64_encode private)); (output +:+ ".pub", line (b64_encode public))]%string ok 0
  end.

(** * Server keys *)

(** [read_noise_public_key] and [read_noise_public_key_array] *)
Definition read_noise_public_key (file : read_outcome) : result SetupError bytes :=
  match file with
  | RdOk encoded => map_err SeClient (client_decode_noise_public_key (bytes_str (trim (str_bytes encoded))))
  | _ => Err SeServerKeyRead
  end.

Definition read_noise_public_key_array (file : read_outcome) : result SetupError bytes :=
  key ← read_noise_public_key file;
  if (length key =? 32)%nat then Ok key else Err SeServerKey.

End setup.

(** * The configuration file *)

(** [toml] on the client's configuration; serialized files parse back. *)
Class ClientToml := {
  toml_client_encode : ClientConfig -> option string;
  toml_client_decode : string -> option ClientConfig
}.
Class ClientTomlLaws (T : ClientToml) : Prop := {
  toml_client_roundtrip : forall c s, toml_client_encode c = Some s -> toml_client_decode s = Some c
}.

Record ResolvedConnectConfig := {
  rc_server_public_key : bytes;
  rc_spa_endpoint : SocketAddr;
  rc_proxy_endpoint : SocketAddr;
  rc_spa_mode : SpaTransport;
  rc_https_spa_url : option string
}.

Section servers.
Context `{C : Crypto} `{CT : ClientToml}.

Definition enrolled_config (server_key endpoint : string) (spa_ip : IpAddr) (spa_mode : SpaTransport) (spa_port : Z)
    : ClientConfig := {|
  cc_servers := [{| se_endpoint := endpoint; se_spa_endpoint := bytes_str (show_ip spa_ip); se_spa_mode := spa_mode;
                    se_spa_port := spa_port; se_server_public_key := server_key; se_priority := Some 1 |}];
  cc_failover := Some {| fc_strategy := "priority"; fc_retry_interval_ms := 5000; fc_max_retries := 3 |} |}.

Definition enroll (server_key endpoint : string) (spa_mode : SpaTransport) (spa_port : Z) (output : string)
    (mkdir_ok write_ok : bool) : list fs_op * result SetupError unit :=
  match client_decode_noise_public_key server_key with
  | Err e => ([], Err (SeClient e))
  | Ok _ =>
  match parse_socket_addr (str_bytes endpoint) with
  | None => ([], Err (SeEndpoint endpoint))
  | Some proxy_endpoint =>
  match toml_client_encode (enrolled_config server_key endpoint (sa_ip proxy_endpoint) spa_mode spa_port) with
  | None => ([], Err SeSerialize)
  | Some contents =>
      let dirs := if parent_given output then [OpMkdirAll output] else [] in
      if parent_given output && negb mkdir_ok then ([], Err SeMkdir)
      else if negb write_ok then (dirs, Err (SeWrite output))
      else (dirs ++ write_file output contents, Ok tt)
  end
  end
  end.

Definition load_client_config (file : read_outcome) : result SetupError ClientConfig :=
  match file with
  | RdOk contents => ok_or SeConfigParse (toml_client_decode contents)
  | _ => Err SeConfigRead
  end.

Definition parse_spa_endpoint (host : string) (port : Z) : result SetupError SocketAddr :=
  match parse_socket_addr (str_bytes host) with
  | Some addr => Ok addr
  | None => ok_or (SeSpaEndpoint host port) (parse_socket_addr (str_bytes (host +:+ ":" +:+ dec port)))
  end.

(** The closure over the servers of the configuration. *)
Definition resolve_server (spa_mode_override : option SpaTransport) (https_spa_url_override : option string)
    (server : ServerConfigEntry) : result SetupError ResolvedConnectConfig :=
  proxy_endpoint ← ok_or (SeEndpoint (se_endpoint server)) (parse_socket_addr (str_bytes (se_endpoint server)));
  spa_endpoint ← parse_spa_endpoint (se_spa_endpoint server) (se_spa_port server);
  let spa_mode := default (se_spa_mode server) spa_mode_override in
  let https_spa_url :=
    match https_spa_url_override with Some url => Some url | None => https_spa_url_for server spa_mode end in
  key ← map_err SeClient (client_decode_noise_public_key (se_server_public_key server));
  Ok {| rc_server_public_key := key; rc_spa_endpoint := spa_endpoint; rc_proxy_endpoint := proxy_endpoint;
        rc_spa_mode := spa_mode; rc_https_spa_url := https_spa_url |}.

(** [config] and [server_key] are the files named, if any. *)
Definition resolve_connect_configs (config server_key : option read_outcome)
    (spa_endpoint proxy_endpoint : option SocketAddr) (spa_mode_override : option SpaTransport)
    (https_spa_url_override : option string) : result SetupError (list ResolvedConnectConfig * FailoverPolicy) :=
  match config with
  | Some file =>
      config ← load_client_config file;
      policy ← map_err SeClient (policy_from_config config);
      servers ← map_err SeClient (ordered_servers config);
      resolved ← result_map (resolve_server spa_mode_override https_spa_url_override) servers;
      Ok (resolved, policy)
  | None =>
      server_key ← ok_or (SeMissing "--server-key") server_key;
      spa_endpoint ← ok_or (SeMissing "--spa-endpoint") spa_endpoint;
      proxy_endpoint ← ok_or (SeMissing "--proxy-endpoint") proxy_endpoint;
      key ← read_noise_public_key server_key;
      Ok ([{| rc_server_public_key := key; rc_spa_endpoint := spa_endpoint; rc_proxy_endpoint := proxy_endpoint;
              rc_spa_mode := default TransportUdp spa_mode_override; rc_https_spa_url := https_spa_url_override |}],
          failover_policy_default)
  end.

End servers.

(** * Revocation *)

Section revoke.
Context `{C : Crypto} `{I : IdentityLib} `{CT : ClientToml}.
(** The response to a POST of a body to a URL: its status. *)
Context (post : string -> string -> option Z).

Definition quote : string := bytes_str [x22].
Definition revoke_request_body (action : string) (key_id : option string) : string :=
  let member k v := quote +:+ k +:+ quote +:+ ":" +:+ v in
  "{" +:+ member "action"%string (quote +:+ action +:+ quote) +:+ "," +:+
  member "key_id"%string (match key_id with Some k => quote +:+ k +:+ quote | None => "null" end) +:+ "}".

Inductive revoke_outcome := RevokeSent (url : string) (status : Z) | RevokeFailed (url : string) (status : option Z).

(** One server of the loop: nothing for one that is not knocked over HTTPS. *)
Definition revoke_server (body : string) (server : ServerConfigEntry) : option revoke_outcome :=
  url ← revoke_url_for server;
  Some (match post url body with
        | Some status => if ((200 <=? status) && (status <? 300)) || (status =? 204)
                         then RevokeSent url status else RevokeFailed url (Some status)
        | None => RevokeFailed url None
        end).

(** [revoke]: what is reported for each server asked. *)
Definition revoke (config : read_outcome) (identity : option (read_outcome * option string))
    : result SetupError (list revoke_outcome) :=
  config ← load_client_config config;
  key_id ← (match identity with
            | Some (file, prompt) =>
                signing_key ← map_err SeClient (read_signing_key file prompt);
                Ok (Some (key_id_hex (key_id_for_public_key (ed_verifying_key signing_key))))
            | None => Ok None
            end : result SetupError (option string));
  Ok (omap (revoke_server (revoke_request_body "revoke" key_id)) (cc_servers config)).

End revoke.
