(* ===== verification/ClientSetupFacts.v ===== *)
(** What the set-up commands write is what the other programs read. *)

From S2P Require Import Prelude Text Numerals NetAddr NetAddrFacts Protocol Crypto Keys Seal SpaPacket Fs AuthKeys Verifier Replay.
From S2P Require Import Tunnel RelayWire Client ClientFacts ClientSetup.

(** * Files *)

Lemma write_file_run p c s : fs_run (write_file p c) s = <[p := c]> s.
Proof. unfold write_file, fs_run. cbn [foldl fs_apply]. rewrite lookup_insert_eq. cbn. by rewrite insert_insert_eq. Qed.

Lemma write_files_ops files ok i ops r :
  write_files files ok i = (ops, Ok r) -> ops = concat (map (fun f => write_file f.1 f.2) files).
Proof.
  revert i ops. induction files as [|[p c] files IH]; intros i ops H; cbn [write_files] in H; [by simplify_eq|].
  destruct (negb (ok i)); [done|]. destruct (write_files files ok (S i)) as [ops' r'] eqn:E. injection H as <- ->.
  cbn. by rewrite (IH _ _ E).
Qed.

Lemma write_files_keep files s p :
  (p ∉ files.*1) -> fs_run (concat (map (fun f => write_file f.1 f.2) files)) s !! p = s !! p.
Proof.
  revert s. induction files as [|[q c] files IH]; intros s Hp; [done|]. cbn [map concat fst snd].
  rewrite fs_run_app, write_file_run, IH by set_solver. apply lookup_insert_ne. set_solver.
Qed.

(** Files of distinct names hold what was written. *)
Lemma write_files_read files ok i ops r s p c :
  write_files files ok i = (ops, Ok r) -> NoDup files.*1 -> (p, c) ∈ files -> fs_run ops s !! p = Some c.
Proof.
  intros ->%write_files_ops Hn Hin. revert s. induction files as [|[q d] files IH]; intros s; [by apply elem_of_nil in Hin|].
  apply NoDup_cons in Hn as [Hq Hn]. cbn [map concat fst snd]. rewrite fs_run_app, write_file_run.
  apply elem_of_cons in Hin as [[= <- <-]|Hin]; [|by apply IH].
  rewrite write_files_keep by done. apply lookup_insert_eq.
Qed.

Lemma bytes_app_inj (a : string) b c : a +:+ b = a +:+ c -> b = c.
Proof. induction a as [|x a IH]; cbn; [done|]. intros [= H]. by apply IH. Qed.

(** Names that differ after a common prefix. *)
Lemma suffixes_NoDup (a : string) (l : list string) : NoDup l -> NoDup (map (String.app a) l).
Proof. intros H. apply NoDup_fmap_2; [|done]. intros x y. apply bytes_app_inj. Qed.

(** * The counter's path *)

(** The counter of an identity [output.key] is the one [keygen] wrote. *)
Lemma default_counter_path_keygen output :
  output <> ""%string -> last (str_bytes output) <> Some slash ->
  default_counter_path (output +:+ ".key") = output +:+ ".counter".
Proof.
  intros Ho Hl.
  assert (Hb : str_bytes output <> []) by (intros E; apply Ho; by rewrite <-(bytes_str_bytes output), E).
  assert (Hk : str_bytes (output +:+ ".key") = str_bytes output ++ dot :: str_bytes "key") by by rewrite str_bytes_app.
  destruct (file_name_split_ext (str_bytes output) (str_bytes "key")) as (dir & name & Hn & Hsp & Hf);
    [done|by repeat constructor|done..|].
  assert (Hst : stem_ext (name ++ dot :: str_bytes "key") = (name, Some (str_bytes "key"))) by (apply stem_ext_dot; [done|by repeat constructor]).
  unfold default_counter_path, extension, with_extension. rewrite Hk, Hf, Hst. cbn [snd fst fmap option_fmap option_map].
  rewrite bytes_str_bytes, bool_decide_eq_true_2 by done. rewrite bool_decide_eq_false_2 by done.
  rewrite app_assoc, <-Hsp. apply str_bytes_inj. by rewrite str_bytes_str, str_bytes_app.
Qed.

(** * Key generation *)

Section keygen_facts.
Context `{C : Crypto} {L : CryptoLaws C} `{I : IdentityLib} {IL : IdentityLaws C I}.

(** The names of the five files differ. *)
Lemma keygen_names output : NoDup (map (String.app output) [".key"; ".pub"; ".keyid"; ".noise"; ".counter"]%string).
Proof. apply suffixes_NoDup. apply (bool_decide_unpack _). vm_compute. exact Logic.I. Qed.

(** The identity [keygen] wrote is the signing key, for who knows the
    passphrase typed; its counter starts at zero; and the entry printed enrols
    that key. *)
Lemma keygen_files output plaintext sk first second fill ok ops entry s :
  length sk = 32%nat -> (forall i n, length (fill i n) = n) ->
  keygen output plaintext sk first second fill ok = (ops, Ok entry) ->
  read_signing_key (read_file (fs_run ops s) (output +:+ ".key")) first = Ok sk /\
  read_file (fs_run ops s) (output +:+ ".counter") = RdOk (line "0") /\
  exists c, into_clients [entry] = Ok [c] /\ ac_public_key c = ed_verifying_key sk /\ ac_tier c = Full /\
    ac_key_id c = key_id_for_public_key (ed_verifying_key sk) /\
    ac_noise_public_key c = derive_noise_static_public_key sk.
Proof.
  intros Hsk Hfill H. unfold keygen in H.
  destruct (if plaintext then _ else _) as [contents|e] eqn:Ek; [|done].
  destruct (write_files _ ok 0) as [wops [u|e]] eqn:Ew; [|done]. injection H as <- <-.
  assert (Hrd : forall p c, (p, c) ∈ [(output +:+ ".key", contents);
         (output +:+ ".pub", line (encode_public_key (ed_verifying_key sk)));
         (output +:+ ".keyid", line (key_id_hex (key_id_for_public_key (ed_verifying_key sk))));
         (output +:+ ".noise", line (encode_noise_public_key (derive_noise_static_public_key sk)));
         (output +:+ ".counter", line "0")]%string -> read_file (fs_run wops s) p = RdOk c).
  { intros p c Hin. unfold read_file. erewrite write_files_read; [done|exact Ew| |exact Hin]. apply (keygen_names output). }
  rewrite (Hrd _ contents) by set_solver. rewrite (Hrd (output +:+ ".counter") (line "0")) by set_solver. split_and!; [|done|].
  - destruct plaintext.
    + injection Ek as <-. by destruct (identity_reads_back fill sk output output first Hsk Hfill) as [_ Hr].
    + apply bind_Ok_inv in Ek as (pass & Hp & Ek). unfold prompt_new_passphrase in Hp.
      destruct first as [f|]; [|done]. destruct second as [g|]; [|done]. cbn in Hp.
      case_bool_decide as Hfg; [|done]. case_bool_decide; [done|]. cbn in Hp. injection Hp as <-. subst g.
      destruct (encrypt_signing_key fill sk f) as [c|e] eqn:Ee; [|done]. injection Ek as <-.
      destruct (identity_reads_back fill sk f c None Hsk Hfill) as [Hr _]. by apply Hr.
  - unfold into_clients. cbn. unfold from_config. cbn.
    rewrite decode_encode_public_key. cbn.
    rewrite decode_encode_noise_key by (apply x25519_base_length). cbn. by eexists.
Qed.

(** The server loads the private key the client's [server-keygen] wrote, and the
    client reads the public key. *)
Lemma server_keygen_files output private public ok ops s opt_in generated write_ok :
  length private = 32%nat -> length public = 32%nat ->
  server_keygen output (Some (private, public)) ok = (ops, Ok tt) ->
  load_static_private_key (output +:+ ".key") (Some (fs_run ops s !! (output +:+ ".key"))) opt_in generated write_ok
    = ([], Ok private) /\
  fs_run ops s !! (output +:+ ".pub") = Some (line (b64_encode public)) /\
  client_decode_noise_public_key (line (b64_encode public)) = Ok public.
Proof.
  intros Hl Hp H. cbn [server_keygen] in H.
  assert (Hn : NoDup (map (String.app output) [".key"; ".pub"]%string)).
  { apply suffixes_NoDup. apply (bool_decide_unpack _). vm_compute. exact Logic.I. }
  assert (Hk : fs_run ops s !! (output +:+ ".key") = Some (line (b64_encode private))).
  { eapply write_files_read; [exact H|exact Hn|set_solver]. }
  split_and!.
  - rewrite Hk. unfold load_static_private_key. cbn [load_or_generate_static_key].
    unfold line. rewrite str_bytes_app, str_bytes_str, trim_line, bytes_str_bytes by apply b64_graphic.
    rewrite b64_decode_encode. cbn. rewrite Hl. cbn. by rewrite Hl.
  - eapply write_files_read; [exact H|exact Hn|set_solver].
  - unfold client_decode_noise_public_key, line. rewrite str_bytes_app, str_bytes_str, trim_line, bytes_str_bytes by apply b64_graphic.
    rewrite b64_decode_encode. cbn. by rewrite Hp.
Qed.

End keygen_facts.

(** * Enrolment *)

Section enrolment.
Context `{C : Crypto} {L : CryptoLaws C} `{CT : ClientToml} {CL : ClientTomlLaws CT}.

(** An IPv4 address alone is no socket address. *)
Lemma no_port_no_socket t ip : read_ipv4_addr t = Some (ip, []) -> parse_socket_addr t = None.
Proof.
  intros H. unfold parse_socket_addr, parse_with, read_socket_addr_v4. rewrite H. cbn [mbind option_bind read_port read_given_char].
  destruct t as [|b t]; [done|]. destruct (decide (b = x5b)) as [->|Hb]; [by vm_compute in H|].
  unfold read_socket_addr_v6.
  assert (read_given_char x5b (b :: t) = None) as ->; [|done].
  unfold read_given_char. by rewrite bool_decide_eq_false_2.
Qed.

(** The server's address of the configuration is found again, for IPv4. *)
Lemma parse_spa_endpoint_v4 ip port :
  in_u 32 ip -> in_u 16 port -> parse_spa_endpoint (bytes_str (show_ip (V4 ip))) port = Ok {| sa_ip := V4 ip; sa_port := port |}.
Proof.
  intros Hi Hp. unfold parse_spa_endpoint. cbn [show_ip]. rewrite bytes_str_bytes, parse_socket_v4 by done.
  pose proof (read_ipv4_show ip [] Hi Logic.I) as Hr. rewrite app_nil_r in Hr. by rewrite (no_port_no_socket _ _ Hr).
Qed.

Lemma enroll_Ok server_key endpoint mode port out mk wr ops s :
  enroll server_key endpoint mode port out mk wr = (ops, Ok tt) ->
  exists key addr, client_decode_noise_public_key server_key = Ok key /\
    parse_socket_addr (str_bytes endpoint) = Some addr /\
    load_client_config (read_file (fs_run ops s) out) = Ok (enrolled_config server_key endpoint (sa_ip addr) mode port).
Proof.
  unfold enroll. intros H. destruct (client_decode_noise_public_key server_key) as [key|]; [|done].
  destruct (parse_socket_addr (str_bytes endpoint)) as [addr|]; [|done].
  destruct (toml_client_encode _) as [text|] eqn:Et; [|done].
  destruct (parent_given out && negb mk); [done|]. destruct wr; [|done]. cbn [negb] in H. injection H as <-.
  exists key, addr. split_and!; [done..|]. rewrite fs_run_app, write_file_run. unfold read_file. rewrite lookup_insert_eq.
  cbn [load_client_config]. by rewrite (toml_client_roundtrip _ _ Et).
Qed.

(** One server, the default policy of [enroll]. *)
Lemma resolve_enrolled file server_key endpoint ip mode port :
  load_client_config file = Ok (enrolled_config server_key endpoint ip mode port) ->
  resolve_connect_configs (Some file) None None None None None
  = (r ← resolve_server None None {| se_endpoint := endpoint; se_spa_endpoint := bytes_str (show_ip ip); se_spa_mode := mode;
             se_spa_port := port; se_server_public_key := server_key; se_priority := Some 1 |};
     Ok ([r], {| fp_strategy := Priority; fp_retry_interval_ms := 5000; fp_max_retries := 3 |})).
Proof.
  intros Hl. cbn [resolve_connect_configs]. rewrite Hl. cbn [mbind result_bind].
  change (policy_from_config _) with (Ok (E:=ClientError) {| fp_strategy := Priority; fp_retry_interval_ms := 5000; fp_max_retries := 3 |}).
  change (ordered_servers _) with (Ok (E:=ClientError) (cc_servers (enrolled_config server_key endpoint ip mode port))).
  cbn [map_err cc_servers enrolled_config mbind result_bind result_map]. by destruct (resolve_server _ _ _).
Qed.

(** Connecting with an enrolled configuration goes to the server enrolled. *)
Lemma enroll_resolves server_key endpoint mode port out mk wr ops s ip proxy_port :
  enroll server_key endpoint mode port out mk wr = (ops, Ok tt) ->
  parse_socket_addr (str_bytes endpoint) = Some {| sa_ip := V4 ip; sa_port := proxy_port |} -> in_u 16 port ->
  exists key url, client_decode_noise_public_key server_key = Ok key /\
    (mode = TransportHttps ->
     url = Some ("https://" +:+ show_ipv4 ip +:+ ":" +:+ dec port +:+ "/api/v1/telemetry")%string) /\
    resolve_connect_configs (Some (read_file (fs_run ops s) out)) None None None None None
    = Ok ([{| rc_server_public_key := key; rc_spa_endpoint := {| sa_ip := V4 ip; sa_port := port |};
              rc_proxy_endpoint := {| sa_ip := V4 ip; sa_port := proxy_port |};
              rc_spa_mode := mode; rc_https_spa_url := url |}],
          {| fp_strategy := Priority; fp_retry_interval_ms := 5000; fp_max_retries := 3 |}).
Proof.
  intros H Hp Hport. destruct (parse_socket_range _ _ Hp) as [Hip _]. cbn in Hip.
  destruct (enroll_Ok _ _ _ _ _ _ _ _ s H) as (key & addr & Hk & Ha & Hl). rewrite Hp in Ha. injection Ha as <-. cbn [sa_ip] in Hl.
  exists key. eexists. split; [done|]. split; last first.
  - rewrite (resolve_enrolled _ _ _ _ _ _ Hl).
    unfold resolve_server. cbn [se_endpoint se_spa_endpoint se_spa_mode se_spa_port se_server_public_key default].
    rewrite Hp. cbn [ok_or mbind result_bind]. rewrite parse_spa_endpoint_v4 by done. cbn [mbind result_bind]. rewrite Hk. done.
  - intros ->. unfold https_spa_url_for. cbn [se_spa_endpoint se_spa_port show_ip]. by rewrite bytes_str_bytes.
Qed.

(** An IPv6 server can be enrolled, but not connected to with the file written. *)
Lemma enroll_v6_unusable server_key endpoint mode port out mk wr ops s ip proxy_port :
  enroll server_key endpoint mode port out mk wr = (ops, Ok tt) ->
  parse_socket_addr (str_bytes endpoint) = Some {| sa_ip := V6 ip; sa_port := proxy_port |} ->
  exists host, resolve_connect_configs (Some (read_file (fs_run ops s) out)) None None None None None = Err (SeSpaEndpoint host port).
Proof.
  intros H Hp. destruct (enroll_Ok _ _ _ _ _ _ _ _ s H) as (key & addr & Hk & Ha & Hl). rewrite Hp in Ha. injection Ha as <-. cbn [sa_ip] in Hl.
  exists (bytes_str (show_ip (V6 ip))). rewrite (resolve_enrolled _ _ _ _ _ _ Hl).
  unfold resolve_server. cbn [se_endpoint se_spa_endpoint se_spa_mode se_spa_port se_server_public_key default].
  rewrite Hp. cbn [ok_or mbind result_bind]. unfold parse_spa_endpoint. cbn [show_ip].
  rewrite str_bytes_app, str_bytes_str. pose proof (show_ipv6_no_socket ip []) as H0. rewrite app_nil_r in H0. rewrite H0.
  rewrite show_ipv6_no_socket. done.
Qed.

End enrolment.

(** * A deployment *)

Section deployment.
Context `{C : Crypto} {L : CryptoLaws C} `{I : IdentityLib} {IL : IdentityLaws C I}.
Context `{CT : ClientToml} {CL : ClientTomlLaws CT} {T : CounterToml}.

(** The client's identity is generated. *)
Context (output : string) (plaintext : bool) (sk : bytes) (first second : option string) (fill : nat -> nat -> bytes).
Context (cok : nat -> bool) (cops : list fs_op) (entry : AuthorizedClientConfig) (cst : store).
Hypothesis Hsk : length sk = 32%nat.
Hypothesis Hfill : forall i n, length (fill i n) = n.
Hypothesis Hout : output <> ""%string.
Hypothesis Hlast : last (str_bytes output) <> Some slash.
Hypothesis Hkeygen : keygen output plaintext sk first second fill cok = (cops, Ok entry).

(** The server's identity is generated, and the server starts with it and with
    the client's entry. *)
Context (sout server_key : string) (private : bytes) (sok : nat -> bool) (sops : list fs_op) (sst : store).
Context (opt : bool) (gen : bytes * bytes) (wok : bool * bool) (lops : list fs_op) (key : bytes).
Context (clients : list AuthorizedClient) (window : Z) (path : string) (contents : read_outcome) (init : bool) (v : SpaVerifier).
Hypothesis Hprivate : length private = 32%nat.
Hypothesis Hserver : server_keygen sout (Some (private, x25519_base private)) sok = (sops, Ok tt).
Hypothesis Hpub : fs_run sops sst !! (sout +:+ ".pub") = Some server_key.
Hypothesis Hload : load_static_private_key (sout +:+ ".key") (Some (fs_run sops sst !! (sout +:+ ".key"))) opt gen wok = (lops, Ok key).
Hypothesis Hclients : into_clients [entry] = Ok clients.
Hypothesis Hverifier : load clients window path contents key init = Ok v.
Hypothesis Hnew : default 0 (highest_counters v !! key_id_for_public_key (ed_verifying_key sk)) = 0.

(** The client is told of the server. *)
Context (config endpoint : string) (mode : SpaTransport) (port : Z) (mk wr : bool) (eops : list fs_op) (est : store) (ip proxy_port : Z).
Hypothesis Henroll : enroll server_key endpoint mode port config mk wr = (eops, Ok tt).
Hypothesis Hendpoint : parse_socket_addr (str_bytes endpoint) = Some {| sa_ip := V4 ip; sa_port := proxy_port |}.
Hypothesis Hport : in_u 16 port.

Lemma deployment_setup : exists c, honest_setup v sk c /\ ac_noise_public_key c = derive_noise_static_public_key sk /\
  server_static_pubkey v = x25519_base private.
Proof.
  destruct (keygen_files _ _ _ _ _ _ _ _ _ cst Hsk Hfill Hkeygen) as (_ & _ & c & Hc & Hpk & Ht & Hid & Hn).
  rewrite Hc in Hclients. injection Hclients as <-.
  destruct (server_keygen_files _ _ _ _ _ sst opt gen wok Hprivate (x25519_base_length private) Hserver) as (Hk & _).
  rewrite Hk in Hload. injection Hload as _ <-.
  unfold load in Hverifier. destruct (load_counter_state _ _) as [h|]; [|done]. injection Hverifier as <-.
  exists c. split; [|done]. split; cbn; [done| |done..]. unfold clients_by_key_id. cbn. rewrite Hid. apply lookup_insert_eq.
Qed.

(** C15: a deployment set up with the program's own commands lets its client in.
    With the identity that [keygen] wrote, the entry it printed, the server key
    of [server-keygen] and the configuration of [enroll] for an IPv4 server, the
    client resolves that server, finds its counter file, and its first knock is
    accepted, bound to the Noise key its tunnel will use. *)
Theorem deployment_admits i io src now ts m ops :
  ki_identity i = read_file (fs_run cops cst) (output +:+ ".key") -> ki_prompt i = first ->
  ki_counter i = read_file (fs_run cops cst) (counter_path None (output +:+ ".key")) ->
  ki_clock i = Some ts -> 0 <= ts <= i64_max -> ki_write i = WrDone -> (forall n, length (ki_fill i n) = n) ->
  Z.abs (now - ts) <= time_window_ms v ->
  (forall ctr, 0 <= ctr <= i64_max ->
     persist_counters (with_counter v (key_id_for_public_key (ed_verifying_key sk)) ctr) io = (ops ctr, Ok tt)) ->
  exists rc policy written payload ctr v' acc,
    resolve_connect_configs (Some (read_file (fs_run eops est) config)) None None None None None = Ok ([rc], policy) /\
    rc_proxy_endpoint rc = {| sa_ip := V4 ip; sa_port := proxy_port |} /\
    rc_spa_endpoint rc = {| sa_ip := V4 ip; sa_port := port |} /\ rc_spa_mode rc = mode /\
    spa_payload m i (rc_server_public_key rc) = (Some written, Ok (payload, ctr)) /\
    verify v io payload src now = (v', ops ctr, Ok acc) /\
    acc_noise_public_key acc = x25519_base (derive_noise_static_private_key sk).
Proof.
  intros Hid Hpr Hct Hclk Hts Hw Hf Hwin Hp. destruct deployment_setup as (c & Hs & Hn & Hsp).
  destruct (keygen_files _ _ _ _ _ _ _ _ _ cst Hsk Hfill Hkeygen) as (Hr & Hc & _).
  destruct (server_keygen_files _ _ _ _ _ sst opt gen wok Hprivate (x25519_base_length private) Hserver) as (_ & Hpb & Hdec).
  rewrite Hpb in Hpub. injection Hpub as <-.
  destruct (enroll_resolves _ _ _ _ _ _ _ _ est _ _ Henroll Hendpoint Hport) as (key' & url & Hk' & _ & Hres).
  rewrite Hdec in Hk'. injection Hk' as <-.
  assert (Hsync : in_sync v sk (ki_counter i)).
  { exists 0. rewrite Hct. cbn [counter_path default]. rewrite default_counter_path_keygen, Hc by done.
    split_and!; [done|done|unfold i64_max; lia|]. by rewrite Hnew. }
  rewrite <-Hpr, <-Hid in Hr.
  destruct (client_knock_ok v sk c i io src now ts m ops Hs Hsync Hr Hclk Hts Hw Hf Hwin Hp)
    as (written & payload & ctr & v' & acc & Hpay & Hv & _ & (_ & Hna & _) & _).
  eexists _, _, written, payload, ctr, v', acc. split; [exact Hres|]. cbn. rewrite <-Hsp. split_and!; try done.
  rewrite Hna, Hn. done.
Qed.

End deployment.
