(* ===== verification/Xtask.v ===== *)
(** The build tasks: [xtask/src/main.rs], without the processes it runs.

    The commands and their defaults, the files of the loopback fixture, the
    command lines of the processes a smoke test starts, and what it looks for in
    their output. *)

From S2P Require Import Prelude Text Protocol Crypto Keys Fs ClientSetup.

(** * Commands

    The two records of arguments that the smoke tests share; a command carries
    the ports that only it has. *)

Record SmokeNoiseConfig := {
  sm_identity_prefix : string;
  sm_authorized_keys : string;
  sm_server_config : string;
  sm_server_noise_key : string;
  sm_spa_port : Z;
  sm_proxy_port : Z;
  sm_iface : string;
  sm_decoy_bind : string;
  sm_message : string;
  sm_use_sudo : bool
}.

Inductive XtaskCommand :=
| BuildEbpf
| PrepareSpaLoopback (identity_prefix authorized_keys server_config : string) (spa_port proxy_port : Z) (iface decoy_bind : string)
| SmokeNoiseLoopback (identity_prefix authorized_keys server_config server_noise_key : string) (spa_port proxy_port : Z)
    (iface decoy_bind message : string) (no_sudo : bool)
| SmokeSocks5Loopback (identity_prefix authorized_keys server_config server_noise_key : string) (spa_port proxy_port target_port : Z)
    (iface decoy_bind message : string) (no_sudo : bool)
| SmokeSocks5ListenerLoopback (identity_prefix authorized_keys server_config server_noise_key : string)
    (spa_port proxy_port socks_port target_port : Z) (iface decoy_bind message : string) (no_sudo : bool)
| SmokeGhostRelayLoopback (identity_prefix authorized_keys server_config server_noise_key : string)
    (spa_port proxy_port web_port : Z) (iface decoy_bind : string) (no_sudo : bool).

(** The names of the default files of a smoke test, after [stem]. *)
Definition smoke_defaults (stem : string) : string * string * string * string :=
  ("/tmp/ghost-" +:+ stem +:+ "-debug", "/tmp/ghost-" +:+ stem +:+ "-authorized.toml",
   "/tmp/ghost-" +:+ stem +:+ "-server.toml", "/tmp/ghost-" +:+ stem +:+ "-server-noise.key")%string.

Definition default_spa_port : Z := 5353.
Definition default_proxy_port : Z := 8443.
Definition default_socks_port : Z := 1080.
Definition default_target_port : Z := 9000.
Definition default_web_port : Z := 9100.

(** * Text *)

Definition nl : string := bytes_str [x0a].
Definition quoted (s : string) : string := bytes_str [x22] +:+ s +:+ bytes_str [x22].
(** [key = value] lines of a TOML file. *)
Definition toml_line (key value : string) : string := key +:+ " = " +:+ value +:+ nl.
Definition toml_header (name : string) : string := name +:+ nl.

Definition concat_strings (l : list string) : string := foldr String.app ""%string l.

(** [public_key_path] *)
Definition public_key_path (path : string) : string :=
  if bool_decide (extension path = Some "key"%string) then with_extension path "pub" else with_extension path "noise.pub".

(** * The fixture *)

Record LoopbackFixture := {
  fx_key_path : string;
  fx_pub_path : string;
  fx_key_id_path : string;
  fx_noise_path : string;
  fx_counter_path : string;
  fx_authorized_keys : string;
  fx_server_config : string;
  fx_server_noise_key : string
}.

Definition fixture_paths (identity_prefix authorized_keys server_config server_noise_key : string) : LoopbackFixture := {|
  fx_key_path := identity_prefix +:+ ".key";
  fx_pub_path := identity_prefix +:+ ".pub";
  fx_key_id_path := identity_prefix +:+ ".keyid";
  fx_noise_path := identity_prefix +:+ ".noise";
  fx_counter_path := identity_prefix +:+ ".counter";
  fx_authorized_keys := authorized_keys;
  fx_server_config := server_config;
  fx_server_noise_key := server_noise_key |}.

Definition server_counter_state (server_config : string) : string := with_extension server_config "counters.toml".

(** The server's configuration file. *)
Definition server_config_text (server_noise_key counter_state authorized_keys : string) (spa_port proxy_port : Z) : string :=
  concat_strings
    [toml_header "[server]"; toml_line "identity" (quoted server_noise_key); nl;
     toml_header "[spa]"; toml_line "mode" (quoted "udp"); nl;
     toml_header "[spa.udp]"; toml_line "port" (dec spa_port); toml_line "rate_limit" "5"; nl;
     toml_header "[spa.common]"; toml_line "time_window" "300"; toml_line "allow_ttl" "14400";
     toml_line "counter_state" (quoted counter_state); nl;
     toml_header "[proxy]"; toml_line "port" (dec proxy_port);
     toml_line "noise_pattern" (quoted "Noise_XK_25519_ChaChaPoly_BLAKE2s"); toml_line "bind" (quoted "0.0.0.0"); nl;
     toml_header "[clients]"; toml_line "authorized_keys" (quoted authorized_keys)].

Section fixture.
Context `{C : Crypto}.

(** The enrolment file. *)
Definition authorized_keys_text (signing_key : bytes) : string :=
  concat_strings
    [toml_header "[[clients]]"; toml_line "name" (quoted "debug-client");
     toml_line "public_key" (quoted (encode_public_key (ed_verifying_key signing_key)));
     toml_line "noise_public_key" (quoted (encode_noise_public_key (derive_noise_static_public_key signing_key)));
     toml_line "tier" (quoted "full")].

(** What is written before the server's counter state is removed: the identity
    and the enrolment file. *)
Definition identity_files (fx : LoopbackFixture) (signing_key : bytes) : list (string * string) :=
  [(fx_key_path fx, line (encode_signing_key signing_key));
   (fx_pub_path fx, line (encode_public_key (ed_verifying_key signing_key)));
   (fx_key_id_path fx, line (key_id_hex (key_id_for_public_key (ed_verifying_key signing_key))));
   (fx_noise_path fx, line (encode_noise_public_key (derive_noise_static_public_key signing_key)));
   (fx_counter_path fx, line "0");
   (fx_authorized_keys fx, authorized_keys_text signing_key)].

End fixture.

(** What [prepare-spa-loopback] tells the user to do. *)
Definition loopback_instructions (fx : LoopbackFixture) (spa_port proxy_port : Z) (iface decoy_bind : string) : list string :=
  ["prepared loopback SPA smoke test files:";
   "  private key:     " +:+ fx_key_path fx;
   "  public key:      " +:+ fx_pub_path fx;
   "  key id:          " +:+ fx_key_id_path fx;
   "  noise key:       " +:+ fx_noise_path fx;
   "  counter:         " +:+ fx_counter_path fx;
   "  authorized keys: " +:+ fx_authorized_keys fx;
   "  server config:   " +:+ fx_server_config fx;
   "  server noise key:" +:+ fx_server_noise_key fx;
   "";
   "1. Build the eBPF object:";
   "   cargo xtask build-ebpf";
   "";
   "2. Start the server in one terminal:";
   "   sudo RUST_LOG=debug target/debug/ghostbro-server --config " +:+ fx_server_config fx +:+ " --iface " +:+ iface
     +:+ " --ebpf-object target/bpfel-unknown-none/release/ghostbro-ebpf --decoy-bind " +:+ decoy_bind;
   "";
   "3. Send one SPA packet from another terminal:";
   "   cargo run -p ghostbro-client -- send-udp-spa --identity-key " +:+ fx_key_path fx +:+ " --server-key "
     +:+ public_key_path (fx_server_noise_key fx) +:+ " --endpoint 127.0.0.1:" +:+ dec spa_port;
   "";
   "Expected server logs: SPA_ACCEPT followed by ALLOW_MAP_WRITE for 127.0.0.1";
   "";
   "4. After the server has generated " +:+ public_key_path (fx_server_noise_key fx) +:+ ", try one encrypted TCP frame:";
   "   cargo run -p ghostbro-client -- connect-once --identity-key " +:+ fx_key_path fx +:+ " --server-key "
     +:+ public_key_path (fx_server_noise_key fx) +:+ " --spa-endpoint 127.0.0.1:" +:+ dec spa_port
     +:+ " --proxy-endpoint 127.0.0.1:" +:+ dec proxy_port +:+ " --message " +:+ quoted "hello ghost"]%string.

(** * Processes *)

(** A program, its arguments, and the variables added to its environment. *)
Record process := { pr_program : string; pr_args : list string; pr_env : list (string * string) }.
Record proc_output := { po_success : bool; po_stdout : bytes; po_stderr : bytes }.

Definition cargo (args : list string) : process := {| pr_program := "cargo"; pr_args := args; pr_env := [] |}.

Definition build_ebpf_process : process :=
  cargo ["+nightly"; "build"; "-p"; "ghostbro-ebpf"; "--target"; "bpfel-unknown-none"; "--release"; "-Z"; "build-std=core"].

Definition local (port : Z) : string := "127.0.0.1:" +:+ dec port.

(** The server; with [sudo] the variables it needs are arguments of [env]. *)
Definition server_process (config : SmokeNoiseConfig) (fx : LoopbackFixture) : process :=
  let spool := (sm_identity_prefix config +:+ "-relay-spool")%string in
  let common := [("GHOSTBRO_RELAY_ALLOW_LOOPBACK", "1"); ("GHOSTBRO_GENERATE_IDENTITY", "1");
                 ("GHOSTBRO_SPA_COUNTER_INIT", "1"); ("GHOSTBRO_RELAY_SPOOL_DIR", spool)]%string in
  let args := ["--config"; fx_server_config fx; "--iface"; sm_iface config; "--ebpf-object";
               "target/bpfel-unknown-none/release/ghostbro-ebpf"; "--decoy-bind"; sm_decoy_bind config]%string in
  if sm_use_sudo config
  then {| pr_program := "sudo";
          pr_args := ["-n"; "prlimit"; "--nofile=65535:65535"; "--"; "env"; "RUST_LOG=debug"; "GHOSTBRO_DISABLE_AUTH_WATCH=1";
                      "GHOSTBRO_RELAY_ALLOW_LOOPBACK=1"; "GHOSTBRO_GENERATE_IDENTITY=1"; "GHOSTBRO_SPA_COUNTER_INIT=1";
                      "GHOSTBRO_RELAY_SPOOL_DIR=" +:+ spool; "./target/debug/ghostbro-server"]%string ++ args;
          pr_env := common |}
  else {| pr_program := "./target/debug/ghostbro-server"; pr_args := args;
          pr_env := [("RUST_LOG", "debug"); ("GHOSTBRO_DISABLE_AUTH_WATCH", "1")]%string ++ common |}.

(** The arguments all client commands have. *)
Definition client_args (config : SmokeNoiseConfig) (fx : LoopbackFixture) : list string :=
  ["--identity-key"; fx_key_path fx; "--server-key"; public_key_path (fx_server_noise_key fx);
   "--spa-endpoint"; local (sm_spa_port config); "--proxy-endpoint"; local (sm_proxy_port config)]%string.

(** [relay_client_command], and the other client commands. *)
Definition relay_client_command (config : SmokeNoiseConfig) (fx : LoopbackFixture) (subcommand : string) (args : list string) : process :=
  cargo (["run"; "-p"; "ghostbro-client"; "--"; subcommand]%string ++ client_args config fx ++ args).

Definition client_listener_process (config : SmokeNoiseConfig) (fx : LoopbackFixture) (socks_port : Z) : process :=
  {| pr_program := "./target/debug/ghostbro";
     pr_args := "connect"%string :: client_args config fx ++ ["--listen"%string; local socks_port]; pr_env := [] |}.

(** * Output *)

Definition output_text (output : proc_output) : bytes :=
  from_utf8_lossy (po_stdout output) ++ from_utf8_lossy (po_stderr output).

(** [split_whitespace().next()] *)
Fixpoint take_word (cs : list bytes) : bytes :=
  match cs with
  | [] => []
  | c :: cs' => if is_whitespace c then [] else c ++ take_word cs'
  end.

Definition first_word (b : bytes) : option bytes :=
  let b := trim_start b in
  if bool_decide (b = []) then None else Some (take_word (chars b)).

Inductive XtaskError :=
| XeInvoke (label : string)
| XeStatus (label : string)
| XeWrite (path : string)
| XeRead (path : string)
| XeSpawn
| XeWait
| XeKill
| XeCollect
| XeExited (what : string)
| XeTimeout (what : string)
| XeMissing (needle label : string)
| XeNoJobId
| XeEmptyJobId
| XeJobFailed (job_id : bytes)
| XeMarkdown (markdown : string)
| XePrimary
| XeBind (port : Z)
| XeSocket
| XeMethod (method : bytes)
| XeSocks5 (response : bytes)
| XeEcho (echoed : bytes)
| XeListener (e : XtaskError).

Definition assert_contains (haystack : bytes) (needle label : string) : result XtaskError unit :=
  if contains_sub (str_bytes needle) haystack then Ok tt else Err (XeMissing needle label).

(** Several of them, one after the other. *)
Fixpoint assert_all (haystack : bytes) (needles : list string) (label : string) : result XtaskError unit :=
  match needles with
  | [] => Ok tt
  | needle :: rest => _ ← assert_contains haystack needle label; assert_all haystack rest label
  end.

Definition marker : bytes := str_bytes "job_id=".

Definition parse_job_id (output : bytes) : result XtaskError bytes :=
  start ← ok_or XeNoJobId (find_sub marker output);
  ok_or XeEmptyJobId (first_word (drop (start + length marker) output)).

(** [split] at a tab. *)
Fixpoint split_tabs (acc b : bytes) : list bytes :=
  match b with
  | [] => [reverse acc]
  | x :: b' => if bool_decide (x = x09) then reverse acc :: split_tabs [] b' else split_tabs (x :: acc) b'
  end.

(** The status in a row of [relay-list] about the job. *)
Definition row_status (job_id row : bytes) : option bytes :=
  match split_tabs [] row with
  | first :: rest => if bool_decide (first = job_id) then Some (default [] (rest !! 1%nat)) else None
  | [] => None
  end.

Fixpoint find_map {A B} (f : A -> option B) (l : list A) : option B :=
  match l with
  | [] => None
  | x :: l' => match f x with Some y => Some y | None => find_map f l' end
  end.

Definition listed_status (job_id list_log : bytes) : option bytes := find_map (row_status job_id) (lines list_log).

(** * The local targets *)

(** The page the HTTP fixture serves, and its response. *)
Definition fixture_page (message : string) : string :=
  "<!DOCTYPE html><html><head><title>fixture</title><style>.x{}</style></head><body><h1>" +:+ message +:+ "</h1></body></html>".

Definition crlf : string := bytes_str [x0d; x0a].

Definition http_fixture_response (message : string) : string :=
  let body := fixture_page message in
  "HTTP/1.1 200 OK" +:+ crlf +:+ "Content-Length: " +:+ dec (blen (str_bytes body)) +:+ crlf
  +:+ "Content-Type: text/html" +:+ crlf +:+ "Connection: close" +:+ crlf +:+ crlf +:+ body.
