(* ===== verification/ClientTunnel.v ===== *)
(** The client's side of the network: [ghostbro-client/src/main.rs].

    Sending a knock, the Noise handshake, frames over a blocking socket, the
    SOCKS5 negotiation and the two relay threads of an open tunnel.  Sockets are
    scripts of what their peers do; after its script a socket is at its end for
    reading and accepts everything for writing. *)

From S2P Require Import Prelude Text NetAddr Protocol Crypto Keys Seal SpaPacket Fs AuthKeys Verifier Runtime Tunnel.
From S2P Require Import RelayWire Client ClientSetup.

Inductive NetError :=
| NeClient (e : ClientError)
| NeSetup (e : SetupError)
| NeUdp
| NeHttp
| NeStatus (status : Z)
| NeNoUrl
| NeNoiseKey
| NeNoiseBuild
| NeHandshake
| NeConnect
| NeIo (e : io_error)
| NeFrameTooLarge
| NeClosed
| NeEncrypt
| NeDecrypt
| NeLocal
| NeCommand
| NeTarget
| NeMethod (response : bytes)
| NeRefused (response : bytes)
| NeRelay (response : bytes).

(** * Blocking sockets *)

(** [Read::read]: a blocking socket waits; no data means the end. *)
Fixpoint tcp_read (l : list rd_event) (cap : nat) : list rd_event * result io_error bytes :=
  match l with
  | [] => ([], Ok [])
  | RdPending :: l' => tcp_read l' cap
  | RdError :: l' => (l', Err IoOther)
  | RdData b :: l' => if (length b <=? cap)%nat then (l', Ok b) else (RdData (drop cap b) :: l', Ok (take cap b))
  end.

(** [Read::read_exact] *)
Fixpoint read_exact (l : list rd_event) (n : nat) : list rd_event * result io_error bytes :=
  match n with
  | O => (l, Ok [])
  | S _ =>
      match l with
      | [] => ([], Err UnexpectedEof)
      | RdPending :: l' => read_exact l' n
      | RdError :: l' => (l', Err IoOther)
      | RdData b :: l' =>
          if (length b =? 0)%nat then (l', Err UnexpectedEof)
          else if (length b <=? n)%nat
          then let '(l'', r) := read_exact l' (n - length b) in (l'', rest ← r; Ok (b ++ rest))
          else (RdData (drop n b) :: l', Ok (take n b))
      end
  end.

(** [Write::write_all]: the events left and the bytes the peer got. *)
Fixpoint write_all (l : list wr_event) (data : bytes) : list wr_event * bytes * result io_error unit :=
  if bool_decide (data = []) then (l, [], Ok tt)
  else
    match l with
    | [] => ([], data, Ok tt)
    | WrPending :: l' => write_all l' data
    | WrError :: l' => (l', [], Err IoOther)
    | WrAccept n :: l' =>
        if (n =? 0)%nat then (l', [], Err WriteZero)
        else let '(l'', out, r) := write_all l' (drop n data) in (l'', take n data ++ out, r)
    end.

Definition with_rd (s : TcpStream) (l : list rd_event) : TcpStream :=
  {| rd_script := l; wr_script := wr_script s; sent := sent s |}.
Definition with_wr (s : TcpStream) (l : list wr_event) (out : bytes) : TcpStream :=
  {| rd_script := rd_script s; wr_script := l; sent := sent s ++ out |}.

Definition stream_write_all (s : TcpStream) (data : bytes) : TcpStream * result NetError unit :=
  let '(l, out, r) := write_all (wr_script s) data in (with_wr s l out, map_err NeIo r).

Definition stream_read_exact (s : TcpStream) (n : nat) : TcpStream * result io_error bytes :=
  let '(l, r) := read_exact (rd_script s) n in (with_rd s l, r).

(** * Frames *)

Definition client_read_frame_optional (s : TcpStream) : TcpStream * result NetError (option bytes) :=
  match stream_read_exact s 2 with
  | (s, Err UnexpectedEof) => (s, Ok None)
  | (s, Err e) => (s, Err (NeIo e))
  | (s, Ok len) =>
      let '(s, r) := stream_read_exact s (Z.to_nat (from_be len)) in
      (s, frame ← map_err NeIo r; Ok (Some frame))
  end.

Definition client_read_frame (s : TcpStream) : TcpStream * result NetError bytes :=
  let '(s, r) := client_read_frame_optional s in
  (s, frame ← r; ok_or NeClosed frame).

Definition client_write_frame (s : TcpStream) (frame : bytes) : TcpStream * result NetError unit :=
  match try_from 16 (blen frame) with
  | None => (s, Err NeFrameTooLarge)
  | Some len =>
      match stream_write_all s (be_bytes 2 len) with
      | (s, Err e) => (s, Err e)
      | (s, Ok _) => stream_write_all s frame
      end
  end.

(** The buffer of both ends. *)
Definition BUF_LEN : nat := 16 * 1024.

Section encrypted.
Context `{N : Noise}.

Definition client_read_encrypted_frame (s : TcpStream) (t : TransportState)
    : TcpStream * TransportState * result NetError bytes :=
  match client_read_frame s with
  | (s, Err e) => (s, t, Err e)
  | (s, Ok encrypted) =>
      match read_message t encrypted BUF_LEN with
      | None => (s, t, Err NeDecrypt)
      | Some (t, plaintext) => (s, t, Ok plaintext)
      end
  end.

(** Also [write_encrypted_frame_locked], in which the lock is held while the
    transport is used. *)
Definition client_write_encrypted_frame (s : TcpStream) (t : TransportState) (plaintext : bytes)
    : TcpStream * TransportState * result NetError unit :=
  match write_message t plaintext BUF_LEN with
  | None => (s, t, Err NeEncrypt)
  | Some (t, c) => let '(s, r) := client_write_frame s c in (s, t, r)
  end.

Definition read_encrypted_frame_optional_locked (s : TcpStream) (t : TransportState)
    : TcpStream * TransportState * result NetError (option bytes) :=
  match client_read_frame_optional s with
  | (s, Err e) => (s, t, Err e)
  | (s, Ok None) => (s, t, Ok None)
  | (s, Ok (Some encrypted)) =>
      match read_message t encrypted BUF_LEN with
      | None => (s, t, Err NeDecrypt)
      | Some (t, plaintext) => (s, t, Ok (Some plaintext))
      end
  end.

(** A request and its response on an open connection. *)
Definition round_trip (s : TcpStream) (t : TransportState) (request : bytes)
    : TcpStream * TransportState * result NetError bytes :=
  match client_write_encrypted_frame s t request with
  | (s, t, Err e) => (s, t, Err e)
  | (s, t, Ok _) => client_read_encrypted_frame s t
  end.

End encrypted.

(** * Knocks *)

Inductive client_effect :=
| EffCounter (path contents : string)
| EffUdp (endpoint : SocketAddr) (payload : bytes)
| EffPost (url : string) (payload : bytes)
| EffTcp (endpoint : SocketAddr).

(** What the network does on a knock and a connection: whether the datagram can
    be sent; the response with its status and its date, absent or unreadable;
    the time then; the connection. *)
Record net_input := {
  ni_udp : bool;
  ni_http : option (Z * option Z);
  ni_now : Z;
  ni_connect : option TcpStream
}.

Section knocks.
Context `{C : Crypto} `{I : IdentityLib} `{N : Noise}.

Definition counter_effect (path : string) (written : option string) : list client_effect :=
  match written with Some contents => [EffCounter path contents] | None => [] end.

Definition send_udp_spa (i : knock_input) (n : net_input) (path : string) (server_static_pubkey : bytes) (endpoint : SocketAddr)
    : list client_effect * result NetError Z :=
  match spa_payload Udp i server_static_pubkey with
  | (written, Err e) => (counter_effect path written, Err (NeClient e))
  | (written, Ok (payload, counter)) =>
      if ni_udp n then (counter_effect path written ++ [EffUdp endpoint payload], Ok counter)
      else (counter_effect path written, Err NeUdp)
  end.

Definition NO_CONTENT : Z := 204.

Definition send_https_spa (i : knock_input) (n : net_input) (path : string) (server_static_pubkey : bytes) (url : string)
    : list client_effect * result NetError Z :=
  match spa_payload Https i server_static_pubkey with
  | (written, Err e) => (counter_effect path written, Err (NeClient e))
  | (written, Ok (payload, counter)) =>
      (counter_effect path written ++ [EffPost url payload],
       '(status, date) ← ok_or NeHttp (ni_http n);
       if negb (status =? NO_CONTENT) then Err (NeStatus status)
       else _ ← map_err NeClient (check_clock_drift date (ni_now n)); Ok counter)
  end.

Definition send_spa (i : knock_input) (n : net_input) (path : string) (server_static_pubkey : bytes)
    (spa_endpoint : SocketAddr) (spa_mode : SpaTransport) (https_spa_url : option string)
    : list client_effect * result NetError Z :=
  match spa_mode with
  | TransportUdp => send_udp_spa i n path server_static_pubkey spa_endpoint
  | TransportHttps =>
      match https_spa_url with
      | None => ([], Err NeNoUrl)
      | Some url => send_https_spa i n path server_static_pubkey url
      end
  end.

(** * The handshake *)

Context `{NH : NoiseHandshake}.

(** The three messages of Noise XK on a fresh connection. *)
Definition noise_xk (noise : HandshakeState) (s : TcpStream) : result NetError (TcpStream * TransportState) :=
  '(noise, msg1) ← ok_or NeHandshake (hs_write noise [] BUF_LEN);
  match client_write_frame s msg1 with
  | (_, Err e) => Err e
  | (s, Ok _) =>
      match client_read_frame s with
      | (_, Err e) => Err e
      | (s, Ok msg2) =>
          '(noise, _) ← ok_or NeHandshake (hs_read noise msg2 BUF_LEN);
          '(noise, msg3) ← ok_or NeHandshake (hs_write noise [] BUF_LEN);
          match client_write_frame s msg3 with
          | (_, Err e) => Err e
          | (s, Ok _) =>
              transport ← ok_or NeHandshake (into_transport_mode noise);
              Ok (s, transport)
          end
      end
  end.

(** [connect_noise] up to the open connection, and what comes before the
    handshake's first message. *)
Definition connect_open (i : knock_input) (n : net_input) (path : string) (c : ResolvedConnectConfig)
    : list client_effect * result NetError (TcpStream * HandshakeState * KeyId) :=
  if negb (length (rc_server_public_key c) =? 32)%nat then ([], Err NeNoiseKey)
  else
  match send_spa i n path (rc_server_public_key c) (rc_spa_endpoint c) (rc_spa_mode c) (rc_https_spa_url c) with
  | (effects, Err e) => (effects, Err e)
  | (effects, Ok _) =>
      match read_signing_key (ki_identity i) (ki_prompt i) with
      | Err e => (effects, Err (NeClient e))
      | Ok signing_key =>
          let key_id := key_id_for_public_key (ed_verifying_key signing_key) in
          match build_initiator (derive_noise_static_private_key signing_key) (rc_server_public_key c) key_id with
          | None => (effects, Err NeNoiseBuild)
          | Some noise =>
              match ni_connect n with
              | None => (effects ++ [EffTcp (rc_proxy_endpoint c)], Err NeConnect)
              | Some stream => (effects ++ [EffTcp (rc_proxy_endpoint c)], Ok (stream, noise, key_id))
              end
          end
      end
  end.

(** The whole of it, with a server that answers the handshake or ends the
    connection. *)
Definition connect_noise (i : knock_input) (n : net_input) (path : string) (c : ResolvedConnectConfig)
    : list client_effect * result NetError (TcpStream * TransportState * KeyId) :=
  let '(effects, r) := connect_open i n path c in
  (effects, '(stream, noise, key_id) ← r; '(stream, transport) ← noise_xk noise stream; Ok (stream, transport, key_id)).

(** * One-shot commands

    The server's key is read from its file; the configuration has no other
    fields than the arguments. *)

Definition one_shot {A} (i : knock_input) (n : net_input) (path : string) (server_key : read_outcome)
    (spa_endpoint proxy_endpoint : SocketAddr) (spa_mode : SpaTransport) (https_spa_url : option string)
    (use : TcpStream -> TransportState -> result NetError A) : list client_effect * result NetError A :=
  match read_noise_public_key server_key with
  | Err e => ([], Err (NeSetup e))
  | Ok key =>
      let '(effects, r) := connect_noise i n path
        {| rc_server_public_key := key; rc_spa_endpoint := spa_endpoint; rc_proxy_endpoint := proxy_endpoint;
           rc_spa_mode := spa_mode; rc_https_spa_url := https_spa_url |} in
      (effects, '(s, t, _) ← r; use s t)
  end.

(** An echo of a message; [connect_once] has its own copy of the connection
    code. *)
Definition connect_once (i : knock_input) (n : net_input) (path : string) (server_key : read_outcome)
    (spa_endpoint proxy_endpoint : SocketAddr) (message : string) (spa_mode : SpaTransport) (https_spa_url : option string) :=
  one_shot i n path server_key spa_endpoint proxy_endpoint spa_mode https_spa_url
    (fun s t => (round_trip s t (str_bytes message)).2).

(** The probe of an operation no server knows. *)
Definition ghost_relay_probe (s : TcpStream) (t : TransportState) : result NetError unit :=
  response ← (round_trip s t (map z2b [PROTOCOL_GHOST_RELAY; GHOST_RELAY_VERSION; 0xff])).2;
  match response with
  | a :: _ :: b :: _ =>
      if negb (b2z a =? PROTOCOL_GHOST_RELAY) || negb (b2z b =? GHOST_RELAY_STATUS_UNSUPPORTED) then Err (NeRelay response) else Ok tt
  | _ => Err (NeRelay response)
  end.

Definition connect_ghost_relay_once (i : knock_input) (n : net_input) (path : string) (server_key : read_outcome)
    (spa_endpoint proxy_endpoint : SocketAddr) (spa_mode : SpaTransport) (https_spa_url : option string) :=
  one_shot i n path server_key spa_endpoint proxy_endpoint spa_mode https_spa_url ghost_relay_probe.

Definition run_relay_request (i : knock_input) (n : net_input) (path : string) (server_key : read_outcome)
    (spa_endpoint proxy_endpoint : SocketAddr) (spa_mode : SpaTransport) (https_spa_url : option string) (request : bytes) :=
  one_shot i n path server_key spa_endpoint proxy_endpoint spa_mode https_spa_url
    (fun s t => (round_trip s t request).2).

(** * SOCKS5 *)

Definition GREETING : bytes := [x05; x01; x00].
Definition METHOD_NO_AUTH : bytes := [x05; x00].

Definition socks5_connect_request (target : string) : result NetError bytes :=
  match parse_socket_addr (str_bytes target) with
  | Some addr =>
      Ok ([x05; x01; x00] ++ [match sa_ip addr with V4 _ => x01 | V6 _ => x04 end]
          ++ NetAddr.octets (sa_ip addr) ++ be_bytes 2 (sa_port addr))
  | None =>
      '(domain, port) ← ok_or NeTarget (rsplit_once x3a (str_bytes target));
      if bool_decide (domain = []) then Err NeTarget
      else
        domain_len ← ok_or NeTarget (try_from 8 (blen domain));
        port ← ok_or NeTarget (from_str_radix 10 (umax 16) port);
        Ok ([x05; x01; x00; x03; z2b domain_len] ++ domain ++ be_bytes 2 port)
  end.

(** Whether a response grants the connection. *)
Definition socks5_granted (response : bytes) : bool :=
  match response with a :: b :: _ => bool_decide (a = x05) && bool_decide (b = x00) | _ => false end.

Definition socks5_reply_error (response : bytes) : ReplyError :=
  match response !! 1%nat with
  | Some b =>
      let z := b2z b in
      if z =? 2 then ConnectionNotAllowed else if z =? 3 then NetworkUnreachable
      else if z =? 4 then HostUnreachable else if z =? 5 then ConnectionRefused
      else if z =? 6 then TtlExpired else if z =? 7 then CommandNotSupported
      else if z =? 8 then AddressTypeNotSupported else GeneralFailure
  | None => GeneralFailure
  end.

(** The negotiation with the server on an open connection. *)
Definition socks5_negotiate (s : TcpStream) (t : TransportState) (request : bytes)
    : TcpStream * TransportState * (result (NetError * option ReplyError) unit) :=
  match round_trip s t GREETING with
  | (s, t, Err e) => (s, t, Err (e, None))
  | (s, t, Ok method) =>
      if negb (bool_decide (method = METHOD_NO_AUTH)) then (s, t, Err (NeMethod method, Some GeneralFailure))
      else
        match round_trip s t request with
        | (s, t, Err e) => (s, t, Err (e, None))
        | (s, t, Ok response) =>
            if negb (socks5_granted response) then (s, t, Err (NeRefused response, Some (socks5_reply_error response)))
            else (s, t, Ok tt)
        end
  end.

(** Negotiation, then an echo of a message. *)
Definition socks5_echo (target message : string) (s : TcpStream) (t : TransportState) : result NetError bytes :=
  match round_trip s t GREETING with
  | (_, _, Err e) => Err e
  | (s, t, Ok method) =>
      if negb (bool_decide (method = METHOD_NO_AUTH)) then Err (NeMethod method)
      else
        request ← socks5_connect_request target;
        match round_trip s t request with
        | (_, _, Err e) => Err e
        | (s, t, Ok response) =>
            if negb (socks5_granted response) then Err (NeRefused response)
            else (round_trip s t (str_bytes message)).2
        end
  end.

Definition connect_socks5_once (i : knock_input) (n : net_input) (path : string) (server_key : read_outcome)
    (spa_endpoint proxy_endpoint : SocketAddr) (target message : string) (spa_mode : SpaTransport) (https_spa_url : option string) :=
  one_shot i n path server_key spa_endpoint proxy_endpoint spa_mode https_spa_url (socks5_echo target message).

(** What the local peer is told, if anything. *)
Inductive local_reply := ReplySuccess | ReplyError_ (e : ReplyError).

(** [negotiate_local_socks5_tunnel]: [connect] is the connection with failover;
    the replies to the local peer, the active candidate and the open tunnel.  The
    local peer's replies are written or not ([reply_ok]). *)
Definition negotiate_local_socks5_tunnel {W} (connect : W -> W * result NetError (TcpStream * TransportState * nat))
    (local : option (Socks5Command * option bytes)) (reply_ok : bool) (w : W) (active : option nat)
    : W * option nat * list local_reply * result NetError (TcpStream * TransportState) :=
  match local with
  | None => (w, active, [], Err NeLocal)
  | Some (command, target) =>
      if negb (bool_decide (command = TCPConnect))
      then (w, active, [ReplyError_ CommandNotSupported], Err (if reply_ok then NeCommand else NeLocal))
      else
        match target with
        | None => (w, active, [], Err NeTarget)
        | Some address =>
            match connect w with
            | (w, Err e) => (w, active, [], Err e)
            | (w, Ok (s, t, index)) =>
                match socks5_negotiate s t ([x05; x01; x00] ++ address) with
                | (s, t, Err (e, None)) => (w, Some index, [], Err e)
                | (s, t, Err (e, Some reply)) => (w, Some index, [ReplyError_ reply], Err (if reply_ok then e else NeLocal))
                | (s, t, Ok _) =>
                    (w, Some index, [ReplySuccess], if reply_ok then Ok (s, t) else Err NeLocal)
                end
            end
        end
  end.

(** [connect_listener] up to its accept loop: the time between refreshes. *)
Definition connect_listener_start (candidates : list ResolvedConnectConfig) (bind_ok : bool) (allow_ttl_seconds : Z)
    : result NetError Z :=
  if bool_decide (candidates = []) then Err (NeClient CeNoServers)
  else if negb bind_ok then Err NeLocal
  else map_err NeClient (refresh_interval allow_ttl_seconds).

(** The knock of the refresh thread to a candidate. *)
Definition refresh_knock (i : knock_input) (n : net_input) (path : string) (c : ResolvedConnectConfig)
    : list client_effect * result NetError Z :=
  if negb (length (rc_server_public_key c) =? 32)%nat then ([], Err NeNoiseKey)
  else send_spa i n path (rc_server_public_key c) (rc_spa_endpoint c) (rc_spa_mode c) (rc_https_spa_url c).

End knocks.

(** * The relay threads *)

Section relay_threads.
Context `{N : Noise}.

Inductive thread := Running | Finished | Failed (e : NetError).

(** The two threads: the transport is shared under its lock, each socket half is
    used by one thread.  Of the local socket the reading half is [lr_local_in],
    of the proxy socket the writing half is in [lr_proxy_out]. *)
Record local_relay := {
  lr_transport : TransportState;
  lr_local_in : list rd_event;
  lr_proxy_out : TcpStream;
  lr_up : thread;
  lr_up_total : Z;
  lr_proxy_in : TcpStream;
  lr_local_out : TcpStream;
  lr_down : thread;
  lr_down_total : Z
}.

Definition UP_BUF_LEN : nat := 16 * 1024 - 16.

Definition set_up (st : local_relay) (t : TransportState) (l : list rd_event) (out : TcpStream) (up : thread) (total : Z) : local_relay :=
  {| lr_transport := t; lr_local_in := l; lr_proxy_out := out; lr_up := up; lr_up_total := total;
     lr_proxy_in := lr_proxy_in st; lr_local_out := lr_local_out st; lr_down := lr_down st; lr_down_total := lr_down_total st |}.

Definition set_down (st : local_relay) (t : TransportState) (i out : TcpStream) (down : thread) (total : Z) : local_relay :=
  {| lr_transport := t; lr_local_in := lr_local_in st; lr_proxy_out := lr_proxy_out st; lr_up := lr_up st; lr_up_total := lr_up_total st;
     lr_proxy_in := i; lr_local_out := out; lr_down := down; lr_down_total := total |}.

(** One turn of the loop of [client_to_proxy]. *)
Definition up_step (st : local_relay) : local_relay :=
  match lr_up st with
  | Running =>
      let t := lr_transport st in
      match tcp_read (lr_local_in st) UP_BUF_LEN with
      | (l, Err e) => set_up st t l (lr_proxy_out st) (Failed (NeIo e)) (lr_up_total st)
      | (l, Ok []) => set_up st t l (lr_proxy_out st) Finished (lr_up_total st)
      | (l, Ok data) =>
          match client_write_encrypted_frame (lr_proxy_out st) t data with
          | (out, t, Err e) => set_up st t l out (Failed e) (lr_up_total st)
          | (out, t, Ok _) => set_up st t l out Running (sat_add 64 (lr_up_total st) (blen data))
          end
      end
  | _ => st
  end.

(** One turn of the loop of [proxy_to_client]. *)
Definition down_step (st : local_relay) : local_relay :=
  match lr_down st with
  | Running =>
      match read_encrypted_frame_optional_locked (lr_proxy_in st) (lr_transport st) with
      | (i, t, Err e) => set_down st t i (lr_local_out st) (Failed e) (lr_down_total st)
      | (i, t, Ok None) | (i, t, Ok (Some [])) => set_down st t i (lr_local_out st) Finished (lr_down_total st)
      | (i, t, Ok (Some plaintext)) =>
          match stream_write_all (lr_local_out st) plaintext with
          | (out, Err e) => set_down st t i out (Failed e) (lr_down_total st)
          | (out, Ok _) => set_down st t i out Running (sat_add 64 (lr_down_total st) (blen plaintext))
          end
      end
  | _ => st
  end.

(** A schedule of the two threads: [true] is a turn of [client_to_proxy]. *)
Fixpoint relay_run (schedule : list bool) (st : local_relay) : local_relay :=
  match schedule with
  | [] => st
  | up :: rest => relay_run rest (if up then up_step st else down_step st)
  end.

(** [relay_local_socks5] at its start. *)
Definition relay_start (t : TransportState) (local proxy : TcpStream) : local_relay := {|
  lr_transport := t;
  lr_local_in := rd_script local;
  lr_proxy_out := proxy;
  lr_up := Running;
  lr_up_total := 0;
  lr_proxy_in := proxy;
  lr_local_out := local;
  lr_down := Running;
  lr_down_total := 0 |}.

(** What joining the threads gives, the first one first: when it failed the other
    one is left running. *)
Definition relay_join (st : local_relay) : option (result NetError (Z * Z)) :=
  match lr_up st with
  | Running => None
  | Failed e => Some (Err e)
  | Finished =>
      match lr_down st with
      | Running => None
      | Failed e => Some (Err e)
      | Finished => Some (Ok (lr_up_total st, lr_down_total st))
      end
  end.

(** [handle_local_socks5] on an accepted connection: the negotiation and then the
    two threads, in some interleaving; the local socket is the one negotiated on. *)
Definition handle_local_socks5 {W} (connect : W -> W * result NetError (TcpStream * TransportState * nat))
    (command : option (Socks5Command * option bytes)) (reply_ok : bool) (schedule : list bool) (local : TcpStream)
    (w : W) (active : option nat) : W * option nat * list local_reply * option (result NetError (Z * Z)) :=
  match negotiate_local_socks5_tunnel connect command reply_ok w active with
  | (w, active, replies, Err e) => (w, active, replies, Some (Err e))
  | (w, active, replies, Ok (proxy, transport)) =>
      (w, active, replies, relay_join (relay_run schedule (relay_start transport local proxy)))
  end.

End relay_threads.
