(* ===== verification/ClientTunnelFacts.v ===== *)
(** The client's tunnel carries bytes unchanged in both directions, whatever the
    interleaving of its two threads; its SOCKS5 requests say what was asked. *)

From S2P Require Import Prelude Text NetAddr NetAddrFacts Protocol Crypto Keys Seal SpaPacket Fs AuthKeys Verifier Runtime Tunnel TunnelFacts.
From S2P Require Import RelayWire Client ClientSetup ClientTunnel.

(** The two directions of a session are independent: writing does not disturb
    what the other end has written, nor reading what this end writes. *)
Class NoiseDuplex (N : Noise) (L : NoiseLaws N) : Prop := {
  write_keeps_inbound : forall a b m n a' c, paired b a -> write_message a m n = Some (a', c) -> paired b a';
  read_keeps_outbound : forall a b c k a' m, paired a b -> read_message a c k = Some (a', m) -> paired a' b
}.

(** * Blocking reads and writes *)

(** A peer that sends without errors. *)
Definition clean (l : list rd_event) : Prop :=
  Forall (fun e => match e with RdData b => b <> [] | RdError => False | RdPending => True end) l.

Lemma read_exact_clean l n :
  clean l -> (n <= length (script_bytes l))%nat ->
  exists l', read_exact l n = (l', Ok (take n (script_bytes l))) /\ clean l' /\ script_bytes l' = drop n (script_bytes l).
Proof.
  intros Hc. revert n. induction Hc as [|e l He Hl IH]; intros [|n] Hn; try (eexists; split; [done|]; split; [by constructor|done]).
  - cbn in Hn. lia.
  - rewrite script_bytes_cons in *. destruct e as [| |b]; [cbn [read_exact app]; by apply IH|done|]. cbn [read_exact].
    destruct (Nat.eqb_spec (length b) 0) as [Hb|Hb]; [by apply nil_length_inv in Hb|].
    destruct (Nat.leb_spec (length b) (S n)) as [Hle|Hlt].
    + rewrite length_app in Hn. destruct (IH (S n - length b)%nat ltac:(lia)) as (l' & -> & Hcl & Hb'). exists l'. cbn [mbind result_bind].
      rewrite take_app, drop_app. rewrite (take_ge b), (drop_ge b) by lia. done.
    + eexists. split; [|split].
      * by rewrite take_app_le by lia.
      * constructor; [|done]. intros E. apply (f_equal length) in E. rewrite length_drop in E. cbn in E. lia.
      * rewrite script_bytes_cons. by rewrite drop_app_le by lia.
Qed.

Lemma read_exact_short l n :
  clean l -> (length (script_bytes l) < n)%nat -> exists l', read_exact l n = (l', Err UnexpectedEof).
Proof.
  intros Hc. revert n. induction Hc as [|e l He Hl IH]; intros [|n] Hn; try lia; [by eexists|].
  rewrite script_bytes_cons in Hn. destruct e as [| |b]; [cbn [read_exact]; by apply IH|done|]. cbn [read_exact].
  rewrite length_app in Hn. destruct (Nat.eqb_spec (length b) 0); [by eexists|]. destruct (Nat.leb_spec (length b) (S n)); [|lia].
  destruct (IH (S n - length b)%nat ltac:(lia)) as (l' & ->). by eexists.
Qed.

Lemma write_all_spec l data l' out r :
  write_all l data = (l', out, r) -> out `prefix_of` data /\ (r = Ok tt -> out = data).
Proof.
  revert data l' out r. induction l as [|e l IH]; intros data l' out r; cbn [write_all]; case_bool_decide as Hd.
  - intros [= <- <- <-]. subst. done.
  - by intros [= <- <- <-].
  - intros [= <- <- <-]. subst. done.
  - destruct e as [| |n].
    + apply IH.
    + intros [= <- <- <-]. split; [apply prefix_nil|done].
    + destruct (n =? 0)%nat; [intros [= <- <- <-]; split; [apply prefix_nil|done]|].
      destruct (write_all l (drop n data)) as [[l2 out2] r2] eqn:E. intros [= <- <- <-]. apply IH in E as [Hp Ho].
      split.
      * rewrite <-(take_drop n data) at 2. by apply prefix_app.
      * intros ->. by rewrite Ho, take_drop.
Qed.

Lemma stream_write_all_spec s data s' r :
  stream_write_all s data = (s', r) ->
  exists out, sent s' = sent s ++ out /\ rd_script s' = rd_script s /\ out `prefix_of` data /\ (r = Ok tt -> out = data).
Proof.
  unfold stream_write_all. destruct (write_all _ _) as [[l out] r0] eqn:E. intros [= <- <-]. apply write_all_spec in E as [Hp Ho].
  exists out. split_and!; try done. destruct r0 as [[]|]; [|done]. intros _. by apply Ho.
Qed.

(** * Frames *)

Lemma client_read_frame_clean s f rest :
  clean (rd_script s) -> read_frame (script_bytes (rd_script s)) = Ok (f, rest) ->
  exists l, client_read_frame_optional s = (with_rd s l, Ok (Some f)) /\ clean l /\ script_bytes l = rest.
Proof.
  intros Hc H. unfold read_frame, read_frame_optional in H.
  destruct (Nat.ltb_spec (length (script_bytes (rd_script s))) 2) as [|H2]; [done|].
  destruct (_ <? from_be _); [done|]. destruct (blen _ <? from_be _) eqn:Eb; [done|]. cbn in H. injection H as <- <-.
  unfold client_read_frame_optional, stream_read_exact.
  destruct (read_exact_clean (rd_script s) 2 Hc H2) as (l & -> & Hcl & Hs). cbn [rd_script with_rd].
  destruct (read_exact_clean l (Z.to_nat (from_be (take 2 (script_bytes (rd_script s))))) Hcl) as (l2 & E2 & Hcl2 & Hs2).
  { rewrite Hs. apply Z.ltb_ge in Eb. unfold blen in Eb. lia. }
  rewrite E2. exists l2. split; [by rewrite Hs|]. split; [done|]. by rewrite Hs2, Hs.
Qed.

Lemma client_read_frame_end s :
  script_bytes (rd_script s) = [] -> clean (rd_script s) -> exists s', client_read_frame_optional s = (s', Ok None).
Proof.
  intros Hs Hc. unfold client_read_frame_optional, stream_read_exact.
  destruct (read_exact_short (rd_script s) 2 Hc) as (l & ->); [rewrite Hs; cbn; lia|]. by eexists.
Qed.

Lemma client_write_frame_Ok s f s' :
  client_write_frame s f = (s', Ok tt) -> exists w, write_frame f = Ok w /\ sent s' = sent s ++ w.
Proof.
  unfold client_write_frame, write_frame. destruct (try_from 16 (blen f)) as [len|]; [|done]. cbn [ok_or mbind result_bind].
  destruct (stream_write_all s _) as [s1 [[]|e]] eqn:E1; [|done]. intros E2.
  apply stream_write_all_spec in E1 as (o1 & H1 & _ & _ & Ho1). apply stream_write_all_spec in E2 as (o2 & H2 & _ & _ & Ho2).
  eexists. split; [done|]. rewrite H2, H1, Ho1, Ho2 by done. by rewrite app_assoc.
Qed.

Lemma client_write_frame_sent s f s' r : client_write_frame s f = (s', r) -> sent s `prefix_of` sent s'.
Proof.
  unfold client_write_frame. destruct (try_from 16 (blen f)) as [len|]; [|by intros [= <- _]].
  destruct (stream_write_all s _) as [s1 [[]|e]] eqn:E1; apply stream_write_all_spec in E1 as (o1 & H1 & _).
  - intros E2. apply stream_write_all_spec in E2 as (o2 & H2 & _). rewrite H2, H1, <-app_assoc. by eexists.
  - intros [= <- _]. rewrite H1. by eexists.
Qed.

Section encrypted_facts.
Context `{N : Noise} {NL : NoiseLaws N} {ND : NoiseDuplex N NL}.

(** A frame of the server's format is what the client's writer sends. *)
Lemma client_write_encrypted_Ok s t m s' t' :
  client_write_encrypted_frame s t m = (s', t', Ok tt) ->
  exists w, write_encrypted_frame t m = Ok (t', w) /\ sent s' = sent s ++ w.
Proof.
  unfold client_write_encrypted_frame, write_encrypted_frame. change BUF_LEN with MAX_FRAME_LEN.
  destruct (write_message t m MAX_FRAME_LEN) as [[t1 c]|]; [|done]. cbn [ok_or mbind result_bind].
  destruct (client_write_frame s c) as [s1 r] eqn:E. intros [= <- <- ->]. apply client_write_frame_Ok in E as (w & -> & Hs).
  by exists w.
Qed.

Lemma client_write_encrypted_sent s t m s' t' r :
  client_write_encrypted_frame s t m = (s', t', r) -> sent s `prefix_of` sent s'.
Proof.
  unfold client_write_encrypted_frame. destruct (write_message t m BUF_LEN) as [[t1 c]|]; [|by intros [= <- _ _]].
  destruct (client_write_frame s c) as [s1 r1] eqn:E. intros [= <- _ _]. by eapply client_write_frame_sent.
Qed.

(** Writing keeps the other direction paired. *)
Lemma write_encrypted_keeps a b m a' w : paired b a -> write_encrypted_frame a m = Ok (a', w) -> paired b a'.
Proof.
  intros Hp H. unfold write_encrypted_frame in H. apply bind_Ok_inv in H as ([a1 c] & Hw & H). apply ok_or_Ok in Hw.
  apply bind_Ok_inv in H as (wire & _ & H). injection H as <- _. by eapply write_keeps_inbound.
Qed.

Lemma client_write_encrypted_keeps s t m s' t' r b :
  paired b t -> client_write_encrypted_frame s t m = (s', t', r) -> paired b t'.
Proof.
  intros Hp. unfold client_write_encrypted_frame. destruct (write_message t m BUF_LEN) as [[t1 c]|] eqn:E; [|by intros [= _ <- _]].
  destruct (client_write_frame s c) as [s1 r1]. intros [= _ <- _]. by eapply write_keeps_inbound.
Qed.

(** The reader's state after a frame does not depend on what follows. *)
Lemma encrypted_frame_arrives a b m a' w :
  paired a b -> write_encrypted_frame a m = Ok (a', w) ->
  exists b', paired a' b' /\ forall rest, read_encrypted_frame b (w ++ rest) = Ok (b', m, rest).
Proof.
  intros Hp H. destruct (encrypted_frame_roundtrip a b m a' w [] Hp H) as (b' & Hb & Hp').
  exists b'. split; [done|]. intros rest. destruct (encrypted_frame_roundtrip a b m a' w rest Hp H) as (b2 & Hb2 & _).
  rewrite Hb2. do 2 f_equal. f_equal. unfold read_encrypted_frame in Hb, Hb2.
  apply bind_Ok_inv in Hb as ([f r] & Hf & Hb). apply bind_Ok_inv in Hb2 as ([f2 r2] & Hf2 & Hb2).
  assert (f = f2) as <-.
  { unfold write_encrypted_frame in H. apply bind_Ok_inv in H as ([a1 c] & Hw & H). apply ok_or_Ok in Hw.
    apply bind_Ok_inv in H as (wire & Hwf & H). injection H as <- <-.
    assert (Hfit : (length c <= MAX_FRAME_LEN)%nat).
    { rewrite (write_message_length _ _ _ _ _ Hw). destruct (decide (length m + 16 <= MAX_FRAME_LEN)%nat); [done|].
      by rewrite write_message_fits in Hw by lia. }
    rewrite (read_frame_write c wire []) in Hf by done. rewrite (read_frame_write c wire rest) in Hf2 by done. congruence. }
  destruct (ok_or _ _) as [[t p]|]; [|done]. cbn in Hb, Hb2. congruence.
Qed.

Lemma receive_n_snoc n t input t1 ms m t2 rest1 rest :
  receive_n n t input = Ok (t1, ms, rest1) -> read_encrypted_frame t1 rest1 = Ok (t2, m, rest) ->
  receive_n (S n) t input = Ok (t2, ms ++ [m], rest).
Proof.
  revert t input ms. induction n as [|n IH]; intros t input ms H H2; cbn [receive_n] in H.
  - injection H as <- <- ->. cbn [receive_n]. by rewrite H2.
  - destruct (read_encrypted_frame t input) as [[[ta ma] ra]|] eqn:Er; [|done]. cbn [mbind result_bind] in H.
    destruct (receive_n n ta ra) as [[[tb mb] rb]|] eqn:En; [|done]. cbn [mbind result_bind] in H. injection H as -> <- ->.
    cut (receive_n (S n) ta ra = Ok (t2, mb ++ [m], rest)); [|by apply IH]. intros Hc.
    remember (S n) as k. cbn [receive_n]. rewrite Er. cbn [mbind result_bind]. by rewrite Hc.
Qed.

Lemma decode_received n t w t1 ms :
  (forall rest, receive_n n t (w ++ rest) = Ok (t1, ms, rest)) -> decode t w = concat ms.
Proof.
  intros H. specialize (H []). rewrite app_nil_r in H. revert t w ms H. induction n as [|n IH]; intros t w ms H; cbn [receive_n] in H.
  - injection H as <- <- ->. done.
  - destruct (read_encrypted_frame t w) as [[[ta m] r]|] eqn:E; [|done]. cbn [mbind result_bind] in H.
    destruct (receive_n n ta r) as [[[tb mb] rb]|] eqn:E2; [|done]. cbn [mbind result_bind] in H. injection H as <- <- ->.
    rewrite decode_eq, E. cbn [concat]. by rewrite (IH _ _ _ E2).
Qed.

End encrypted_facts.

(** * Turns *)

Lemma tcp_read_clean l cap l' r :
  clean l -> (0 < cap)%nat -> tcp_read l cap = (l', r) ->
  exists data, r = Ok data /\ clean l' /\ script_bytes l = data ++ script_bytes l' /\ (length data <= cap)%nat /\
    (data = [] -> script_bytes l = []).
Proof.
  intros Hc Hcap. revert l'. induction Hc as [|e l He Hl IH]; intros l'; cbn [tcp_read].
  - intros [= <- <-]. exists []. cbn. split_and!; [done|constructor|done|lia|done].
  - rewrite script_bytes_cons. destruct e as [| |b]; [apply IH|done|].
    destruct (Nat.leb_spec (length b) cap); intros [= <- <-].
    + exists b. split_and!; [done..|]. intros ->. done.
    + exists (take cap b). split_and!.
      * done.
      * constructor; [|done]. intros E. apply (f_equal length) in E. rewrite length_drop in E. cbn in E. lia.
      * by rewrite script_bytes_cons, app_assoc, take_drop.
      * rewrite length_take. lia.
      * intros E. apply (f_equal length) in E. rewrite length_take in E. cbn in E. lia.
Qed.

(** Reading consumes what it gives. *)
Lemma tcp_read_Ok l cap l' data :
  tcp_read l cap = (l', Ok data) -> script_bytes l = data ++ script_bytes l'.
Proof.
  induction l as [|e l IH]; cbn [tcp_read]; [by intros [= <- <-]|]. rewrite script_bytes_cons. destruct e as [| |b]; [done..|].
  destruct (Nat.leb_spec (length b) cap); intros [= <- <-]; [done|]. by rewrite script_bytes_cons, app_assoc, take_drop.
Qed.

Lemma read_exact_Ok l n l' data :
  read_exact l n = (l', Ok data) -> script_bytes l = data ++ script_bytes l' /\ length data = n.
Proof.
  revert n data. induction l as [|e l IH]; intros [|n] data; cbn [read_exact]; try (by intros [= <- <-]).
  rewrite script_bytes_cons. destruct e as [| |b]; [apply IH|done|].
  destruct (Nat.eqb_spec (length b) 0); [done|]. destruct (Nat.leb_spec (length b) (S n)).
  - destruct (read_exact l (S n - length b)) as [l2 [r|]] eqn:E; [|done]. cbn [mbind result_bind]. intros [= <- <-].
    apply IH in E as [-> Hr]. rewrite app_assoc, length_app. split; [done|lia].
  - intros [= <- <-]. rewrite script_bytes_cons, length_take. split; [by rewrite app_assoc, take_drop|lia].
Qed.

Lemma client_read_frame_shorter s s' f :
  client_read_frame_optional s = (s', Ok (Some f)) ->
  (length (script_bytes (rd_script s')) + 2 <= length (script_bytes (rd_script s)))%nat.
Proof.
  unfold client_read_frame_optional, stream_read_exact. destruct (read_exact (rd_script s) 2) as [l [len|[]]] eqn:E1; try done.
  apply read_exact_Ok in E1 as [H1 Hl]. cbn [rd_script with_rd].
  destruct (read_exact l _) as [l2 [b|]] eqn:E2; [|done]. apply read_exact_Ok in E2 as [H2 _]. intros [= <- _].
  cbn [rd_script with_rd]. rewrite H1, H2, !length_app, Hl. lia.
Qed.

Section relay_facts.
Context `{N : Noise} {NL : NoiseLaws N} {ND : NoiseDuplex N NL}.

Definition turns (up : bool) (schedule : list bool) : nat := length (List.filter (Bool.eqb up) schedule).

Definition up_left (st : local_relay) : nat :=
  match lr_up st with Running => S (length (script_bytes (lr_local_in st))) | _ => O end.
Definition down_left (st : local_relay) : nat :=
  match lr_down st with Running => S (length (script_bytes (rd_script (lr_proxy_in st)))) | _ => O end.

Lemma up_step_left st : (up_left (up_step st) <= up_left st - 1)%nat /\ down_left (up_step st) = down_left st.
Proof.
  unfold up_step, up_left. destruct (lr_up st) eqn:Eu; [|rewrite ?Eu; split; [lia|done]..].
  destruct (tcp_read _ _) as [l [[|x data]|e]] eqn:Er; [split; [cbn; lia|done]| |split; [cbn; lia|done]].
  apply tcp_read_Ok in Er. destruct (client_write_encrypted_frame _ _ _) as [[out t] [[]|e]]; (split; [|done]);
    cbn [lr_up set_up lr_local_in]; [|lia].
  rewrite Er, length_app. cbn [length]. lia.
Qed.

Lemma down_step_left st : (down_left (down_step st) <= down_left st - 1)%nat /\ up_left (down_step st) = up_left st.
Proof.
  unfold down_step, down_left. destruct (lr_down st) eqn:Ed; [|rewrite ?Ed; split; [lia|done]..].
  unfold read_encrypted_frame_optional_locked.
  destruct (client_read_frame_optional _) as [s [[f|]|e]] eqn:Er; [|split; [cbn; lia|done]..].
  destruct (read_message _ _ _) as [[t [|x p]]|]; [split; [cbn; lia|done]| |split; [cbn; lia|done]].
  apply client_read_frame_shorter in Er.
  destruct (stream_write_all _ _) as [out [[]|e]]; (split; [|done]); cbn [lr_down set_down lr_proxy_in]; lia.
Qed.

(** Every thread comes to its end within as many turns as it has bytes to read. *)
Lemma relay_run_left schedule st :
  (up_left (relay_run schedule st) <= up_left st - turns true schedule)%nat /\
  (down_left (relay_run schedule st) <= down_left st - turns false schedule)%nat.
Proof.
  revert st. induction schedule as [|b schedule IH]; intros st; cbn [relay_run turns List.filter length]; [lia|].
  destruct b; cbn [Bool.eqb]; cbn [length].
  - destruct (IH (up_step st)) as [H1 H2], (up_step_left st). unfold turns in *. lia.
  - destruct (IH (down_step st)) as [H1 H2], (down_step_left st). unfold turns in *. lia.
Qed.

(** * The invariant *)

Context (u : TransportState) (local proxy : TcpStream) (replies : list bytes).

(** What the server can read of the upload so far, and what is left. *)
Definition up_inv (st : local_relay) : Prop :=
  match lr_up st with
  | Failed _ => True
  | up =>
      clean (lr_local_in st) /\ (up = Finished -> script_bytes (lr_local_in st) = []) /\
      exists ms w ub,
        sent (lr_proxy_out st) = sent proxy ++ w /\ paired (lr_transport st) ub /\
        (forall rest, receive_n (length ms) u (w ++ rest) = Ok (ub, ms, rest)) /\
        script_bytes (rd_script local) = concat ms ++ script_bytes (lr_local_in st)
  end.

(** What has been written locally of the replies, and what is still to come. *)
Definition down_inv (st : local_relay) : Prop :=
  match lr_down st with
  | Failed _ => sent (lr_local_out st) `prefix_of` sent local ++ concat replies
  | Finished => sent (lr_local_out st) = sent local ++ concat replies
  | Running =>
      clean (rd_script (lr_proxy_in st)) /\
      exists got todo us uend,
        replies = got ++ todo /\ sent (lr_local_out st) = sent local ++ concat got /\ paired us (lr_transport st) /\
        send_all us todo = Ok (uend, script_bytes (rd_script (lr_proxy_in st)))
  end.

Lemma up_step_up st : up_inv st -> up_inv (up_step st).
Proof.
  unfold up_inv at 1, up_step. destruct (lr_up st) eqn:Eu; [|unfold up_inv; by rewrite Eu..].
  intros (Hc & _ & ms & w & ub & Hs & Hp & Hr & Hb).
  destruct (tcp_read _ _) as [l r] eqn:Er. destruct (tcp_read_clean _ UP_BUF_LEN _ _ Hc ltac:(unfold UP_BUF_LEN; lia) Er) as (data & -> & Hcl & Hd & Hlen & Hnil).
  destruct data as [|x data].
  - unfold up_inv. cbn. split; [done|]. split; [intros _; by rewrite (Hnil eq_refl) in Hd|].
    exists ms, w, ub. split_and!; [done..|]. by rewrite Hb, Hd.
  - destruct (client_write_encrypted_frame _ _ _) as [[out t] [[]|e]] eqn:Ew; [|done]. unfold up_inv. cbn [lr_up set_up lr_local_in lr_proxy_out lr_transport].
    split; [done|]. split; [done|]. apply client_write_encrypted_Ok in Ew as (w1 & Hw1 & Hs1).
    destruct (encrypted_frame_arrives _ _ _ _ _ Hp Hw1) as (ub' & Hp' & Hr').
    exists (ms ++ [x :: data]), (w ++ w1), ub'. split_and!; [by rewrite Hs1, Hs, app_assoc|done| |].
    + intros rest. rewrite length_app. cbn [length]. rewrite Nat.add_1_r. rewrite <-app_assoc. eapply receive_n_snoc; [apply Hr|apply Hr'].
    + rewrite concat_app. cbn [concat]. by rewrite app_nil_r, Hb, Hd, <-app_assoc.
Qed.

Lemma up_step_down st : down_inv st -> down_inv (up_step st).
Proof.
  intros H. unfold up_step. destruct (lr_up st); [|done..].
  destruct (tcp_read _ _) as [l [[|x data]|e]]; [exact H| |exact H].
  assert (Hk : forall out t r, client_write_encrypted_frame (lr_proxy_out st) (lr_transport st) (x :: data) = (out, t, r) ->
    forall b, paired b (lr_transport st) -> paired b t) by (intros; by eapply client_write_encrypted_keeps).
  destruct (client_write_encrypted_frame _ _ _) as [[out t] [[]|e]] eqn:Ew; specialize (Hk _ _ _ eq_refl);
    unfold down_inv in *; cbn [lr_down set_up lr_local_out lr_proxy_in lr_transport];
    (destruct (lr_down st); [|done..]); destruct H as (Hc & got & todo & us & uend & Hg & Hs & Hp & Ha);
    (split; [done|]); exists got, todo, us, uend; split_and!; auto.
Qed.

Lemma down_step_up st : up_inv st -> up_inv (down_step st).
Proof.
  intros H. unfold down_step. destruct (lr_down st); [|done..].
  assert (Hk : forall i t r, read_encrypted_frame_optional_locked (lr_proxy_in st) (lr_transport st) = (i, t, r) ->
    forall b, paired (lr_transport st) b -> paired t b).
  { unfold read_encrypted_frame_optional_locked. intros i t r Hr b Hp.
    destruct (client_read_frame_optional _) as [s [[f|]|e]]; [|by injection Hr as _ <- _..].
    destruct (read_message _ _ _) as [[t' p]|] eqn:E; injection Hr as _ <- _; [|done]. by eapply read_keeps_outbound. }
  destruct (read_encrypted_frame_optional_locked _ _) as [[i t] r]. specialize (Hk _ _ _ eq_refl).
  assert (Hany : forall out down total, up_inv (set_down st t i out down total)).
  { intros. unfold up_inv in *. cbn [lr_up set_down lr_local_in lr_proxy_out lr_transport].
    destruct (lr_up st); [..|done]; destruct H as (Hc & Hf & ms & w & ub & Hs & Hp & Hr & Hb);
      (split; [done|]); (split; [done|]); exists ms, w, ub; split_and!; auto. }
  destruct r as [[[|x p]|]|e]; [apply Hany| |apply Hany..]. destruct (stream_write_all _ _) as [out [[]|e]]; apply Hany.
Qed.

Hypothesis Hreplies : Forall (fun m => m <> []) replies.

Lemma down_step_down st : down_inv st -> down_inv (down_step st).
Proof.
  unfold down_inv at 1, down_step. destruct (lr_down st) eqn:Ed; [|unfold down_inv; by rewrite Ed..].
  intros (Hc & got & todo & us & uend & Hg & Hs & Hp & Ha). unfold read_encrypted_frame_optional_locked.
  destruct todo as [|m todo]; cbn [send_all] in Ha.
  - injection Ha as _ Hw. destruct (client_read_frame_end (lr_proxy_in st)) as (s' & ->); [by rewrite <-Hw|done|].
    unfold down_inv. cbn. rewrite Hs, Hg. by rewrite app_nil_r.
  - apply bind_Ok_inv in Ha as ([us1 w1] & Hw1 & Ha). apply bind_Ok_inv in Ha as ([us2 w2] & Hw2 & Ha). injection Ha as <- Hw.
    destruct (encrypted_frame_arrives _ _ _ _ _ Hp Hw1) as (t' & Hp' & Hr'). specialize (Hr' w2). rewrite Hw in Hr'.
    unfold read_encrypted_frame in Hr'. apply bind_Ok_inv in Hr' as ([f rest] & Hf & Hr').
    apply bind_Ok_inv in Hr' as ([t1 p] & Hm & Hr'). injection Hr' as <- <- <-. apply ok_or_Ok in Hm.
    destruct (client_read_frame_clean _ _ _ Hc Hf) as (l & -> & Hcl & Hrest). change BUF_LEN with MAX_FRAME_LEN. rewrite Hm.
    assert (Hne : p <> []) by (rewrite Hg in Hreplies; apply Forall_app in Hreplies as [_ Hx]; by apply Forall_cons in Hx as [? _]).
    destruct p as [|x p]; [done|]. set (plain := x :: p) in *.
    destruct (stream_write_all (lr_local_out st) plain) as [out [[]|e]] eqn:Ew; apply stream_write_all_spec in Ew as (o & Ho & _ & Hpre & Hok);
      unfold down_inv; cbn [lr_down set_down lr_proxy_in lr_local_out lr_transport rd_script with_rd].
    + split; [done|]. exists (got ++ [plain]), todo, us1, us2. rewrite Hrest, Hw2. split_and!; [by rewrite Hg, <-app_assoc| |done..].
      rewrite Ho, Hs, Hok, concat_app by done. cbn [concat]. by rewrite app_nil_r, app_assoc.
    + rewrite Ho, Hs, Hg, concat_app, <-app_assoc. cbn [concat]. apply prefix_app, prefix_app. by apply prefix_app_r.
Qed.

Lemma relay_run_inv schedule st : up_inv st -> down_inv st -> up_inv (relay_run schedule st) /\ down_inv (relay_run schedule st).
Proof.
  revert st. induction schedule as [|[] schedule IH]; intros st Hu Hd; cbn [relay_run]; [done|apply IH..];
    auto using up_step_up, up_step_down, down_step_up, down_step_down.
Qed.

End relay_facts.

(** * The tunnel *)

Section tunnel.
Context `{N : Noise} {NL : NoiseLaws N} {ND : NoiseDuplex N NL}.

(** C19: an open tunnel is transparent, whatever the interleaving of its two
    threads.  Of what the local program sends, the server can at any time read
    exactly what has been taken from the local socket, in order, and all of it
    once the upload has ended; of the server's messages the local program gets a
    prefix, and all of them once the download has ended; and each thread ends
    within as many turns as it has bytes to read, and one more. *)
Theorem tunnel_transparent t u local proxy replies u' schedule :
  paired t u -> paired u t -> clean (rd_script local) -> clean (rd_script proxy) ->
  Forall (fun m => m <> []) replies -> send_all u replies = Ok (u', script_bytes (rd_script proxy)) ->
  let st := relay_run schedule (relay_start t local proxy) in
  match lr_up st with
  | Failed _ => True
  | up => exists w, sent (lr_proxy_out st) = sent proxy ++ w /\
            script_bytes (rd_script local) = decode u w ++ script_bytes (lr_local_in st) /\
            (up = Finished -> decode u w = script_bytes (rd_script local))
  end /\
  sent (lr_local_out st) `prefix_of` sent local ++ concat replies /\
  (lr_down st = Finished -> sent (lr_local_out st) = sent local ++ concat replies) /\
  ((length (script_bytes (rd_script local)) < turns true schedule)%nat -> lr_up st <> Running) /\
  ((length (script_bytes (rd_script proxy)) < turns false schedule)%nat -> lr_down st <> Running).
Proof.
  intros Hp Hp' Hcl Hcp Hne Hs st.
  destruct (relay_run_inv u local proxy replies Hne schedule (relay_start t local proxy)) as [Hu Hd].
  { split; [done|]. split; [done|]. exists [], [], u. split_and!; [by rewrite app_nil_r|done..]. }
  { split; [done|]. exists [], replies, u, u'. split_and!; [done|by rewrite app_nil_r|done..]. }
  destruct (relay_run_left schedule (relay_start t local proxy)) as [Hlu Hld]. fold st in Hu, Hd, Hlu, Hld. split_and!.
  - unfold up_inv in Hu. destruct (lr_up st); [..|done]; destruct Hu as (_ & Hf & ms & w & ub & Hw & _ & Hr & Hb); exists w;
      rewrite (decode_received _ _ _ _ _ Hr); split_and!; try done. intros _. by rewrite Hb, (Hf eq_refl), app_nil_r.
  - unfold down_inv in Hd. destruct (lr_down st); [|by rewrite Hd|done]. destruct Hd as (_ & got & todo & us & uend & -> & -> & _).
    rewrite concat_app. apply prefix_app. by apply prefix_app_r.
  - intros E. unfold down_inv in Hd. by rewrite E in Hd.
  - intros Ht E. unfold up_left in Hlu. rewrite E in Hlu. cbn [relay_start lr_up lr_local_in] in Hlu. lia.
  - intros Ht E. unfold down_left in Hld. rewrite E in Hld. cbn [relay_start lr_down lr_proxy_in] in Hld. lia.
Qed.

End tunnel.

(** * A request and its response *)

Section round_trips.
Context `{N : Noise} {NL : NoiseLaws N} {ND : NoiseDuplex N NL}.

(** A request of the client that gets an answer is the message the server
    receives, and the answer is the message with which the server responds to it. *)
Lemma round_trip_exact s t u request s' t' answer response u2 wire :
  paired t u -> paired u t -> clean (rd_script s) ->
  round_trip s t request = (s', t', Ok answer) ->
  exists w u1, sent s' = sent s ++ w /\ (forall rest, read_encrypted_frame u (w ++ rest) = Ok (u1, request, rest)) /\
    (write_encrypted_frame u1 response = Ok (u2, wire) -> wire `prefix_of` script_bytes (rd_script s) -> answer = response).
Proof.
  intros Hp Hp' Hc H. unfold round_trip in H.
  destruct (client_write_encrypted_frame s t request) as [[s1 t1] [[]|e]] eqn:Ew; [|done].
  pose proof (client_write_encrypted_keeps _ _ _ _ _ _ u Hp' Ew) as Hpk.
  assert (Hrd : rd_script s1 = rd_script s).
  { unfold client_write_encrypted_frame in Ew. destruct (write_message _ _ _) as [[t2 c]|]; [|done].
    destruct (client_write_frame s c) as [s2 r2] eqn:Ef. injection Ew as <- _ ->. unfold client_write_frame in Ef.
    destruct (try_from 16 (blen c)); [|done]. destruct (stream_write_all s _) as [s3 [[]|]] eqn:E3; [|done].
    apply stream_write_all_spec in E3 as (_ & _ & H3 & _). apply stream_write_all_spec in Ef as (_ & _ & H4 & _). by rewrite H4. }
  apply client_write_encrypted_Ok in Ew as (w & Hw & Hs).
  destruct (encrypted_frame_arrives _ _ _ _ _ Hp Hw) as (u1 & Hpu & Hr).
  unfold client_read_encrypted_frame in H. destruct (client_read_frame s1) as [s2 [enc|e]] eqn:Er; [|done].
  destruct (read_message t1 enc BUF_LEN) as [[t2 plain]|] eqn:Em; [|done]. injection H as <- <- <-.
  assert (Hsent : sent s2 = sent s1).
  { unfold client_read_frame in Er. destruct (client_read_frame_optional s1) as [s3 r3] eqn:Eo. injection Er as -> _.
    unfold client_read_frame_optional, stream_read_exact in Eo.
    destruct (read_exact (rd_script s1) 2) as [l [len|[]]]; try (by injection Eo as <- _).
    destruct (read_exact _ _) as [l2 r2]. by injection Eo as <- _. }
  exists w, u1. split; [by rewrite Hsent|]. split; [exact Hr|]. intros Hresp [more Hmore].
  assert (Hpu1 : paired u1 t1).
  { specialize (Hr []). unfold read_encrypted_frame in Hr. apply bind_Ok_inv in Hr as ([f r] & _ & Hr).
    apply bind_Ok_inv in Hr as ([t3 p] & Hm & Hr). injection Hr as -> _ _. apply ok_or_Ok in Hm. by eapply read_keeps_outbound. }
  destruct (encrypted_frame_arrives _ _ _ _ _ Hpu1 Hresp) as (t3 & _ & Ha). specialize (Ha more). rewrite <-Hmore in Ha.
  unfold read_encrypted_frame in Ha. apply bind_Ok_inv in Ha as ([f rest] & Hf & Ha). apply bind_Ok_inv in Ha as ([t4 p] & Hm & Ha).
  injection Ha as _ -> _. apply ok_or_Ok in Hm. rewrite <-Hrd in Hf, Hc.
  destruct (client_read_frame_clean s1 _ _ Hc Hf) as (s4 & E4 & _). unfold client_read_frame in Er. rewrite E4 in Er.
  cbn [mbind result_bind ok_or] in Er. injection Er as _ <-. change BUF_LEN with MAX_FRAME_LEN in Em. congruence.
Qed.

End round_trips.

(** * SOCKS5 requests *)

(** The addresses of RFC 1928, section 5. *)
Inductive socks5_address := AddrIp (ip : IpAddr) | AddrDomain (domain : bytes).

(** A CONNECT request as RFC 1928, section 4, has it. *)
Definition rfc1928_connect (b : bytes) : option (socks5_address * Z) :=
  let port rest := if (length rest =? 2)%nat then Some (from_be rest) else None in
  match b with
  | v :: c :: r :: a :: rest =>
      if negb (bool_decide ([v; c; r] = [x05; x01; x00])) then None
      else if bool_decide (a = x01) then p ← port (drop 4 rest); Some (AddrIp (V4 (from_be (take 4 rest))), p)
      else if bool_decide (a = x04) then p ← port (drop 16 rest); Some (AddrIp (V6 (from_be (take 16 rest))), p)
      else if bool_decide (a = x03) then
        match rest with
        | n :: rest => let len := Z.to_nat (b2z n) in
                       p ← port (drop len rest); Some (AddrDomain (take len rest), p)
        | [] => None
        end
      else None
  | _ => None
  end.

(** The request sent for a target is a CONNECT request of RFC 1928 for that
    target: an address with its port if the target is a socket address, and else
    the name before the last colon, not empty and at most 255 bytes, with the
    number after it. *)
Theorem socks5_request_exact target request :
  socks5_connect_request target = Ok request ->
  match rfc1928_connect request with
  | Some (AddrIp ip, port) => parse_socket_addr (str_bytes target) = Some {| sa_ip := ip; sa_port := port |}
  | Some (AddrDomain domain, port) =>
      parse_socket_addr (str_bytes target) = None /\ domain <> [] /\ blen domain <= 255 /\
      exists digits, rsplit_once x3a (str_bytes target) = Some (domain, digits) /\ from_str_radix 10 (umax 16) digits = Some port
  | None => False
  end.
Proof.
  unfold socks5_connect_request. destruct (parse_socket_addr (str_bytes target)) as [[ip port]|] eqn:Ep.
  - apply parse_socket_range in Ep as [Hip Hport]. cbn [sa_ip sa_port] in *. intros [= <-].
    destruct ip as [ip|ip]; cbn [NetAddr.octets app rfc1928_connect]; rewrite bool_decide_eq_true_2 by done; cbn [negb].
    + rewrite (bool_decide_eq_true_2 (x01 = x01)) by done. rewrite drop_app_length', take_app_length' by (by rewrite length_be_bytes).
      cbv beta. change [z2b (port / 256 ^ Z.of_nat 1); z2b (port / 256 ^ Z.of_nat 0)] with (be_bytes 2 port). rewrite length_be_bytes. cbn [Nat.eqb mbind option_bind]. by rewrite !from_be_u.
    + rewrite (bool_decide_eq_false_2 (x04 = x01)), (bool_decide_eq_true_2 (x04 = x04)) by done.
      rewrite drop_app_length', take_app_length' by (by rewrite length_be_bytes).
      cbv beta. change [z2b (port / 256 ^ Z.of_nat 1); z2b (port / 256 ^ Z.of_nat 0)] with (be_bytes 2 port). rewrite length_be_bytes. cbn [Nat.eqb mbind option_bind]. by rewrite !from_be_u.
  - destruct (rsplit_once x3a (str_bytes target)) as [[domain digits]|] eqn:Er; [|done]. cbn [ok_or mbind result_bind].
    case_bool_decide as Hd; [done|]. destruct (try_from 8 (blen domain)) as [n|] eqn:En; [|done]. cbn [ok_or mbind result_bind].
    destruct (from_str_radix 10 (umax 16) digits) as [port|] eqn:Ed; [|done]. intros [= <-].
    unfold try_from in En. change (umax 8) with 255 in En. destruct ((0 <=? blen domain) && (blen domain <=? 255)) eqn:Eb; [|done].
    injection En as <-. bool_props. assert (Hport : in_u 16 port) by (eapply from_str_radix_range in Ed; done).
    cbn [app rfc1928_connect]. rewrite bool_decide_eq_true_2 by done. cbn [negb].
    rewrite (bool_decide_eq_false_2 (x03 = x01)), (bool_decide_eq_false_2 (x03 = x04)), (bool_decide_eq_true_2 (x03 = x03)) by done.
    rewrite b2z_z2b by lia. rewrite drop_app_length', take_app_length' by (unfold blen; lia).
    cbv beta. change [z2b (port / 256 ^ Z.of_nat 1); z2b (port / 256 ^ Z.of_nat 0)] with (be_bytes 2 port). rewrite length_be_bytes. cbn [Nat.eqb mbind option_bind]. rewrite from_be_u by done. split_and!; [done..|]. by exists digits.
Qed.
