(* ===== verification/XtaskSmoke.v ===== *)
(** The smoke tests of [xtask/src/main.rs]: what they run, in which order, and
    when they give up.

    A task is a computation over the files, the monotonic clock (in nanoseconds)
    and the trace of what was done.  What the processes, the clock and the network
    do is an environment, asked once per step; [None] is a loop that has not ended
    within its fuel, or a call that never returns: the task waits without a limit
    for the processes it runs to their end, for the output of its children, for
    its targets' threads and for the answers to its own SOCKS5 client. *)

From S2P Require Import Prelude Text Protocol Crypto Keys Fs Client ClientSetup Tunnel ClientTunnel Xtask.

(** * Computations *)

Inductive xt_op :=
| XoRun (p : process)
| XoSpawn (child : nat) (p : process)
| XoKill (child : nat)
| XoKillFailed (child : nat)
| XoReap (child : nat)
| XoWaitFailed (child : nat)
| XoWrite (path contents : string)
| XoRemove (path : string)
| XoPrint (text : string)
| XoBind (port : Z)
| XoOther.

Record xt_world := {
  xw_files : store;
  xw_now : Z;
  xw_step : nat;
  xw_trace : list xt_op
}.

(** What step [n] meets: how long it takes; how other processes have changed the
    files; the output of a process that is run to its end, if it can be; whether
    one can be started, has exited, can be killed, what its output was; whether a
    file can be written or read; sockets; whether a call without a time limit
    returns. *)
Record xt_env := {
  xe_tick : nat -> Z;
  xe_files : nat -> store -> store;
  xe_output : nat -> process -> option proc_output;
  xe_spawn : nat -> bool;
  xe_try_wait : nat -> option (option Z);
  xe_kill : nat -> bool;
  xe_reap : nat -> option proc_output;
  xe_write : nat -> bool;
  xe_bind : nat -> bool;
  xe_connect : nat -> option TcpStream;
  xe_accept : nat -> option TcpStream;
  xe_signing_key : nat -> bytes;
  xe_returns : nat -> bool
}.

Definition xt (A : Type) : Type := xt_world -> option (xt_world * result XtaskError A).

#[global] Instance xt_ret : MRet xt := fun A a w => Some (w, Ok a).
#[global] Instance xt_bind : MBind xt := fun A B f m w =>
  match m w with
  | Some (w, Ok a) => f a w
  | Some (w, Err e) => Some (w, Err e)
  | None => None
  end.

(** A result that may be an error, [?]; and the result of a computation, kept. *)
Definition xt_lift {A} (r : result XtaskError A) : xt A := fun w => Some (w, r).
Definition xt_fail {A} (e : XtaskError) : xt A := xt_lift (Err e).
Definition xt_try {A} (m : xt A) : xt (result XtaskError A) := fun w =>
  match m w with Some (w, r) => Some (w, Ok r) | None => None end.

Section xtask.
Context `{C : Crypto}.
Context (env : xt_env).

(** One step: the world goes on, and [f] gives its result and the new files. *)
Definition act {A} (op : nat -> xt_op) (f : nat -> store -> store * result XtaskError A) : xt A := fun w =>
  let n := xw_step w in
  let '(files, r) := f n (xe_files env n (xw_files w)) in
  Some ({| xw_files := files; xw_now := xw_now w + xe_tick env n; xw_step := S n; xw_trace := xw_trace w ++ [op n] |}, r).

Definition look {A} (f : nat -> store -> result XtaskError A) : xt A := act (fun _ => XoOther) (fun n files => (files, f n files)).

(** A step that may never end. *)
Definition act_wait {A} (op : nat -> xt_op) (f : nat -> store -> store * result XtaskError A) : xt A := fun w =>
  if xe_returns env (xw_step w) then act op f w else None.

(** [Command::output], [Command::status] and [Command::spawn]; a child is known by
    the step that started it. *)
Definition run_output (p : process) (label : string) : xt proc_output :=
  act_wait (fun _ => XoRun p) (fun n files => (files, ok_or (XeInvoke label) (xe_output env n p))).
Definition spawn (p : process) : xt nat :=
  act (fun n => if xe_spawn env n then XoSpawn n p else XoOther) (fun n files => (files, if xe_spawn env n then Ok n else Err XeSpawn)).
Definition try_wait (child : nat) : xt (option Z) :=
  act (fun n => if xe_try_wait env n is Some _ then XoOther else XoWaitFailed child) (fun n files => (files, ok_or XeWait (xe_try_wait env n))).
Definition kill (child : nat) : xt unit :=
  act (fun n => if xe_kill env n then XoKill child else XoKillFailed child)
    (fun n files => (files, if xe_kill env n then Ok tt else Err XeKill)).
Definition wait_with_output (child : nat) : xt proc_output :=
  act_wait (fun n => if xe_reap env n is Some _ then XoReap child else XoWaitFailed child)
    (fun n files => (files, ok_or XeCollect (xe_reap env n))).

(** [fs::write] and [write_private_key_file], [fs::remove_file] (whose errors are
    ignored), [fs::read_to_string] and [Path::exists]. *)
Definition write_path (path contents : string) : xt unit :=
  act (fun _ => XoWrite path contents) (fun n files =>
    if xe_write env n then (<[path := contents]> files, Ok tt) else (files, Err (XeWrite path))).
Definition remove_path (path : string) : xt unit := act (fun _ => XoRemove path) (fun n files =>
  (if xe_write env n then delete path files else files, Ok tt)).
Definition read_path_to_string (path : string) : xt string := look (fun _ files => ok_or (XeRead path) (files !! path)).
Definition path_exists (path : string) : xt bool := look (fun _ files => Ok (bool_decide (is_Some (files !! path)))).

(** [Instant::now] and [thread::sleep], which takes at least as long as asked. *)
Definition instant_now : xt Z := fun w => act (fun _ => XoOther) (fun _ files => (files, Ok (xw_now w))) w.
Definition sleep (duration : Z) : xt unit := fun w =>
  act (fun _ => XoOther) (fun _ files => (files, Ok tt))
    {| xw_files := xw_files w; xw_now := xw_now w + duration; xw_step := xw_step w; xw_trace := xw_trace w |}.

Definition millis (n : Z) : Z := n * 1000000.
Definition seconds (n : Z) : Z := millis (n * 1000).

Definition println (text : string) : xt unit := act (fun _ => XoPrint text) (fun _ files => (files, Ok tt)).
Definition bind_port (port : Z) : xt unit :=
  act (fun _ => XoBind port) (fun n files => (files, if xe_bind env n then Ok tt else Err (XeBind port))).

Fixpoint each {A} (f : A -> xt unit) (l : list A) : xt unit :=
  match l with [] => mret tt | x :: l => _ ← f x; each f l end.

(** * Builds and fixtures *)

Definition run_status (p : process) (label : string) : xt unit :=
  output ← run_output p label;
  if po_success output then mret tt else xt_fail (XeStatus label).

Definition build_ebpf : xt unit := run_status build_ebpf_process "cargo for eBPF build".

Definition write_loopback_fixture (identity_prefix authorized_keys server_config server_noise_key : string)
    (spa_port proxy_port : Z) : xt LoopbackFixture :=
  signing_key ← look (fun n _ => Ok (xe_signing_key env n));
  let fx := fixture_paths identity_prefix authorized_keys server_config server_noise_key in
  _ ← each (fun f => write_path f.1 f.2) (identity_files fx signing_key);
  _ ← remove_path (server_counter_state server_config);
  _ ← write_path server_config
        (server_config_text server_noise_key (server_counter_state server_config) authorized_keys spa_port proxy_port);
  _ ← remove_path server_noise_key;
  _ ← remove_path (public_key_path server_noise_key);
  mret fx.

Definition prepare_spa_loopback (identity_prefix authorized_keys server_config : string) (spa_port proxy_port : Z)
    (iface decoy_bind : string) : xt unit :=
  fx ← write_loopback_fixture identity_prefix authorized_keys server_config "/tmp/ghost-server-noise.key" spa_port proxy_port;
  each println (loopback_instructions fx spa_port proxy_port iface decoy_bind).

(** * Waiting *)

Section waiting.
Context (child : nat).

(** Until the file at [path] exists, every 50 ms. *)
Fixpoint wait_for_server_key (fuel : nat) (path : string) (timeout start : Z) : xt unit :=
  match fuel with
  | O => fun _ => None
  | S fuel =>
      found ← path_exists path;
      if found : bool then mret tt
      else
        status ← try_wait child;
        match status with
        | Some _ => _ ← wait_with_output child; xt_fail (XeExited path)
        | None =>
            now ← instant_now;
            if timeout <=? now - start
            then _ ← kill child; _ ← wait_with_output child; xt_fail (XeTimeout path)
            else _ ← sleep (millis 50); wait_for_server_key fuel path timeout start
        end
  end.

(** Until a connection to the port is accepted. *)
Fixpoint wait_for_tcp_port (fuel : nat) (port timeout start : Z) : xt unit :=
  match fuel with
  | O => fun _ => None
  | S fuel =>
      open ← look (fun n _ => Ok (bool_decide (is_Some (xe_connect env n))));
      if open : bool then mret tt
      else
        status ← try_wait child;
        match status with
        | Some _ => xt_fail (XeExited "client listener")
        | None =>
            now ← instant_now;
            if timeout <=? now - start then xt_fail (XeTimeout (local port))
            else _ ← sleep (millis 50); wait_for_tcp_port fuel port timeout start
        end
  end.

End waiting.

(** Until the listing shows the job's end, every 200 ms until [deadline]. *)
Fixpoint wait_for_relay_job_complete (fuel : nat) (config : SmokeNoiseConfig) (fx : LoopbackFixture) (job_id : bytes) (deadline : Z)
    : xt unit :=
  match fuel with
  | O => fun _ => None
  | S fuel =>
      output ← run_output (relay_client_command config fx "relay-list" []) "relay-list client";
      if negb (po_success output) then xt_fail (XeStatus "relay-list")
      else
        let status := listed_status job_id (output_text output) in
        if bool_decide (status = Some (str_bytes "complete")) then mret tt
        else if bool_decide (status = Some (str_bytes "failed")) then xt_fail (XeJobFailed job_id)
        else
          now ← instant_now;
          if deadline <=? now then xt_fail (XeTimeout "relay job")
          else _ ← sleep (millis 200); wait_for_relay_job_complete fuel config fx job_id deadline
  end.

(** * Servers and clients *)

Context (fuel : nat).

Definition stop_server (server : nat) : xt proc_output :=
  status ← try_wait server;
  _ ← match status with None => kill server | Some _ => mret tt end;
  wait_with_output server.

Definition spawn_server (config : SmokeNoiseConfig) (fx : LoopbackFixture) : xt nat :=
  child ← spawn (server_process config fx);
  start ← instant_now;
  _ ← wait_for_server_key child fuel (public_key_path (fx_server_noise_key fx)) (seconds 5) start;
  _ ← sleep (millis 300);
  mret child.

(** A client command that must succeed; its output. *)
Definition run_client (p : process) (label : string) : xt bytes :=
  output ← run_output p label;
  if po_success output then mret (output_text output) else xt_fail (XeStatus label).

Definition run_client_smoke (config : SmokeNoiseConfig) (fx : LoopbackFixture) : xt unit :=
  client_log ← run_client (relay_client_command config fx "connect-once" ["--message"%string; sm_message config]) "connect-once";
  xt_lift (assert_all client_log ["NOISE_HANDSHAKE_COMPLETE"%string; "NOISE_FRAME_ROUND_TRIP"%string; sm_message config] "client output").

Definition run_client_socks5_smoke (config : SmokeNoiseConfig) (fx : LoopbackFixture) (target_port : Z) : xt unit :=
  client_log ← run_client (relay_client_command config fx "connect-socks5-once"
    ["--target"%string; local target_port; "--message"%string; sm_message config]) "connect-socks5-once";
  xt_lift (assert_all client_log ["SOCKS5_HANDSHAKE_COMPLETE"%string; "SOCKS5_FRAME_ROUND_TRIP"%string; sm_message config] "client output").

Definition relay_download_process (config : SmokeNoiseConfig) (fx : LoopbackFixture) (job_id output : string) (artifact : list string) : process :=
  relay_client_command config fx "relay-download" (["--job-id"; job_id; "--output"; output]%string ++ artifact).

Definition run_client_ghost_relay_smoke (config : SmokeNoiseConfig) (fx : LoopbackFixture) (web_port : Z) : xt unit :=
  submit_log ← run_client (relay_client_command config fx "relay-submit-url"
    ["--url"; "http://" +:+ local web_port +:+ "/fixture.html"; "--normalize"]%string) "relay-submit-url";
  _ ← xt_lift (assert_contains submit_log "GHOST_RELAY_JOB_SUBMITTED" "client output");
  job_id ← xt_lift (parse_job_id submit_log);
  start ← instant_now;
  _ ← wait_for_relay_job_complete fuel config fx job_id (start + seconds 30);
  let job := bytes_str job_id in
  let markdown_path := (sm_identity_prefix config +:+ "-relay-download.md")%string in
  download_log ← run_client (relay_download_process config fx job markdown_path ["--artifact"; "markdown"]%string) "relay-download markdown";
  _ ← xt_lift (assert_contains download_log "GHOST_RELAY_DOWNLOADED" "client output");
  markdown ← read_path_to_string markdown_path;
  if negb (bool_decide (trim (str_bytes markdown) = str_bytes ("# " +:+ sm_message config)))
  then xt_fail (XeMarkdown markdown)
  else
    let primary_path := (sm_identity_prefix config +:+ "-relay-download.html")%string in
    _ ← run_client (relay_download_process config fx job primary_path []) "relay-download primary";
    primary ← read_path_to_string primary_path;
    if negb (contains_sub (str_bytes (sm_message config)) (str_bytes primary)) then xt_fail XePrimary
    else
      delete_log ← run_client (relay_client_command config fx "relay-delete" ["--job-id"%string; job]) "relay-delete";
      xt_lift (assert_contains delete_log "GHOST_RELAY_DELETED" "client output").

Definition spawn_client_listener (config : SmokeNoiseConfig) (fx : LoopbackFixture) (socks_port : Z) : xt nat :=
  child ← spawn (client_listener_process config fx socks_port);
  start ← instant_now;
  r ← xt_try (wait_for_tcp_port child fuel socks_port (seconds 10) start);
  match r with
  | Ok _ => mret child
  | Err e => _ ← xt_try (kill child); _ ← wait_with_output child; xt_fail (XeListener e)
  end.

(** The local SOCKS5 client of the smoke test: greeting, CONNECT to the target,
    and an echo of the message. *)
Definition socks5_client (s : TcpStream) (target_port : Z) (message : string) : result XtaskError unit :=
  let sent s data := match stream_write_all s data with (s, Ok _) => Ok s | (_, Err _) => Err XeSocket end in
  let got s n := match stream_read_exact s n with (s, Ok b) => Ok (s, b) | (_, Err _) => Err XeSocket end in
  s ← sent s [x05; x01; x00];
  '(s, method) ← got s 2%nat;
  if negb (bool_decide (method = [x05; x00])) then Err (XeMethod method)
  else
    s ← sent s ([x05; x01; x00; x01; x7f; x00; x00; x01] ++ be_bytes 2 target_port);
    '(s, response) ← got s 10%nat;
    if negb (socks5_granted response) then Err (XeSocks5 response)
    else
      s ← sent s (str_bytes message);
      '(_, echoed) ← got s (length (str_bytes message));
      if negb (bool_decide (echoed = str_bytes message)) then Err (XeEcho echoed) else Ok tt.

Definition run_local_socks5_client (socks_port target_port : Z) (message : string) : xt unit :=
  s ← look (fun n _ => ok_or XeSocket (xe_connect env n));
  act_wait (fun _ => XoOther) (fun _ files => (files, socks5_client s target_port message)).

(** * Local targets

    Their threads run beside the test and are joined at its end. *)

(** One connection: what one read gives is written back. *)
Definition echo_once (s : TcpStream) : TcpStream * result XtaskError unit :=
  match tcp_read (rd_script s) (16 * 1024) with
  | (l, Err _) => (with_rd s l, Err XeSocket)
  | (l, Ok buf) =>
      match stream_write_all (with_rd s l) buf with
      | (s, Ok _) => (s, Ok tt)
      | (s, Err _) => (s, Err XeSocket)
      end
  end.

(** One connection: one read, whatever it gives, and the page. *)
Definition serve_page_once (message : string) (s : TcpStream) : TcpStream * result XtaskError unit :=
  match tcp_read (rd_script s) 4096 with
  | (l, Err _) => (with_rd s l, Err XeSocket)
  | (l, Ok _) =>
      match stream_write_all (with_rd s l) (str_bytes (http_fixture_response message)) with
      | (s, Ok _) => (s, Ok tt)
      | (s, Err _) => (s, Err XeSocket)
      end
  end.

(** The end of a target's thread. *)
Definition join_target (serve : TcpStream -> TcpStream * result XtaskError unit) : xt unit :=
  act_wait (fun _ => XoOther) (fun n files => (files, s ← ok_or XeSocket (xe_accept env n); (serve s).2)).

Definition spawn_echo_target (port : Z) : xt unit := _ ← bind_port port; sleep (millis 50).
Definition spawn_http_content_target (port : Z) : xt unit := _ ← bind_port port; sleep (millis 50).

(** * Smoke tests *)

Definition build_all : xt unit :=
  _ ← println "building userspace crates";
  _ ← run_status (cargo ["build"%string]) "cargo build";
  _ ← println "building eBPF object";
  build_ebpf.

Definition config_fixture (config : SmokeNoiseConfig) : xt LoopbackFixture :=
  write_loopback_fixture (sm_identity_prefix config) (sm_authorized_keys config) (sm_server_config config)
    (sm_server_noise_key config) (sm_spa_port config) (sm_proxy_port config).

(** [body] between the start of the server and its end; the server's log. *)
Definition with_server {A} (config : SmokeNoiseConfig) (fx : LoopbackFixture) (body : xt A) : xt (result XtaskError A * bytes) :=
  server ← spawn_server config fx;
  smoke_result ← xt_try body;
  server_output ← stop_server server;
  mret (smoke_result, output_text server_output).

Definition smoke_noise_loopback (config : SmokeNoiseConfig) : xt unit :=
  _ ← build_all;
  fx ← config_fixture config;
  '(smoke_result, server_log) ← with_server config fx (run_client_smoke config fx);
  _ ← xt_lift smoke_result;
  _ ← xt_lift (assert_all server_log ["SPA_ACCEPT"; "ALLOW_MAP_WRITE"; "NOISE_ACCEPT"; "NOISE_FRAME_DECRYPTED"]%string "server log");
  println "smoke-noise-loopback passed".

Definition smoke_socks5_loopback (config : SmokeNoiseConfig) (target_port : Z) : xt unit :=
  _ ← build_all;
  fx ← config_fixture config;
  _ ← spawn_echo_target target_port;
  '(smoke_result, server_log) ← with_server config fx (run_client_socks5_smoke config fx target_port);
  _ ← xt_lift smoke_result;
  _ ← join_target echo_once;
  _ ← xt_lift (assert_all server_log
        ["SPA_ACCEPT"; "NOISE_ACCEPT"; "SOCKS5_CONNECT"; "SOCKS5_CONNECT_OK"; "SOCKS5_FRAME_RELAYED"]%string "server log");
  println "smoke-socks5-loopback passed".

Definition smoke_socks5_listener_loopback (config : SmokeNoiseConfig) (socks_port target_port : Z) : xt unit :=
  _ ← build_all;
  fx ← config_fixture config;
  _ ← spawn_echo_target target_port;
  server ← spawn_server config fx;
  client ← spawn_client_listener config fx socks_port;
  smoke_result ← xt_try (run_local_socks5_client socks_port target_port (sm_message config));
  client_output ← stop_server client;
  server_output ← stop_server server;
  let client_log := output_text client_output in
  let server_log := output_text server_output in
  _ ← xt_lift smoke_result;
  _ ← join_target echo_once;
  _ ← xt_lift (assert_all client_log ["SOCKS5_LISTEN"; "SOCKS5_TUNNEL_OPEN"]%string "client log");
  _ ← xt_lift (assert_all server_log ["SPA_ACCEPT"; "NOISE_ACCEPT"; "SOCKS5_CONNECT_OK"; "SOCKS5_FRAME_RELAYED"]%string "server log");
  println "smoke-socks5-listener-loopback passed".

Definition smoke_ghost_relay_loopback (config : SmokeNoiseConfig) (web_port : Z) : xt unit :=
  _ ← build_all;
  fx ← config_fixture config;
  _ ← spawn_http_content_target web_port;
  '(smoke_result, server_log) ← with_server config fx (run_client_ghost_relay_smoke config fx web_port);
  _ ← xt_lift smoke_result;
  _ ← join_target (serve_page_once (sm_message config));
  _ ← xt_lift (assert_all server_log
        ["SPA_ACCEPT"; "NOISE_ACCEPT"; "GHOST_RELAY_REQUEST"; "GHOST_RELAY_JOB_QUEUED"; "GHOST_RELAY_JOB_COMPLETE";
         "GHOST_RELAY_JOB_DELETED"]%string "server log");
  println "smoke-ghost-relay-loopback passed".

(** [main] *)
Definition xtask_main (cmd : XtaskCommand) : xt unit :=
  match cmd with
  | BuildEbpf => build_ebpf
  | PrepareSpaLoopback prefix keys config spa proxy iface decoy => prepare_spa_loopback prefix keys config spa proxy iface decoy
  | SmokeNoiseLoopback prefix keys config noise_key spa proxy iface decoy message no_sudo =>
      smoke_noise_loopback {| sm_identity_prefix := prefix; sm_authorized_keys := keys; sm_server_config := config;
        sm_server_noise_key := noise_key; sm_spa_port := spa; sm_proxy_port := proxy; sm_iface := iface;
        sm_decoy_bind := decoy; sm_message := message; sm_use_sudo := negb no_sudo |}
  | SmokeSocks5Loopback prefix keys config noise_key spa proxy target iface decoy message no_sudo =>
      smoke_socks5_loopback {| sm_identity_prefix := prefix; sm_authorized_keys := keys; sm_server_config := config;
        sm_server_noise_key := noise_key; sm_spa_port := spa; sm_proxy_port := proxy; sm_iface := iface;
        sm_decoy_bind := decoy; sm_message := message; sm_use_sudo := negb no_sudo |} target
  | SmokeSocks5ListenerLoopback prefix keys config noise_key spa proxy socks target iface decoy message no_sudo =>
      smoke_socks5_listener_loopback {| sm_identity_prefix := prefix; sm_authorized_keys := keys; sm_server_config := config;
        sm_server_noise_key := noise_key; sm_spa_port := spa; sm_proxy_port := proxy; sm_iface := iface;
        sm_decoy_bind := decoy; sm_message := message; sm_use_sudo := negb no_sudo |} socks target
  | SmokeGhostRelayLoopback prefix keys config noise_key spa proxy web iface decoy no_sudo =>
      smoke_ghost_relay_loopback {| sm_identity_prefix := prefix; sm_authorized_keys := keys; sm_server_config := config;
        sm_server_noise_key := noise_key; sm_spa_port := spa; sm_proxy_port := proxy; sm_iface := iface;
        sm_decoy_bind := decoy; sm_message := "hello ghost relay"; sm_use_sudo := negb no_sudo |} web
  end.

End xtask.
