(* ===== verification/XtaskFacts.v ===== *)
(** The build tasks: every task ends, the smoke tests stop the servers they
    start, and the listing of jobs is read as the server writes it. *)

From S2P Require Import Prelude Text TextFacts Protocol Crypto Keys Fs Client ClientSetup Tunnel ClientTunnel.
From S2P Require Import RelayWire RelayEngine Xtask XtaskSmoke.

(** * Every task ends *)

Definition total {A} (m : xt A) : Prop := forall w, is_Some (m w).

Section ends.
Context `{C : Crypto} (env : xt_env).

Lemma total_ret {A} (a : A) : total (mret a).
Proof. by eexists. Qed.
Lemma total_lift {A} (r : result XtaskError A) : total (xt_lift r).
Proof. by eexists. Qed.
Lemma total_bind {A B} (m : xt A) (f : A -> xt B) : total m -> (forall a, total (f a)) -> total (m ≫= f).
Proof.
  intros Hm Hf w. destruct (Hm w) as [[w1 [a|e]] E]; unfold mbind, xt_bind; rewrite E; [apply Hf|by eexists].
Qed.
Lemma total_try {A} (m : xt A) : total m -> total (xt_try m).
Proof. intros Hm w. destruct (Hm w) as [[w1 r] E]. unfold xt_try. rewrite E. by eexists. Qed.
Lemma total_act {A} op (f : nat -> store -> store * result XtaskError A) : total (act env op f).
Proof. intros w. unfold act. destruct (f _ _). by eexists. Qed.
(** Of a step without a time limit that returns. *)
Hypothesis Hreturns : forall n, xe_returns env n = true.

Lemma total_act_wait {A} op (f : nat -> store -> store * result XtaskError A) : total (act_wait env op f).
Proof. intros w. unfold act_wait. rewrite Hreturns. apply total_act. Qed.
Lemma total_instant_now : total (instant_now env).
Proof. intros w. apply total_act. Qed.
Lemma total_sleep d : total (sleep env d).
Proof. intros w. apply total_act. Qed.
Lemma total_each {A} (f : A -> xt unit) l : (forall x, total (f x)) -> total (each f l).
Proof. intros Hf. induction l as [|x l IH]; cbn; [apply total_ret|by apply total_bind]. Qed.

(** Stops where the clock is read, for the loops that count from there. *)
Ltac total :=
  repeat (intros; lazymatch goal with
    | |- total (mbind _ (instant_now _)) => fail
    | |- total (mbind _ _) => apply total_bind
    | |- total (match ?x with _ => _ end) => destruct x
    | |- total (each _ _) => apply total_each
    | |- total (xt_try _) => apply total_try
    | |- total (act _ _ _) => apply total_act
    | |- total (act_wait _ _ _) => apply total_act_wait
    | |- total (mret _) => apply total_ret
    | |- total (xt_lift _) => apply total_lift
    | |- total (xt_fail _) => apply total_lift
    | |- total (sleep _ _) => apply total_sleep
    | |- total (instant_now _) => apply total_instant_now
    | |- total _ => first [assumption | apply total_act | apply total_act_wait]
    end); intros.

Ltac totally := match goal with |- is_Some (?m ?w) => let H := fresh in enough (H : total m) by apply H; total end.

Hypothesis Htick : forall n, 0 <= xe_tick env n.

(** What is left of a wait fits in its turns: each takes its pause at least. *)
Definition fits (fuel : nat) (pause deadline now : Z) : Prop := (0 < fuel)%nat /\ deadline - now <= (Z.of_nat fuel - 1) * pause.

Lemma fits_next fuel pause deadline now now' :
  0 < pause -> fits (S fuel) pause deadline now -> now < deadline -> now + pause <= now' -> fits fuel pause deadline now'.
Proof. unfold fits. intros Hp [_ Hf] Hlt Hn. split; nia. Qed.

Lemma wait_for_server_key_ends child path timeout start fuel : forall w,
  fits fuel (millis 50) (start + timeout) (xw_now w) -> is_Some (wait_for_server_key env child fuel path timeout start w).
Proof.
  induction fuel as [|fuel IH]; intros w Hf; [by destruct Hf; lia|].
  cbn [wait_for_server_key]. unfold mbind at 1, xt_bind at 1, path_exists, look, act. cbn.
  case_bool_decide; [apply total_ret|]. unfold mbind at 1, xt_bind at 1, try_wait, act. cbn.
  destruct (xe_try_wait env (S (xw_step w))) as [[status|]|]; cbn; [|  |by eexists].
  { totally. }
  unfold mbind at 1, xt_bind at 1, instant_now, act. cbn.
  set (now := xw_now w + xe_tick env (xw_step w) + xe_tick env (S (xw_step w))).
  pose proof (Htick (xw_step w)). pose proof (Htick (S (xw_step w))). pose proof (Htick (S (S (xw_step w)))).
  pose proof (Htick (S (S (S (xw_step w))))).
  destruct (Z.leb_spec timeout (now - start)); [totally|].
  unfold mbind at 1, xt_bind at 1, sleep, act. cbn. apply IH.
  eapply (fits_next _ _ _ (xw_now w)); [done|done|..]; cbn; unfold millis in *; lia.
Qed.

Lemma wait_for_tcp_port_ends child port timeout start fuel : forall w,
  fits fuel (millis 50) (start + timeout) (xw_now w) -> is_Some (wait_for_tcp_port env child fuel port timeout start w).
Proof.
  induction fuel as [|fuel IH]; intros w Hf; [by destruct Hf; lia|].
  cbn [wait_for_tcp_port]. unfold mbind at 1, xt_bind at 1, look, act. cbn.
  case_bool_decide; [apply total_ret|]. unfold mbind at 1, xt_bind at 1, try_wait, act. cbn.
  destruct (xe_try_wait env (S (xw_step w))) as [[status|]|]; cbn; [by eexists| |by eexists].
  unfold mbind at 1, xt_bind at 1, instant_now, act. cbn.
  set (now := xw_now w + xe_tick env (xw_step w) + xe_tick env (S (xw_step w))).
  pose proof (Htick (xw_step w)). pose proof (Htick (S (xw_step w))). pose proof (Htick (S (S (xw_step w)))).
  pose proof (Htick (S (S (S (xw_step w))))).
  destruct (Z.leb_spec timeout (now - start)); [by eexists|].
  unfold mbind at 1, xt_bind at 1, sleep, act. cbn. apply IH.
  eapply (fits_next _ _ _ (xw_now w)); [done|done|..]; cbn; unfold millis in *; lia.
Qed.

Lemma wait_for_relay_job_complete_ends config fx job_id deadline fuel : forall w,
  fits fuel (millis 200) deadline (xw_now w) -> is_Some (wait_for_relay_job_complete env fuel config fx job_id deadline w).
Proof.
  induction fuel as [|fuel IH]; intros w Hf; [by destruct Hf; lia|].
  cbn [wait_for_relay_job_complete]. unfold mbind at 1, xt_bind at 1, run_output, act_wait. rewrite Hreturns. unfold act. cbn.
  destruct (xe_output env _ _) as [output|]; cbn; [|by eexists]. destruct (po_success output); cbn [negb]; [|by eexists].
  case_bool_decide; [apply total_ret|]. case_bool_decide; [by eexists|].
  unfold mbind at 1, xt_bind at 1, instant_now, act. cbn.
  pose proof (Htick (xw_step w)). pose proof (Htick (S (xw_step w))). pose proof (Htick (S (S (xw_step w)))).
  destruct (Z.leb_spec deadline (xw_now w + xe_tick env (xw_step w))); [by eexists|].
  unfold mbind at 1, xt_bind at 1, sleep, act. cbn. apply IH.
  eapply (fits_next _ _ _ (xw_now w)); [done|done|..]; cbn; unfold millis in *; lia.
Qed.

(** From a reading of the clock on. *)
Lemma total_timed {A} (f : Z -> xt A) :
  (forall start w, start <= xw_now w -> is_Some (f start w)) -> total (instant_now env ≫= f).
Proof.
  intros Hf w. unfold mbind, xt_bind, instant_now, act. cbn. apply Hf. cbn. pose proof (Htick (xw_step w)). lia.
Qed.

Lemma is_Some_bind {A B} (m : xt A) (f : A -> xt B) w : is_Some (m w) -> (forall a, total (f a)) -> is_Some ((m ≫= f) w).
Proof. intros [[w1 [a|e]] E] Hf; unfold mbind, xt_bind; rewrite E; [apply Hf|by eexists]. Qed.

Context (fuel : nat).
Hypothesis Hfuel : (201 <= fuel)%nat.

Lemma spawn_server_ends config fx : total (spawn_server env fuel config fx).
Proof.
  unfold spawn_server, spawn. total. apply total_timed. intros start w Hw.
  apply is_Some_bind; [|total]. apply wait_for_server_key_ends. unfold fits, seconds, millis. lia.
Qed.

Lemma spawn_client_listener_ends config fx port : total (spawn_client_listener env fuel config fx port).
Proof.
  unfold spawn_client_listener, spawn. total. apply total_timed. intros start w Hw.
  apply is_Some_bind; [|unfold kill, wait_with_output; total].
  destruct (wait_for_tcp_port_ends a port (seconds 10) start fuel w) as [[w1 r] E]; [unfold fits, seconds, millis; lia|].
  unfold xt_try. rewrite E. by eexists.
Qed.

Lemma run_client_ends p label : total (run_client env p label).
Proof. unfold run_client, run_output. total. Qed.

Lemma run_client_ghost_relay_smoke_ends config fx port : total (run_client_ghost_relay_smoke env fuel config fx port).
Proof.
  pose proof run_client_ends as Hc. unfold run_client_ghost_relay_smoke. total; [by apply Hc..|].
  apply total_timed. intros start w Hw. apply is_Some_bind; [|unfold read_path_to_string, look; total; by apply Hc].
  apply wait_for_relay_job_complete_ends. unfold fits, seconds, millis. lia.
Qed.

Lemma with_server_ends {A} config fx (body : xt A) : total body -> total (with_server env fuel config fx body).
Proof.
  intros Hb. unfold with_server, stop_server, try_wait, kill, wait_with_output, look. total. apply spawn_server_ends.
Qed.

Lemma build_all_ends : total (build_all env).
Proof. unfold build_all, build_ebpf, run_status, println, run_output. total. Qed.

Lemma write_loopback_fixture_ends prefix keys config noise_key spa proxy :
  total (write_loopback_fixture env prefix keys config noise_key spa proxy).
Proof. unfold write_loopback_fixture, write_path, remove_path, look. total. Qed.

(** The three loops that wait give up within 201 turns. *)
Lemma xtask_ends cmd w : is_Some (xtask_main env fuel cmd w).
Proof.
  revert w. change (total (xtask_main env fuel cmd)).
  pose proof build_all_ends as Hb. pose proof write_loopback_fixture_ends as Hf. pose proof @with_server_ends as Hs.
  pose proof spawn_server_ends as Hss. pose proof spawn_client_listener_ends as Hl. pose proof run_client_ends as Hc.
  destruct cmd; cbn [xtask_main].
  - unfold build_ebpf, run_status, run_output. total.
  - unfold prepare_spa_loopback, println. total. apply Hf.
  - unfold smoke_noise_loopback, config_fixture, println. total; [apply Hf|]. apply Hs. unfold run_client_smoke. total. apply Hc.
  - unfold smoke_socks5_loopback, config_fixture, println, spawn_echo_target, bind_port, join_target, look. total; [apply Hf|].
    apply Hs. unfold run_client_socks5_smoke. total. apply Hc.
  - unfold smoke_socks5_listener_loopback, config_fixture, println, spawn_echo_target, bind_port, join_target, look, stop_server,
      try_wait, kill, wait_with_output, run_local_socks5_client, look. total; [apply Hf|apply Hss|apply Hl].
  - unfold smoke_ghost_relay_loopback, config_fixture, println, spawn_http_content_target, bind_port, join_target, look.
    total; [apply Hf|]. apply Hs, run_client_ghost_relay_smoke_ends.
Qed.

End ends.


(** * Processes that are left *)

(** The children that were started and not waited for, the last one first. *)
Definition after_op (l : list nat) (op : xt_op) : list nat :=
  match op with
  | XoSpawn c _ => c :: l
  | XoReap c => filter (fun k => k <> c) l
  | _ => l
  end.
Definition running (trace : list xt_op) : list nat := foldl after_op [] trace.

Section processes.
Context `{C : Crypto} (env : xt_env).

(** A call to kill the child or to wait for it has failed. *)
Definition lost (trace : list xt_op) (c : nat) : Prop := XoKillFailed c ∈ trace \/ XoWaitFailed c ∈ trace.

(** What is running is among [l], or lost. *)
Definition left (l : list nat) (w : xt_world) : Prop :=
  Forall (fun c => c ∈ l \/ lost (xw_trace w) c) (running (xw_trace w)).

(** From [l] running, what is running depends on the result as [Q] says. *)
Definition leaves {A} (l : list nat) (m : xt A) (Q : result XtaskError A -> list nat) : Prop :=
  forall w w' r, left l w -> m w = Some (w', r) -> left (Q r) w'.
Definition tidy {A} (m : xt A) : Prop := forall l, leaves l m (fun _ => l).

Lemma leaves_bind {A B} l (m : xt A) (f : A -> xt B) Q Q' :
  leaves l m Q -> (forall a, leaves (Q (Ok a)) (f a) Q') -> (forall e, Q' (Err e) = Q (Err e)) -> leaves l (m ≫= f) Q'.
Proof.
  intros Hm Hf He w w' r Hl. unfold mbind, xt_bind. destruct (m w) as [[w1 [a|e]]|] eqn:E; [| |done].
  - intros H. eapply (Hf a); [by apply (Hm _ _ _ Hl)|done].
  - intros [= <- <-]. rewrite He. by apply (Hm _ _ _ Hl).
Qed.

Lemma leaves_tidy {A} l (m : xt A) (f : list nat) : tidy m -> f = l -> leaves l m (fun _ => f).
Proof. intros Hm -> . apply Hm. Qed.

Lemma tidy_bind {A B} (m : xt A) (f : A -> xt B) : tidy m -> (forall a, tidy (f a)) -> tidy (m ≫= f).
Proof. intros Hm Hf l. eapply leaves_bind; [apply Hm|intros a; apply Hf|done]. Qed.

Lemma tidy_pure {A} (r : result XtaskError A) : tidy (xt_lift r).
Proof. by intros l w w' r' Hl [= <- <-]. Qed.

Lemma tidy_try {A} (m : xt A) : tidy m -> tidy (xt_try m).
Proof.
  intros Hm l w w' r Hl. unfold xt_try. destruct (m w) as [[w1 r1]|] eqn:E; [|done]. intros [= <- <-]. by apply (Hm l w w1 r1).
Qed.

(** One more operation. *)
Lemma left_step l l' w w' op :
  left l w -> xw_trace w' = xw_trace w ++ [op] ->
  (forall c m, c ∈ after_op m op -> c ∈ m /\ (c ∈ l -> c ∈ l' \/ lost [op] c) \/ c ∈ l') -> left l' w'.
Proof.
  unfold left. intros Hl Ht Hop. rewrite Ht. unfold running in *. rewrite foldl_app. cbn [foldl]. rewrite Forall_forall in *.
  assert (Hmono : forall c, lost (xw_trace w) c -> lost (xw_trace w ++ [op]) c)
    by (intros c [H|H]; [left|right]; apply elem_of_app; by left).
  intros c Hc. destruct (Hop c _ Hc) as [[Hin Hlc]|?]; [|by left]. destruct (Hl c Hin) as [Hcl|Hlost]; [|right; by apply Hmono].
  destruct (Hlc Hcl) as [?|[H|H]]; [by left|right..]; [left|right]; apply elem_of_app; by right.
Qed.

Lemma tidy_act {A} op (f : nat -> store -> store * result XtaskError A) :
  (forall n l, after_op l (op n) = l) -> tidy (act env op f).
Proof.
  intros Hop l w w' r Hl. unfold act. destruct (f _ _) as [files r']. intros H. injection H as H _. subst w'.
  eapply (left_step l); [exact Hl|done|]. intros c m Hc. rewrite Hop in Hc. left. by split; [|left].
Qed.

Lemma leaves_act_wait {A} op (f : nat -> store -> store * result XtaskError A) l Q :
  leaves l (act env op f) Q -> leaves l (act_wait env op f) Q.
Proof. intros H w w' r Hl. unfold act_wait. destruct (xe_returns env (xw_step w)); [by apply H|done]. Qed.

Lemma tidy_act_wait {A} op (f : nat -> store -> store * result XtaskError A) :
  (forall n l, after_op l (op n) = l) -> tidy (act_wait env op f).
Proof. intros Hop l. by apply leaves_act_wait, tidy_act. Qed.

Lemma tidy_sleep d : tidy (sleep env d).
Proof. intros l w w' r Hl. by apply tidy_act. Qed.
Lemma tidy_instant_now : tidy (instant_now env).
Proof. intros l w w' r Hl. by apply tidy_act. Qed.
Lemma tidy_each {A} (f : A -> xt unit) l : (forall x, tidy (f x)) -> tidy (each f l).
Proof. intros Hf. induction l as [|x l IH]; cbn; [apply (tidy_pure (Ok tt))|by apply tidy_bind]. Qed.

Ltac tidy :=
  repeat (intros; lazymatch goal with
    | |- tidy (mbind _ _) => apply tidy_bind
    | |- tidy (match ?x with _ => _ end) => destruct x
    | |- tidy (each _ _) => apply tidy_each
    | |- tidy (xt_try _) => apply tidy_try
    | |- tidy (mret ?a) => apply (tidy_pure (Ok a))
    | |- tidy (xt_lift _) => apply tidy_pure
    | |- tidy (xt_fail _) => apply tidy_pure
    | |- tidy (sleep _ _) => apply tidy_sleep
    | |- tidy (instant_now _) => apply tidy_instant_now
    | |- tidy _ => first [assumption | apply tidy_act; done | apply tidy_act_wait; done
        | apply tidy_act; intros ? ?; by case_match]
    end); intros.

(** The child is left running if all is well, and given up if not. *)
Definition still {A} (c : nat) (l : list nat) (r : result XtaskError A) : list nat := match r with Ok _ => c :: l | Err _ => l end.

Lemma spawn_leaves p l : leaves l (spawn env p) (fun r => match r with Ok c => c :: l | Err _ => l end).
Proof.
  intros w w' r Hl. unfold spawn, act. destruct (xe_spawn env (xw_step w)); intros [= <- <-]; (eapply left_step; [exact Hl|done|]).
  - intros c m. cbn [after_op]. intros [->|Hc]%elem_of_cons; [right; by left|left]. split; [done|]. intros Hcl. left. by right.
  - intros c m Hc. left. by split; [|left].
Qed.

(** The two ways a child's operation ends: it is done, or the child is lost. *)
Lemma child_step c l w w' op :
  left (c :: l) w -> xw_trace w' = xw_trace w ++ [op] -> (forall m k, k ∈ after_op m op -> k ∈ m) ->
  (forall m, c ∈ after_op m op -> lost [op] c) -> left l w'.
Proof.
  intros Hl Ht Hsub Hc. eapply left_step; [exact Hl|exact Ht|]. intros k m Hk. left. split; [by eapply Hsub|].
  intros [->|?]%elem_of_cons; [right; by eapply Hc|by left].
Qed.

Lemma lost_kill c : lost [XoKillFailed c] c.
Proof. left. by left. Qed.
Lemma lost_wait c : lost [XoWaitFailed c] c.
Proof. right. by left. Qed.

Lemma kill_leaves c l : leaves (c :: l) (kill env c) (still c l).
Proof.
  intros w w' r Hl. unfold kill, act. destruct (xe_kill env (xw_step w)); intros [= <- <-].
  - eapply left_step; [exact Hl|done|]. intros k m Hk. left. by split; [|left].
  - eapply child_step; [exact Hl|done|done|]. intros _ _. apply lost_kill.
Qed.

Lemma try_wait_leaves c l : leaves (c :: l) (try_wait env c) (still c l).
Proof.
  intros w w' r Hl. unfold try_wait, act. destruct (xe_try_wait env (xw_step w)); intros [= <- <-].
  - eapply left_step; [exact Hl|done|]. intros k m Hk. left. by split; [|left].
  - eapply child_step; [exact Hl|done|done|]. intros _ _. apply lost_wait.
Qed.

Lemma reap_leaves c l : leaves (c :: l) (wait_with_output env c) (fun _ => l).
Proof.
  apply leaves_act_wait. intros w w' r Hl. unfold act. intros H. injection H as H _. subst w'.
  destruct (xe_reap env (xw_step w)); (eapply child_step; [exact Hl|done|..]).
  - intros m k. cbn [after_op]. by intros [_ ?]%list_elem_of_filter.
  - intros m. cbn [after_op]. by intros [? _]%list_elem_of_filter.
  - done.
  - intros _ _. apply lost_wait.
Qed.

(** Of a computation that cannot fail the error case is free. *)
Lemma leaves_sure {A B} l (m : xt A) (f : A -> xt B) Q :
  tidy m -> (forall w w' e, m w <> Some (w', Err e)) -> (forall a, leaves l (f a) Q) -> leaves l (m ≫= f) Q.
Proof.
  intros Hm Hsure Hf w w' r Hl. unfold mbind, xt_bind. destruct (m w) as [[w1 [a|e]]|] eqn:E; [| |done].
  - intros H. eapply (Hf a); [exact (Hm l w w1 (Ok a) Hl E)|done].
  - by apply Hsure in E.
Qed.

Lemma look_sure {A} (f : nat -> store -> A) w w' e : look env (fun n s => Ok (f n s)) w <> Some (w', Err e).
Proof. unfold look, act. intros H. by injection H. Qed.

Lemma wait_for_server_key_leaves c fuel path timeout start l :
  leaves (c :: l) (wait_for_server_key env c fuel path timeout start) (still c l).
Proof.
  induction fuel as [|fuel IH]; [by intros ? ? ? ? [=]|]. cbn [wait_for_server_key].
  apply leaves_sure; [tidy|apply look_sure|]. intros [|]; [by intros w w' r Hl [= <- <-]|].
  eapply leaves_bind; [apply try_wait_leaves| |done]. intros [status|].
  - eapply leaves_bind; [apply reap_leaves| |done]. intros ?. by intros w w' r Hl [= <- <-].
  - apply leaves_sure; [tidy|by intros w w' e [=]|]. intros now. destruct (timeout <=? now - start).
    + eapply leaves_bind; [apply kill_leaves| |done]. intros ?.
      eapply leaves_bind; [apply reap_leaves| |done]. intros ?. by intros w w' r Hl [= <- <-].
    + apply leaves_sure; [tidy|by intros w w' e [=]|]. intros ?. apply IH.
Qed.

Lemma spawn_server_leaves fuel config fx l :
  leaves l (spawn_server env fuel config fx) (fun r => match r with Ok c => c :: l | Err _ => l end).
Proof.
  unfold spawn_server. eapply leaves_bind; [apply spawn_leaves| |done]. intros c.
  apply leaves_sure; [tidy|by intros w w' e [=]|]. intros start.
  eapply leaves_bind; [apply wait_for_server_key_leaves| |done]. intros ?.
  apply leaves_sure; [tidy|by intros w w' e [=]|]. intros ?. by intros w w' r Hl [= <- <-].
Qed.

Lemma stop_server_leaves c l : leaves (c :: l) (stop_server env c) (fun _ => l).
Proof.
  unfold stop_server. eapply leaves_bind; [apply try_wait_leaves| |done]. intros status.
  eapply (leaves_bind _ _ _ (still c l)); [|intros ?; apply reap_leaves|done].
  destruct status; [by intros w w' r Hl [= <- <-]|apply kill_leaves].
Qed.

Lemma xt_try_Ok {A} (m : xt A) w w' e : xt_try m w <> Some (w', Err e).
Proof. unfold xt_try. by destruct (m w) as [[]|]. Qed.

Lemma with_server_tidy {A} fuel config fx (body : xt A) : tidy body -> tidy (with_server env fuel config fx body).
Proof.
  intros Hb l. unfold with_server. eapply leaves_bind; [apply spawn_server_leaves| |done]. intros c.
  apply leaves_sure; [tidy|apply xt_try_Ok|]. intros smoke.
  eapply leaves_bind; [apply stop_server_leaves| |done]. intros out. by intros w w' r Hl [= <- <-].
Qed.

Lemma build_all_tidy : tidy (build_all env).
Proof. unfold build_all, build_ebpf, run_status. tidy. Qed.
Lemma fixture_tidy prefix keys config noise_key spa proxy : tidy (write_loopback_fixture env prefix keys config noise_key spa proxy).
Proof. unfold write_loopback_fixture. tidy. Qed.
Lemma run_client_tidy p label : tidy (run_client env p label).
Proof. unfold run_client. tidy. Qed.

Lemma wait_for_relay_job_tidy fuel config fx job_id deadline : tidy (wait_for_relay_job_complete env fuel config fx job_id deadline).
Proof. induction fuel as [|fuel IH]; [by intros l w w' r Hl [=]|]. cbn [wait_for_relay_job_complete]. cbv zeta. tidy. Qed.

Lemma relay_smoke_tidy fuel config fx port : tidy (run_client_ghost_relay_smoke env fuel config fx port).
Proof.
  pose proof run_client_tidy. pose proof (wait_for_relay_job_tidy fuel). unfold run_client_ghost_relay_smoke. cbv zeta. tidy; auto.
Qed.

Lemma spawn_client_listener_leaves fuel config fx port l :
  leaves l (spawn_client_listener env fuel config fx port) (fun r => match r with Ok c => c :: l | Err _ => l end).
Proof.
  assert (Hwait_port : forall c start, tidy (wait_for_tcp_port env c fuel port (seconds 10) start)).
  { intros c start. induction fuel as [|n IH]; [by intros l' w w' r Hl [=]|]. cbn [wait_for_tcp_port]. tidy. }
  unfold spawn_client_listener. eapply leaves_bind; [apply spawn_leaves| |done]. intros c.
  apply leaves_sure; [tidy|by intros w w' e [=]|]. intros start.
  apply leaves_sure; [apply tidy_try, Hwait_port|apply xt_try_Ok|]. intros [u|e]; [by intros w w' r Hl [= <- <-]|].
  apply leaves_sure; [tidy|apply xt_try_Ok|]. intros ?.
  eapply leaves_bind; [apply reap_leaves| |done]. intros ?. by intros w w' r Hl [= <- <-].
Qed.

(** The stages of a run. *)
Lemma leaves_stages {A B} l (m : xt A) (f : A -> xt B) Q w w' r :
  leaves l m Q -> left l w -> (m ≫= f) w = Some (w', r) ->
  (exists e, r = Err e /\ left (Q (Err e)) w') \/ exists a w1, left (Q (Ok a)) w1 /\ f a w1 = Some (w', r).
Proof.
  intros Hm Hl. unfold mbind, xt_bind. destruct (m w) as [[w1 [a|e]]|] eqn:E; [| |done].
  - intros H. right. exists a, w1. split; [by apply (Hm _ _ _ Hl)|done].
  - intros [= <- <-]. left. exists e. split; [done|by apply (Hm _ _ _ Hl)].
Qed.

Lemma stages_sure {A B} l (m : xt A) (f : A -> xt B) w w' r :
  tidy m -> (forall w w' e, m w <> Some (w', Err e)) -> left l w -> (m ≫= f) w = Some (w', r) ->
  exists a w1, left l w1 /\ f a w1 = Some (w', r).
Proof.
  intros Hm Hsure Hl. unfold mbind, xt_bind. destruct (m w) as [[w1 [a|e]]|] eqn:E; [| |done].
  - intros H. exists a, w1. split; [exact (Hm l w w1 (Ok a) Hl E)|done].
  - by apply Hsure in E.
Qed.

Lemma listener_smoke_leaves fuel config socks target w w' r :
  left [] w -> smoke_socks5_listener_loopback env fuel config socks target w = Some (w', r) ->
  left [] w' \/ exists e server, r = Err e /\ left [server] w'.
Proof.
  intros Hl H. unfold smoke_socks5_listener_loopback in H.
  apply (leaves_stages [] _ _ _ _ _ _ (build_all_tidy []) Hl) in H as [(e & -> & H)|(u & w1 & Hl1 & H)]; [by left|].
  assert (Hfx : leaves [] (config_fixture env config) (fun _ => [])) by (unfold config_fixture; apply fixture_tidy).
  apply (leaves_stages [] _ _ _ _ _ _ Hfx Hl1) in H as [(e & -> & H)|(fx & w2 & Hl2 & H)]; [by left|].
  assert (He : tidy (spawn_echo_target env target)) by (unfold spawn_echo_target; tidy).
  apply (leaves_stages [] _ _ _ _ _ _ (He []) Hl2) in H as [(e & -> & H)|(u2 & w3 & Hl3 & H)]; [by left|].
  apply (leaves_stages [] _ _ _ _ _ _ (spawn_server_leaves fuel config fx []) Hl3) in H as [(e & -> & H)|(server & w4 & Hl4 & H)]; [by left|].
  apply (leaves_stages _ _ _ _ _ _ _ (spawn_client_listener_leaves fuel config fx socks [server]) Hl4)
    in H as [(e & -> & H)|(client & w5 & Hl5 & H)]; [right; by eauto|].
  assert (Hc : tidy (xt_try (run_local_socks5_client env socks target (sm_message config)))) by (unfold run_local_socks5_client; tidy).
  apply (stages_sure _ _ _ _ _ _ Hc (xt_try_Ok _) Hl5) in H as (smoke & w6 & Hl6 & H).
  apply (leaves_stages _ _ _ _ _ _ _ (stop_server_leaves client [server]) Hl6) in H as [(e & -> & H)|(o1 & w7 & Hl7 & H)]; [right; by eauto|].
  apply (leaves_stages _ _ _ _ _ _ _ (stop_server_leaves server []) Hl7) in H as [(e & -> & H)|(o2 & w8 & Hl8 & H)]; [by left|].
  left. revert H. apply (fun Ht : tidy _ => Ht [] w8 w' r Hl8). cbv zeta. unfold join_target. tidy.
Qed.

(** C40: every build task ends and cleans up.  When the calls without a time limit
    return - the processes a task runs to their end, the output of a child that
    has exited or been killed, its targets' threads, the answers to its own SOCKS5
    client -, the clock does not go back and a pause lasts at least as long as
    asked: then every task ends, whatever the server, the client listener and the
    relay do, for its loops that wait for them give up within 201 turns; and
    whether it passes or fails at any point, it has waited for every process it
    started, its server included, except for those that it failed to kill or to
    wait for; but for the test of the local listener, which may leave its server
    when it fails. *)
Theorem tasks_end_clean fuel cmd w :
  (forall n, xe_returns env n = true) -> (forall n, 0 <= xe_tick env n) -> (201 <= fuel)%nat -> running (xw_trace w) = [] ->
  exists w' r, xtask_main env fuel cmd w = Some (w', r) /\
    (Forall (lost (xw_trace w')) (running (xw_trace w')) \/
     exists prefix keys config noise_key spa proxy socks target iface decoy message no_sudo e server,
       cmd = SmokeSocks5ListenerLoopback prefix keys config noise_key spa proxy socks target iface decoy message no_sudo /\
       r = Err e /\ Forall (fun c => c = server \/ lost (xw_trace w') c) (running (xw_trace w'))).
Proof.
  intros Hreturns Htick Hfuel Hr. destruct (xtask_ends env Hreturns Htick fuel Hfuel cmd w) as [[w' r] H]. exists w', r. split; [exact H|].
  assert (Hl : left [] w) by (unfold left; by rewrite Hr).
  assert (Hnone : left [] w' -> Forall (lost (xw_trace w')) (running (xw_trace w'))).
  { intros Hl'. eapply Forall_impl; [exact Hl'|]. by intros c [?%not_elem_of_nil|?]. }
  pose proof build_all_tidy. pose proof fixture_tidy. pose proof @with_server_tidy as Hs. pose proof run_client_tidy.
  assert (Ht : forall m : xt unit, tidy m -> m w = Some (w', r) -> Forall (lost (xw_trace w')) (running (xw_trace w')))
    by (intros m Hm Hw; apply Hnone, (Hm [] _ _ _ Hl Hw)).
  destruct cmd; cbn [xtask_main] in H; [left; revert H; apply Ht..| |left; revert H; apply Ht].
  - unfold build_ebpf, run_status. tidy.
  - unfold prepare_spa_loopback. tidy; auto.
  - unfold smoke_noise_loopback, config_fixture, run_client_smoke. tidy; auto. apply Hs. tidy; auto.
  - unfold smoke_socks5_loopback, config_fixture, spawn_echo_target, join_target, run_client_socks5_smoke. tidy; auto. apply Hs. tidy; auto.
  - destruct (listener_smoke_leaves _ _ _ _ _ _ _ Hl H) as [Hl'|(e & server & -> & Hl')]; [left; by apply Hnone|].
    right. do 14 eexists. split; [done|]. split; [done|]. eapply Forall_impl; [exact Hl'|].
    intros c [->%list_elem_of_singleton|?]; [by left|by right].
  - unfold smoke_ghost_relay_loopback, config_fixture, spawn_http_content_target, join_target. tidy; auto. apply Hs, relay_smoke_tidy.
Qed.

(** The test's own SOCKS5 client waits for as long as the listener says nothing. *)
Theorem local_client_waits socks_port target_port message s w :
  xe_connect env (xw_step w) = Some s -> xe_returns env (S (xw_step w)) = false ->
  run_local_socks5_client env socks_port target_port message w = None.
Proof.
  intros Hc Hr. unfold run_local_socks5_client, mbind, xt_bind, look, act, act_wait. cbn. rewrite Hc. cbn. by rewrite Hr.
Qed.

End processes.
