(* ===== verification/XtaskDeploy.v ===== *)
(** The loopback fixture is a deployment: a server started on it comes up, and the
    identity written for the client opens its gate.  The page of the HTTP fixture
    is what the relay's normalizer makes the smoke test expect. *)

From S2P Require Import Prelude Text Protocol Crypto Keys Seal SpaPacket Fs AuthKeys Verifier Replay Runtime Tunnel Decoy RelayWire.
From S2P Require Import RelayEngine RelayWireFacts Normalize Config Startup Client ClientFacts ClientSetup ClientSetupFacts ClientTunnel.
From S2P Require Import Xtask XtaskSmoke.

(** * The files *)

Definition files_after (l : list (string * string)) (s : store) : store := foldl (fun s f => <[f.1 := f.2]> s) s l.

Lemma files_after_lookup l s p c : NoDup l.*1 -> (p, c) ∈ l -> files_after l s !! p = Some c.
Proof.
  induction l as [|[q d] l IH] using rev_ind; [by intros _ ?%not_elem_of_nil|].
  rewrite fmap_app, NoDup_app. intros (Hl & Hd & _) Hin. unfold files_after. rewrite foldl_app. cbn.
  apply elem_of_app in Hin as [Hin|[= <- <-]%list_elem_of_singleton]; [|by rewrite lookup_insert_eq].
  rewrite lookup_insert_ne; [by apply IH|]. intros ->. apply (Hd p); [|by apply list_elem_of_here].
  apply (list_elem_of_fmap_2 fst _ _ Hin).
Qed.

Lemma files_after_other l s p : p ∉ l.*1 -> files_after l s !! p = s !! p.
Proof.
  revert s; induction l as [|[q d] l IH]; intros s; [done|]. cbn. intros [Hq Hl]%not_elem_of_cons.
  unfold files_after in *. cbn. rewrite IH by done. by rewrite lookup_insert_ne.
Qed.

Section fixture_facts.
Context `{C : Crypto} (env : xt_env).

(** The disk is the test's own while it writes, and takes every write. *)
Hypothesis Hothers : forall n s, xe_files env n s = s.
Hypothesis Hwrites : forall n, xe_write env n = true.

Lemma each_write_path l : forall w w' r,
  each (fun f => write_path env f.1 f.2) l w = Some (w', r) -> r = Ok tt /\ xw_files w' = files_after l (xw_files w).
Proof.
  induction l as [|[p c] l IH]; intros w w' r; cbn [each]; [by intros [= <- <-]|].
  unfold mbind, xt_bind, write_path at 1, act. rewrite Hothers, Hwrites. intros H%IH. exact H.
Qed.

(** What the fixture's files hold. *)
Lemma fixture_files prefix keys config noise_key spa proxy w w' fx :
  let sk := xe_signing_key env (xw_step w) in
  let counters := server_counter_state config in
  write_loopback_fixture env prefix keys config noise_key spa proxy w = Some (w', Ok fx) ->
  fx = fixture_paths prefix keys config noise_key /\
  xw_files w' = delete (public_key_path noise_key) (delete noise_key
    (<[config := server_config_text noise_key counters keys spa proxy]> (delete counters (files_after (identity_files fx sk) (xw_files w))))).
Proof.
  cbn zeta. unfold write_loopback_fixture. unfold mbind at 1, xt_bind at 1, look, act. cbn [xw_step xw_files]. rewrite Hothers.
  unfold mbind at 1, xt_bind at 1.
  destruct (each _ _ _) as [[w1 r]|] eqn:E; [|done]. apply each_write_path in E as [-> Hf]. cbn [xw_files] in Hf.
  unfold remove_path, write_path, mbind, xt_bind, act. rewrite !Hothers, !Hwrites. cbn. rewrite !Hothers, Hf.
  intros [= <- <-]. by split.
Qed.

End fixture_facts.

(** * The server on it *)

(** What the text of the configuration says. *)
Definition fixture_config (noise_key counters keys : string) (spa proxy : Z) : ServerConfig := {|
  cfg_server := {| sv_identity := noise_key |};
  cfg_spa := {| sp_mode := ModeUdp;
                sp_common := Some {| sc_time_window := 300; sc_allow_ttl := 14400; sc_counter_state := counters |};
                sp_udp := Some {| su_port := spa; su_rate_limit := Some 5 |}; sp_https := None |};
  cfg_proxy := {| px_port := proxy; px_noise_pattern := "Noise_XK_25519_ChaChaPoly_BLAKE2s"; px_bind := "0.0.0.0" |};
  cfg_clients := {| cl_authorized_keys := keys |};
  cfg_decoy := None; cfg_logging := None; cfg_relay := None |}.

(** The variables a process sees: with [sudo], those given to [env]. *)
Definition assigned (name arg : string) : option string := bytes_str <$> strip_prefix (str_bytes (name +:+ "=")) (str_bytes arg).
Definition process_var (p : process) (name : string) : option string :=
  if bool_decide (pr_program p = "sudo"%string) then find_map (assigned name) (pr_args p)
  else find_map (fun v => if bool_decide (v.1 = name) then Some v.2 else None) (pr_env p).

(** The arguments of the server as its command line parser reads them. *)
Definition server_cli (config : SmokeNoiseConfig) : Cli := {|
  cli_config := sm_server_config config; cli_iface := sm_iface config;
  cli_ebpf_object := Some "target/bpfel-unknown-none/release/ghostbro-ebpf"%string;
  cli_decoy_bind := Some (sm_decoy_bind config) |}.

(** A start of process [p] on [files], where the kernel takes the filter and the
    Noise library generates a key pair. *)
Record starts `{C : Crypto} (p : process) (files : store) (private : bytes) (benv : boot_env) : Prop := {
  st_files : be_files benv = files;
  st_readable : forall path, be_unreadable benv path = false;
  st_vars : be_var benv = process_var p;
  st_key : be_generated benv = (private, x25519_base private) /\ length private = 32%nat;
  st_writes : be_id_write benv = (true, true);
  st_ebpf : be_ebpf benv = {| eb_load := true; eb_config_map := true; eb_config_set := true; eb_program := true;
                              eb_program_load := true; eb_attach := true; eb_allow_map := true; eb_ring := true |}
}.

Lemma server_vars config fx :
  process_var (server_process config fx) "RUST_LOG" = Some "debug"%string /\
  process_var (server_process config fx) "GHOSTBRO_GENERATE_IDENTITY" = Some "1"%string /\
  process_var (server_process config fx) "GHOSTBRO_SPA_COUNTER_INIT" = Some "1"%string.
Proof. unfold server_process. by destruct (sm_use_sudo config). Qed.

Section deployed.
Context `{C : Crypto} {L : CryptoLaws C} `{I : IdentityLib} {IL : IdentityLaws C I} {T : CounterToml} `{HL : HttpLib} {HLL : HttpLaws HL}.
Context (env : xt_env).
Context (toml_config : string -> option ServerConfig) (toml_keys : string -> option (list AuthorizedClientConfig)).

(** A new pair of keys, its public half next to the private one. *)
Lemma generated_public path private s :
  let ops := (load_static_private_key path (Some None) true (private, x25519_base private) (true, true)).1 in
  length private = 32%nat ->
  load_static_private_key path (Some None) true (private, x25519_base private) (true, true) = (ops, Ok private) /\
  read_file (fs_run ops s) (public_key_path path) = RdOk (line (b64_encode (x25519_base private))) /\
  (forall q, q <> path -> q <> public_key_path path -> fs_run ops s !! q = s !! q).
Proof.
  cbn zeta. intros Hl. unfold load_static_private_key. cbn [load_or_generate_static_key negb fst snd]. cbn [mbind result_bind].
  rewrite Hl. cbn [Nat.eqb]. split; [done|]. change (Tunnel.public_key_path path) with (public_key_path path). split.
  - unfold fs_run, read_file. cbn [foldl app fs_apply]. by rewrite !lookup_insert_eq.
  - intros q Hq1 Hq2. unfold fs_run. cbn [foldl app fs_apply]. by rewrite !lookup_insert_ne by done.
Qed.

(** The enrolment file admits the identity. *)
Lemma fixture_clients sk :
  exists c, into_clients [keygen_entry sk] = Ok [c] /\ ac_public_key c = ed_verifying_key sk /\ ac_tier c = Full /\
    ac_key_id c = key_id_for_public_key (ed_verifying_key sk) /\ ac_noise_public_key c = derive_noise_static_public_key sk.
Proof.
  unfold into_clients. cbn. unfold from_config. cbn. rewrite decode_encode_public_key. cbn.
  rewrite decode_encode_noise_key by (apply x25519_base_length). cbn. by eexists.
Qed.

Section files.
Context (config : SmokeNoiseConfig) (sk : bytes) (s0 : store).

Abbreviation prefix := (sm_identity_prefix config).
Abbreviation noise_key := (sm_server_noise_key config).
Abbreviation counters := (server_counter_state (sm_server_config config)).
Abbreviation paths := (fixture_paths prefix (sm_authorized_keys config) (sm_server_config config) noise_key).
Abbreviation config_text := (server_config_text noise_key counters (sm_authorized_keys config) (sm_spa_port config) (sm_proxy_port config)).
Abbreviation files := (delete (Xtask.public_key_path noise_key) (delete noise_key (<[sm_server_config config := config_text]>
  (delete counters (files_after (identity_files paths sk) s0))))).
Abbreviation meaning := (fixture_config noise_key counters (sm_authorized_keys config) (sm_spa_port config) (sm_proxy_port config)).

Hypothesis Hdistinct : NoDup ((identity_files paths sk).*1 ++ [sm_server_config config; counters; noise_key; Xtask.public_key_path noise_key]).

(** What is found on the disk. *)
Lemma fixture_lookups :
  (forall p c, (p, c) ∈ identity_files paths sk -> files !! p = Some c) /\
  files !! sm_server_config config = Some config_text /\ files !! noise_key = None /\ files !! counters = None.
Proof.
  apply NoDup_app in Hdistinct as (Hids & Hsep & Hrest).
  rewrite !NoDup_cons, !not_elem_of_cons in Hrest. destruct Hrest as ((Hsc & Hsn & Hsp & _) & (Hcn & Hcp & _) & (Hnp & _) & _).
  split_and!.
  - intros p c Hin. assert (Hp : p ∈ (identity_files paths sk).*1) by by apply (list_elem_of_fmap_2 fst) in Hin.
    apply Hsep in Hp. rewrite !not_elem_of_cons in Hp. destruct Hp as (? & ? & ? & ? & _).
    rewrite !lookup_delete_ne by done. rewrite lookup_insert_ne by done. rewrite lookup_delete_ne by done. by apply files_after_lookup.
  - rewrite !lookup_delete_ne by done. by rewrite lookup_insert_eq.
  - rewrite lookup_delete_ne by done. by rewrite lookup_delete_eq.
  - rewrite !lookup_delete_ne by done. rewrite lookup_insert_ne by done. by rewrite lookup_delete_eq.
Qed.

Context (private : bytes) (benv : boot_env).
Hypothesis Hkeys : toml_keys (authorized_keys_text sk) = Some [keygen_entry sk].
Hypothesis Hconfig : toml_config config_text = Some meaning.
Hypothesis Hstarts : starts (server_process config paths) files private benv.

Lemma starts_reads s path : boot_read benv s path = read_file s path.
Proof. unfold boot_read. by rewrite (st_readable _ _ _ _ Hstarts). Qed.

(** The server comes up. *)
Lemma fixture_gate cs :
  into_clients [keygen_entry sk] = Ok cs ->
  exists effects gate, boot_gate toml_keys benv (server_cli config) meaning = (effects, Ok gate) /\
    spa_port (gt_bpf gate) = sm_spa_port config /\ proxy_port (gt_bpf gate) = sm_proxy_port config /\
    gt_verifier gate = from_counters cs 300 ∅ (Some counters) private /\
    read_file (gt_files gate) (Xtask.public_key_path noise_key) = RdOk (line (b64_encode (x25519_base private))).
Proof.
  intros Hcs. destruct fixture_lookups as (Hids & Hcfg & Hid & Hctr). destruct Hstarts as [Hf _ Hv [Hg Hl] Hw Hb].
  destruct (generated_public noise_key private files Hl) as (Hgen & Hpub & Hother).
  pose proof (server_vars config paths) as (_ & Hv2 & Hv3).
  unfold boot_gate. cbn [fixture_config cfg_clients cl_authorized_keys cfg_server sv_identity cfg_spa cfg_proxy px_port].
  rewrite !starts_reads, Hf, Hv, Hv2, Hv3, Hg, Hw. unfold read_file at 1. rewrite (Hids (sm_authorized_keys config) (authorized_keys_text sk)) by by apply (list_elem_of_lookup_2 _ 5%nat).
  unfold load_authorized_keys. cbn [readable ok_or mbind result_bind]. rewrite Hkeys. cbn [ok_or]. rewrite Hcs.
  unfold read_file at 1. rewrite Hid. cbn [id_contents]. rewrite !bool_decide_eq_true_2 by done. rewrite Hgen.
  rewrite starts_reads.
  assert (Hno : read_file (fs_run (load_static_private_key noise_key (Some None) true (private, x25519_base private) (true, true)).1 files) counters = RdNotFound).
  { unfold read_file. apply NoDup_app in Hdistinct as (_ & _ & Hrest). rewrite !NoDup_cons, !not_elem_of_cons in Hrest.
    destruct Hrest as (_ & (Hcn & Hcp & _) & _). by rewrite Hother, Hctr. }
  cbn [fixture_config cfg_counter_state_path sp_common fmap option_fmap option_map default from_option id sc_counter_state].
  change (cfg_counter_state_path _) with counters. rewrite Hno. unfold load. cbn [load_counter_state mbind result_bind].
  unfold load_and_attach. rewrite Hb. cbn. eexists _, _. split; [done|]. cbn. split_and!; [done..|exact Hpub].
Qed.

Lemma fixture_boots cs :
  into_clients [keygen_entry sk] = Ok cs ->
  exists effects server gate, boot toml_config toml_keys benv (server_cli config) = (effects, Ok server) /\ sr_gate server = Some gate /\
    spa_port (gt_bpf gate) = sm_spa_port config /\ proxy_port (gt_bpf gate) = sm_proxy_port config /\
    gt_verifier gate = from_counters cs 300 ∅ (Some counters) private /\
    read_file (gt_files gate) (Xtask.public_key_path noise_key) = RdOk (line (b64_encode (x25519_base private))).
Proof.
  intros Hcs. destruct (fixture_gate cs Hcs) as (effects & gate & Hg & Hrest).
  destruct fixture_lookups as (_ & Hcfg & _). pose proof (server_vars config paths) as (Hv1 & _).
  unfold boot. cbn [server_cli cli_ebpf_object cli_config]. rewrite starts_reads, (st_files _ _ _ _ Hstarts). unfold read_file at 1.
  rewrite Hcfg. unfold config_load. cbn [readable ok_or mbind result_bind]. rewrite Hconfig. cbn [ok_or].
  unfold init_logging. rewrite (st_vars _ _ _ _ Hstarts), Hv1.
  assert (Hr : exists app, router false "/api/v1/telemetry" 204 [] None = Ok app).
  { unfold router. assert (status_from_u16 204 = Some 204) as -> by (apply status_range; lia). cbn. by eexists. }
  destruct Hr as [app Hr]. change (router _ _ _ _ _) with (router false "/api/v1/telemetry" 204 [] None). rewrite Hr, Hg.
  eexists _, _, gate. split; [done|]. by split.
Qed.

End files.

(** C21: the fixture of the smoke tests is a working deployment.  When the
    enrolment and configuration files are parsed as what they say, the server that
    a smoke test starts on them - with or without sudo - loads the filter with
    their ports and serves, with a fresh identity whose public half is where the
    client commands are told to read it; and the client command with the
    fixture's identity and counter makes a knock that this server accepts, bound
    to the Noise key of that identity. *)
Theorem fixture_deploys config w w' fx private benv i io src now ts ops :
  let sk := xe_signing_key env (xw_step w) in
  let prefix := sm_identity_prefix config in
  let counters := server_counter_state (sm_server_config config) in
  let noise_key := sm_server_noise_key config in
  (forall n s, xe_files env n s = s) -> (forall n, xe_write env n = true) ->
  write_loopback_fixture env prefix (sm_authorized_keys config) (sm_server_config config) noise_key
    (sm_spa_port config) (sm_proxy_port config) w = Some (w', Ok fx) ->
  NoDup ((identity_files fx sk).*1 ++ [sm_server_config config; counters; noise_key; public_key_path noise_key]) ->
  prefix <> ""%string -> last (str_bytes prefix) <> Some slash -> length sk = 32%nat ->
  toml_keys (authorized_keys_text sk) = Some [keygen_entry sk] ->
  toml_config (server_config_text noise_key counters (sm_authorized_keys config) (sm_spa_port config) (sm_proxy_port config))
    = Some (fixture_config noise_key counters (sm_authorized_keys config) (sm_spa_port config) (sm_proxy_port config)) ->
  starts (server_process config fx) (xw_files w') private benv ->
  ki_identity i = read_file (xw_files w') (fx_key_path fx) ->
  ki_counter i = read_file (xw_files w') (counter_path None (fx_key_path fx)) ->
  ki_clock i = Some ts -> 0 <= ts <= i64_max -> ki_write i = WrDone -> (forall n, length (ki_fill i n) = n) ->
  Z.abs (now - ts) <= 300000 ->
  let v := from_counters (match into_clients [keygen_entry sk] with Ok cs => cs | Err _ => [] end) 300 ∅ (Some counters) private in
  (forall ctr, 0 <= ctr <= i64_max ->
     persist_counters (with_counter v (key_id_for_public_key (ed_verifying_key sk)) ctr) io = (ops ctr, Ok tt)) ->
  exists effects server gate written payload ctr v' acc,
    boot toml_config toml_keys benv (server_cli config) = (effects, Ok server) /\ sr_gate server = Some gate /\
    spa_port (gt_bpf gate) = sm_spa_port config /\ proxy_port (gt_bpf gate) = sm_proxy_port config /\ gt_verifier gate = v /\
    read_noise_public_key_array (read_file (gt_files gate) (public_key_path (fx_server_noise_key fx))) = Ok (server_static_pubkey v) /\
    spa_payload Udp i (server_static_pubkey v) = (Some written, Ok (payload, ctr)) /\
    verify (gt_verifier gate) io payload src now = (v', ops ctr, Ok acc) /\
    acc_noise_public_key acc = derive_noise_static_public_key sk.
Proof.
  cbn zeta. intros Ho Hw Hrun Hd Hp0 Hp1 Hsk Htk Htc Hst Hid Hct Hclk Hts Hwr Hfill Hwin Hper.
  apply (fixture_files env Ho Hw) in Hrun as [-> Hf].
  destruct (fixture_clients (xe_signing_key env (xw_step w))) as (c & Hcs & Hpk & Htier & Hkid & Hnpk). rewrite Hcs in *.
  rewrite Hf in Hst, Hid, Hct.
  destruct (fixture_boots config _ _ Hd private benv Htk Htc Hst [c] Hcs) as (effects & server & gate & Hb & Hg & Hs1 & Hs2 & Hv & Hpub).
  destruct (fixture_lookups config _ (xw_files w) Hd) as (Hids & _).
  exists effects, server, gate.
  assert (Hkey : read_signing_key (ki_identity i) (ki_prompt i) = Ok (xe_signing_key env (xw_step w))).
  { rewrite Hid. unfold read_file. cbn [fx_key_path fixture_paths]. erewrite Hids by (apply list_elem_of_here).
    by destruct (identity_reads_back (fun _ n => repeat x00 n) _ (sm_identity_prefix config) (sm_identity_prefix config) (ki_prompt i) Hsk
      ltac:(intros; apply repeat_length)) as [_ Hr]. }
  destruct (client_knock_ok (from_counters [c] 300 ∅ (Some (server_counter_state (sm_server_config config))) private)
    (xe_signing_key env (xw_step w)) c i io src now ts Udp ops) as (written & payload & ctr & v' & acc & Hpay & Hver & _ & (_ & Hna & _) & _);
    [split; [done| |done|done]; cbn; unfold clients_by_key_id; cbn; rewrite Hkid; apply lookup_insert_eq| |done..|].
  { exists 0. rewrite Hct. cbn [fx_key_path fixture_paths counter_path default from_option].
    rewrite default_counter_path_keygen by done. unfold read_file. rewrite (Hids _ (line "0")) by by apply (list_elem_of_lookup_2 _ 4%nat).
    split_and!; [done|done|unfold i64_max; lia|done]. }
  exists written, payload, ctr, v', acc. rewrite Hv. split_and!; try done.
  - cbn [fx_server_noise_key fixture_paths]. rewrite Hpub. unfold read_noise_public_key_array, read_noise_public_key.
    unfold client_decode_noise_public_key, line. rewrite str_bytes_app, str_bytes_str, trim_line by apply b64_graphic.
    rewrite trim_graphic, bytes_str_bytes, b64_decode_encode by apply b64_graphic. cbn.
    rewrite x25519_base_length. cbn. by rewrite x25519_base_length.
  - by rewrite Hna.
Qed.

End deployed.
