(* ===== verification/ClientMain.v ===== *)
(** The command line of the client: [Command] and [main] of
    [ghostbro-client/src/main.rs].

    A command runs on the files as they are; every connection it makes is a
    session, which takes the next inputs of the outside world.  Parsing of the
    arguments ([clap]) and printing are left out: a command's value is what it
    would print.  [connect] is modelled up to its accept loop. *)

From S2P Require Import Prelude Text NetAddr Protocol Crypto Keys SpaPacket Fs AuthKeys Verifier Tunnel RelayWire.
From S2P Require Import Client ClientSetup ClientTunnel.

Inductive Command :=
| Keygen (output : string) (plaintext_debug : bool)
| ServerKeygen (output : string)
| Enroll (server_key endpoint : string) (spa_mode : SpaTransport) (spa_port : Z) (output : string)
| Connect (config : option string) (identity_key : string) (server_key : option string)
    (spa_endpoint proxy_endpoint : option SocketAddr) (listen : SocketAddr) (spa_mode : option SpaTransport)
    (https_spa_url : option string) (allow_ttl_seconds : Z) (counter_file : option string)
| Revoke (config : string) (identity_key : option string)
| SendUdpSpa (identity_key server_key : string) (endpoint : SocketAddr) (counter_file : option string)
| SendHttpsSpa (identity_key server_key url : string) (counter_file : option string)
| ConnectOnce (identity_key server_key : string) (spa_endpoint proxy_endpoint : SocketAddr) (message : string)
    (spa_mode : SpaTransport) (https_spa_url counter_file : option string)
| ConnectSocks5Once (identity_key server_key : string) (spa_endpoint proxy_endpoint : SocketAddr) (target message : string)
    (spa_mode : SpaTransport) (https_spa_url counter_file : option string)
| ConnectGhostRelayOnce (identity_key server_key : string) (spa_endpoint proxy_endpoint : SocketAddr)
    (spa_mode : SpaTransport) (https_spa_url counter_file : option string)
| RelaySubmitUrl (identity_key server_key : string) (spa_endpoint proxy_endpoint : SocketAddr) (url : string)
    (normalize : bool) (spa_mode : SpaTransport) (https_spa_url counter_file : option string)
| RelaySubmitGit (identity_key server_key : string) (spa_endpoint proxy_endpoint : SocketAddr) (git_url : string)
    (spa_mode : SpaTransport) (https_spa_url counter_file : option string)
| RelaySubmitPackage (identity_key server_key : string) (spa_endpoint proxy_endpoint : SocketAddr)
    (ecosystem name version : string) (spa_mode : SpaTransport) (https_spa_url counter_file : option string)
| RelayList (identity_key server_key : string) (spa_endpoint proxy_endpoint : SocketAddr)
    (spa_mode : SpaTransport) (https_spa_url counter_file : option string)
| RelayDownload (identity_key server_key : string) (spa_endpoint proxy_endpoint : SocketAddr) (job_id output : string)
    (artifact : RelayArtifact) (spa_mode : SpaTransport) (https_spa_url counter_file : option string)
| RelayDelete (identity_key server_key : string) (spa_endpoint proxy_endpoint : SocketAddr) (job_id : string)
    (spa_mode : SpaTransport) (https_spa_url counter_file : option string).

Inductive MainError :=
| MeClient (e : ClientError)
| MeSetup (e : SetupError)
| MeNet (e : NetError)
| MeOutput (path : string).

(** What a command prints when it succeeds. *)
Inductive CliOutput :=
| OutDone
| OutEntry (entry : AuthorizedClientConfig)
| OutListening (candidates : list ResolvedConnectConfig) (policy : FailoverPolicy) (interval : Z)
| OutRevoked (outcomes : list revoke_outcome)
| OutSent (counter : Z)
| OutBytes (b : bytes).

(** What one session meets: the prompt, the clock, the random numbers, how
    the write of the counter ends, the network,
    and whether the server ever answers the handshake or ends the connection:
    the client reads its answer with no timeout. *)
Record session_io := {
  ss_prompt : option string;
  ss_clock : option Z;
  ss_write : write_outcome;
  ss_next_u32 : Z;
  ss_fill : nat -> bytes;
  ss_ephemeral : bytes;
  ss_net : net_input;
  ss_answers : bool
}.

(** What the commands that make no session meet: the new key, the passphrase
    typed twice, random numbers, the Noise library's new keys, which writes
    succeed, whether the local port can be bound, the answers to POST requests. *)
Record setup_io := {
  se_signing_key : bytes;
  se_first : option string;
  se_second : option string;
  se_fill : nat -> nat -> bytes;
  se_keypair : option (bytes * bytes);
  se_write_ok : nat -> bool;
  se_mkdir_ok : bool;
  se_bind_ok : bool;
  se_post : string -> string -> option Z
}.

(** The client's side of the world: its files, the number of sessions made, and
    what it did. *)
Record client_world := {
  cw_files : store;
  cw_sessions : nat;
  cw_effects : list client_effect
}.

Section client_main.
Context `{C : Crypto} `{I : IdentityLib} `{NH : NoiseHandshake} `{CT : ClientToml}.
Context (sessions : nat -> session_io) (setup : setup_io).

(** A path that can be read gives the file that is there. *)
Context (readable : string -> bool).

Definition read_path (w : client_world) (path : string) : read_outcome :=
  if readable path then read_file (cw_files w) path else RdFailed.

Definition effect_files (files : store) (e : client_effect) : store :=
  match e with EffCounter path contents => <[path := contents]> files | _ => files end.

Definition knock_input_of (w : client_world) (identity_key path : string) : knock_input :=
  let s := sessions (cw_sessions w) in
  {| ki_identity := read_path w identity_key; ki_prompt := ss_prompt s; ki_clock := ss_clock s;
     ki_counter := read_path w path; ki_write := ss_write s; ki_next_u32 := ss_next_u32 s;
     ki_fill := ss_fill s; ki_ephemeral := ss_ephemeral s |}.

(** The world after the effects of one session. *)
Definition after_session (w : client_world) (effects : list client_effect) : client_world := {|
  cw_files := foldl effect_files (cw_files w) effects;
  cw_sessions := S (cw_sessions w);
  cw_effects := cw_effects w ++ effects |}.

(** One session: a knock, perhaps with a connection. *)
Definition session {A} (w : client_world) (identity_key : string) (counter_file : option string)
    (run : knock_input -> net_input -> string -> list client_effect * result NetError A) : client_world * result NetError A :=
  let path := counter_path counter_file identity_key in
  let '(effects, r) := run (knock_input_of w identity_key path) (ss_net (sessions (cw_sessions w))) path in
  (after_session w effects, r).

(** Operations on files. *)
Definition with_files (w : client_world) (ops : list fs_op) : client_world :=
  {| cw_files := fs_run ops (cw_files w); cw_sessions := cw_sessions w; cw_effects := cw_effects w |}.

(** An exchange of a relay command; of the errors, those of the network are all
    [CeConnect] here. *)
Definition relay_exchange (identity_key server_key : string) (spa_endpoint proxy_endpoint : SocketAddr)
    (spa_mode : SpaTransport) (https_spa_url counter_file : option string) (w : client_world) (request : bytes)
    : client_world * result ClientError bytes :=
  let '(w', r) := session w identity_key counter_file (fun i n path =>
    run_relay_request i n path (read_path w server_key) spa_endpoint proxy_endpoint spa_mode https_spa_url request) in
  (w', map_err (fun e => match e with NeClient e => e | _ => CeConnect end) r).

Definition finish {A} (out : A -> CliOutput) (s : client_world * result NetError A) : client_world * result MainError CliOutput :=
  (s.1, map_err MeNet (out <$> s.2)).
Definition finish_relay (s : client_world * result ClientError bytes) : client_world * result MainError CliOutput :=
  (s.1, map_err MeClient (OutBytes <$> s.2)).

(** [main]; [None] when the download loop has not ended after [fuel] requests. *)
Definition client_main (fuel : nat) (w : client_world) (cmd : Command) : option (client_world * result MainError CliOutput) :=
  match cmd with
  | Keygen output plaintext_debug =>
      let '(ops, r) := keygen output plaintext_debug (se_signing_key setup) (se_first setup) (se_second setup)
                         (se_fill setup) (se_write_ok setup) in
      Some (with_files w ops, map_err MeSetup (OutEntry <$> r))
  | ServerKeygen output =>
      let '(ops, r) := server_keygen output (se_keypair setup) (se_write_ok setup) in
      Some (with_files w ops, map_err MeSetup ((fun _ => OutDone) <$> r))
  | Enroll server_key endpoint spa_mode spa_port output =>
      let '(ops, r) := enroll server_key endpoint spa_mode spa_port output (se_mkdir_ok setup) (se_write_ok setup 0%nat) in
      Some (with_files w ops, map_err MeSetup ((fun _ => OutDone) <$> r))
  | Connect config _ server_key spa_endpoint proxy_endpoint _ spa_mode https_spa_url allow_ttl_seconds _ =>
      Some (w, '(resolved, policy) ← map_err MeSetup (resolve_connect_configs (read_path w <$> config)
                 (read_path w <$> server_key) spa_endpoint proxy_endpoint spa_mode https_spa_url);
               interval ← map_err MeNet (connect_listener_start resolved (se_bind_ok setup) allow_ttl_seconds);
               Ok (OutListening resolved policy interval))
  | Revoke config identity_key =>
      Some (w, map_err MeSetup (OutRevoked <$> revoke (se_post setup) (read_path w config)
                 ((fun path => (read_path w path, ss_prompt (sessions (cw_sessions w)))) <$> identity_key)))
  | SendUdpSpa identity_key server_key endpoint counter_file =>
      match read_noise_public_key_array (read_path w server_key) with
      | Err e => Some (w, Err (MeSetup e))
      | Ok key => Some (finish OutSent (session w identity_key counter_file (fun i n path => send_udp_spa i n path key endpoint)))
      end
  | SendHttpsSpa identity_key server_key url counter_file =>
      match read_noise_public_key_array (read_path w server_key) with
      | Err e => Some (w, Err (MeSetup e))
      | Ok key => Some (finish OutSent (session w identity_key counter_file (fun i n path => send_https_spa i n path key url)))
      end
  | ConnectOnce identity_key server_key spa_endpoint proxy_endpoint message spa_mode https_spa_url counter_file =>
      Some (finish OutBytes (session w identity_key counter_file (fun i n path =>
        connect_once i n path (read_path w server_key) spa_endpoint proxy_endpoint message spa_mode https_spa_url)))
  | ConnectSocks5Once identity_key server_key spa_endpoint proxy_endpoint target message spa_mode https_spa_url counter_file =>
      Some (finish OutBytes (session w identity_key counter_file (fun i n path =>
        connect_socks5_once i n path (read_path w server_key) spa_endpoint proxy_endpoint target message spa_mode https_spa_url)))
  | ConnectGhostRelayOnce identity_key server_key spa_endpoint proxy_endpoint spa_mode https_spa_url counter_file =>
      Some (finish (fun _ => OutDone) (session w identity_key counter_file (fun i n path =>
        connect_ghost_relay_once i n path (read_path w server_key) spa_endpoint proxy_endpoint spa_mode https_spa_url)))
  | RelaySubmitUrl identity_key server_key spa_endpoint proxy_endpoint url normalize spa_mode https_spa_url counter_file =>
      Some (finish_relay (client_relay_submit_url
        (relay_exchange identity_key server_key spa_endpoint proxy_endpoint spa_mode https_spa_url counter_file) w url normalize))
  | RelaySubmitGit identity_key server_key spa_endpoint proxy_endpoint git_url spa_mode https_spa_url counter_file =>
      Some (finish_relay (client_relay_submit_git
        (relay_exchange identity_key server_key spa_endpoint proxy_endpoint spa_mode https_spa_url counter_file) w git_url))
  | RelaySubmitPackage identity_key server_key spa_endpoint proxy_endpoint ecosystem name version spa_mode https_spa_url counter_file =>
      Some (finish_relay (client_relay_submit_package
        (relay_exchange identity_key server_key spa_endpoint proxy_endpoint spa_mode https_spa_url counter_file) w ecosystem name version))
  | RelayList identity_key server_key spa_endpoint proxy_endpoint spa_mode https_spa_url counter_file =>
      Some (finish_relay (client_relay_list
        (relay_exchange identity_key server_key spa_endpoint proxy_endpoint spa_mode https_spa_url counter_file) w))
  | RelayDownload identity_key server_key spa_endpoint proxy_endpoint job_id output artifact spa_mode https_spa_url counter_file =>
      '(w, r) ← client_relay_download
        (relay_exchange identity_key server_key spa_endpoint proxy_endpoint spa_mode https_spa_url counter_file)
        fuel w job_id artifact 0 [];
      Some (match r with
            | Err e => (w, Err (MeClient e))
            | Ok body =>
                if negb (se_write_ok setup 0%nat) then (w, Err (MeOutput output))
                else (with_files w (write_file output (bytes_str body)), Ok (OutBytes body))
            end)
  | RelayDelete identity_key server_key spa_endpoint proxy_endpoint job_id spa_mode https_spa_url counter_file =>
      Some (finish_relay (client_relay_delete
        (relay_exchange identity_key server_key spa_endpoint proxy_endpoint spa_mode https_spa_url counter_file) w job_id))
  end.

(** Commands one after the other; what they print is not looked at. *)
Fixpoint client_run (fuel : nat) (w : client_world) (cmds : list Command) : option client_world :=
  match cmds with
  | [] => Some w
  | cmd :: rest => '(w, _) ← client_main fuel w cmd; client_run fuel w rest
  end.

End client_main.
