(* ===== verification/ClientMainFacts.v ===== *)
(** Commands of the client, one after the other: the counters of the knocks. *)

From S2P Require Import Prelude Text Numerals NetAddr Protocol Crypto Keys SpaPacket Fs AuthKeys Verifier VerifierFacts Tunnel RelayWire.
From S2P Require Import Client ClientFacts ClientSetup ClientTunnel ClientMain.

(** * Traces of knocks *)

(** What the counter's file says after writing [n]. *)
Definition counter_line (n : Z) : string := dec n +:+ bytes_str [x0a].

(** The number a text is read as, if it is one. *)
Definition counter_of (text : string) : option Z := from_str_radix 10 (umax 64) (trim (str_bytes text)).

(** The number in the counter's file, if it is one. *)
Definition stored_counter (files : store) (path : string) : option Z :=
  match files !! path with Some contents => counter_of contents | None => Some 0 end.

Lemma counter_of_line n : in_u 64 n -> counter_of (counter_line n) = Some n.
Proof. unfold in_u. intros Hn. apply parse_dec_line. lia. Qed.

(** A text that no complete write of a counter leaves. *)
Definition torn (text : string) : Prop := forall n, text <> counter_line n.

Lemma fs_write_torn n kept text : fs_write (counter_line n) (WrTorn kept) = Some text -> torn text.
Proof.
  cbn [fs_write]. intros [= <-] m He. apply (f_equal str_bytes) in He. unfold counter_line in He.
  rewrite str_bytes_str, !str_bytes_app, !str_bytes_str in He. rewrite length_app in He. cbn [length] in He.
  rewrite take_app_le in He by lia.
  assert (Hin : x0a ∈ take (Nat.min kept (length (str_bytes (dec n)) + 1 - 1)) (str_bytes (dec n)))
    by (rewrite He; apply elem_of_app; right; by left).
  apply elem_of_take in Hin as (k & Hk & _). apply list_elem_of_lookup_2 in Hk.
  pose proof (dec_graphic n) as Hg. rewrite Forall_forall in Hg. by destruct (Hg _ Hk).
Qed.

Section trace.
Context `{C : Crypto}.

(** A packet with counter [n]. *)
Definition carries (n : Z) (payload : bytes) : Prop :=
  exists next_u32 fill eph sk m ts key, payload = build next_u32 fill eph sk m ts n PacketSource key.

(** What may follow the write of a counter in a session: its packet, and the
    connection. *)
Inductive sends (n : Z) : list client_effect -> Prop :=
| sends_nothing : sends n []
| sends_udp endpoint payload : carries n payload -> sends n [EffUdp endpoint payload]
| sends_post url payload : carries n payload -> sends n [EffPost url payload]
| sends_tcp effects endpoint : sends n effects -> sends n (effects ++ [EffTcp endpoint]).

(** Above, until the [u64] is exhausted. *)
Definition above (c n : Z) : Prop := c < n \/ n = umax 64.

Lemma above_trans a b c : in_u 64 b -> in_u 64 c -> above a b -> above b c -> above a c.
Proof. unfold above, in_u. lia. Qed.

(** The effects of knocks on the file at [path], from the counter it holds to the
    one it is left with: each knock goes on from the counter that is there, and
    writes its own before anything leaves; a write that fails tears the file. *)
Inductive knock_trace (path : string) : option Z -> list client_effect -> option Z -> Prop :=
| trace_nil s : knock_trace path s [] s
| trace_knock c n rest effects s :
    above c n -> in_u 64 n -> sends n rest -> knock_trace path (Some n) effects s ->
    knock_trace path (Some c) (EffCounter path (counter_line n) :: rest ++ effects) s
| trace_torn s text effects s' :
    torn text -> knock_trace path (counter_of text) effects s' ->
    knock_trace path s (EffCounter path text :: effects) s'.

Lemma knock_trace_app path s1 e1 s2 e2 s3 :
  knock_trace path s1 e1 s2 -> knock_trace path s2 e2 s3 -> knock_trace path s1 (e1 ++ e2) s3.
Proof.
  induction 1 as [s|c n rest effects s Hc Hn Hs _ IH|s text effects s' Ht _ IH]; intros H2; [done| |].
  - cbn [app]. rewrite <-app_assoc. apply trace_knock; [done..|by apply IH].
  - cbn [app]. apply trace_torn; [done|by apply IH].
Qed.

Definition packet_of (e : client_effect) : option bytes :=
  match e with EffUdp _ payload | EffPost _ payload => Some payload | _ => None end.

(** Of what follows the write of a counter, the packet is the first, and nothing
    is a write. *)
Lemma sends_lookup n rest k e :
  sends n rest -> rest !! k = Some e ->
  (forall payload, packet_of e = Some payload -> k = 0%nat /\ carries n payload) /\ (forall p text, e <> EffCounter p text).
Proof.
  intros Hs. revert k e. induction Hs as [|endpoint p Hp|url p Hp|effects endpoint Hs IH]; intros k e.
  - done.
  - destruct k; [|done]. intros [= <-]. split; [by intros ? [= <-]|done].
  - destruct k; [|done]. intros [= <-]. split; [by intros ? [= <-]|done].
  - intros [H|[_ H]]%lookup_app_Some; [by apply IH|]. destruct (k - _)%nat as [|m]; [|by destruct m].
    injection H as <-. by split.
Qed.

Lemma sends_no_write n rest k p text : sends n rest -> rest !! k <> Some (EffCounter p text).
Proof. intros Hs H. destruct (sends_lookup _ _ _ _ Hs H) as [_ Hno]. by destruct (Hno p text). Qed.

(** Every packet comes right after the write of its counter. *)
Lemma knock_trace_ahead path s effects s' k e payload :
  knock_trace path s effects s' -> effects !! k = Some e -> packet_of e = Some payload ->
  exists j n, k = S j /\ effects !! j = Some (EffCounter path (counter_line n)) /\ in_u 64 n /\ carries n payload.
Proof.
  intros Htr He Hp. revert k He. induction Htr as [s|c n rest effects s Hc Hn Hs _ IH|s text effects s' Ht _ IH]; intros k He; [done| |].
  - destruct k as [|k]; [by injection He as <-|]. cbn in He. apply lookup_app_Some in He as [He|[Hk He]].
    + destruct (sends_lookup _ _ _ _ Hs He) as [H _]. destruct (H _ Hp) as [-> Hc']. by exists 0%nat, n.
    + destruct (IH _ He) as (j & m & Hj & Hl & Hm & Hcar). exists (S (length rest + j))%nat, m. split; [lia|]. split; [|done].
      change ((rest ++ effects) !! (length rest + j)%nat = Some (EffCounter path (counter_line m))).
      rewrite lookup_app_r by lia. by replace (length rest + j - length rest)%nat with j by lia.
  - destruct k as [|k]; [by injection He as <-|]. destruct (IH _ He) as (j & m & -> & ?). by exists (S j), m.
Qed.

(** From effect [i] on and before effect [j], every write of a counter is whole. *)
Definition intact (effects : list client_effect) (i j : nat) : Prop :=
  forall k p text, (i <= k < j)%nat -> effects !! k = Some (EffCounter p text) -> exists n, text = counter_line n.

Lemma intact_drop effects m i j : intact effects i j -> (i <= m)%nat -> intact (drop m effects) 0 (j - m).
Proof. intros H Hm k p text Hk. rewrite lookup_drop. apply H. lia. Qed.

Lemma counter_line_inj a b : in_u 64 a -> in_u 64 b -> counter_line a = counter_line b -> a = b.
Proof.
  unfold in_u. intros Ha Hb He. pose proof (parse_dec_line (umax 64) a ltac:(lia)) as H1. pose proof (parse_dec_line (umax 64) b ltac:(lia)) as H2.
  unfold counter_line in He. rewrite He, H2 in H1. congruence.
Qed.

(** A counter is above the one the file held at the start. *)
Lemma knock_trace_above path c effects s j b :
  knock_trace path (Some c) effects s -> intact effects 0 j ->
  effects !! j = Some (EffCounter path (counter_line b)) -> in_u 64 b -> above c b.
Proof.
  intros Htr. remember (Some c) as s0 eqn:E. revert c E j. induction Htr as [s|c n rest effects s Hc Hn Hs _ IH|s text effects s' Ht _ IH];
    intros c0 E j Hi Hj Hb; [done| |].
  - injection E as ->. destruct j as [|j]; [injection Hj as Hj; by rewrite (counter_line_inj _ _ Hb Hn (eq_sym Hj))|].
    cbn in Hj. apply lookup_app_Some in Hj as [Hj|[Hl Hj]]; [by destruct (sends_no_write _ _ _ _ _ Hs Hj)|].
    apply (above_trans _ n); [done..|]. eapply (IH _ eq_refl); [|exact Hj|done].
    apply (intact_drop _ (S (length rest))) in Hi; [|lia]. cbn [drop] in Hi. rewrite drop_app_length in Hi.
    by replace (S j - S (length rest))%nat with (j - length rest)%nat in Hi by lia.
  - exfalso. destruct j as [|j]; [injection Hj as ->; by apply (Ht b)|].
    destruct (Hi 0%nat path text ltac:(lia) eq_refl) as [n ->]. by apply (Ht n).
Qed.

(** What follows a whole write goes on from its counter. *)
Lemma knock_trace_after path s effects s' i a :
  knock_trace path s effects s' -> effects !! i = Some (EffCounter path (counter_line a)) -> in_u 64 a ->
  exists rest tail, drop (S i) effects = rest ++ tail /\ sends a rest /\ knock_trace path (Some a) tail s'.
Proof.
  intros Htr Hi Ha. revert i Hi. induction Htr as [s|c n rest effects s Hc Hn Hs Htl IH|s text effects s' Ht _ IH]; intros i Hi; [done| |].
  - destruct i as [|i].
    + injection Hi as Hi. apply counter_line_inj in Hi as ->; [|done..]. exists rest, effects. done.
    + cbn in Hi. apply lookup_app_Some in Hi as [Hi|[Hl Hi]]; [by destruct (sends_no_write _ _ _ _ _ Hs Hi)|].
      destruct (IH _ Hi) as (rest' & tail & Hd & Hr). exists rest', tail. split; [|done]. rewrite <-Hd. cbn [drop].
      rewrite drop_app_ge by lia. f_equal. lia.
  - destruct i as [|i]; [injection Hi as ->; by destruct (Ht a)|]. destruct (IH i Hi) as (rest' & tail & Hd & Hr).
    by exists rest', tail.
Qed.

(** Of two counters written whole, with no torn write between, the later is above. *)
Lemma knock_trace_ascends path s effects s' i j a b :
  knock_trace path s effects s' -> (i < j)%nat -> intact effects i j ->
  effects !! i = Some (EffCounter path (counter_line a)) -> in_u 64 a ->
  effects !! j = Some (EffCounter path (counter_line b)) -> in_u 64 b -> above a b.
Proof.
  intros Htr Hij Hin Hi Ha Hj Hb. destruct (knock_trace_after _ _ _ _ _ _ Htr Hi Ha) as (rest & tail & Hd & Hs & Ht).
  assert (Hj' : (rest ++ tail) !! (j - S i)%nat = Some (EffCounter path (counter_line b)))
    by (rewrite <-Hd, lookup_drop; by replace (S i + (j - S i))%nat with j by lia).
  apply lookup_app_Some in Hj' as [Hj'|[Hl Hj']]; [by destruct (sends_no_write _ _ _ _ _ Hs Hj')|].
  eapply knock_trace_above; [exact Ht| |exact Hj'|done].
  apply (intact_drop _ (S i + length rest)) in Hin; [|lia]. rewrite <-drop_drop, Hd, drop_app_length in Hin.
  by replace (j - S i - length rest)%nat with (j - (S i + length rest))%nat by lia.
Qed.

(** Where nothing is written, the counter stays. *)
Lemma knock_trace_quiet path s effects s' :
  knock_trace path s effects s' -> (forall p text, EffCounter p text ∉ effects) -> s' = s.
Proof. destruct 1 as [|? n|? text]; intros Hq; [done|..]; exfalso; eapply Hq; by left. Qed.

Lemma knock_trace_ends path s effects s' j b :
  knock_trace path s effects s' -> effects !! j = Some (EffCounter path (counter_line b)) -> in_u 64 b ->
  (forall p text, EffCounter p text ∉ drop (S j) effects) -> s' = Some b.
Proof.
  intros Htr Hj Hb Hq. destruct (knock_trace_after _ _ _ _ _ _ Htr Hj Hb) as (rest & tail & Hd & _ & Ht).
  eapply knock_trace_quiet; [exact Ht|]. intros p text Hin. apply (Hq p text). rewrite Hd. apply elem_of_app. by right.
Qed.

End trace.

(** * Commands *)

(** The path of the counter a command's knocks take theirs from. *)
Definition knock_path (cmd : Command) : option string :=
  match cmd with
  | Keygen _ _ | ServerKeygen _ | Enroll _ _ _ _ _ | Connect _ _ _ _ _ _ _ _ _ _ | Revoke _ _ => None
  | SendUdpSpa key _ _ file | SendHttpsSpa key _ _ file | ConnectOnce key _ _ _ _ _ _ file
  | ConnectSocks5Once key _ _ _ _ _ _ _ file | ConnectGhostRelayOnce key _ _ _ _ _ file
  | RelaySubmitUrl key _ _ _ _ _ _ _ file | RelaySubmitGit key _ _ _ _ _ _ file
  | RelaySubmitPackage key _ _ _ _ _ _ _ _ file | RelayList key _ _ _ _ _ file
  | RelayDownload key _ _ _ _ _ _ _ _ file | RelayDelete key _ _ _ _ _ _ file => Some (counter_path file key)
  end.

(** The files a command writes besides its counter. *)
Definition written_paths (cmd : Command) : list string :=
  match cmd with
  | Keygen output _ => map (String.app output) [".key"; ".pub"; ".keyid"; ".noise"; ".counter"]%string
  | ServerKeygen output => map (String.app output) [".key"; ".pub"]%string
  | Enroll _ _ _ _ output => [output]
  | RelayDownload _ _ _ _ _ output _ _ _ _ => [output]
  | _ => []
  end.

(** The command knocks with the counter at [path] if it knocks, and leaves that
    file alone otherwise. *)
Definition uses_counter (path : string) (cmd : Command) : Prop :=
  (path ∉ written_paths cmd) /\ (forall p, knock_path cmd = Some p -> p = path).

Section commands.
Context `{C : Crypto} `{I : IdentityLib} `{NH : NoiseHandshake} `{CT : ClientToml}.
Context (sessions : nat -> session_io) (setup : setup_io) (readable : string -> bool).

(** What happened between two states of the world: knocks, on the counter's file. *)
Definition advanced (path : string) (w w' : client_world) : Prop :=
  exists effects, cw_effects w' = cw_effects w ++ effects /\
    knock_trace path (stored_counter (cw_files w) path) effects (stored_counter (cw_files w') path).

Lemma advanced_refl path w : advanced path w w.
Proof. exists []. rewrite app_nil_r. split; [done|constructor]. Qed.

Lemma advanced_trans path w1 w2 w3 : advanced path w1 w2 -> advanced path w2 w3 -> advanced path w1 w3.
Proof.
  intros (e1 & He1 & Ht1) (e2 & He2 & Ht2). exists (e1 ++ e2). split; [by rewrite He2, He1, app_assoc|].
  by eapply knock_trace_app.
Qed.

Lemma advanced_files path w ops :
  Forall (fun op => ~ op_touches op path) ops -> advanced path w (with_files w ops).
Proof.
  intros Hf. exists []. split; [by rewrite app_nil_r|]. cbn. unfold stored_counter. rewrite fs_run_untouched by done. constructor.
Qed.

(** The effects of one session, with its counter if it got as far, or with the
    torn write of it. *)
Definition session_effects (path : string) (i : knock_input) (effects : list client_effect) : Prop :=
  effects = [] \/
  (exists n rest, effects = EffCounter path (counter_line n) :: rest /\ sends n rest /\ in_u 64 n /\
    exists c, file_counter (ki_counter i) c /\ above c n) \/
  (exists text, effects = [EffCounter path text] /\ torn text).

Lemma next_counter_cases file floor write left r :
  next_counter file floor write = (left, r) -> in_u 64 floor ->
  match r with
  | Ok n => left = Some (counter_line n) /\ in_u 64 n /\ exists c, file_counter file c /\ above c n
  | Err _ => left = None \/ exists text, left = Some text /\ torn text
  end.
Proof.
  unfold next_counter. intros H Hf.
  assert (Hcur : forall c, file_counter file c -> in_u 64 c ->
    (fs_write (counter_line (Z.max (sat_add 64 c 1) floor)) write,
     match write with WrDone => Ok (Z.max (sat_add 64 c 1) floor) | _ => Err CeCounterWrite end) = (left, r) ->
    match r with
    | Ok n => left = Some (counter_line n) /\ in_u 64 n /\ exists c, file_counter file c /\ above c n
    | Err _ => left = None \/ exists text, left = Some text /\ torn text
    end).
  { intros c Hc Hu. destruct write as [| |kept]; intros [= <- <-]; [|by left|right].
    - split; [done|]. unfold in_u, sat_add, above in *. split; [lia|]. exists c. split; [done|lia].
    - eexists. split; [done|]. by eapply fs_write_torn. }
  destruct file as [s| |]; cbn [ok_or] in H; [| |by injection H as <- <-; left].
  - destruct (from_str_radix 10 (umax 64) (trim (str_bytes s))) as [c|] eqn:E; cbn [ok_or] in H; [|by injection H as <- <-; left].
    apply (Hcur c); [done| |done]. by apply (from_str_radix_range 10 (umax 64) _ _ ltac:(lia) ltac:(done) E).
  - by apply (Hcur 0).
Qed.

Lemma spa_payload_effects m i key path left r :
  spa_payload m i key = (left, r) ->
  match r with
  | Err _ => session_effects path i (counter_effect path left)
  | Ok (payload, n) =>
      counter_effect path left = [EffCounter path (counter_line n)] /\ carries n payload /\ in_u 64 n /\
      exists c, file_counter (ki_counter i) c /\ above c n
  end.
Proof.
  unfold spa_payload. destruct (read_signing_key _ _) as [sk|e]; [|by intros [= <- <-]; left].
  destruct (client_timestamp_ms _) as [ts|e] eqn:Ets; [|by intros [= <- <-]; left].
  assert (Hts : in_u 64 ts).
  { unfold client_timestamp_ms in Ets. inv_ok. unfold try_from. case_test; [|done]. bool_props. done. }
  destruct (next_counter _ _ _) as [left' r'] eqn:En. apply next_counter_cases in En; [|done].
  destruct r' as [n|e]; intros [= <- <-].
  - destruct En as (-> & Hu & Hc). split_and!; [done| |done|done]. unfold carries. eauto 10.
  - destruct En as [->|(text & -> & Ht)]; [by left|]. right; right. by exists text.
Qed.

Lemma send_spa_effects i n path key endpoint mode url :
  session_effects path i (send_spa i n path key endpoint mode url).1.
Proof.
  assert (Hudp : session_effects path i (send_udp_spa i n path key endpoint).1).
  { unfold send_udp_spa. destruct (spa_payload Udp i key) as [written [[payload c]|e]] eqn:E;
      apply (spa_payload_effects _ _ _ path) in E; cbn [fst]; [|exact E].
    destruct E as (He & Hc & Hu & Hf). right; left. exists c. rewrite He. destruct (ni_udp n); cbn [fst app].
    - eexists. split; [done|]. split_and!; [by constructor|done|done].
    - eexists. split; [done|]. split_and!; [by constructor|done|done]. }
  assert (Hpost : forall url, session_effects path i (send_https_spa i n path key url).1).
  { intros u. unfold send_https_spa. destruct (spa_payload Https i key) as [written [[payload c]|e]] eqn:E;
      apply (spa_payload_effects _ _ _ path) in E; cbn [fst]; [|exact E].
    destruct E as (He & Hc & Hu & Hf). right; left. exists c. rewrite He. eexists. split; [done|].
    split_and!; [by constructor|done|done]. }
  unfold send_spa. destruct mode; [done|]. destruct url; [apply Hpost|by left].
Qed.

Lemma send_spa_Ok i n path key endpoint mode url c :
  (send_spa i n path key endpoint mode url).2 = Ok c ->
  exists m e rest, (send_spa i n path key endpoint mode url).1 = EffCounter path (counter_line m) :: e :: rest.
Proof.
  unfold send_spa, send_udp_spa, send_https_spa. destruct mode; [|destruct url; [|done]].
  - destruct (spa_payload _ _ _) as [w [[p c']|e]] eqn:E; [|done]. apply (spa_payload_effects _ _ _ path) in E as [-> _].
    destruct (ni_udp n); [|done]. intros _. cbn. eauto.
  - destruct (spa_payload _ _ _) as [w [[p c']|e]] eqn:E; [|done]. apply (spa_payload_effects _ _ _ path) in E as [-> _].
    intros _. cbn. eauto.
Qed.

Lemma session_effects_tcp path i effects endpoint :
  (exists n e rest, effects = EffCounter path (counter_line n) :: e :: rest) ->
  session_effects path i effects -> session_effects path i (effects ++ [EffTcp endpoint]).
Proof.
  intros (m & e & rest' & ->) [?|[(n & rest & He & Hs & Hu & Hc)|(text & [=] & _)]]; [done|]. right; left.
  exists n, (rest ++ [EffTcp endpoint]). rewrite He. split_and!; [done|by constructor|done|done].
Qed.

Lemma connect_open_effects i n path c : session_effects path i (connect_open i n path c).1.
Proof.
  unfold connect_open. case_test; [by left|].
  pose proof (send_spa_effects i n path (rc_server_public_key c) (rc_spa_endpoint c) (rc_spa_mode c) (rc_https_spa_url c)) as He.
  pose proof (send_spa_Ok i n path (rc_server_public_key c) (rc_spa_endpoint c) (rc_spa_mode c) (rc_https_spa_url c)) as Hok.
  destruct (send_spa _ _ _ _ _ _ _) as [effects [ctr|e]]; cbn [fst snd] in *; [|done].
  destruct (read_signing_key _ _); [|done]. destruct (build_initiator _ _ _); [|done].
  destruct (ni_connect n); by apply session_effects_tcp; [apply (Hok ctr)|].
Qed.

Lemma connect_noise_effects i n path c : session_effects path i (connect_noise i n path c).1.
Proof. unfold connect_noise. pose proof (connect_open_effects i n path c) as H. by destruct (connect_open _ _ _ _). Qed.

Lemma one_shot_effects {A} i n path server_key spa proxy mode url (use : TcpStream -> TransportState -> result NetError A) :
  session_effects path i (one_shot i n path server_key spa proxy mode url use).1.
Proof.
  unfold one_shot. destruct (read_noise_public_key _) as [key|e]; [|by left].
  match goal with |- context [connect_noise i n path ?c] => pose proof (connect_noise_effects i n path c) as He end.
  by destruct (connect_noise _ _ _ _) as [effects r].
Qed.

Lemma sends_files n rest files path : sends n rest -> foldl effect_files files rest !! path = files !! path.
Proof. induction 1; [done..|]. by rewrite foldl_app. Qed.

(** Effects of a knock whose inputs are the files as they are. *)
Lemma effects_advanced path i effects w w' :
  ki_counter i = read_path readable w path -> session_effects path i effects ->
  cw_files w' = foldl effect_files (cw_files w) effects -> cw_effects w' = cw_effects w ++ effects ->
  advanced path w w'.
Proof.
  intros Hi Hrun Hf He. exists effects. split; [done|]. rewrite Hf.
  destruct Hrun as [->|[(n & rest & -> & Hs & Hu & c & Hc & Hcn)|(text & -> & Ht)]]; [constructor| |].
  - assert (Hst : stored_counter (cw_files w) path = Some c).
    { rewrite Hi in Hc. unfold read_path, read_file in Hc. unfold stored_counter.
      destruct (readable path); [|done]. destruct (cw_files w !! path); cbn in Hc; [done|by subst]. }
    assert (Hend : stored_counter (foldl effect_files (cw_files w) (EffCounter path (counter_line n) :: rest)) path = Some n).
    { cbn [foldl effect_files]. unfold stored_counter. rewrite (sends_files _ _ _ _ Hs), lookup_insert_eq. by apply counter_of_line. }
    rewrite Hst, Hend, <-(app_nil_r rest). by apply trace_knock; [done..|constructor].
  - apply trace_torn; [done|]. cbn. unfold stored_counter. rewrite lookup_insert_eq. constructor.
Qed.

(** A session moves the client's counter on. *)
Lemma session_advanced {A} path w identity_key counter_file
    (run : knock_input -> net_input -> string -> list client_effect * result NetError A) :
  counter_path counter_file identity_key = path ->
  (forall i n, session_effects path i (run i n path).1) ->
  advanced path w (session sessions readable w identity_key counter_file run).1.
Proof.
  intros Hp Hrun. unfold session. rewrite Hp.
  specialize (Hrun (knock_input_of sessions readable w identity_key path) (ss_net (sessions (cw_sessions w)))).
  destruct (run _ _ path) as [effects r]. by apply (effects_advanced path (knock_input_of sessions readable w identity_key path) effects).
Qed.

Lemma relay_exchange_advanced path identity_key server_key spa proxy mode url counter_file w request :
  counter_path counter_file identity_key = path ->
  advanced path w (relay_exchange sessions readable identity_key server_key spa proxy mode url counter_file w request).1.
Proof.
  intros Hp. unfold relay_exchange.
  pose proof (session_advanced path w identity_key counter_file (fun i n path =>
    run_relay_request i n path (read_path readable w server_key) spa proxy mode url request) Hp) as H.
  destruct (session _ _ _ _ _ _) as [w' r]. apply H. intros i n. apply one_shot_effects.
Qed.

Lemma ask_advanced {A} path (exchange : client_world -> bytes -> client_world * result ClientError bytes) w request
    (parse : bytes -> result ClientError A) :
  (forall w r, advanced path w (exchange w r).1) -> advanced path w (ask exchange w request parse).1.
Proof.
  intros Hx. unfold ask. destruct request as [r|e]; [|apply advanced_refl]. specialize (Hx w r).
  by destruct (exchange w r) as [w' [resp|e]].
Qed.

Lemma download_advanced path (exchange : client_world -> bytes -> client_world * result ClientError bytes) fuel :
  (forall w r, advanced path w (exchange w r).1) ->
  forall w job_id artifact offset body w' r,
    client_relay_download exchange fuel w job_id artifact offset body = Some (w', r) -> advanced path w w'.
Proof.
  intros Hx. induction fuel as [|fuel IH]; intros w job_id artifact offset body w' r; [done|].
  cbn [client_relay_download].
  pose proof (ask_advanced path exchange w (download_request job_id offset artifact) parse_relay_download_response Hx) as Ha.
  destruct (ask _ _ _ _) as [w1 [[[terminal total] chunk]|e]]; cbn [fst] in Ha; [|by intros [= <- _]].
  destruct (try_from 32 (blen chunk)) as [len|]; [|by intros [= <- _]].
  destruct terminal; [by case_test; intros [= <- _]|].
  intros H%IH. by eapply advanced_trans.
Qed.

Lemma write_file_keeps path q contents : path <> q -> Forall (fun op => ~ op_touches op path) (write_file q contents).
Proof. intros H. repeat constructor; cbn; congruence. Qed.

Lemma write_files_keep_path path files ok i :
  path ∉ files.*1 -> Forall (fun op => ~ op_touches op path) (write_files files ok i).1.
Proof.
  revert i; induction files as [|[q c] files IH]; intros i Hn; [constructor|]. cbn [write_files].
  apply not_elem_of_cons in Hn as [Hq Hn]. destruct (ok i); [|constructor]. cbn [negb].
  specialize (IH (S i) Hn). destruct (write_files files ok (S i)) as [ops r]. apply Forall_app. split; [|done].
  by apply write_file_keeps.
Qed.

(** The files [keygen] writes. *)
Lemma keygen_keeps path output debug sk first second fill ok :
  path ∉ written_paths (Keygen output debug) ->
  Forall (fun op => ~ op_touches op path) (keygen output debug sk first second fill ok).1.
Proof.
  intros Hn. unfold keygen. destruct (if debug then _ else _) as [contents|e]; [|constructor].
  match goal with |- context [write_files ?files ok 0] => pose proof (write_files_keep_path path files ok 0%nat Hn) as H end.
  by destruct (write_files _ _ _).
Qed.

Lemma enroll_keeps path key endpoint mode port output mkdir_ok write_ok :
  path <> output -> Forall (fun op => ~ op_touches op path) (enroll key endpoint mode port output mkdir_ok write_ok).1.
Proof.
  intros Hn. unfold enroll. destruct (client_decode_noise_public_key _); [|constructor].
  destruct (parse_socket_addr _); [|constructor]. destruct (toml_client_encode _) as [contents|]; [|constructor].
  assert (Hd : Forall (fun op => ~ op_touches op path) [OpMkdirAll output]) by (constructor; [by intros []|constructor]).
  pose proof (write_file_keeps path output contents Hn) as Hf.
  by destruct (parent_given output), mkdir_ok, write_ok; cbn [negb andb fst app]; try (constructor; [by intros []|]).
Qed.

Lemma client_main_advanced path fuel w cmd w' r :
  uses_counter path cmd -> client_main sessions setup readable fuel w cmd = Some (w', r) -> advanced path w w'.
Proof.
  intros [Hn Hk] H.
  assert (Hset : forall ops, Forall (fun op => ~ op_touches op path) ops -> w' = with_files w ops -> advanced path w w')
    by (intros ops Hf ->; by apply advanced_files).
  assert (Hsame : w' = w -> advanced path w w') by (intros ->; apply advanced_refl).
  assert (Hx : forall key skey spa proxy mode url file, counter_path file key = path ->
    forall w r, advanced path w (relay_exchange sessions readable key skey spa proxy mode url file w r).1)
    by (intros; by apply relay_exchange_advanced).
  destruct cmd; cbn [client_main knock_path written_paths] in *;
    try (specialize (Hk _ eq_refl)).
  - destruct (keygen _ _ _ _ _ _ _) as [ops x] eqn:E. injection H as <- _. apply (Hset ops); [|done].
    replace ops with (keygen output plaintext_debug (se_signing_key setup) (se_first setup) (se_second setup)
      (se_fill setup) (se_write_ok setup)).1 by by rewrite E. by apply keygen_keeps.
  - destruct (server_keygen _ _ _) as [ops x] eqn:E. injection H as <- _. apply (Hset ops); [|done].
    unfold server_keygen in E. destruct (se_keypair setup) as [[private public]|]; [|by injection E as <- _].
    apply (f_equal fst) in E. cbn [fst] in E. rewrite <-E. by apply write_files_keep_path.
  - destruct (enroll _ _ _ _ _ _ _) as [ops x] eqn:E. injection H as <- _. apply (Hset ops); [|done].
    replace ops with (enroll server_key endpoint spa_mode spa_port output (se_mkdir_ok setup) (se_write_ok setup 0%nat)).1
      by by rewrite E. apply enroll_keeps. set_solver.
  - injection H as <- _. by apply Hsame.
  - injection H as <- _. by apply Hsame.
  - destruct (read_noise_public_key_array _) as [key|e]; injection H as <- _; [|by apply Hsame]. apply session_advanced; [done|].
    intros i n. exact (send_spa_effects i n path key endpoint TransportUdp None).
  - destruct (read_noise_public_key_array _) as [key|e]; injection H as <- _; [|by apply Hsame]. apply session_advanced; [done|].
    intros i n. exact (send_spa_effects i n path key {| sa_ip := V4 0; sa_port := 0 |} TransportHttps (Some url)).
  - injection H as <- _. apply session_advanced; [done|]. intros i n. apply one_shot_effects.
  - injection H as <- _. apply session_advanced; [done|]. intros i n. apply one_shot_effects.
  - injection H as <- _. apply session_advanced; [done|]. intros i n. apply one_shot_effects.
  - injection H as <- _. apply ask_advanced. by apply Hx.
  - injection H as <- _. apply ask_advanced. by apply Hx.
  - injection H as <- _. apply ask_advanced. by apply Hx.
  - injection H as <- _. apply ask_advanced. by apply Hx.
  - destruct (client_relay_download _ _ _ _ _ _ _) as [[w1 res]|] eqn:E; [|done]. cbn in H.
    apply (download_advanced path) in E; [|by apply Hx]. destruct res as [body|e]; [|by injection H as <- _].
    destruct (se_write_ok setup 0%nat); cbn in H; injection H as <- _; [|done]. eapply advanced_trans; [exact E|].
    apply advanced_files, write_file_keeps. set_solver.
  - injection H as <- _. apply ask_advanced. by apply Hx.
Qed.

Lemma client_run_advanced path fuel cmds : forall w w',
  Forall (uses_counter path) cmds -> client_run sessions setup readable fuel w cmds = Some w' -> advanced path w w'.
Proof.
  induction cmds as [|cmd cmds IH]; intros w w' Hu; cbn [client_run]; [intros [= <-]; apply advanced_refl|].
  apply Forall_cons in Hu as [Hc Hu]. destruct (client_main _ _ _ _ _ _) as [[w1 r]|] eqn:E; [|done]. cbn.
  intros H. eapply advanced_trans; [by eapply client_main_advanced|by apply IH].
Qed.

End commands.
