(* ===== verification/ClientListener.v ===== *)
(** The local listener of the client and its threads: [connect_listener],
    [start_spa_refresh] and [handle_local_socks5] of [ghostbro-client/src/main.rs].

    One thread accepts the local connections, one refreshes the entry of the
    active server, and each local connection has its own.  They share the counter
    file, which [counter_lock] guards, and the number of the active candidate.  A
    turn of a thread is the code between two points where another thread may come
    first: taking the lock, reading a knock's inputs, acting on them.  A thread
    that finds the lock taken has no turn. *)

From S2P Require Import Prelude Text NetAddr Protocol Crypto Keys SpaPacket Fs AuthKeys Verifier Tunnel RelayWire.
From S2P Require Import Client ClientSetup ClientTunnel ClientMain.

(** * The connection with failover, one step at a time *)

Section trying.
Context `{NH : NoiseHandshake}.

(** Where the loops of [connect_noise_with_failover] are: before a round, before
    the next candidate of the round, with the inputs of a knock at hand, or
    connected, before the handshake with the server of session [k]. *)
Inductive trying :=
| TryRound (round : nat)
| TryNext (round : nat) (indices : list nat)
| TryKnock (round index : nat) (rest : list nat) (k : nat) (c : ResolvedConnectConfig) (i : knock_input) (n : net_input)
| TryAnswer (round index : nat) (rest : list nat) (k : nat) (s : TcpStream) (noise : HandshakeState).

(** With the last error. *)
Record attempt := { at_trying : trying; at_error : option NetError }.

End trying.

(** * The threads *)

Section client_listener.
Context `{C : Crypto} `{I : IdentityLib} `{NH : NoiseHandshake}.

Inductive refresh_phase :=
| RfIdle
| RfWaiting (c : ResolvedConnectConfig)
| RfHolding (c : ResolvedConnectConfig) (i : knock_input) (n : net_input).

(** A local connection: negotiating, waiting for the lock, connecting under the
    lock, connected, negotiating with the server, relaying, ended. *)
Inductive local_phase :=
| LcAccepted
| LcWaiting (address : bytes)
| LcHolding (address : bytes) (a : attempt)
| LcConnected (address : bytes) (s : TcpStream) (t : TransportState) (index : nat)
| LcNegotiating (address : bytes) (s : TcpStream) (t : TransportState)
| LcRelaying
| LcDone (r : result NetError (Z * Z)).

(** With what its peer asks for, whether replies to it can be written, its
    socket after the negotiation, the replies so far, and the relay threads once
    they run. *)
Record local_conn := {
  lc_command : option (Socks5Command * option bytes);
  lc_reply_ok : bool;
  lc_stream : TcpStream;
  lc_replies : list local_reply;
  lc_relay : option local_relay;
  lc_phase : local_phase
}.

Inductive holder := HoldRefresh | HoldLocal (i : nat).

Record client_listener := {
  cl_world : client_world;
  cl_lock : option holder;
  cl_active : option nat;
  cl_refresh : refresh_phase;
  cl_refreshes : list (result NetError Z);
  cl_locals : list local_conn;
  cl_over : bool
}.

Context (sessions : nat -> session_io) (readable : string -> bool).
(** The arguments of the command, and per thread and round the random order and
    the latencies. *)
Context (identity_key : string) (counter_file : option string).
Context (candidates : list ResolvedConnectConfig) (policy : FailoverPolicy).
Context (shuffle : nat -> nat -> list nat -> list nat) (probe : nat -> nat -> nat -> option Z).

Definition connect_listener_init (w : client_world) : client_listener := {|
  cl_world := w; cl_lock := None; cl_active := None; cl_refresh := RfIdle; cl_refreshes := []; cl_locals := []; cl_over := false |}.

(** The inputs of the next knock: the files as they are now. *)
Definition knock_begin (w : client_world) : client_world * knock_input * net_input :=
  ({| cw_files := cw_files w; cw_sessions := S (cw_sessions w); cw_effects := cw_effects w |},
   knock_input_of sessions readable w identity_key (counter_path counter_file identity_key),
   ss_net (sessions (cw_sessions w))).

(** The world after the effects of a knock. *)
Definition knock_end (w : client_world) (effects : list client_effect) : client_world := {|
  cw_files := foldl effect_files (cw_files w) effects; cw_sessions := cw_sessions w; cw_effects := cw_effects w ++ effects |}.

(** One step of [connect_noise_with_failover]: the world and where the loops are
    then, or the outcome.  The thread waits for the server's answer to the
    handshake: when none comes, it has no step. *)
Definition failover_turn (thread : nat) (w : client_world) (a : attempt)
    : option (client_world * (attempt + result NetError (TcpStream * TransportState * nat))) :=
  match at_trying a with
  | TryRound round =>
      Some (w,
        if (Z.to_nat (sat_add 32 (fp_max_retries policy) 1) <=? round)%nat
        then inr (Err (default (NeClient CeNoServers) (at_error a)))
        else inl {| at_trying := TryNext round (order_candidates (fp_strategy policy) (length candidates)
                                   (shuffle thread round) (probe thread round)); at_error := at_error a |})
  | TryNext round [] => Some (w, inl {| at_trying := TryRound (S round); at_error := at_error a |})
  | TryNext round (index :: rest) =>
      c ← candidates !! index;
      let k := cw_sessions w in
      let '(w, i, n) := knock_begin w in
      Some (w, inl {| at_trying := TryKnock round index rest k c i n; at_error := at_error a |})
  | TryKnock round index rest k c i n =>
      let '(effects, r) := connect_open i n (counter_path counter_file identity_key) c in
      Some (knock_end w effects,
        inl match r with
            | Ok (s, noise, _) => {| at_trying := TryAnswer round index rest k s noise; at_error := at_error a |}
            | Err e => {| at_trying := TryNext round rest; at_error := Some e |}
            end)
  | TryAnswer round index rest k s noise =>
      if negb (ss_answers (sessions k)) then None
      else Some (w,
        match noise_xk noise s with
        | Ok (s, t) => inr (Ok (s, t, index))
        | Err e => inl {| at_trying := TryNext round rest; at_error := Some e |}
        end)
  end.

Definition failover_begin : attempt := {| at_trying := TryRound 0; at_error := None |}.

(** The whole of it at once, over the files, with servers that answer. *)
Definition attempt_connection (w : client_world) (index : nat) : client_world * result NetError (TcpStream * TransportState) :=
  match candidates !! index with
  | None => (w, Err (NeClient CeNoServers))
  | Some c =>
      let '(w, i, n) := knock_begin w in
      let '(effects, r) := connect_noise i n (counter_path counter_file identity_key) c in
      (knock_end w effects, '(s, t, _) ← r; Ok (s, t))
  end.

Definition connect_with_failover (thread : nat) (w : client_world)
    : client_world * result NetError (TcpStream * TransportState * nat) :=
  connect_noise_with_failover (NeClient CeNoServers) attempt_connection
    (fun round w => (w, order_candidates (fp_strategy policy) (length candidates) (shuffle thread round) (probe thread round)))
    w (length candidates) policy.

(** * Turns *)

Definition with_phase (c : local_conn) (replies : list local_reply) (phase : local_phase) : local_conn :=
  {| lc_command := lc_command c; lc_reply_ok := lc_reply_ok c; lc_stream := lc_stream c;
     lc_replies := lc_replies c ++ replies; lc_relay := lc_relay c; lc_phase := phase |}.

Definition with_relay (c : local_conn) (r : local_relay) (phase : local_phase) : local_conn :=
  {| lc_command := lc_command c; lc_reply_ok := lc_reply_ok c; lc_stream := lc_stream c;
     lc_replies := lc_replies c; lc_relay := Some r; lc_phase := phase |}.

Definition set_local (l : client_listener) (i : nat) (c : local_conn) : client_listener :=
  {| cl_world := cl_world l; cl_lock := cl_lock l; cl_active := cl_active l; cl_refresh := cl_refresh l;
     cl_refreshes := cl_refreshes l; cl_locals := <[i := c]> (cl_locals l); cl_over := cl_over l |}.

Definition set_shared (l : client_listener) (w : client_world) (lock : option holder) (active : option nat) : client_listener :=
  {| cl_world := w; cl_lock := lock; cl_active := active; cl_refresh := cl_refresh l;
     cl_refreshes := cl_refreshes l; cl_locals := cl_locals l; cl_over := cl_over l |}.

(** The SOCKS5 request of the local peer. *)
Definition local_request (c : local_conn) : local_conn :=
  match lc_command c with
  | None => with_phase c [] (LcDone (Err NeLocal))
  | Some (command, target) =>
      if negb (bool_decide (command = TCPConnect))
      then with_phase c [ReplyError_ CommandNotSupported] (LcDone (Err (if lc_reply_ok c then NeCommand else NeLocal)))
      else match target with
           | None => with_phase c [] (LcDone (Err NeTarget))
           | Some address => with_phase c [] (LcWaiting address)
           end
  end.

(** The server's SOCKS5, and the relay threads started. *)
Definition local_negotiate (c : local_conn) (address : bytes) (s : TcpStream) (t : TransportState) : local_conn :=
  match socks5_negotiate s t ([x05; x01; x00] ++ address) with
  | (_, _, Err (e, None)) => with_phase c [] (LcDone (Err e))
  | (_, _, Err (e, Some reply)) => with_phase c [ReplyError_ reply] (LcDone (Err (if lc_reply_ok c then e else NeLocal)))
  | (s, t, Ok _) =>
      if lc_reply_ok c then with_relay (with_phase c [ReplySuccess] LcRelaying) (relay_start t (lc_stream c) s) LcRelaying
      else with_phase c [ReplySuccess] (LcDone (Err NeLocal))
  end.

(** A turn of the thread of local connection [i]. *)
Definition local_turn (l : client_listener) (i : nat) : option client_listener :=
  c ← cl_locals l !! i;
  match lc_phase c with
  | LcAccepted => Some (set_local l i (local_request c))
  | LcWaiting address =>
      match cl_lock l with
      | Some _ => None
      | None =>
          Some (set_local (set_shared l (cl_world l) (Some (HoldLocal i)) (cl_active l)) i
            (with_phase c [] (LcHolding address failover_begin)))
      end
  | LcHolding address a =>
      '(w, r) ← failover_turn i (cl_world l) a;
      Some (match r with
            | inl a => set_local (set_shared l w (cl_lock l) (cl_active l)) i (with_phase c [] (LcHolding address a))
            | inr (Err e) => set_local (set_shared l w None (cl_active l)) i (with_phase c [] (LcDone (Err e)))
            | inr (Ok (s, t, index)) =>
                set_local (set_shared l w None (cl_active l)) i (with_phase c [] (LcConnected address s t index))
            end)
  | LcConnected address s t index =>
      Some (set_local (set_shared l (cl_world l) (cl_lock l) (Some index)) i (with_phase c [] (LcNegotiating address s t)))
  | LcNegotiating address s t => Some (set_local l i (local_negotiate c address s t))
  | LcRelaying => r ← lc_relay c ≫= relay_join; Some (set_local l i (with_phase c [] (LcDone r)))
  | LcDone _ => None
  end.

(** A turn of a relay thread of local connection [i]. *)
Definition relay_turn (l : client_listener) (i : nat) (up : bool) : option client_listener :=
  c ← cl_locals l !! i;
  r ← lc_relay c;
  Some (set_local l i (with_relay c (if up then up_step r else down_step r) (lc_phase c))).

Definition set_refresh (l : client_listener) (phase : refresh_phase) (done : list (result NetError Z)) : client_listener :=
  {| cl_world := cl_world l; cl_lock := cl_lock l; cl_active := cl_active l; cl_refresh := phase;
     cl_refreshes := cl_refreshes l ++ done; cl_locals := cl_locals l; cl_over := cl_over l |}.

(** A turn of the refresh thread; the outcome of a knock is logged. *)
Definition refresh_turn (l : client_listener) : option client_listener :=
  match cl_refresh l with
  | RfIdle =>
      Some (set_refresh l (from_option RfWaiting RfIdle (cl_active l ≫= (fun index => candidates !! index))) [])
  | RfWaiting c =>
      match cl_lock l with
      | Some _ => None
      | None =>
          let '(w, i, n) := knock_begin (cl_world l) in
          Some (set_refresh (set_shared l w (Some HoldRefresh) (cl_active l)) (RfHolding c i n) [])
      end
  | RfHolding c i n =>
      let '(effects, r) := refresh_knock i n (counter_path counter_file identity_key) c in
      Some (set_refresh (set_shared l (knock_end (cl_world l) effects) None (cl_active l)) RfIdle [r])
  end.

(** What the accept loop gets: a connection, whose peer asks for [command]. *)
Record local_peer := { lp_command : option (Socks5Command * option bytes); lp_reply_ok : bool; lp_stream : TcpStream }.

(** An error of [accept] ends the process. *)
Definition accept_turn (l : client_listener) (peer : option local_peer) : client_listener :=
  match peer with
  | None =>
      {| cl_world := cl_world l; cl_lock := cl_lock l; cl_active := cl_active l; cl_refresh := cl_refresh l;
         cl_refreshes := cl_refreshes l; cl_locals := cl_locals l; cl_over := true |}
  | Some p =>
      {| cl_world := cl_world l; cl_lock := cl_lock l; cl_active := cl_active l; cl_refresh := cl_refresh l;
         cl_refreshes := cl_refreshes l;
         cl_locals := cl_locals l ++ [{| lc_command := lp_command p; lc_reply_ok := lp_reply_ok p; lc_stream := lp_stream p;
                                         lc_replies := []; lc_relay := None; lc_phase := LcAccepted |}];
         cl_over := cl_over l |}
  end.

(** A schedule names the thread of each turn. *)
Inductive turn := TuAccept (peer : option local_peer) | TuRefresh | TuLocal (i : nat) | TuRelay (i : nat) (up : bool).

Definition listener_turn (l : client_listener) (tu : turn) : option client_listener :=
  if cl_over l then None
  else match tu with
       | TuAccept peer => Some (accept_turn l peer)
       | TuRefresh => refresh_turn l
       | TuLocal i => local_turn l i
       | TuRelay i up => relay_turn l i up
       end.

Fixpoint listener_run (schedule : list turn) (l : client_listener) : option client_listener :=
  match schedule with
  | [] => Some l
  | tu :: rest => l ← listener_turn l tu; listener_run rest l
  end.

End client_listener.
