(* ===== verification/ClientListenerFacts.v ===== *)
(** The client's listener under any interleaving of its threads: the counter
    file under its lock, and the connection with failover as one step. *)

From S2P Require Import Prelude Text Numerals NetAddr Protocol Crypto Keys SpaPacket Fs AuthKeys Verifier Tunnel RelayWire.
From S2P Require Import Client ClientFacts ClientSetup ClientTunnel ClientMain ClientMainFacts ClientListener.

Section listener_facts.
Context `{C : Crypto} `{I : IdentityLib} `{NH : NoiseHandshake}.
Context (sessions : nat -> session_io) (readable : string -> bool).
Context (identity_key : string) (counter_file : option string).
Context (candidates : list ResolvedConnectConfig) (policy : FailoverPolicy).
Context (shuffle : nat -> nat -> list nat -> list nat) (probe : nat -> nat -> nat -> option Z).

Abbreviation path := (counter_path counter_file identity_key).
Abbreviation step := (failover_turn sessions readable identity_key counter_file candidates policy shuffle probe).
Abbreviation turn_of := (listener_turn sessions readable identity_key counter_file candidates policy shuffle probe).
Abbreviation run := (listener_run sessions readable identity_key counter_file candidates policy shuffle probe).

(** * Runs *)

Lemma listener_run_app s1 s2 l : run (s1 ++ s2) l = (l' ← run s1 l; run s2 l').
Proof. revert l; induction s1 as [|tu s1 IH]; intros l; [done|]. cbn. destruct (turn_of l tu); cbn; [apply IH|done]. Qed.

(** An invariant of the turns holds after a run. *)
Lemma listener_run_inv (P : client_listener -> Prop) :
  (forall l tu l', P l -> turn_of l tu = Some l' -> P l') ->
  forall schedule l l', P l -> run schedule l = Some l' -> P l'.
Proof.
  intros Hstep. induction schedule as [|tu schedule IH]; intros l l' Hl; cbn; [by intros [= <-]|].
  destruct (turn_of l tu) as [l1|] eqn:E; [|done]. cbn. apply IH. by eapply Hstep.
Qed.

(** * The lock *)

#[local] Instance holder_eq : EqDecision holder.
Proof. solve_decision. Defined.

(** The counter of a knock whose inputs have been read. *)
Definition at_hand (a : attempt) : option knock_input :=
  match at_trying a with TryKnock _ _ _ _ _ i _ => Some i | _ => None end.

Definition phase_reads (p : local_phase) : option (option knock_input) :=
  match p with LcHolding _ a => Some (at_hand a) | _ => None end.

(** Whether a thread is in its critical section, and what it has read there. *)
Definition inside (l : client_listener) (h : holder) : option (option knock_input) :=
  match h with
  | HoldRefresh => match cl_refresh l with RfHolding _ i _ => Some (Some i) | _ => None end
  | HoldLocal k => c ← cl_locals l !! k; phase_reads (lc_phase c)
  end.

Definition fresh (w : client_world) (x : option knock_input) : Prop :=
  forall i, x = Some i -> ki_counter i = read_path readable w path.

Definition same_disk (w w' : client_world) : Prop := cw_files w' = cw_files w /\ cw_effects w' = cw_effects w.

(** What a turn does to what the threads share. *)
Inductive shared_step (l l' : client_listener) : Prop :=
| shared_quiet :
    (forall h, inside l' h = inside l h) -> cl_lock l' = cl_lock l -> same_disk (cl_world l) (cl_world l') -> shared_step l l'
| shared_enter h x :
    cl_lock l = None -> cl_lock l' = Some h -> inside l' h = Some x -> (forall h', h' <> h -> inside l' h' = inside l h') ->
    same_disk (cl_world l) (cl_world l') -> fresh (cl_world l') x -> shared_step l l'
| shared_inside h x y :
    inside l h = Some x -> inside l' h = y -> (forall h', h' <> h -> inside l' h' = inside l h') ->
    cl_lock l' = match y with Some _ => cl_lock l | None => None end ->
    (same_disk (cl_world l) (cl_world l') /\ fresh (cl_world l') (default None y) \/
     default None y = None /\ exists i effects, x = Some i /\ session_effects path i effects /\
       cl_world l' = knock_end (cl_world l) effects) ->
    shared_step l l'.

(** The lock is held by the one thread inside, and the counter it has read is the
    one on disk. *)
Record lock_inv (w0 : client_world) (l : client_listener) : Prop := {
  lk_inside : forall h, is_Some (inside l h) <-> cl_lock l = Some h;
  lk_fresh : forall h x, inside l h = Some x -> fresh (cl_world l) x;
  lk_advanced : advanced path w0 (cl_world l)
}.

Lemma advanced_same w0 w w' : same_disk w w' -> advanced path w0 w -> advanced path w0 w'.
Proof. intros [Hf He]. unfold advanced. by rewrite Hf, He. Qed.

Lemma fresh_same w w' x : same_disk w w' -> fresh w x -> fresh w' x.
Proof. intros [Hf _] H i Hi. rewrite (H i Hi). unfold read_path. by rewrite Hf. Qed.

Lemma shared_step_inv w0 l l' : shared_step l l' -> lock_inv w0 l -> lock_inv w0 l'.
Proof.
  intros [Hin Hl Hd|h x Hn Hl Hx Ho Hd Hf|h x y Hx Hy Ho Hl Hd] [Hi Hr Ha].
  - split; [intros h; by rewrite Hin, Hl|intros h x; rewrite Hin; intros Hx; eapply fresh_same; eauto|by eapply advanced_same].
  - assert (Hnone : forall h', ~ is_Some (inside l h')) by (intros h' ?%Hi; congruence).
    split; [|  |by eapply advanced_same].
    + intros h'. rewrite Hl. destruct (decide (h' = h)) as [->|Hne]; [rewrite Hx; by split; eauto|].
      rewrite (Ho _ Hne). split; [by intros ?%Hnone|congruence].
    + intros h' x'. destruct (decide (h' = h)) as [->|Hne]; [rewrite Hx; by intros [= <-]|].
      rewrite (Ho _ Hne). intros He. destruct (Hnone h'). by rewrite He.
  - assert (Hh : cl_lock l = Some h) by (apply Hi; by rewrite Hx).
    assert (Hnone : forall h', h' <> h -> inside l h' = None).
    { intros h' Hne. destruct (inside l h') eqn:E; [|done]. assert (cl_lock l = Some h') by (apply Hi; by rewrite E). congruence. }
    split.
    + intros h'. destruct (decide (h' = h)) as [->|Hne].
      * rewrite Hy, Hl. destruct y; [by rewrite Hh; split; eauto|by split; [intros []|]].
      * rewrite (Ho _ Hne), (Hnone _ Hne), Hl. split; [by intros []|]. destruct y; [rewrite Hh|]; congruence.
    + intros h' x'. destruct (decide (h' = h)) as [->|Hne]; [|by rewrite (Ho _ Hne), (Hnone _ Hne)].
      rewrite Hy. intros ->. cbn [default from_option id] in Hd. by destruct Hd as [[_ Hf]|[-> _]].
    + destruct Hd as [[Hd _]|(_ & i & effects & -> & Hs & ->)]; [by eapply advanced_same|].
      eapply advanced_trans; [exact Ha|]. apply (effects_advanced readable path i effects); [by apply (Hr _ _ Hx)|done..].
Qed.

(** * The turns *)

Lemma inside_replace l l' k c c' :
  cl_locals l !! k = Some c -> cl_refresh l' = cl_refresh l -> cl_locals l' = <[k := c']> (cl_locals l) ->
  inside l' (HoldLocal k) = phase_reads (lc_phase c') /\ (forall h, h <> HoldLocal k -> inside l' h = inside l h).
Proof.
  intros Hk Hr Hl. unfold inside. split.
  - rewrite Hl, list_lookup_insert_eq by (by eapply lookup_lt_Some). done.
  - intros [|j] Hne; [by rewrite Hr|]. rewrite Hl, list_lookup_insert_ne; [done|congruence].
Qed.

(** A turn of a local connection that is neither before nor in its critical
    section leaves what is shared alone. *)
Lemma quiet_replace l l' k c c' :
  cl_locals l !! k = Some c -> phase_reads (lc_phase c') = phase_reads (lc_phase c) ->
  cl_refresh l' = cl_refresh l -> cl_locals l' = <[k := c']> (cl_locals l) ->
  cl_lock l' = cl_lock l -> cl_world l' = cl_world l -> shared_step l l'.
Proof.
  intros Hk Hp Hr Hl Hlk Hw. destruct (inside_replace l l' k c c' Hk Hr Hl) as [Hin Ho].
  apply shared_quiet; [|done|by rewrite Hw].
  intros h. destruct (decide (h = HoldLocal k)) as [->|Hne]; [|by apply Ho]. rewrite Hin. cbn. by rewrite Hk.
Qed.

(** A step of the failover loops: nothing on disk, or the knock at hand. *)
Lemma failover_turn_shared thread w a w' r :
  step thread w a = Some (w', r) ->
  same_disk w w' /\ match r with inl a' => fresh w' (at_hand a') | inr _ => True end \/
  exists i effects, at_hand a = Some i /\ session_effects path i effects /\ w' = knock_end w effects /\
    match r with inl a' => at_hand a' = None | inr _ => True end.
Proof.
  unfold failover_turn, at_hand.
  destruct (at_trying a) as [round|round [|index rest]|round index rest k c i n|round index rest k s noise].
  - intros [= <- <-]. left. by destruct (_ <=? round)%nat.
  - intros [= <- <-]. by left.
  - destruct (candidates !! index) as [c|]; [|done]. intros [= <- <-]. left. split; [done|]. by intros ? [= <-].
  - pose proof (connect_open_effects i n path c) as He. destruct (connect_open _ _ _ _) as [effects res]. intros [= <- <-].
    right. exists i, effects. split; [done|]. split; [exact He|]. split; [done|]. by destruct res as [[[s noise] kid]|e].
  - destruct (ss_answers (sessions k)); [|done]. intros [= <- <-]. left. by destruct (noise_xk noise s) as [[s' t]|e].
Qed.

Lemma local_request_reads c : phase_reads (lc_phase (local_request c)) = None.
Proof.
  unfold local_request. destruct (lc_command c) as [[command [address|]]|]; [| |done]; by destruct (bool_decide _).
Qed.

Lemma local_negotiate_reads c address s t : phase_reads (lc_phase (local_negotiate c address s t)) = None.
Proof.
  unfold local_negotiate. destruct (socks5_negotiate _ _ _) as [[s' t'] [[]|[e [reply|]]]]; [|done..]. cbn. by destruct (lc_reply_ok c).
Qed.

Lemma local_turn_shared l k l' :
  local_turn sessions readable identity_key counter_file candidates policy shuffle probe l k = Some l' -> shared_step l l'.
Proof.
  unfold local_turn. destruct (cl_locals l !! k) as [c|] eqn:Hk; [|done]. cbn [mbind option_bind].
  destruct (lc_phase c) as [|address|address a|address s t index|address s t| |r] eqn:Hp; [..|done].
  - intros [= <-]. eapply quiet_replace; [exact Hk| |done..]; by rewrite Hp, local_request_reads.
  - destruct (cl_lock l) eqn:Hl; [done|]. intros [= <-].
    match goal with |- shared_step _ ?l' => destruct (inside_replace l l' k c _ Hk eq_refl eq_refl) as [Hin Ho] end.
    by eapply (shared_enter _ _ (HoldLocal k) None).
  - destruct (step k (cl_world l) a) as [[w r]|] eqn:E; [|done]. intros [= <-]. apply failover_turn_shared in E.
    assert (Hx : inside l (HoldLocal k) = Some (at_hand a)) by (cbn; by rewrite Hk; cbn; rewrite Hp).
    destruct r as [a'|[[[s t] index]|e]];
      match goal with |- shared_step _ ?l' => destruct (inside_replace l l' k c _ Hk eq_refl eq_refl) as [Hin Ho] end;
      (eapply (shared_inside _ _ (HoldLocal k)); [exact Hx|exact Hin|exact Ho|done|]); cbn;
      destruct E as [[? ?]|(i & effects & ? & ? & ? & ?)]; eauto 10; by left.
  - intros [= <-]. eapply quiet_replace; [exact Hk| |done..]; by rewrite Hp.
  - intros [= <-]. eapply quiet_replace; [exact Hk| |done..]; by rewrite Hp, local_negotiate_reads.
  - destruct (lc_relay c ≫= relay_join) as [r|]; [|done]. intros [= <-]. eapply quiet_replace; [exact Hk| |done..]; by rewrite Hp.
Qed.

Lemma refresh_turn_shared l l' :
  refresh_turn sessions readable identity_key counter_file candidates l = Some l' -> shared_step l l'.
Proof.
  unfold refresh_turn. destruct (cl_refresh l) as [|c|c i n] eqn:Hr.
  - intros [= <-]. apply shared_quiet; [|done..]. intros [|k]; [|done]. cbn. rewrite Hr. by destruct (_ ≫= _).
  - destruct (cl_lock l) eqn:Hl; [done|]. intros [= <-].
    eapply (shared_enter _ _ HoldRefresh); [done..|by intros [|k] ?| |]; [done|by intros ? [= <-]].
  - pose proof (fun c => send_spa_effects i n path (rc_server_public_key c) (rc_spa_endpoint c) (rc_spa_mode c) (rc_https_spa_url c)) as He.
    assert (Hs : session_effects path i (refresh_knock i n path c).1) by (unfold refresh_knock; case_test; [by left|apply He]).
    destruct (refresh_knock i n path c) as [effects r]. intros [= <-].
    apply (shared_inside _ _ HoldRefresh (Some i) None); [cbn; by rewrite Hr|done|by intros [|k] ?|done|].
    right. eauto 10.
Qed.

Lemma turn_shared l tu l' : turn_of l tu = Some l' -> shared_step l l'.
Proof.
  unfold listener_turn. destruct (cl_over l); [done|]. destruct tu as [[p|]| |k|k up].
  - intros [= <-]. apply shared_quiet; [|done..]. intros [|k]; [done|]. cbn.
    destruct (decide (k < length (cl_locals l))%nat); [by rewrite lookup_app_l by done|].
    rewrite lookup_app_r by lia. rewrite (lookup_ge_None_2 (cl_locals l)) by lia.
    by destruct (k - length (cl_locals l))%nat as [|[|]].
  - by intros [= <-]; apply shared_quiet.
  - apply refresh_turn_shared.
  - apply local_turn_shared.
  - unfold relay_turn. destruct (cl_locals l !! k) as [c|] eqn:Hk; [|done]. cbn. destruct (lc_relay c); [|done]. intros [= <-].
    eapply quiet_replace; [exact Hk| |done..]; done.
Qed.

Lemma lock_inv_run w0 schedule l l' : lock_inv w0 l -> run schedule l = Some l' -> lock_inv w0 l'.
Proof. apply (listener_run_inv (lock_inv w0)). intros l1 tu l2 Hi Ht. by apply (shared_step_inv w0 l1), Hi; apply turn_shared in Ht. Qed.

Lemma lock_inv_init w : lock_inv w (connect_listener_init w).
Proof. split; [intros [|k]; by split; [intros []|]|by intros [|k]|apply advanced_refl]. Qed.

(** * The critical section as one step *)

Definition outcome : Type := client_world * (option (TcpStream * TransportState * nat) * option NetError).

Definition conclude (o : outcome) : client_world * result NetError (TcpStream * TransportState * nat) :=
  match o with
  | (w, (Some r, _)) => (w, Ok r)
  | (w, (None, Some e)) => (w, Err e)
  | (w, (None, None)) => (w, Err (NeClient CeNoServers))
  end.

Abbreviation connect_one := (attempt_connection sessions readable identity_key counter_file candidates).
Abbreviation order_of thread := (fun round (w : client_world) => (w, order_candidates (fp_strategy policy) (length candidates)
  (shuffle thread round) (probe thread round))).
Abbreviation whole := (connect_with_failover sessions readable identity_key counter_file candidates policy shuffle probe).
Abbreviation rounds := (Z.to_nat (sat_add 32 (fp_max_retries policy) 1)).

(** What is left of a round, and the rounds after it. *)
Definition rest_of (thread round : nat) (indices : list nat) (w : client_world) (e : option NetError) : outcome :=
  match try_candidates connect_one w indices e with
  | (w, (Some r, e)) => (w, (Some r, e))
  | (w, (None, e)) => try_rounds connect_one (order_of thread) w (S round) (rounds - S round) e
  end.

(** What the loops still do from where they are. *)
Definition resume (thread : nat) (w : client_world) (a : attempt) : client_world * result NetError (TcpStream * TransportState * nat) :=
  conclude match at_trying a with
    | TryRound round => try_rounds connect_one (order_of thread) w round (rounds - round) (at_error a)
    | TryNext round indices => rest_of thread round indices w (at_error a)
    | TryKnock round index rest _ c i n =>
        let '(effects, r) := connect_noise i n path c in
        match r with
        | Ok (s, t, _) => (knock_end w effects, (Some (s, t, index), at_error a))
        | Err e => rest_of thread round rest (knock_end w effects) (Some e)
        end
    | TryAnswer round index rest _ s noise =>
        match noise_xk noise s with
        | Ok (s, t) => (w, (Some (s, t, index), at_error a))
        | Err e => rest_of thread round rest w (Some e)
        end
    end.

Lemma resume_begin thread w : candidates <> [] -> resume thread w failover_begin = whole thread w.
Proof.
  intros Hne. unfold resume, connect_with_failover, connect_noise_with_failover, conclude. cbn [failover_begin at_trying at_error].
  destruct (Nat.eqb_spec (length candidates) 0) as [H%nil_length_inv|_]; [done|]. by rewrite Nat.sub_0_r.
Qed.

Lemma failover_turn_resume thread w a w' r :
  step thread w a = Some (w', r) ->
  resume thread w a = match r with inl a' => resume thread w' a' | inr r => (w', r) end.
Proof.
  unfold failover_turn, resume.
  destruct (at_trying a) as [round|round [|index rest]|round index rest k c i n|round index rest k s noise].
  - intros [= <- <-]. destruct (Nat.leb_spec rounds round).
    + replace (rounds - round)%nat with 0%nat by lia. cbn. by destruct (at_error a).
    + replace (rounds - round)%nat with (S (rounds - S round)) by lia. done.
  - by intros [= <- <-].
  - destruct (candidates !! index) as [c|] eqn:Hc; [|done]. intros [= <- <-]. cbn [at_trying at_error].
    unfold rest_of at 1. cbn [try_candidates]. unfold attempt_connection at 1. rewrite Hc. cbn [knock_begin].
    by destruct (connect_noise _ _ _ _) as [effects [[[s t] k]|e]].
  - unfold connect_noise. destruct (connect_open _ _ _ _) as [effects [[[s noise] kid]|e]]; intros [= <- <-]; [|done].
    cbn [at_trying at_error mbind result_bind]. by destruct (noise_xk noise s) as [[s' t]|e].
  - destruct (ss_answers (sessions k)); [|done]. intros [= <- <-]. by destruct (noise_xk noise s) as [[s' t]|e].
Qed.

(** Who makes a turn. *)
Definition actor (tu : turn) : option holder :=
  match tu with TuRefresh => Some HoldRefresh | TuLocal i => Some (HoldLocal i) | _ => None end.

(** While the lock is held, the other threads leave the files alone. *)
Lemma other_turn_world w0 l h tu l' :
  lock_inv w0 l -> cl_lock l = Some h -> actor tu <> Some h -> turn_of l tu = Some l' -> cl_world l' = cl_world l.
Proof.
  intros [Hi _ _] Hl Hne. unfold listener_turn. destruct (cl_over l); [done|].
  assert (Hno : forall h', h' <> h -> inside l h' = None).
  { intros h' Hh. destruct (inside l h') eqn:E; [|done]. assert (cl_lock l = Some h') by (apply Hi; by rewrite E). congruence. }
  destruct tu as [[p|]| |k|k up]; cbn [actor] in Hne; [by intros [= <-]..| | |].
  - specialize (Hno HoldRefresh ltac:(congruence)). cbn in Hno. unfold refresh_turn. rewrite Hl.
    destruct (cl_refresh l); [by intros [= <-]|done|done].
  - specialize (Hno (HoldLocal k) ltac:(congruence)). cbn in Hno. unfold local_turn. rewrite Hl.
    destruct (cl_locals l !! k) as [c|]; [|done]. cbn in Hno |- *. destruct (lc_phase c); try done; try by intros [= <-].
    destruct (lc_relay c ≫= relay_join); [by intros [= <-]|done].
  - unfold relay_turn. destruct (cl_locals l !! k) as [c|]; [|done]. cbn. destruct (lc_relay c); [by intros [= <-]|done].
Qed.

(** A turn changes one local connection at most. *)
Definition touches (tu : turn) : option nat :=
  match tu with TuLocal i | TuRelay i _ => Some i | _ => None end.

Lemma turn_others l tu l' j :
  turn_of l tu = Some l' -> touches tu <> Some j ->
  cl_locals l' !! j = cl_locals l !! j \/
  cl_locals l !! j = None /\ (forall c, cl_locals l' !! j = Some c -> lc_phase c = LcAccepted /\ lc_replies c = []).
Proof.
  unfold listener_turn. destruct (cl_over l); [done|]. destruct tu as [[p|]| |k|k up]; cbn [touches].
  - intros [= <-] _. cbn [accept_turn cl_locals]. destruct (decide (j < length (cl_locals l))%nat); [left; by rewrite lookup_app_l|].
    right. split; [by apply lookup_ge_None; lia|]. intros c. rewrite lookup_app_r by lia.
    destruct (j - _)%nat as [|m]; [by intros [= <-]|by destruct m].
  - intros [= <-]. by left.
  - unfold refresh_turn. destruct (cl_refresh l); [by intros [= <-]; left| |].
    + destruct (cl_lock l); [done|]. intros [= <-]. by left.
    + destruct (refresh_knock _ _ _ _). intros [= <-]. by left.
  - unfold local_turn. destruct (cl_locals l !! k) as [ck|]; [|done]. cbn [mbind option_bind]. intros H Hne. left.
    assert (Hk : forall l1 c1, cl_locals l1 = cl_locals l -> cl_locals (set_local l1 k c1) !! j = cl_locals l !! j).
    { intros l1 c1 He. cbn. rewrite list_lookup_insert_ne by congruence. by rewrite He. }
    destruct (lc_phase ck) as [|address|address a|address s t index|address s t| |r]; try done; try (injection H as <-; by apply Hk).
    + destruct (cl_lock l); [done|]. injection H as <-. by apply Hk.
    + destruct (step _ _ _) as [[w [a'|[[[s t] ix]|e]]]|]; [| | |done]; injection H as <-; by apply Hk.
    + destruct (lc_relay ck ≫= relay_join); [|done]. injection H as <-. by apply Hk.
  - unfold relay_turn. destruct (cl_locals l !! k) as [ck|]; [|done]. cbn [mbind option_bind]. destruct (lc_relay ck); [|done].
    intros [= <-] Hne. left. cbn. by rewrite list_lookup_insert_ne by congruence.
Qed.

Lemma turn_locals l tu l' j c :
  turn_of l tu = Some l' -> cl_locals l' !! j = Some c -> touches tu <> Some j ->
  cl_locals l !! j = Some c \/ lc_phase c = LcAccepted /\ lc_replies c = [].
Proof. intros Ht Hj Hne. destruct (turn_others _ _ _ _ Ht Hne) as [He|[_ H]]; [left; congruence|right; by apply H]. Qed.

Lemma turn_others_keep l tu l' j c :
  turn_of l tu = Some l' -> cl_locals l !! j = Some c -> touches tu <> Some j -> cl_locals l' !! j = Some c.
Proof. intros Ht Hj Hne. destruct (turn_others _ _ _ _ Ht Hne) as [He|[H _]]; congruence. Qed.

(** * Local connections *)

(** The files were [w0] at some point of a run, and [w1] then or later. *)
Definition passes (l0 : client_listener) (schedule : list turn) (w0 w1 : client_world) : Prop :=
  exists s1 s2 s3 l1 l2, schedule = s1 ++ s2 ++ s3 /\ run s1 l0 = Some l1 /\ cl_world l1 = w0 /\
    run s2 l1 = Some l2 /\ cl_world l2 = w1.

Lemma passes_snoc l0 schedule tu w0 w1 : passes l0 schedule w0 w1 -> passes l0 (schedule ++ [tu]) w0 w1.
Proof. intros (s1 & s2 & s3 & l1 & l2 & -> & H). exists s1, s2, (s3 ++ [tu]), l1, l2. by rewrite <-!app_assoc. Qed.

Lemma passes_here l0 schedule l : run schedule l0 = Some l -> passes l0 schedule (cl_world l) (cl_world l).
Proof. intros H. exists schedule, [], [], l, l. by rewrite !app_nil_r. Qed.

Lemma passes_then l0 schedule tu l l' w0 w1 :
  run schedule l0 = Some l -> turn_of l tu = Some l' -> passes l0 schedule w0 w1 -> passes l0 (schedule ++ [tu]) w0 (cl_world l').
Proof.
  intros Hr Ht (s1 & s2 & s3 & l1 & l2 & -> & H1 & Hw & H2 & _). exists s1, (s2 ++ s3 ++ [tu]), [], l1, l'.
  rewrite app_nil_r, <-!app_assoc. split_and!; [done..| |done].
  rewrite listener_run_app, H1 in Hr. cbn in Hr. rewrite app_assoc, listener_run_app, Hr. cbn. by rewrite Ht.
Qed.

(** What a local connection asked for, before it has got an answer. *)
Definition asks (c : local_conn) (address : bytes) : Prop :=
  lc_command c = Some (TCPConnect, Some address) /\ lc_replies c = [].

Abbreviation negotiated i c w active :=
  (negotiate_local_socks5_tunnel (whole i) (lc_command c) (lc_reply_ok c) w active).
Abbreviation handled i c schedule w active :=
  (handle_local_socks5 (whole i) (lc_command c) (lc_reply_ok c) schedule (lc_stream c) w active).

(** What is known of local connection [i] in each phase. *)
Definition thread_ok (l0 : client_listener) (schedule : list turn) (w : client_world) (i : nat) (c : local_conn) : Prop :=
  let connected s t index w0 w1 := passes l0 schedule w0 w1 /\ whole i w0 = (w1, Ok (s, t, index)) in
  match lc_phase c with
  | LcAccepted => lc_replies c = []
  | LcWaiting address => asks c address
  | LcHolding address a => asks c address /\ exists w0, passes l0 schedule w0 w0 /\ resume i w a = whole i w0
  | LcConnected address s t index => asks c address /\ exists w0 w1, connected s t index w0 w1
  | LcNegotiating address s t => asks c address /\ exists w0 w1 index, connected s t index w0 w1
  | LcRelaying => exists w0 w1 active active' s t turns,
      passes l0 schedule w0 w1 /\ negotiated i c w0 active = (w1, active', lc_replies c, Ok (s, t)) /\
      lc_relay c = Some (relay_run turns (relay_start t (lc_stream c) s))
  | LcDone r => exists w0 w1 active active' turns,
      passes l0 schedule w0 w1 /\ handled i c turns w0 active = (w1, active', lc_replies c, Some r)
  end.

Lemma thread_ok_later l0 schedule tu w i c :
  thread_ok l0 schedule w i c -> thread_ok l0 (schedule ++ [tu]) w i c.
Proof.
  pose proof (fun w0 w1 => passes_snoc l0 schedule tu w0 w1) as Hs.
  unfold thread_ok. destruct (lc_phase c); [done|done| | | | |].
  - intros (Ha & w0 & Hp & Hw). eauto.
  - intros (Ha & w0 & w1 & Hp & Hw). eauto 10.
  - intros (Ha & w0 & w1 & index & Hp & Hw). eauto 10.
  - intros (w0 & w1 & active & active' & s & t & turns & Hp & Hn & Hr). exists w0, w1, active, active', s, t, turns. auto.
  - intros (w0 & w1 & active & active' & turns & Hp & Hn). exists w0, w1, active, active', turns. auto.
Qed.

Lemma relay_run_snoc turns up st : relay_run (turns ++ [up]) st = if up then up_step (relay_run turns st) else down_step (relay_run turns st).
Proof. revert st; induction turns as [|u turns IH]; intros st; cbn; [by destruct up|apply IH]. Qed.

(** The request of the local peer. *)
Lemma local_request_ok l0 schedule w i c :
  passes l0 schedule w w -> lc_phase c = LcAccepted -> lc_replies c = [] -> thread_ok l0 schedule w i (local_request c).
Proof.
  intros Hs Hp Hr. unfold local_request.
  destruct (lc_command c) as [[command target]|] eqn:Hc.
  - destruct (bool_decide_reflect (command = TCPConnect)) as [->|Hne]; cbn [negb].
    + destruct target as [address|]; [by split; cbn; rewrite ?Hr|].
      exists w, w, None, None, []. split; [done|]. unfold handle_local_socks5, negotiate_local_socks5_tunnel. cbn. by rewrite Hc, Hr.
    + exists w, w, None, None, []. split; [done|]. unfold handle_local_socks5, negotiate_local_socks5_tunnel. cbn. rewrite Hc, Hr.
      by rewrite bool_decide_eq_false_2 by done.
  - exists w, w, None, None, []. split; [done|]. unfold handle_local_socks5, negotiate_local_socks5_tunnel. cbn. by rewrite Hc, Hr.
Qed.

(** The answers of the server. *)
Lemma local_negotiate_ok l0 schedule w i c address s t :
  asks c address -> (exists w0 w1 index, passes l0 schedule w0 w1 /\ whole i w0 = (w1, Ok (s, t, index))) ->
  thread_ok l0 schedule w i (local_negotiate c address s t).
Proof.
  intros [Hc Hr] (w0 & w1 & index & Hp & Hw). unfold local_negotiate.
  assert (Hn : negotiated i c w0 None =
    match socks5_negotiate s t ([x05; x01; x00] ++ address) with
    | (_, _, Err (e, None)) => (w1, Some index, [], Err e)
    | (_, _, Err (e, Some reply)) => (w1, Some index, [ReplyError_ reply], Err (if lc_reply_ok c then e else NeLocal))
    | (s, t, Ok _) => (w1, Some index, [ReplySuccess], if lc_reply_ok c then Ok (s, t) else Err NeLocal)
    end).
  { unfold negotiate_local_socks5_tunnel. rewrite Hc. rewrite bool_decide_eq_true_2 by done. cbn [negb]. rewrite Hw.
    by destruct (socks5_negotiate _ _ _) as [[s' t'] [[]|[e [reply|]]]]. }
  destruct (socks5_negotiate _ _ _) as [[s' t'] [[]|[e [reply|]]]].
  - destruct (lc_reply_ok c) eqn:Ho; cbn.
    + exists w0, w1, None, (Some index), s', t', []. split; [done|]. cbn. rewrite Hr, Ho. by split.
    + exists w0, w1, None, (Some index), []. split; [done|]. cbn. unfold handle_local_socks5. by rewrite Hr, Ho, Hn.
  - exists w0, w1, None, (Some index), []. split; [done|]. cbn. unfold handle_local_socks5. by rewrite Hr, Hn.
  - exists w0, w1, None, (Some index), []. split; [done|]. cbn. unfold handle_local_socks5. by rewrite Hr, Hn.
Qed.

(** * All local connections of a run *)

Record run_inv (w0 : client_world) (schedule : list turn) (l : client_listener) : Prop := {
  ri_run : run schedule (connect_listener_init w0) = Some l;
  ri_lock : lock_inv w0 l;
  ri_threads : forall i c, cl_locals l !! i = Some c -> thread_ok (connect_listener_init w0) schedule (cl_world l) i c
}.

(** A connection that is not the actor's keeps what is known of it. *)
Lemma thread_ok_other w0 schedule l tu l' i c :
  run_inv w0 schedule l -> turn_of l tu = Some l' -> touches tu <> Some i -> cl_locals l !! i = Some c ->
  thread_ok (connect_listener_init w0) (schedule ++ [tu]) (cl_world l') i c.
Proof.
  intros [Hr Hl Ht] Hturn Hne Hi. specialize (Ht i c Hi). apply (thread_ok_later _ _ tu) in Ht.
  revert Ht. unfold thread_ok. destruct (lc_phase c) eqn:Hp; try done. intros (Ha & w & Hw & He). split; [done|].
  exists w. split; [done|]. erewrite other_turn_world; [exact He|exact Hl| | |exact Hturn].
  - apply (lk_inside _ _ Hl (HoldLocal i)). cbn. rewrite Hi. cbn. by rewrite Hp.
  - destruct tu; cbn in *; congruence.
Qed.

Lemma local_turn_ok w0 schedule l i l' c c' :
  candidates <> [] -> run_inv w0 schedule l -> turn_of l (TuLocal i) = Some l' ->
  cl_locals l !! i = Some c -> cl_locals l' !! i = Some c' ->
  thread_ok (connect_listener_init w0) (schedule ++ [TuLocal i]) (cl_world l') i c'.
Proof.
  intros Hne [Hr Hl Ht] Hturn Hi Hi'. specialize (Ht i c Hi).
  assert (Hr' : run (schedule ++ [TuLocal i]) (connect_listener_init w0) = Some l')
    by (rewrite listener_run_app, Hr; cbn; by rewrite Hturn).
  pose proof (passes_here _ _ _ Hr') as Hhere. pose proof (passes_then _ _ _ _ _ (cl_world l) (cl_world l) Hr Hturn) as Hthen.
  pose proof (fun w0 w1 => passes_then _ _ _ _ _ w0 w1 Hr Hturn) as Hthen'.
  pose proof (thread_ok_later _ _ (TuLocal i) _ _ _ Ht) as Ht'.
  assert (Hlt : (i < length (cl_locals l))%nat) by by eapply lookup_lt_Some.
  assert (Hset : forall l1 c1, l' = set_local l1 i c1 -> cl_locals l1 = cl_locals l -> c' = c1).
  { intros l1 c1 -> He. cbn in Hi'. rewrite He, list_lookup_insert_eq in Hi' by done. congruence. }
  unfold listener_turn, local_turn in Hturn. destruct (cl_over l); [done|]. rewrite Hi in Hturn. cbn [mbind option_bind] in Hturn.
  unfold thread_ok in Ht, Ht'.
  destruct (lc_phase c) as [|address|address a|address s t index|address s t| |r] eqn:Hp; [..|done].
  - injection Hturn as <-. erewrite (Hset l _ eq_refl eq_refl). by apply local_request_ok.
  - destruct (cl_lock l); [done|]. injection Hturn as <-. erewrite (Hset _ _ eq_refl eq_refl).
    destruct Ht as [Hc Hrep]. split; [split; cbn; by rewrite ?Hrep|]. exists (cl_world l). split; [exact Hhere|]. by apply resume_begin.
  - destruct (step i (cl_world l) a) as [[w r]|] eqn:E; [|done]. injection Hturn as <-. apply failover_turn_resume in E.
    destruct Ht as [[Hc Hrep] (w1 & Hw & He)], Ht' as [_ (_ & _ & _)]. rewrite E in He. specialize (Hthen' _ _ Hw).
    destruct r as [a'|[[[s t] index]|e]]; erewrite (Hset _ _ eq_refl eq_refl).
    + split; [split; cbn; by rewrite ?Hrep|]. exists w1. split; [by apply passes_snoc|done].
    + split; [split; cbn; by rewrite ?Hrep|]. exists w1, w. by split.
    + exists w1, w, None, None, []. split; [done|]. cbn. unfold handle_local_socks5, negotiate_local_socks5_tunnel.
      rewrite Hc, bool_decide_eq_true_2 by done. cbn [negb]. by rewrite <-He, Hrep.
  - injection Hturn as <-. erewrite (Hset _ _ eq_refl eq_refl). destruct Ht' as [[Hc Hrep] (w & w1 & ? & ?)].
    split; [split; cbn; by rewrite ?Hrep|]. eauto.
  - injection Hturn as <-. erewrite (Hset _ _ eq_refl eq_refl). destruct Ht' as [Ha Hw]. by apply (local_negotiate_ok _ _ _ _ _ address).
  - destruct Ht' as (w & w1 & active & active' & s & t & turns & Hw & Hn & Hrel). rewrite Hrel in Hturn. cbn in Hturn.
    destruct (relay_join _) as [r|] eqn:Hj; [|done]. injection Hturn as <-. erewrite (Hset _ _ eq_refl eq_refl).
    exists w, w1, active, active', turns. split; [done|]. cbn. unfold handle_local_socks5. by rewrite Hn, Hj, app_nil_r.
Qed.

Lemma relay_turn_ok w0 schedule l i up l' c c' :
  run_inv w0 schedule l -> turn_of l (TuRelay i up) = Some l' -> cl_locals l !! i = Some c -> cl_locals l' !! i = Some c' ->
  thread_ok (connect_listener_init w0) (schedule ++ [TuRelay i up]) (cl_world l') i c'.
Proof.
  intros [_ _ Ht] Hturn Hi Hi'. specialize (Ht i c Hi). apply (thread_ok_later _ _ (TuRelay i up)) in Ht.
  unfold listener_turn, relay_turn in Hturn. destruct (cl_over l); [done|]. rewrite Hi in Hturn. cbn [mbind option_bind] in Hturn.
  destruct (lc_relay c) as [r|] eqn:Hrel; [|done]. injection Hturn as <-. cbn in Hi'.
  rewrite list_lookup_insert_eq in Hi' by (by eapply lookup_lt_Some). injection Hi' as <-.
  unfold thread_ok in *. cbn [with_relay lc_phase lc_command lc_reply_ok lc_stream lc_replies lc_relay cl_world set_local].
  rewrite Hrel in Ht. destruct (lc_phase c); try done. destruct Ht as (w & w1 & active & active' & s & t & turns & Hw & Hn & [= ->]).
  exists w, w1, active, active', s, t, (turns ++ [up]). rewrite relay_run_snoc. by destruct up.
Qed.

Lemma run_inv_all w0 schedule l : candidates <> [] -> run schedule (connect_listener_init w0) = Some l -> run_inv w0 schedule l.
Proof.
  intros Hne. revert l; induction schedule as [|tu schedule IH] using rev_ind; intros l Hr.
  { injection Hr as <-. split; [done|apply lock_inv_init|done]. }
  pose proof Hr as Hr'. rewrite listener_run_app in Hr'. destruct (run schedule _) as [l1|] eqn:E; [|done]. cbn in Hr'.
  destruct (turn_of l1 tu) as [l2|] eqn:Ht; [|done]. injection Hr' as ->. specialize (IH _ eq_refl). split; [done| |].
  - eapply shared_step_inv; [by eapply turn_shared|apply IH].
  - intros i c Hi. destruct (decide (touches tu = Some i)) as [Hto|Hno].
    + assert (Hi1 : is_Some (cl_locals l1 !! i)).
      { unfold listener_turn, local_turn, relay_turn in Ht. destruct (cl_over l1); [done|].
        destruct tu; cbn in Hto; try done; injection Hto as ->; by destruct (cl_locals l1 !! i). }
      destruct Hi1 as [c1 Hi1]. destruct tu; cbn in Hto; try done; injection Hto as ->; [by eapply local_turn_ok|by eapply relay_turn_ok].
    + destruct (turn_locals _ _ _ _ _ Ht Hi Hno) as [Hi1|[Hp Hrep]]; [by eapply thread_ok_other|].
      unfold thread_ok. by rewrite Hp.
Qed.

(** C23: a local connection is handled as if it were alone.  Whatever the other
    connections and the refresh thread do meanwhile: what a local peer has been
    told, and how its connection ends, are what [handle_local_socks5] gives when
    the connection to a server, with its failover over all candidates and
    rounds, happens at one point of the run as a whole, on the counter file as it
    is there; and while it is relayed, the two relay threads have run on the
    tunnel that was negotiated so. *)
Theorem local_connection_atomic w schedule l i c :
  candidates <> [] -> run schedule (connect_listener_init w) = Some l -> cl_locals l !! i = Some c ->
  match lc_phase c with
  | LcDone r => exists w0 w1 active active' turns,
      passes (connect_listener_init w) schedule w0 w1 /\ handled i c turns w0 active = (w1, active', lc_replies c, Some r)
  | LcRelaying => exists w0 w1 active active' s t turns,
      passes (connect_listener_init w) schedule w0 w1 /\ negotiated i c w0 active = (w1, active', lc_replies c, Ok (s, t)) /\
      lc_relay c = Some (relay_run turns (relay_start t (lc_stream c) s))
  | _ => lc_replies c = []
  end.
Proof.
  intros Hne Hr Hi. pose proof (ri_threads _ _ _ (run_inv_all _ _ _ Hne Hr) i c Hi) as Ht. unfold thread_ok in Ht.
  destruct (lc_phase c); [done|by destruct Ht|by destruct Ht as [[]]..|done|done].
Qed.

(** * The lock is given back *)

(** The loops are within their bounds. *)
Definition in_range (a : attempt) : Prop :=
  let within := Forall (fun k => k < length candidates)%nat in
  match at_trying a with
  | TryRound _ => True
  | TryNext round indices => (round < rounds)%nat /\ (length indices <= length candidates)%nat /\ within indices
  | TryKnock round _ rest _ _ _ _ | TryAnswer round _ rest _ _ _ =>
      (round < rounds)%nat /\ (length rest < length candidates)%nat /\ within rest
  end.

Definition turns_per_round : nat := (3 * length candidates + 2)%nat.

(** An upper bound of the turns that are left. *)
Definition turns_left (a : attempt) : nat :=
  match at_trying a with
  | TryRound round => (rounds - round) * turns_per_round
  | TryNext round indices => 3 * length indices + 1 + (rounds - S round) * turns_per_round
  | TryKnock round _ rest _ _ _ _ => 3 * length rest + 3 + (rounds - S round) * turns_per_round
  | TryAnswer round _ rest _ _ _ => 3 * length rest + 2 + (rounds - S round) * turns_per_round
  end%nat.

Lemma turns_left_bound a : in_range a -> (turns_left a <= rounds * turns_per_round)%nat.
Proof. unfold in_range, turns_left, turns_per_round. destruct (at_trying a); cbn zeta; [nia|intros (? & ? & _); nia..]. Qed.

Hypothesis Hshuffle : forall thread round l, shuffle thread round l ≡ₚ l.

(** The loops wait for the answer of a server that never comes. *)
Definition unanswered (a : attempt) : Prop :=
  match at_trying a with TryAnswer _ _ _ k _ _ => ss_answers (sessions k) = false | _ => False end.

(** Otherwise the holder is never stuck, and each turn brings the end nearer. *)
Lemma failover_turn_progress thread w a :
  in_range a ->
  match step thread w a with
  | Some (w', inl a') => in_range a' /\ (turns_left a' < turns_left a)%nat
  | Some (w', inr _) => True
  | None => unanswered a
  end.
Proof.
  unfold failover_turn, in_range, turns_left, turns_per_round, unanswered. cbn zeta.
  destruct (at_trying a) as [round|round [|index rest]|round index rest k c i n|round index rest k s noise]; intros Hin.
  - destruct (Nat.leb_spec rounds round); [done|]. cbn [at_trying].
    pose proof (order_candidates_perm (fp_strategy policy) (length candidates) (shuffle thread round) (probe thread round)
      (Hshuffle thread round)) as Hp.
    pose proof (Permutation_length Hp) as Hlen. rewrite length_seq in Hlen. rewrite Hlen. replace (rounds - round)%nat with (S (rounds - S round)) by lia.
    split; [split_and!; [done|lia|rewrite Hp; apply Forall_seq; lia]|lia].
  - cbn. split; [done|lia].
  - destruct Hin as (Hr & Hl & [Hi Hin]%Forall_cons). apply lookup_lt_is_Some in Hi as [c ->]. cbn in *.
    split; [split_and!; [done|lia|done]|lia].
  - destruct Hin as (Hr & Hl & Hin). destruct (connect_open _ _ _ _) as [effects [[[s noise] kid]|e]]; cbn;
      (split; [split_and!; [done|lia|done]|lia]).
  - destruct Hin as (Hr & Hl & Hin). destruct (ss_answers (sessions k)); [|done]. cbn [negb].
    destruct (noise_xk noise s) as [[s' t]|e]; [done|]. cbn. split; [split_and!; [done|lia|done]|lia].
Qed.

Definition all_in_range (l : client_listener) : Prop :=
  forall i c address a, cl_locals l !! i = Some c -> lc_phase c = LcHolding address a -> in_range a.

Lemma local_turn_in_range l i l' c address a :
  all_in_range l -> turn_of l (TuLocal i) = Some l' -> cl_locals l' !! i = Some c -> lc_phase c = LcHolding address a -> in_range a.
Proof.
  unfold listener_turn, local_turn. destruct (cl_over l); [done|]. intros Hall. specialize (Hall i).
  destruct (cl_locals l !! i) as [c0|] eqn:Hi; [|done]. cbn [mbind option_bind]. specialize (Hall c0).
  assert (Hlt : (i < length (cl_locals l))%nat) by by eapply lookup_lt_Some.
  assert (Hset : forall l1 c1, Some (set_local l1 i c1) = Some l' -> cl_locals l1 = cl_locals l -> cl_locals l' !! i = Some c -> c = c1).
  { intros l1 c1 [= <-] He Hc. cbn in Hc. rewrite He, list_lookup_insert_eq in Hc by done. congruence. }
  assert (Hquiet : forall c1, phase_reads (lc_phase c1) = None -> lc_phase c1 <> LcHolding address a) by (intros c1 H E; by rewrite E in H).
  destruct (lc_phase c0) as [|address0|address0 a0|address0 s t index|address0 s t| |r] eqn:Hp; [..|done].
  - intros H Hc. rewrite (Hset _ _ H eq_refl Hc). intros E. by destruct (Hquiet _ (local_request_reads c0)).
  - destruct (cl_lock l); [done|]. intros H Hc. rewrite (Hset _ _ H eq_refl Hc). by intros [= _ <-].
  - specialize (Hall _ _ eq_refl eq_refl). pose proof (failover_turn_progress i (cl_world l) a0 Hall) as Hr.
    destruct (step i (cl_world l) a0) as [[w r]|]; [|done]. cbn [mbind option_bind].
    destruct r as [a1|[[[s t] index]|e]]; intros H Hc; rewrite (Hset _ _ H eq_refl Hc); [|done..].
    intros [= _ <-]. apply Hr.
  - intros H Hc. by rewrite (Hset _ _ H eq_refl Hc).
  - intros H Hc. rewrite (Hset _ _ H eq_refl Hc). intros E. by destruct (Hquiet _ (local_negotiate_reads c0 address0 s t)).
  - destruct (_ ≫= relay_join); [|done]. intros H Hc. by rewrite (Hset _ _ H eq_refl Hc).
Qed.

Lemma all_in_range_turn l tu l' : all_in_range l -> turn_of l tu = Some l' -> all_in_range l'.
Proof.
  intros Hall Ht i c address a Hi Hp. destruct (decide (touches tu = Some i)) as [Hto|Hno].
  - destruct tu as [| |k|k up]; cbn in Hto; try done; injection Hto as ->; [by eapply local_turn_in_range|].
    unfold listener_turn, relay_turn in Ht. destruct (cl_over l); [done|]. destruct (cl_locals l !! i) as [c0|] eqn:Hi0; [|done].
    cbn [mbind option_bind] in Ht. destruct (lc_relay c0); [|done]. injection Ht as <-. cbn in Hi.
    rewrite list_lookup_insert_eq in Hi by (by eapply lookup_lt_Some). injection Hi as <-. by eapply Hall.
  - destruct (turn_locals _ _ _ _ _ Ht Hi Hno) as [Hi1|[Hp1 _]]; [by eapply Hall|by rewrite Hp1 in Hp].
Qed.

(** The holder waits for such an answer. *)
Definition awaits (l : client_listener) (h : holder) : Prop :=
  exists i c address a, h = HoldLocal i /\ cl_locals l !! i = Some c /\ lc_phase c = LcHolding address a /\ unanswered a.

(** The thread that holds the lock gives it back, or comes to wait. *)
Lemma failover_gives_back n : forall l i c address a,
  cl_over l = false -> cl_lock l = Some (HoldLocal i) -> cl_locals l !! i = Some c -> lc_phase c = LcHolding address a ->
  in_range a -> (turns_left a < n)%nat ->
  exists m l', (m <= n)%nat /\ run (repeat (TuLocal i) m) l = Some l' /\ (cl_lock l' = None \/ awaits l' (HoldLocal i)).
Proof.
  induction n as [|n IH]; intros l i c address a Ho Hl Hi Hp Hin Hn; [lia|].
  pose proof (failover_turn_progress i (cl_world l) a Hin) as Hr.
  destruct (step i (cl_world l) a) as [[w r]|] eqn:Hs; [|exists 0%nat, l; split; [lia|]; split; [done|right; by exists i, c, address, a]].
  assert (Ht : turn_of l (TuLocal i) = Some match r with
    | inl a => set_local (set_shared l w (cl_lock l) (cl_active l)) i (with_phase c [] (LcHolding address a))
    | inr (Err e) => set_local (set_shared l w None (cl_active l)) i (with_phase c [] (LcDone (Err e)))
    | inr (Ok (s, t, index)) => set_local (set_shared l w None (cl_active l)) i (with_phase c [] (LcConnected address s t index))
    end) by (unfold listener_turn, local_turn; rewrite Ho, Hi; cbn; by rewrite Hp, Hs).
  destruct r as [a'|[[[s t] index]|e]].
  - destruct Hr as [Hin' Hlt]. set (l1 := set_local _ _ _) in Ht.
    assert (Hi1 : cl_locals l1 !! i = Some (with_phase c [] (LcHolding address a')))
      by (apply list_lookup_insert_eq; by eapply lookup_lt_Some).
    destruct (IH l1 i _ address a' Ho Hl Hi1 eq_refl Hin' ltac:(lia)) as (m & l' & Hm & Hrun & Hend).
    exists (S m), l'. split; [lia|]. split; [|done]. cbn [repeat listener_run]. by rewrite Ht.
  - eexists 1%nat, _. split; [lia|]. cbn [repeat listener_run]. rewrite Ht. split; [done|by left].
  - eexists 1%nat, _. split; [lia|]. cbn [repeat listener_run]. rewrite Ht. split; [done|by left].
Qed.

(** Once it waits, it waits for good: no turn of any thread changes that. *)
Lemma awaits_turn w0 l h tu l' :
  lock_inv w0 l -> cl_lock l = Some h -> awaits l h -> turn_of l tu = Some l' ->
  cl_lock l' = Some h /\ cl_world l' = cl_world l /\ awaits l' h.
Proof.
  intros Hinv Hl (i & c & address & a & -> & Hi & Hp & Hu) Ht.
  assert (Hne : actor tu <> Some (HoldLocal i)).
  { intros E. destruct tu as [|  |k|]; cbn in E; try done. injection E as ->.
    unfold listener_turn, local_turn in Ht. destruct (cl_over l); [done|]. rewrite Hi in Ht. cbn [mbind option_bind] in Ht.
    rewrite Hp in Ht. unfold unanswered in Hu. unfold failover_turn in Ht. destruct (at_trying a); try done. by rewrite Hu in Ht. }
  pose proof (other_turn_world w0 l _ tu l' Hinv Hl Hne Ht) as Hw.
  assert (Hi' : exists c', cl_locals l' !! i = Some c' /\ lc_phase c' = lc_phase c).
  { assert (Hlt : (i < length (cl_locals l))%nat) by by eapply lookup_lt_Some.
    destruct (decide (touches tu = Some i)) as [Hto|Hno].
    - destruct tu as [| |k|k up]; cbn in Hto, Hne; try done; injection Hto as ->; [done|].
      unfold listener_turn, relay_turn in Ht. destruct (cl_over l); [done|]. rewrite Hi in Ht. cbn [mbind option_bind] in Ht. destruct (lc_relay c); [|done].
      injection Ht as <-. cbn. rewrite list_lookup_insert_eq by done. by eexists.
    - exists c. split; [|done]. eapply turn_others_keep; [exact Ht|exact Hi|exact Hno]. }
  destruct Hi' as (c' & Hi' & Hp').
  assert (Ha : awaits l' (HoldLocal i)) by (exists i, c', address, a; by rewrite Hp').
  split_and!; [|done|done]. assert (Hinv' : lock_inv w0 l') by (apply (shared_step_inv w0 l l'); [by eapply turn_shared|done]).
  apply (lk_inside _ _ Hinv' (HoldLocal i)).
  cbn. rewrite Hi'. cbn. by rewrite Hp', Hp.
Qed.

Lemma awaits_for_good w0 schedule : forall l h l',
  lock_inv w0 l -> cl_lock l = Some h -> awaits l h -> run schedule l = Some l' ->
  cl_lock l' = Some h /\ cl_world l' = cl_world l /\ awaits l' h.
Proof.
  induction schedule as [|tu schedule IH]; intros l h l' Hi Hl Ha; [by intros [= <-]|]. cbn [listener_run].
  destruct (turn_of l tu) as [l1|] eqn:Ht; [|done]. cbn [mbind option_bind]. intros Hr.
  destruct (awaits_turn w0 l h tu l1 Hi Hl Ha Ht) as (Hl1 & Hw1 & Ha1). rewrite <-Hw1.
  eapply IH; [|done..]. apply (shared_step_inv w0 l l1); [by eapply turn_shared|done].
Qed.

Definition turn_of_holder (h : holder) : turn := match h with HoldRefresh => TuRefresh | HoldLocal i => TuLocal i end.

(** C24: the lock of the counter file is given back, unless a server keeps
    silent.  In every state that a run of [connect] can reach, the thread that
    holds the lock releases it after at most three turns per candidate and two
    more in each round, one more at the end, or comes to wait for a server that
    has accepted the connection and never answers the handshake; when all servers
    answer or end the connection, it releases it.  If it waits, it holds the lock
    for good: whatever the threads do then, no other takes the lock, no knock is
    made, and the files stay as they are. *)
Theorem lock_given_back w schedule l h :
  run schedule (connect_listener_init w) = Some l -> cl_over l = false -> cl_lock l = Some h ->
  (exists n l', (n <= rounds * turns_per_round + 1)%nat /\ run (repeat (turn_of_holder h) n) l = Some l' /\
     (cl_lock l' = None \/ awaits l' h) /\ ((forall k, ss_answers (sessions k) = true) -> cl_lock l' = None)) /\
  (awaits l h -> forall later l', run later l = Some l' -> cl_lock l' = Some h /\ cl_world l' = cl_world l /\ awaits l' h).
Proof.
  intros Hr Ho Hl. pose proof (lock_inv_run _ _ _ _ (lock_inv_init w) Hr) as Hinv.
  split; [|intros Ha later l'; by eapply awaits_for_good].
  assert (Hall : all_in_range l).
  { refine (listener_run_inv all_in_range all_in_range_turn schedule (connect_listener_init w) l _ Hr). by intros i c ??. }
  pose proof (proj2 (lk_inside _ _ Hinv h) Hl) as [x Hx]. destruct h as [|i].
  - cbn in Hx. destruct (cl_refresh l) as [| |c i n] eqn:Hp; try done. exists 1%nat.
    cbn [turn_of_holder repeat listener_run]. unfold listener_turn, refresh_turn. rewrite Ho, Hp.
    destruct (refresh_knock _ _ _ _). eexists. split; [lia|]. cbn. split; [done|]. split; [by left|done].
  - cbn in Hx. destruct (cl_locals l !! i) as [c|] eqn:Hi; [|done]. cbn in Hx. destruct (lc_phase c) as [| |address a| | | |] eqn:Hp; try done.
    pose proof (Hall _ _ _ _ Hi Hp) as Hin. pose proof (turns_left_bound a Hin) as Hb.
    edestruct (failover_gives_back (rounds * turns_per_round + 1)) as (m & l' & Hm & Hrun & Hend);
      [exact Ho|exact Hl|exact Hi|exact Hp|exact Hin|lia|]. exists m, l'. split_and!; [done..|].
    intros Hans. destruct Hend as [?|(j & c' & ad & a' & _ & _ & _ & Hu)]; [done|].
    unfold unanswered in Hu. destruct (at_trying a'); try done. by rewrite Hans in Hu.
Qed.

(** The refresh thread knocks for the candidate of the last connection, and no
    other. *)
Lemma refresh_follows_last l c :
  cl_refresh l = RfIdle -> cl_over l = false ->
  (exists l', turn_of l TuRefresh = Some l' /\ cl_refresh l' = RfWaiting c) <->
  exists index, cl_active l = Some index /\ candidates !! index = Some c.
Proof.
  intros Hp Ho. unfold listener_turn, refresh_turn. rewrite Ho, Hp. cbn. split.
  - intros (l' & [= <-] & H). cbn in H. destruct (cl_active l) as [index|]; [|done]. cbn in H. exists index. split; [done|].
    by destruct (candidates !! index); cbn in H; simplify_eq.
  - intros (index & -> & Hc). eexists. split; [done|]. cbn. by rewrite Hc.
Qed.

Lemma active_is_last l i c address s t index l' :
  cl_locals l !! i = Some c -> lc_phase c = LcConnected address s t index -> turn_of l (TuLocal i) = Some l' ->
  cl_active l' = Some index.
Proof. intros Hi Hp. unfold listener_turn, local_turn. destruct (cl_over l); [done|]. rewrite Hi. cbn. rewrite Hp. by intros [= <-]. Qed.

End listener_facts.

(** * Counters *)

Section counters.
Context `{C : Crypto} `{I : IdentityLib} `{NH : NoiseHandshake} `{CT : ClientToml}.
Context (sessions : nat -> session_io) (readable : string -> bool).

(** What a client does with the counter at [path]: commands one after the other,
    or [connect], stopped at some point of a run of its threads. *)
Inductive client_step (path : string) : client_world -> client_world -> Prop :=
| client_commands setup fuel cmds w w' :
    Forall (uses_counter path) cmds -> client_run sessions setup readable fuel w cmds = Some w' -> client_step path w w'
| client_connects setup fuel w config identity_key server_key spa proxy listen mode url ttl file candidates policy interval
    shuffle probe schedule l :
    counter_path file identity_key = path ->
    client_main sessions setup readable fuel w (Connect config identity_key server_key spa proxy listen mode url ttl file)
    = Some (w, Ok (OutListening candidates policy interval)) ->
    listener_run sessions readable identity_key file candidates policy shuffle probe schedule (connect_listener_init w) = Some l ->
    client_step path w (cl_world l).

Lemma client_step_advanced path w w' : client_step path w w' -> advanced path w w'.
Proof.
  intros [setup fuel cmds w0 w1 Hu Hr|setup fuel w0 config key skey spa proxy listen mode url ttl file cands policy interval sh pr schedule l <- _ Hr].
  - by eapply client_run_advanced.
  - eapply lk_advanced, (lock_inv_run _ _ _ _ _ _ _ _ _ schedule); [apply lock_inv_init|exact Hr].
Qed.

(** C22: a client never knocks twice with a counter.  Through any sequence of
    commands that share an identity's counter file (and do not overwrite it
    otherwise) and runs of [connect], in any interleaving of their local
    connections and refreshes, over as many attempts as they make: every packet
    that leaves carries the counter that was written to the file immediately
    before it, so no two packets share a write; a counter written later is above
    one written before, until the [u64] is exhausted, and above the one stored at
    the start; and the file ends with the last of them.  This is as long as no
    write of the file fails after truncating it: from a torn file the next knock
    goes on from whatever number is left there, or from the clock. *)
Theorem client_counters_increase path w w' :
  rtc (client_step path) w w' ->
  exists effects, cw_effects w' = cw_effects w ++ effects /\
    (forall k e payload, effects !! k = Some e -> packet_of e = Some payload ->
       exists j n, k = S j /\ effects !! j = Some (EffCounter path (counter_line n)) /\ in_u 64 n /\ carries n payload) /\
    (forall i j a b, (i < j)%nat -> intact effects i j ->
       effects !! i = Some (EffCounter path (counter_line a)) -> in_u 64 a ->
       effects !! j = Some (EffCounter path (counter_line b)) -> in_u 64 b -> a < b \/ b = umax 64) /\
    (forall c j b, stored_counter (cw_files w) path = Some c -> intact effects 0 j ->
       effects !! j = Some (EffCounter path (counter_line b)) -> in_u 64 b -> c < b \/ b = umax 64) /\
    (forall j b, effects !! j = Some (EffCounter path (counter_line b)) -> in_u 64 b ->
       (forall p text, EffCounter p text ∉ drop (S j) effects) -> stored_counter (cw_files w') path = Some b).
Proof.
  intros Hrun. assert (Hadv : advanced path w w').
  { induction Hrun as [|w1 w2 w3 H1 _ IH]; [apply advanced_refl|]. eapply advanced_trans; [by apply client_step_advanced|exact IH]. }
  destruct Hadv as (effects & He & Ht). exists effects. split_and!; [done| | | |].
  - intros k e payload. by eapply knock_trace_ahead.
  - intros i j a b. by eapply knock_trace_ascends.
  - intros c j b Hc. rewrite Hc in Ht. by eapply knock_trace_above.
  - intros j b. by eapply knock_trace_ends.
Qed.

End counters.
