(* ===== verification/ServerMain.v ===== *)
(** The running server: the tasks that [main] of [ghostbro-server/src/main.rs]
    selects over - the decoy, the event loop [run_spa], the proxy listener - with
    the packet filter in front of them and the relay's workers behind.

    A run is a list of actions: frames, requests and connections that arrive,
    and turns of the tasks.  Each action is a function of the state they share;
    the first task that ends, ends the process. *)

From S2P Require Import Prelude Text NetAddr Protocol Crypto Keys Seal SpaPacket Fs AuthKeys Verifier VerifierFacts.
From S2P Require Import Xdp XdpFacts Runtime RuntimeFacts Tunnel Decoy System RelayWire RelayEngine Config Startup.
From S2P Require Import RelayTunnel ProxyListener ProxyListenerFacts Schedule.

Section server.
Context `{C : Crypto} {T : CounterToml} `{HL : HttpLib} `{U : UrlLib} {RT : RelayToml} `{N : Noise} {NH : NoiseHandshake}.
Context {S5 : Socks5Lib}.

(** Why the process ends. *)
Inductive server_exit :=
| ExitSpa (e : RunError)
| ExitAccept
| ExitStopped.

(** What the tasks share: the filter's maps, the verifier and the files of the
    event loop, the channel from the decoy to it, and the proxy's state with the
    mirror of the allow map. *)
Record server_state := {
  ss_maps : xdp_maps;
  ss_verifier : SpaVerifier;
  ss_files : store;
  ss_channel : spa_channel;
  ss_proxy : listener;
  ss_over : option server_exit
}.

(** What happens at an action. *)
Inductive server_event :=
| SvFrame (pkt : bytes) (act : xdp_action) (ev : sys_event)
| SvGate (ev : sys_event)
| SvRequest (rq : Request) (rsp : Response)
| SvProxy (ev : listen_event)
| SvEnd (why : server_exit).

Definition with_sources (l : listener) (sources : gmap Z AllowedSource) : listener :=
  {| li_sources := sources; li_sessions := li_sessions l; li_relay := li_relay l; li_conns := li_conns l |}.

Definition with_relay_state (l : listener) (st : relay_state) : listener :=
  {| li_sources := li_sources l; li_sessions := li_sessions l; li_relay := st; li_conns := li_conns l |}.

(** The gate as [System] sees it, and the state after the gate has changed. *)
Definition gate_of (st : server_state) : system :=
  {| sy_maps := ss_maps st; sy_mirror := li_sources (ss_proxy st); sy_verifier := ss_verifier st; sy_files := ss_files st |}.

Definition set_gate (sy : system) (ch : spa_channel) (over : option server_exit) (st : server_state) : server_state :=
  {| ss_maps := sy_maps sy; ss_verifier := sy_verifier sy; ss_files := sy_files sy; ss_channel := ch;
     ss_proxy := with_sources (ss_proxy st) (sy_mirror sy); ss_over := over |}.

Definition set_maps (maps : xdp_maps) (st : server_state) : server_state :=
  {| ss_maps := maps; ss_verifier := ss_verifier st; ss_files := ss_files st; ss_channel := ss_channel st;
     ss_proxy := ss_proxy st; ss_over := ss_over st |}.

Definition set_channel (ch : spa_channel) (st : server_state) : server_state :=
  {| ss_maps := ss_maps st; ss_verifier := ss_verifier st; ss_files := ss_files st; ss_channel := ch;
     ss_proxy := ss_proxy st; ss_over := ss_over st |}.

Definition set_proxy (l : listener) (over : option server_exit) (st : server_state) : server_state :=
  {| ss_maps := ss_maps st; ss_verifier := ss_verifier st; ss_files := ss_files st; ss_channel := ss_channel st;
     ss_proxy := l; ss_over := over |}.

(** The maps as the loader leaves them. *)
Definition maps_loaded (config : BpfConfig) (allow : gmap Z AllowEntry) : xdp_maps :=
  {| CONFIG := Some config; ALLOW_MAP := allow; RATE_LIMIT := ∅;
     GLOBAL_RATE := Some {| tokens := 0; last_ns := 0 |}; SPA_RING := [] |}.

Context (en : endian) (toml_keys : string -> option (list AuthorizedClientConfig)).
(** [axum]'s answer to a refused method, and the number of connections that the
    process may have open. *)
Context (refused : Response) (max_open : nat).

(** The proxy's key, and what [boot] has built. *)
Context (static_key : bytes) (g : Gate) (app : list (string * Method * Handler) * Handler * DecoyState).

Definition server_start (relay : relay_state) : server_state :=
  {| ss_maps := maps_loaded (gt_bpf g) (allow_map (gt_runtime g)); ss_verifier := gt_verifier g; ss_files := gt_files g;
     ss_channel := {| ch_queue := []; ch_closed := false |};
     ss_proxy := listener_start (allowed_sources (gt_runtime g)) relay; ss_over := None |}.

(** What happens next: a frame arrives; the event loop takes an item of the ring,
    a candidate of the channel, a reload signal, or its turn to reap; a request
    reaches the decoy; a connection is accepted, or [accept] fails; a connection
    makes a turn; the relay's workers have changed the relay's state in any way;
    a task ends for another reason, or the operator stops the process. *)
Inductive server_act :=
| SaFrame (env : xdp_env) (data : Z) (pkt : bytes)
| SaRing (io : knock_io)
| SaHttps (io : knock_io)
| SaReload (contents : option string)
| SaReap (timespec : option (Z * Z))
| SaRequest (env : serve_env) (rq : Request)
| SaAccept (peer : option (option Z * bytes))
| SaTurn (io : turn_io) (i : nat)
| SaRelay (relay : relay_state)
| SaStop.

(** The event loop after one item: an error ends the process. *)
Definition spa_turn (item : spa_loop -> spa_loop * result RunError unit) (ring : list bytes) (ch : spa_channel)
    (ev : sys_event) (st : server_state) : server_event * server_state :=
  match item (loop_view (gate_of st)) with
  | (sl, Ok _) => (SvGate ev, set_gate (loop_put ring sl (gate_of st)) ch None st)
  | (sl, Err e) => (SvEnd (ExitSpa e), set_gate (loop_put ring sl (gate_of st)) ch (Some (ExitSpa e)) st)
  end.

Definition server_turn (st : server_state) (a : server_act) : option (server_event * server_state) :=
  match ss_over st with
  | Some _ => None
  | None =>
      match a with
      | SaFrame env data pkt =>
          '(maps, act) ← ghostbro_xdp en env (ss_maps st) data pkt;
          Some (SvFrame pkt act (frame_event env (ss_maps st) pkt act), set_maps maps st)
      | SaRing io =>
          match SPA_RING (ss_maps st) with
          | [] => None
          | item :: rest =>
              Some (spa_turn (fun sl => handle_ring_item en (gt_allow_ttl g) sl (io, item)) rest (ss_channel st)
                      (ring_event en io item (ss_verifier st)) st)
          end
      | SaHttps io =>
          match ch_queue (ss_channel st) with
          | [] => None
          | cand :: rest =>
              Some (spa_turn (fun sl => handle_https_item (gt_allow_ttl g) sl (io, cand)) (SPA_RING (ss_maps st))
                      {| ch_queue := rest; ch_closed := ch_closed (ss_channel st) |}
                      (knock_event io (cand_payload cand) (cand_src_ip cand) (ss_verifier st)) st)
          end
      | SaReload contents =>
          Some (spa_turn (fun sl => handle_reload toml_keys sl contents) (SPA_RING (ss_maps st)) (ss_channel st) EvQuiet st)
      | SaReap timespec =>
          Some (spa_turn (fun sl => handle_reap sl timespec) (SPA_RING (ss_maps st)) (ss_channel st) EvQuiet st)
      | SaRequest env rq =>
          let '(ch, rsp) := serve refused app env (ss_channel st) rq in Some (SvRequest rq rsp, set_channel ch st)
      | SaAccept (Some (peer, input)) =>
          Some (if (open_conns (li_conns (ss_proxy st)) <? max_open)%nat
                then (SvProxy LeQuiet, set_proxy (listener_accept (ss_proxy st) peer input) None st)
                else (SvEnd ExitAccept, set_proxy (ss_proxy st) (Some ExitAccept) st))
      | SaAccept None => Some (SvEnd ExitAccept, set_proxy (ss_proxy st) (Some ExitAccept) st)
      | SaTurn io i =>
          l ← conn_turn (gt_relay g) static_key io (ss_proxy st) i;
          Some (SvProxy (turn_event io (ss_proxy st) l i), set_proxy l None st)
      | SaRelay relay => Some (SvProxy LeQuiet, set_proxy (with_relay_state (ss_proxy st) relay) None st)
      | SaStop => Some (SvEnd ExitStopped, set_proxy (ss_proxy st) (Some ExitStopped) st)
      end
  end.

Fixpoint server_exec (st : server_state) (acts : list server_act) : option (list server_event * server_state) :=
  match acts with
  | [] => Some ([], st)
  | a :: acts =>
      '(ev, st1) ← server_turn st a;
      '(h, st2) ← server_exec st1 acts;
      Some (ev :: h, st2)
  end.

(** Frames as the kernel delivers them. *)
Definition server_act_ok (a : server_act) : Prop :=
  match a with
  | SaFrame env data pkt => 0 <= data /\ data + blen pkt < umax 64 /\ env_wf env pkt /\ blen pkt < 2 ^ 32
  | _ => True
  end.

End server.
