(* ===== verification/ServerFacts.v ===== *)
(** What reaches the proxy of the running server, and from where. *)

From S2P Require Import Prelude Text NetAddr Protocol Crypto Keys Seal SpaPacket Fs AuthKeys Verifier VerifierFacts.
From S2P Require Import Xdp XdpFacts Runtime RuntimeFacts Tunnel Decoy DecoyFacts System RelayWire RelayEngine Config Startup StartupFacts.
From S2P Require Import RelayTunnel ProxyListener ProxyListenerFacts Schedule ServerMain.

(** * Datagrams *)

(** The frame is a UDP datagram of [src] with this payload. *)
Definition datagram (pkt : bytes) (src : Z) (payload : bytes) : Prop :=
  exists sport dport len off, classify pkt = FUdp src sport dport len off /\
    payload = slice (Z.to_nat off) (Z.to_nat (off + (len - 8))) pkt.

(** The filter hands the server at most one event for a frame, which is that of a
    datagram of its source. *)
Lemma xdp_spec_ring en env s pkt item :
  env_wf env pkt -> item ∈ SPA_RING (xdp_spec en env s pkt).1 ->
  item ∈ SPA_RING s \/
  exists src payload ev, datagram pkt src payload /\ parse_spa_event en item = Some ev /\ ev_src_ip ev = src /\
    take (Z.to_nat (ev_payload_len ev)) (ev_payload ev) = payload.
Proof.
  intros Hwf. unfold xdp_spec. destruct (classify pkt) as [|src dport|src sport dport len off] eqn:Hc; [by left| |].
  - destruct (negb _); [by left|]. destruct (ALLOW_MAP s !! src); [|by left]. destruct (_ <? _); by left.
  - destruct (_ || _); [by left|]. destruct (_ && _ && _) eqn:Hl; [|by left]. bool_props.
    unfold rate_limit_allows. destruct (_ =? 0); [by left|]. cbn [negb].
    unfold global_rate_limit_allows. cbn [GLOBAL_RATE set_rate]. destruct (GLOBAL_RATE s); [|by left].
    destruct (_ =? 0); [by left|]. destruct (reserve env) as [slot|] eqn:Hslot; [|by left].
    cbn. intros [Hin|Hin]%elem_of_app; [by left|right]. apply list_elem_of_singleton in Hin as ->.
    set (payload := slice _ _ pkt). destruct (classify_udp_range _ _ _ _ _ _ Hc) as [Hsrc Hsp].
    destruct (parse_event_bytes en src sport payload slot) as (ev & Hev & Hs & _ & _ & Hp); [done|done| |by eapply wf_reserve|].
    { unfold payload, slice. rewrite length_take, length_drop. lia. }
    exists src, payload, ev. split_and!; [|done..]. by exists sport, dport, len, off.
Qed.

(** * What a turn of the event loop does to the mirror *)

Section server_facts.
Context `{C : Crypto} {T : CounterToml} `{HL : HttpLib} `{U : UrlLib} {RT : RelayToml} `{N : Noise} {NH : NoiseHandshake}.
Context {S5 : Socks5Lib}.
Context (en : endian) (toml_keys : string -> option (list AuthorizedClientConfig)) (refused : Response) (max_open : nat).
Context (static_key : bytes) (g : Gate) (app : list (string * Method * Handler) * Handler * DecoyState).

Abbreviation ttl := (gt_allow_ttl g).
Abbreviation turn := (server_turn en toml_keys refused max_open static_key g app).
Abbreviation exec := (server_exec en toml_keys refused max_open static_key g app).
Abbreviation sources sl := (allowed_sources (sl_runtime sl)).

(** The entry [a] of [ip] is the one an accepted knock makes. *)
Definition opened_by (ev : sys_event) (ip : Z) (a : AllowedSource) : Prop :=
  exists payload accept now, ev = EvKnock ip payload accept now /\ as_entry a = entry_for ttl accept now /\
    as_noise_public_key a = acc_noise_public_key accept /\
    as_max_concurrent_sessions a = acc_max_concurrent_sessions accept.

(** Entries are taken away, and one is added only by an accepted knock. *)
Definition admits_knocks (ev : sys_event) (sl sl' : spa_loop) (r : result RunError unit) : Prop :=
  forall ip a, sources sl' !! ip = Some a -> sources sl !! ip = Some a \/ r = Ok tt /\ opened_by ev ip a.

Lemma remove_sources_shrinks l rt rt' r ip a :
  remove_sources rt l = (rt', r) -> allowed_sources rt' !! ip = Some a -> allowed_sources rt !! ip = Some a.
Proof.
  revert rt; induction l as [|k l IH]; intros rt; cbn [remove_sources]; [by intros [= <- _]|].
  destruct (bpf_delete k (allow_map rt)); [|by intros [= <- _]]. intros H Ha. apply (IH _ H) in Ha.
  cbn [allowed_sources] in Ha. by apply lookup_delete_Some in Ha as [_ Ha].
Qed.

Lemma purge_all_shrinks removed rt rt' r ip a :
  try_fold purge_key_id removed rt = (rt', r) -> allowed_sources rt' !! ip = Some a -> allowed_sources rt !! ip = Some a.
Proof.
  revert rt; induction removed as [|k l IH]; intros rt; cbn [try_fold]; [by intros [= <- _]|].
  destruct (purge_key_id rt k) as [rt1 [[]|e]] eqn:E; rewrite purge_key_id_eq in E.
  - intros H Ha. eapply remove_sources_shrinks; [done|]. by eapply IH.
  - intros [= <- _]. by eapply remove_sources_shrinks.
Qed.

Lemma handle_knock_admits io payload src sl sl' r :
  handle_knock ttl io payload src sl = (sl', r) -> admits_knocks (knock_event io payload src (sl_verifier sl)) sl sl' r.
Proof.
  unfold handle_knock, knock_event. destruct (wall_clock_now_ms _) as [ms|]; [|by intros [= <- <-]; left].
  destruct (verify _ _ _ _ _) as [[v ops] [accept|e]]; cbn [snd]; [|by intros [= <- <-]; left].
  destruct (allow_source _ _ _ _ _ _) as [rt r'] eqn:E. intros [= <- <-] ip a. cbn [sl_runtime]. unfold allow_source in E.
  destruct (monotonic_now_ns _) as [now|]; [|by injection E as <- <-; left].
  destruct (bpf_update _ _ _ _) as [m|]; [|by injection E as <- <-; left]. injection E as <- <-. cbn [allowed_sources].
  destruct (decide (ip = src)) as [->|Hne]; [|rewrite lookup_insert_ne by done; by left].
  rewrite lookup_insert_eq. intros [= <-]. right. split; [done|]. by exists payload, accept, now.
Qed.

Lemma ring_item_admits io item sl sl' r :
  handle_ring_item en ttl sl (io, item) = (sl', r) -> admits_knocks (ring_event en io item (sl_verifier sl)) sl sl' r.
Proof.
  unfold handle_ring_item, ring_event. destruct (parse_spa_event en item) as [e|]; [|by intros [= <- <-]; left].
  destruct (_ <? _); [by intros [= <- <-]; left|]. apply handle_knock_admits.
Qed.

Lemma reload_admits contents sl sl' r ev : handle_reload toml_keys sl contents = (sl', r) -> admits_knocks ev sl sl' r.
Proof.
  unfold handle_reload. destruct (reload_authorized_keys _ _ _) as [v [removed|]]; [|by intros [= <- <-]; left].
  destruct (try_fold _ _ _) as [rt r'] eqn:E. intros [= <- <-] ip a Ha. left. by eapply purge_all_shrinks.
Qed.

Lemma reap_admits timespec sl sl' r ev : handle_reap sl timespec = (sl', r) -> admits_knocks ev sl sl' r.
Proof.
  unfold handle_reap, reap_expired_sources. destruct (monotonic_now_ns timespec) as [now|]; [|by intros [= <- <-]; left].
  rewrite remove_sources_nil_test. destruct (remove_sources _ _) as [rt r'] eqn:E. intros [= <- <-] ip a Ha. left.
  by eapply remove_sources_shrinks.
Qed.

(** * Where everything comes from *)

(** The payload arrived from [src]: in a datagram, or in a request of the decoy
    that stands for this source. *)
Definition brought (h : list server_event) (src : Z) (payload : bytes) : Prop :=
  (exists pkt act ev, SvFrame pkt act ev ∈ h /\ datagram pkt src payload) \/
  (exists rq rsp, SvRequest rq rsp ∈ h /\ rq_body rq = payload /\
     https_spa_source_ip (rq_peer rq) (rq_forwarded_for rq) (dc_trusted_proxy_cidrs app.2) = Some src).

(** The ring item is of a payload that arrived. *)
Definition item_brought (h : list server_event) (item : bytes) : Prop :=
  exists src payload e, brought h src payload /\ parse_spa_event en item = Some e /\ ev_src_ip e = src /\
    take (Z.to_nat (ev_payload_len e)) (ev_payload e) = payload.

Record traced (h : list server_event) (st : server_state) : Prop := {
  tr_mirror : forall ip a, li_sources (ss_proxy st) !! ip = Some a -> exists ev, SvGate ev ∈ h /\ opened_by ev ip a;
  tr_ring : forall item, item ∈ SPA_RING (ss_maps st) -> item_brought h item;
  tr_channel : forall c, c ∈ ch_queue (ss_channel st) -> brought h (cand_src_ip c) (cand_payload c)
}.

Lemma brought_mono h h' src payload : h ⊆ h' -> brought h src payload -> brought h' src payload.
Proof. intros Hh [(pkt & act & ev & Hin & H)|(rq & rsp & Hin & H)]; [left; exists pkt, act, ev|right; exists rq, rsp]; by split; [apply Hh|]. Qed.

Lemma traced_mono h h' st : h ⊆ h' -> traced h st -> traced h' st.
Proof.
  intros Hh [Hm Hr Hc]. split.
  - intros ip a Ha. destruct (Hm ip a Ha) as (ev & Hin & H). exists ev. by split; [apply Hh|].
  - intros item Hi. destruct (Hr item Hi) as (src & payload & e & Hb & H). exists src, payload, e. by split; [eapply brought_mono|].
  - intros c Hi. by eapply brought_mono, Hc.
Qed.

Lemma spa_turn_traced item ring ch ev st sev st' h :
  spa_turn item ring ch ev st = (sev, st') -> traced h st ->
  (forall sl r, item (loop_view (gate_of st)) = (sl, r) -> admits_knocks ev (loop_view (gate_of st)) sl r) ->
  (forall x, x ∈ ring -> x ∈ SPA_RING (ss_maps st)) -> (forall c, c ∈ ch_queue ch -> c ∈ ch_queue (ss_channel st)) ->
  traced (h ++ [sev]) st'.
Proof.
  intros H Ht Hadm Hring Hch. unfold spa_turn in H. destruct (item _) as [sl r] eqn:E. specialize (Hadm sl r eq_refl).
  apply (traced_mono h (h ++ [sev])) in Ht; [|set_solver]. destruct Ht as [Hm Hr Hc].
  destruct r as [[]|e]; injection H as <- <-; (split; [intros ip a Ha|intros x Hx; by apply Hr, Hring|intros c Hx; by apply Hc, Hch]).
  - destruct (Hadm ip a Ha) as [Hold|[_ Hnew]]; [by apply Hm|]. exists ev. split; [set_solver|done].
  - destruct (Hadm ip a Ha) as [Hold|[Hno _]]; [by apply Hm|done].
Qed.

(** The state after a turn that leaves ring, channel and mirror as they were. *)
Lemma traced_quiet h ev st st' :
  traced h st -> (forall ip a, li_sources (ss_proxy st') !! ip = Some a -> li_sources (ss_proxy st) !! ip = Some a) ->
  ss_maps st' = ss_maps st -> ss_channel st' = ss_channel st -> traced (h ++ [ev]) st'.
Proof.
  intros Ht Hs Hm Hc. apply (traced_mono h (h ++ [ev])) in Ht; [|set_solver]. destruct Ht as [Hm' Hr' Hc'].
  split; rewrite ?Hm, ?Hc; try done. intros ip a Ha. by apply Hm', Hs.
Qed.

Lemma turn_traced h st a ev st' : server_act_ok a -> turn st a = Some (ev, st') -> traced h st -> traced (h ++ [ev]) st'.
Proof.
  unfold server_turn. intros Hok H Ht. destruct (ss_over st); [done|].
  destruct a as [env data pkt|io|io|contents|timespec|env rq|[[peer input]|]|io i|rl|]; cbn [server_act_ok] in Hok.
  - destruct Hok as (Hd & He & Hwf & Hsz). rewrite ghostbro_xdp_eq in H by done. cbn [mbind option_bind] in H.
    pose proof (xdp_spec_ring en env (ss_maps st) pkt) as Hring. destruct (xdp_spec _ _ _ _) as [maps act] eqn:E.
    injection H as <- <-. apply (traced_mono h (h ++ [SvFrame pkt act (frame_event env (ss_maps st) pkt act)])) in Ht; [|set_solver].
    destruct Ht as [Hm Hr Hc]. split; [done| |done]. intros item Hi.
    destruct (Hring item Hwf Hi) as [Hold|(src & payload & e & Hdg & Hp & Hs & Hl)]; [by apply Hr|].
    exists src, payload, e. split_and!; [|done..]. left. eexists pkt, _, _. split; [|done]. apply elem_of_app. right. by apply list_elem_of_singleton.
  - destruct (SPA_RING (ss_maps st)) as [|item rest] eqn:Hr; [done|]. injection H as H.
    eapply spa_turn_traced; [done..| | |]; [intros sl r; apply ring_item_admits|rewrite Hr; set_solver|done].
  - destruct (ch_queue (ss_channel st)) as [|c rest] eqn:Hq; [done|]. injection H as H.
    eapply spa_turn_traced; [done..| | |]; [intros sl r; apply handle_knock_admits|done|rewrite Hq; set_solver].
  - injection H as H. eapply spa_turn_traced; [done..| | |]; [intros sl r; apply reload_admits|done..].
  - injection H as H. eapply spa_turn_traced; [done..| | |]; [intros sl r; apply reap_admits|done..].
  - destruct (serve _ _ _ _ _) as [ch rsp] eqn:E. injection H as <- <-.
    apply (traced_mono h (h ++ [SvRequest rq rsp])) in Ht; [|set_solver]. destruct Ht as [Hm Hr Hc]. split; [done..|].
    intros c Hi. cbn in Hi.
    destruct (serve_queue refused app env (ss_channel st) rq c) as [Hold|(_ & Hp & Hs)]; [by rewrite E|by apply Hc|].
    right. exists rq, rsp. split_and!; [|done..]. apply elem_of_app. right. by apply list_elem_of_singleton.
  - destruct (_ <? _)%nat; injection H as <- <-; by eapply traced_quiet.
  - injection H as <- <-. by eapply traced_quiet.
  - destruct (conn_turn _ _ _ _ _) as [l|] eqn:E; [|done]. injection H as <- <-.
    eapply traced_quiet; [done| |done..]. intros ip a. cbn. by eapply conn_turn_shrinks.
  - injection H as <- <-. by eapply traced_quiet.
  - injection H as <- <-. by eapply traced_quiet.
Qed.

Lemma exec_traced acts : forall h0 st h st',
  Forall server_act_ok acts -> exec st acts = Some (h, st') -> traced h0 st -> traced (h0 ++ h) st'.
Proof.
  induction acts as [|a acts IH]; intros h0 st h st' Hok; cbn [server_exec].
  - intros [= <- <-]. by rewrite app_nil_r.
  - apply Forall_cons in Hok as [Ha Hok]. destruct (turn st a) as [[ev st1]|] eqn:E; [|done]. cbn.
    destruct (exec st1 acts) as [[h1 st2]|] eqn:E1; [|done]. cbn. intros [= <- <-] Ht.
    change (ev :: h1) with ([ev] ++ h1). rewrite app_assoc. eapply IH; [done..|]. by eapply turn_traced.
Qed.

(** * Runs by their moments *)

Lemma exec_moment acts : forall st h st' j ev,
  exec st acts = Some (h, st') -> h !! j = Some ev ->
  exists a st1 st2, acts !! j = Some a /\ exec st (take j acts) = Some (take j h, st1) /\ turn st1 a = Some (ev, st2).
Proof.
  induction acts as [|a acts IH]; intros st h st' j ev; cbn [server_exec]; [by intros [= <- <-]|].
  destruct (turn st a) as [[ev0 st1]|] eqn:E; [|done]. cbn. destruct (exec st1 acts) as [[h1 st2]|] eqn:E1; [|done].
  cbn. intros [= <- <-]. destruct j as [|j]; cbn; [intros [= ->]; by exists a, st, st1|].
  intros Hj. destruct (IH _ _ _ _ _ E1 Hj) as (a' & s1 & s2 & Ha & He & Ht). exists a', s1, s2. split; [done|].
  rewrite E. cbn. by rewrite He.
Qed.

Lemma exec_at acts : forall st h st' j a,
  exec st acts = Some (h, st') -> acts !! j = Some a ->
  exists ev st1 st2, h !! j = Some ev /\ exec st (take j acts) = Some (take j h, st1) /\ turn st1 a = Some (ev, st2).
Proof.
  induction acts as [|a0 acts IH]; intros st h st' j a; cbn [server_exec]; [done|].
  destruct (turn st a0) as [[ev st1]|] eqn:E; [|done]. cbn. destruct (exec st1 acts) as [[h1 st2]|] eqn:E1; [|done].
  cbn. intros [= <- <-]. destruct j as [|j]; cbn; [intros [= ->]; by exists ev, st, st1|].
  intros Hj. destruct (IH _ _ _ _ _ E1 Hj) as (ev' & s1 & s2 & Hh & He & Ht). exists ev', s1, s2. split; [done|].
  rewrite E. cbn. by rewrite He.
Qed.

(** A knock in the history is a payload that arrived, accepted by the verifier of
    the moment. *)
Lemma knock_event_inv io payload from v src p accept now :
  knock_event io payload from v = EvKnock src p accept now ->
  src = from /\ p = payload /\ exists ms v' ops, verify v (kn_save io) payload from ms = (v', ops, Ok accept).
Proof.
  unfold knock_event. destruct (wall_clock_now_ms _) as [ms|]; [|done]. destruct (monotonic_now_ns _); [|done].
  destruct (verify v (kn_save io) payload from ms) as [[v' ops] [ac|]] eqn:E; [|done]. cbn. intros [= -> -> -> ->].
  split_and!; [done..|]. by exists ms, v', ops.
Qed.

Lemma spa_turn_event item ring ch ev st sev st' : spa_turn item ring ch ev st = (SvGate sev, st') -> ev = sev.
Proof. unfold spa_turn. destruct (item _) as [sl [[]|]]; [|done]. by intros [= ->]. Qed.

Lemma spa_turn_no_proxy item ring ch ev st pe st' : spa_turn item ring ch ev st <> (SvProxy pe, st').
Proof. unfold spa_turn. by destruct (item _) as [sl []]. Qed.

Lemma turn_knock h st a src payload accept now st' :
  turn st a = Some (SvGate (EvKnock src payload accept now), st') -> traced h st ->
  brought h src payload /\ exists io ms v' ops, verify (ss_verifier st) io payload src ms = (v', ops, Ok accept).
Proof.
  unfold server_turn. intros H [Hm Hr Hc]. destruct (ss_over st); [done|].
  destruct a as [env data pkt|io|io|contents|timespec|env rq|[[peer input]|]|io i|rl|].
  - by destruct (ghostbro_xdp _ _ _ _ _) as [[maps act]|].
  - destruct (SPA_RING (ss_maps st)) as [|item rest]; [done|]. injection H as H. apply spa_turn_event in H.
    destruct (Hr item) as (s & p & e & Hb & Hp & Hs & Hl); [left|]. unfold ring_event in H. rewrite Hp in H.
    destruct (_ <? _); [done|]. rewrite Hl, Hs in H. apply knock_event_inv in H as (-> & -> & ms & v' & ops & Hv). eauto 10.
  - destruct (ch_queue (ss_channel st)) as [|c rest]; [done|]. injection H as H. apply spa_turn_event in H.
    apply knock_event_inv in H as (-> & -> & ms & v' & ops & Hv). split; [apply Hc; left|eauto 10].
  - injection H as H. by apply spa_turn_event in H.
  - injection H as H. by apply spa_turn_event in H.
  - by destruct (serve _ _ _ _ _).
  - by destruct (_ <? _)%nat.
  - done.
  - by destruct (conn_turn _ _ _ _ _).
  - done.
  - done.
Qed.

(** A turn is made by a running process. *)
Lemma turn_running st a ev st' : turn st a = Some (ev, st') -> ss_over st = None.
Proof. unfold server_turn. by destruct (ss_over st). Qed.

Lemma spa_turn_no_frame item ring ch ev st pkt act fe st' : spa_turn item ring ch ev st <> (SvFrame pkt act fe, st').
Proof. unfold spa_turn. by destruct (item _) as [sl []]. Qed.

(** A frame in the history went through the filter. *)
Lemma turn_frame st a pkt act fe st' :
  turn st a = Some (SvFrame pkt act fe, st') ->
  exists env data maps, a = SaFrame env data pkt /\ ghostbro_xdp en env (ss_maps st) data pkt = Some (maps, act) /\
    frame_event env (ss_maps st) pkt act = fe.
Proof.
  unfold server_turn. intros H. destruct (ss_over st); [done|].
  destruct a as [env data pkt'|io|io|contents|timespec|env rq|[[peer input]|]|io j|rl|].
  - destruct (ghostbro_xdp _ _ _ _ _) as [[maps act']|] eqn:E; [|done]. injection H as <- <- <- _. by exists env, data, maps.
  - destruct (SPA_RING _); [done|]. injection H as H. by apply spa_turn_no_frame in H.
  - destruct (ch_queue _); [done|]. injection H as H. by apply spa_turn_no_frame in H.
  - injection H as H. by apply spa_turn_no_frame in H.
  - injection H as H. by apply spa_turn_no_frame in H.
  - by destruct (serve _ _ _ _ _).
  - by destruct (_ <? _)%nat.
  - done.
  - by destruct (conn_turn _ _ _ _ _).
  - done.
  - done.
Qed.

(** An admission in the history is from the mirror of the moment. *)
Lemma turn_admission st a i src source now st' :
  turn st a = Some (SvProxy (LeAdmit i src source now), st') ->
  li_sources (ss_proxy st) !! src = Some source /\ now < expiry_ns (as_entry source).
Proof.
  unfold server_turn. intros H. destruct (ss_over st); [done|].
  destruct a as [env data pkt|io|io|contents|timespec|env rq|[[peer input]|]|io j|rl|].
  - by destruct (ghostbro_xdp _ _ _ _ _) as [[maps act]|].
  - destruct (SPA_RING _); [done|]. injection H as H. by apply spa_turn_no_proxy in H.
  - destruct (ch_queue _); [done|]. injection H as H. by apply spa_turn_no_proxy in H.
  - injection H as H. by apply spa_turn_no_proxy in H.
  - injection H as H. by apply spa_turn_no_proxy in H.
  - by destruct (serve _ _ _ _ _).
  - by destruct (_ <? _)%nat.
  - done.
  - destruct (conn_turn _ _ _ _ _) as [l|] eqn:E; [|done]. injection H as H _. by eapply turn_event_admit.
  - done.
  - done.
Qed.

(** * The proxy's part of a run *)

Abbreviation listens := (listen_run (gt_relay g) static_key (fun _ _ => True) (fun _ _ => True) max_open).

Definition proxy_event (ev : server_event) : listen_event := match ev with SvProxy ev => ev | _ => LeQuiet end.

Lemma turn_listens st a ev st' :
  turn st a = Some (ev, st') ->
  listen_step (gt_relay g) static_key (fun _ _ => True) (fun _ _ => True) max_open (ss_proxy st) (proxy_event ev) (ss_proxy st').
Proof.
  assert (Hgate : forall l m, listen_step (gt_relay g) static_key (fun _ _ => True) (fun _ _ => True) max_open l LeQuiet (with_sources l m))
    by (intros; by apply listen_gate).
  assert (Hsame : forall l, listen_step (gt_relay g) static_key (fun _ _ => True) (fun _ _ => True) max_open l LeQuiet l)
    by (intros [? ? ? ?]; by apply listen_gate).
  assert (Hspa : forall item ring ch sev st1 ev1 st2, spa_turn item ring ch sev st1 = (ev1, st2) ->
    listen_step (gt_relay g) static_key (fun _ _ => True) (fun _ _ => True) max_open (ss_proxy st1) (proxy_event ev1) (ss_proxy st2)).
  { intros item ring ch sev st1 ev1 st2 H. unfold spa_turn in H. destruct (item _) as [sl []]; injection H as <- <-; apply Hgate. }
  unfold server_turn. intros H. destruct (ss_over st); [done|].
  destruct a as [env data pkt|io|io|contents|timespec|env rq|[[peer input]|]|io j|rl|].
  - destruct (ghostbro_xdp _ _ _ _ _) as [[maps act]|]; [|done]. injection H as <- <-. apply Hsame.
  - destruct (SPA_RING _); [done|]. injection H as H. by eapply Hspa.
  - destruct (ch_queue _); [done|]. injection H as H. by eapply Hspa.
  - injection H as H. by eapply Hspa.
  - injection H as H. by eapply Hspa.
  - destruct (serve _ _ _ _ _). injection H as <- <-. apply Hsame.
  - destruct (Nat.ltb_spec (open_conns (li_conns (ss_proxy st))) max_open); injection H as <- <-; [by apply listen_accept|apply Hsame].
  - injection H as <- <-. apply Hsame.
  - destruct (conn_turn _ _ _ _ _) as [l|] eqn:E; [|done]. injection H as <- <-. by apply listen_turn.
  - injection H as <- <-. by apply listen_relay.
  - injection H as <- <-. apply Hsame.
Qed.

Lemma exec_listens acts : forall st h st', exec st acts = Some (h, st') -> listens (ss_proxy st) (proxy_event <$> h) (ss_proxy st').
Proof.
  induction acts as [|a acts IH]; intros st h st'; cbn [server_exec]; [intros [= <- <-]; constructor|].
  destruct (turn st a) as [[ev st1]|] eqn:E; [|done]. cbn. destruct (exec st1 acts) as [[h1 st2]|] eqn:E1; [|done].
  cbn. intros [= <- <-]. eapply listen_run_cons; [by eapply turn_listens|by apply IH].
Qed.

(** * The end *)

(** A task that ends ends the process: nothing happens after it. *)
Lemma over_stops st a why : ss_over st = Some why -> turn st a = None.
Proof. unfold server_turn. by intros ->. Qed.

(** So does the connection that is one too many for the process. *)
Lemma too_many_connections_stop_server st p :
  ss_over st = None -> open_conns (li_conns (ss_proxy st)) = max_open ->
  exists st', turn st (SaAccept (Some p)) = Some (SvEnd ExitAccept, st') /\ forall a, turn st' a = None.
Proof.
  intros Ho Hn. unfold server_turn at 1. rewrite Ho. destruct p as [peer input].
  rewrite (proj2 (Nat.ltb_ge _ _)) by lia. eexists. split; [done|]. intros a. by apply (over_stops _ _ ExitAccept).
Qed.

(** An admission comes after an accepted knock of its source, whose entry it has. *)
Lemma admission_knock relay acts h st k i src source now :
  allowed_sources (gt_runtime g) = ∅ -> Forall server_act_ok acts -> exec (server_start g relay) acts = Some (h, st) ->
  h !! k = Some (SvProxy (LeAdmit i src source now)) ->
  exists j before, (j < k)%nat /\ exec (server_start g relay) (take j acts) = Some (take j h, before) /\ traced (take j h) before /\
    now < expiry_ns (as_entry source) /\
    exists ev a after, h !! j = Some (SvGate ev) /\ turn before a = Some (SvGate ev, after) /\ opened_by ev src source.
Proof.
  intros Hsrc Hok Hexec Hk.
  assert (Htr : forall n s, exec (server_start g relay) (take n acts) = Some (take n h, s) -> traced (take n h) s).
  { intros n s He. apply (exec_traced _ [] _ _ _ (Forall_take _ _ _ Hok) He).
    split; cbn; rewrite ?Hsrc; [by intros ip a|..]; intros ? []%not_elem_of_nil. }
  destruct (exec_moment _ _ _ _ _ _ Hexec Hk) as (a & st1 & st2 & _ & He1 & Hturn).
  apply turn_admission in Hturn as [Hs Hlt]. destruct (Htr k st1 He1) as [Hm _ _].
  destruct (Hm src source Hs) as (ev & Hev & Hop). apply list_elem_of_lookup in Hev as [j Hj].
  pose proof (lookup_lt_Some _ _ _ Hj) as Hjk. rewrite length_take in Hjk. rewrite lookup_take in Hj. case_decide; [|done].
  destruct (exec_moment _ _ _ _ _ _ Hexec Hj) as (a' & st3 & st4 & _ & He3 & Hturn3).
  exists j, st3. split_and!; [done|done|by apply Htr|done|]. by exists ev, a', st4.
Qed.

Lemma admission_after_knock relay acts h st i src source now :
  allowed_sources (gt_runtime g) = ∅ -> Forall server_act_ok acts -> exec (server_start g relay) acts = Some (h, st) ->
  LeAdmit i src source now ∈ proxy_event <$> h ->
  exists payload accept opened_at, SvGate (EvKnock src payload accept opened_at) ∈ h.
Proof.
  intros Hsrc Hok Hexec Hin. apply list_elem_of_fmap in Hin as (sev & Hsev & Hin). destruct sev as [| | |pe|]; try done.
  cbn in Hsev. subst pe. apply list_elem_of_lookup in Hin as [k Hk].
  destruct (admission_knock _ _ _ _ _ _ _ _ _ Hsrc Hok Hexec Hk) as (j & _ & _ & _ & _ & _ & ev & _ & _ & Hj & _ & payload & accept & opened & -> & _).
  exists payload, accept, opened. by eapply list_elem_of_lookup_2.
Qed.

End server_facts.

(** * Sessions *)

Section sessions.
Context `{C : Crypto} {T : CounterToml} `{HL : HttpLib} `{U : UrlLib} {RT : RelayToml} `{N : Noise} {NH : NoiseHandshake}.
Context {S5 : Socks5Lib}.
Context (en : endian) (toml_config : string -> option ServerConfig) (toml_keys : string -> option (list AuthorizedClientConfig)).

(** C2: every session goes back to a packet on the wire.  Take the server that
    [boot] starts, and any run of its tasks and its packet filter: frames,
    requests, connections, reloads, reaping and the relay's work in any order.
    If a connection has a session for a key id, then, each before the next: a
    payload arrived from the connection's peer address, in a datagram or a
    request to the decoy that stands for it; the event loop handled it and the
    verifier of that moment accepted it for this key id; the connection was
    admitted less than the time to live later, with the entry of that knock; and
    the peer proved in a handshake bound to the key id that it has the Noise key
    enrolled with the knock's key. *)
Theorem sessions_trace_back refused max_open env cli effects srv g static_key relay acts h st i c kid :
  Z.of_nat max_open < 2 ^ 32 - 1 ->
  boot toml_config toml_keys env cli = (effects, Ok srv) -> sr_gate srv = Some g -> gt_listener_key g = Ok static_key ->
  Forall server_act_ok acts ->
  server_exec en toml_keys refused max_open static_key g (sr_decoy srv) (server_start g relay) acts = Some (h, st) ->
  li_conns (ss_proxy st) !! i = Some c -> holding c = Some kid ->
  exists src payload accept opened_at source admitted_at j k,
    cn_peer c = Some src /\ (j < k)%nat /\
    brought (sr_decoy srv) (take j h) src payload /\
    h !! j = Some (SvGate (EvKnock src payload accept opened_at)) /\
    (exists before io ms v' ops,
       server_exec en toml_keys refused max_open static_key g (sr_decoy srv) (server_start g relay) (take j acts) = Some (take j h, before) /\
       verify (ss_verifier before) io payload src ms = (v', ops, Ok accept)) /\
    acc_key_id accept = kid /\
    h !! k = Some (SvProxy (LeAdmit i src source admitted_at)) /\
    admitted_at < opened_at + gt_allow_ttl g * 1000000000 /\
    as_max_concurrent_sessions source = acc_max_concurrent_sessions accept /\
    exists input out noise rest,
      connection_handshake static_key kid input = (out, Some (noise, rest)) /\
      get_remote_static noise = Some (acc_noise_public_key accept).
Proof.
  intros Hmax Hboot Hg Hkey Hok Hexec Hi Hh. destruct (boot_gate_empty _ _ _ _ _ _ _ Hboot Hg) as [Hmap Hsrc].
  pose proof Hexec as Hl. apply exec_listens in Hl.
  pose proof (inv_phases _ _ _ _ (listener_inv_run _ _ _ _ _ Hmax _ _ _ _ Hl) i c Hi) as Hphase.
  assert (Ha : exists noise, authenticated static_key (proxy_event <$> h) i c kid noise).
  { unfold phase_ok in Hphase. unfold holding in Hh. clear -Hphase Hh.
    destruct (cn_phase c); [done|done| | |done]; injection Hh as <-; [by eexists|]. destruct Hphase as (? & ? & ? & ? & ? & _). by eexists. }
  destruct Ha as (noise & source & input & out & rest & (src & now & Hp & Hin & _) & <- & Hx & Hr).
  apply list_elem_of_fmap in Hin as (sev & Hsev & Hin). destruct sev as [| | |pe|]; try done. cbn in Hsev. subst pe.
  apply list_elem_of_lookup in Hin as [k Hk].
  edestruct admission_knock as (j & before & Hjk & He & Ht & Hlt & ev & a & after & Hj & Hturn & payload & accept & opened & -> & Hent & Hkeyp & Hcap);
    [exact Hsrc|exact Hok|exact Hexec|exact Hk|].
  eapply turn_knock in Ht as [Hb (io & ms & v' & ops & Hv)]; [|exact Hturn].
  exists src, payload, accept, opened, source, now, j, k. split_and!; try done.
  - by exists before, io, ms, v', ops.
  - by rewrite Hent.
  - rewrite Hent in Hlt. cbn [expiry_ns entry_for] in Hlt. unfold sat_add, sat_mul in Hlt. lia.
  - exists input, out, noise, rest. split; [done|]. by rewrite Hr, Hkeyp.
Qed.

End sessions.
