(* ===== verification/ServerGate.v ===== *)
(** The gate inside the running server: its runs are runs of the transition
    system of [System], so what holds there holds of the server; and only
    enrolled keys are admitted. *)

From S2P Require Import Prelude Text NetAddr Protocol Crypto Keys Seal SpaPacket Fs AuthKeys Verifier VerifierFacts Replay.
From S2P Require Import Xdp XdpFacts Runtime RuntimeFacts Tunnel Decoy System RelayWire RelayEngine Config Startup StartupFacts.
From S2P Require Import RelayTunnel ProxyListener ProxyListenerFacts Schedule ScheduleFacts ServerMain ServerFacts.

(** * Enrolment in the event loop *)

Section enrolment.
Context `{C : Crypto} {T : CounterToml}.
Context (toml_keys : string -> option (list AuthorizedClientConfig)).

Definition enrolled (v : SpaVerifier) (kid : KeyId) : Prop := is_Some (clients v !! kid).

(** All sources of the mirror belong to enrolled keys. *)
Definition mirror_enrolled (v : SpaVerifier) (sources : gmap Z AllowedSource) : Prop :=
  forall ip a, sources !! ip = Some a -> enrolled v (ae_key_id (as_entry a)).

Abbreviation loop_enrolled sl := (mirror_enrolled (sl_verifier sl) (allowed_sources (sl_runtime sl))).

Lemma verify_enrolment v io payload src now v' ops r :
  verify v io payload src now = (v', ops, r) ->
  clients v' = clients v /\ forall a, r = Ok a -> enrolled v (acc_key_id a).
Proof.
  unfold verify. intros H. repeat case_match; simplify_eq; split; try done. intros ? [= <-]. by eexists.
Qed.

Lemma mirror_enrolled_sub v m m' :
  (forall ip a, m' !! ip = Some a -> m !! ip = Some a) -> mirror_enrolled v m -> mirror_enrolled v m'.
Proof. intros Hs H ip a Ha. by apply (H ip), Hs. Qed.

Lemma handle_knock_enrolled ttl io payload src sl sl' r :
  handle_knock ttl io payload src sl = (sl', r) -> loop_enrolled sl -> loop_enrolled sl'.
Proof.
  unfold handle_knock. destruct (wall_clock_now_ms _) as [ms|]; [|by intros [= <- _]].
  destruct (verify _ _ _ _ _) as [[v ops] verdict] eqn:Ev. apply verify_enrolment in Ev as [Hc Ha]. intros H Hm.
  assert (Hv : forall m, mirror_enrolled (sl_verifier sl) m -> mirror_enrolled v m)
    by (intros m H' ip a Hip; unfold enrolled; rewrite Hc; by apply (H' ip)).
  destruct verdict as [accept|e]; [|injection H as <- _; by apply Hv].
  unfold allow_source in H. destruct (monotonic_now_ns _) as [now|]; [|injection H as <- _; by apply Hv].
  destruct (bpf_update _ _ _ _) as [m|]; [|injection H as <- _; by apply Hv]. injection H as <- _. apply Hv. intros ip a. cbn.
  destruct (decide (ip = src)) as [->|Hne]; [rewrite lookup_insert_eq|rewrite lookup_insert_ne by done; by apply Hm].
  intros [= <-]. by apply Ha.
Qed.

Lemma purge_key_id_sources rt kid rt' ip a :
  purge_key_id rt kid = (rt', Ok tt) -> allowed_sources rt' !! ip = Some a ->
  allowed_sources rt !! ip = Some a /\ ae_key_id (as_entry a) <> kid.
Proof.
  rewrite purge_key_id_eq. intros H Ha. destruct (remove_sources_lookup _ _ _ ip H) as [_ Hs]. rewrite Hs in Ha.
  case_bool_decide as Hin; [done|]. split; [done|]. intros Hk. apply Hin.
  apply (select_sources (fun a => bool_decide (ae_key_id (as_entry a) = kid))). exists a. by rewrite bool_decide_eq_true.
Qed.

Lemma purge_all_sources removed : forall rt rt' ip a,
  try_fold purge_key_id removed rt = (rt', Ok tt) -> allowed_sources rt' !! ip = Some a ->
  allowed_sources rt !! ip = Some a /\ ae_key_id (as_entry a) ∉ removed.
Proof.
  induction removed as [|k l IH]; intros rt rt' ip a; cbn [try_fold].
  - intros [= <-] Ha. split; [done|apply not_elem_of_nil].
  - destruct (purge_key_id rt k) as [rt1 [[]|e]] eqn:E; [|done]. intros H Ha. destruct (IH _ _ _ _ H Ha) as [H1 Hn].
    destruct (purge_key_id_sources _ _ _ _ _ E H1) as [H0 Hne]. split; [done|]. by apply not_elem_of_cons.
Qed.

(** A reload that succeeds leaves no source of a key that is no longer enrolled. *)
Lemma handle_reload_enrolled sl contents sl' :
  handle_reload toml_keys sl contents = (sl', Ok tt) -> loop_enrolled sl -> loop_enrolled sl'.
Proof.
  unfold handle_reload, reload_authorized_keys. destruct (load_authorized_keys _ _) as [configs|]; [|by intros [= <-]].
  destruct (into_clients configs) as [cs|]; [|by intros [= <-]]. unfold reload_clients.
  destruct (try_fold _ _ _) as [rt r] eqn:E. intros [= <- ->] Hm ip a. cbn [sl_runtime sl_verifier]. intros Ha.
  destruct (purge_all_sources _ _ _ _ _ E Ha) as [H0 Hn]. specialize (Hm ip a H0) as [c Hc]. unfold enrolled.
  apply not_eq_None_Some. intros Hnone. apply Hn, list_elem_of_filter. split; [done|].
  apply list_elem_of_fmap. exists (ae_key_id (as_entry a), c). split; [done|]. by apply elem_of_map_to_list.
Qed.

Lemma handle_reap_enrolled sl timespec sl' r : handle_reap sl timespec = (sl', r) -> loop_enrolled sl -> loop_enrolled sl'.
Proof.
  unfold handle_reap, reap_expired_sources. destruct (monotonic_now_ns timespec) as [now|]; [|by intros [= <- _]].
  rewrite remove_sources_nil_test. destruct (remove_sources _ _) as [rt r'] eqn:E. intros [= <- _].
  apply mirror_enrolled_sub. intros ip a. by eapply remove_sources_shrinks.
Qed.

End enrolment.

(** * The running server *)

Section server_gate.
Context `{C : Crypto} {T : CounterToml} `{HL : HttpLib} `{U : UrlLib} {RT : RelayToml} `{N : Noise} {NH : NoiseHandshake}.
Context {S5 : Socks5Lib}.
Context (en : endian) (toml_keys : string -> option (list AuthorizedClientConfig)) (refused : Response) (max_open : nat).
Context (static_key : bytes) (g : Gate) (app : list (string * Method * Handler) * Handler * DecoyState).

Abbreviation turn := (server_turn en toml_keys refused max_open static_key g app).
Abbreviation exec := (server_exec en toml_keys refused max_open static_key g app).
Abbreviation gate_run := (sys_run en (gt_allow_ttl g) toml_keys).

(** How an event of the gate shows in the server's run. *)
Definition gate_event_of (a : server_act) (ev : server_event) (e : sys_event) : Prop :=
  match e with
  | EvKnock _ _ _ _ => ev = SvGate e
  | EvPass _ _ => exists pkt act, ev = SvFrame pkt act e
  | EvTunnel now => exists io i, a = SaTurn io i /\ monotonic_now_ns (tu_timespec io) = Ok now
  | EvQuiet => True
  end.

Lemma frame_event_shown env s pkt act a : gate_event_of a (SvFrame pkt act (frame_event env s pkt act)) (frame_event env s pkt act).
Proof.
  unfold frame_event. destruct (classify pkt); [done| |done]. destruct act; [|done].
  destruct (_ =? _); [|done]. cbn. by eexists _, _.
Qed.

Lemma knock_event_shown a io payload src v :
  gate_event_of a (SvGate (knock_event io payload src v)) (knock_event io payload src v).
Proof.
  unfold knock_event. destruct (wall_clock_now_ms _); [|done]. destruct (monotonic_now_ns _); [|done].
  by destruct (verify _ _ _ _ _).2.
Qed.

Lemma ring_event_shown a io item v : gate_event_of a (SvGate (ring_event en io item v)) (ring_event en io item v).
Proof.
  unfold ring_event. destruct (parse_spa_event en item); [|done]. destruct (_ <? _); [done|]. apply knock_event_shown.
Qed.

(** A turn that does not end the process is at most one step of the gate. *)
Lemma turn_gate st a ev st' :
  server_act_ok a -> turn st a = Some (ev, st') -> ss_over st' = None ->
  gate_of st' = gate_of st \/
  exists e, gate_event_of a ev e /\ sys_step en (gt_allow_ttl g) toml_keys (gate_of st) e (gate_of st').
Proof.
  unfold server_turn. intros Hok H Ho. destruct (ss_over st); [done|].
  destruct a as [env data pkt|io|io|contents|timespec|env rq|[[peer input]|]|io i|rl|]; cbn [server_act_ok] in Hok.
  - destruct Hok as (Hd & He & Hwf & Hsz). destruct (ghostbro_xdp _ _ _ _ _) as [[maps act]|] eqn:E; [|done].
    injection H as <- <-. right. eexists. split; [apply frame_event_shown|]. by apply (step_frame en (gt_allow_ttl g) toml_keys (gate_of st) env data).
  - destruct (SPA_RING (ss_maps st)) as [|item rest] eqn:Hr; [done|]. apply (inj Some) in H. unfold spa_turn in H.
    destruct (handle_ring_item _ _ _ _) as [sl [[]|e]] eqn:E; injection H as <- <-; [|done].
    right. eexists. split; [apply ring_event_shown|]. by eapply (step_ring en (gt_allow_ttl g) toml_keys (gate_of st)).
  - destruct (ch_queue (ss_channel st)) as [|c rest] eqn:Hq; [done|]. apply (inj Some) in H. unfold spa_turn in H.
    destruct (handle_https_item _ _ _) as [sl [[]|e]] eqn:E; injection H as <- <-; [|done].
    right. eexists. split; [apply knock_event_shown|]. by apply (step_https en (gt_allow_ttl g) toml_keys (gate_of st)).
  - apply (inj Some) in H. unfold spa_turn in H. destruct (handle_reload _ _ _) as [sl [[]|e]] eqn:E; injection H as <- <-; [|done].
    right. exists EvQuiet. split; [done|]. by apply (step_reload en (gt_allow_ttl g) toml_keys (gate_of st) contents).
  - apply (inj Some) in H. unfold spa_turn in H. destruct (handle_reap _ _) as [sl [[]|e]] eqn:E; injection H as <- <-; [|done].
    right. exists EvQuiet. split; [done|]. by apply (step_reap en (gt_allow_ttl g) toml_keys (gate_of st) timespec).
  - destruct (serve _ _ _ _ _). injection H as <- <-. by left.
  - destruct (_ <? _)%nat; injection H as <- <-; by left.
  - injection H as <- <-. by left.
  - destruct (conn_turn _ _ _ _ _) as [l|] eqn:E; [|done]. injection H as <- <-.
    apply conn_turn_sources in E as [Hs|(src & now & Hn & Hs)].
    + left. unfold gate_of. cbn. by rewrite Hs.
    + right. exists (EvTunnel now). split; [by exists io, i|]. destruct (admit_source _ _ _) as [m r] eqn:Ea. cbn in Hs.
      pose proof (step_tunnel en (gt_allow_ttl g) toml_keys (gate_of st) _ _ _ _ _ Ea Hn) as Hstep. cbn in Hstep.
      unfold gate_of at 2. cbn. by rewrite Hs.
  - injection H as <- <-. by left.
  - by injection H as <- <-.
Qed.

(** The events of a run of the gate, in the run of the server. *)
Definition gate_shown (acts : list server_act) (h : list server_event) (e : sys_event) : Prop :=
  exists a ev, a ∈ acts /\ ev ∈ h /\ gate_event_of a ev e.

Lemma exec_over st acts h st' why : ss_over st = Some why -> exec st acts = Some (h, st') -> st' = st.
Proof.
  intros Ho. destruct acts as [|a acts]; cbn [server_exec]; [by intros [= _ <-]|].
  by rewrite (over_stops _ _ _ _ _ _ _ _ _ _ Ho).
Qed.

Lemma exec_gate acts : forall st h st',
  Forall server_act_ok acts -> exec st acts = Some (h, st') -> ss_over st' = None ->
  exists h', gate_run (gate_of st) h' (gate_of st') /\ Forall (gate_shown acts h) h'.
Proof.
  induction acts as [|a acts IH]; intros st h st' Hok; cbn [server_exec].
  - intros [= <- <-] _. exists []. split; constructor.
  - apply Forall_cons in Hok as [Ha Hok]. destruct (turn st a) as [[ev st1]|] eqn:E; [|done]. cbn.
    destruct (exec st1 acts) as [[h1 st2]|] eqn:E1; [|done]. cbn. intros [= <- <-] Ho.
    assert (Ho1 : ss_over st1 = None).
    { destruct (ss_over st1) as [why|] eqn:Hw; [|done]. apply (exec_over _ _ _ _ _ Hw) in E1 as ->. congruence. }
    destruct (IH st1 h1 st2 Hok E1 Ho) as (h' & Hrun & Hsh).
    assert (Hsh' : Forall (gate_shown (a :: acts) (ev :: h1)) h').
    { eapply Forall_impl; [exact Hsh|]. intros e (a' & ev' & ? & ? & ?). exists a', ev'. split_and!; [by right|by right|done]. }
    destruct (turn_gate _ _ _ _ Ha E Ho1) as [Hsame|(e & He & Hstep)]; [rewrite Hsame in Hrun; by exists h'|].
    exists (e :: h'). split; [by eapply sys_run_cons|]. constructor; [|done]. exists a, ev. split_and!; [left|left|done].
Qed.

(** Only keys that are enrolled are in the mirror. *)
Lemma turn_enrolled st a ev st' :
  turn st a = Some (ev, st') -> ss_over st' = None ->
  mirror_enrolled (ss_verifier st) (li_sources (ss_proxy st)) -> mirror_enrolled (ss_verifier st') (li_sources (ss_proxy st')).
Proof.
  unfold server_turn. intros H Ho Hm. destruct (ss_over st); [done|].
  destruct a as [env data pkt|io|io|contents|timespec|env rq|[[peer input]|]|io i|rl|].
  - destruct (ghostbro_xdp _ _ _ _ _) as [[maps act]|]; [|done]. by injection H as <- <-.
  - destruct (SPA_RING (ss_maps st)) as [|item rest]; [done|]. apply (inj Some) in H. unfold spa_turn, handle_ring_item in H.
    destruct (parse_spa_event en item); [|by injection H as <- <-]. destruct (_ <? _); [by injection H as <- <-|].
    destruct (handle_knock _ _ _ _ _) as [sl [[]|e]] eqn:E; injection H as <- <-; [|done].
    exact (handle_knock_enrolled _ _ _ _ _ _ _ E Hm).
  - destruct (ch_queue (ss_channel st)) as [|c rest]; [done|]. apply (inj Some) in H. unfold spa_turn, handle_https_item in H.
    destruct (handle_knock _ _ _ _ _) as [sl [[]|e]] eqn:E; injection H as <- <-; [|done].
    exact (handle_knock_enrolled _ _ _ _ _ _ _ E Hm).
  - apply (inj Some) in H. unfold spa_turn in H. destruct (handle_reload _ _ _) as [sl [[]|e]] eqn:E; injection H as <- <-; [|done].
    exact (handle_reload_enrolled _ _ _ _ E Hm).
  - apply (inj Some) in H. unfold spa_turn in H. destruct (handle_reap _ _) as [sl [[]|e]] eqn:E; injection H as <- <-; [|done].
    exact (handle_reap_enrolled _ _ _ _ E Hm).
  - destruct (serve _ _ _ _ _). by injection H as <- <-.
  - destruct (_ <? _)%nat; by injection H as <- <-.
  - by injection H as <- <-.
  - destruct (conn_turn _ _ _ _ _) as [l|] eqn:E; [|done]. injection H as <- <-.
    eapply mirror_enrolled_sub; [|exact Hm]. intros ip b. by eapply conn_turn_shrinks.
  - by injection H as <- <-.
  - by injection H as <- <-.
Qed.

Lemma exec_enrolled acts : forall st h st',
  exec st acts = Some (h, st') -> ss_over st' = None ->
  mirror_enrolled (ss_verifier st) (li_sources (ss_proxy st)) -> mirror_enrolled (ss_verifier st') (li_sources (ss_proxy st')).
Proof.
  induction acts as [|a acts IH]; intros st h st'; cbn [server_exec]; [by intros [= _ <-]|].
  destruct (turn st a) as [[ev st1]|] eqn:E; [|done]. cbn. destruct (exec st1 acts) as [[h1 st2]|] eqn:E1; [|done].
  cbn. intros [= _ <-] Ho Hm. apply (IH st1 h1 st2 E1 Ho). eapply turn_enrolled; [exact E| |exact Hm].
  destruct (ss_over st1) as [why|] eqn:Hw; [|done]. apply (exec_over _ _ _ _ _ Hw) in E1 as ->. congruence.
Qed.

End server_gate.

(** * Who is served *)

(** A frame that passes has a live entry in the kernel's map. *)
Lemma frame_passes en env s data pkt s' act src now :
  0 <= data -> data + blen pkt < umax 64 -> env_wf env pkt -> blen pkt < 2 ^ 32 ->
  ghostbro_xdp en env s data pkt = Some (s', act) -> frame_event env s pkt act = EvPass src now ->
  now = now_allow env /\ exists e, ALLOW_MAP s !! src = Some e /\ now < expiry_ns e.
Proof.
  intros Hd He Hwf Hsz. rewrite ghostbro_xdp_eq by done. intros [= Hx]. unfold frame_event, xdp_spec in *.
  destruct (classify pkt) as [|s0 dport|]; [done| |done]. destruct act; [|done].
  destruct (dport =? _) eqn:Hp; [|done]. intros [= <- <-]. split; [done|]. cbn [negb] in Hx.
  destruct (ALLOW_MAP s !! s0) as [e|]; [|discriminate]. destruct (Z.ltb_spec (now_allow env) (expiry_ns e)); [|discriminate].
  by exists e.
Qed.

Section served.
Context `{C : Crypto} {T : CounterToml} `{HL : HttpLib} `{U : UrlLib} {RT : RelayToml} `{N : Noise} {NH : NoiseHandshake}.
Context {S5 : Socks5Lib}.
Context (en : endian) (toml_config : string -> option ServerConfig) (toml_keys : string -> option (list AuthorizedClientConfig)).

(** C4: only enrolled keys are served.  In any run of the server from its start -
    whatever knocks, reloads of the enrolment file, connections and failures of
    the disk - a connection is admitted only with the entry of a key that is
    enrolled at that moment; and a frame passes to the proxy port only from a
    source whose live entry is of a key enrolled at that moment, provided that the
    kernel's clock has not fallen behind what the proxy's tasks have read. *)
Theorem only_enrolled_served refused max_open env cli effects srv g static_key relay acts h st :
  boot toml_config toml_keys env cli = (effects, Ok srv) -> sr_gate srv = Some g ->
  Forall server_act_ok acts ->
  server_exec en toml_keys refused max_open static_key g (sr_decoy srv) (server_start g relay) acts = Some (h, st) ->
  let at_moment j before :=
    server_exec en toml_keys refused max_open static_key g (sr_decoy srv) (server_start g relay) (take j acts) = Some (take j h, before) in
  (forall j i src source now, h !! j = Some (SvProxy (LeAdmit i src source now)) ->
     exists before, at_moment j before /\ enrolled (ss_verifier before) (ae_key_id (as_entry source))) /\
  (forall j pkt act src now, h !! j = Some (SvFrame pkt act (EvPass src now)) ->
     (forall io i t, SaTurn io i ∈ take j acts -> monotonic_now_ns (tu_timespec io) = Ok t -> t <= now) ->
     exists before e, at_moment j before /\ ALLOW_MAP (ss_maps before) !! src = Some e /\ now < expiry_ns e /\
       enrolled (ss_verifier before) (ae_key_id e)).
Proof.
  intros Hboot Hg Hok Hexec at_moment. destruct (boot_gate_empty _ _ _ _ _ _ _ Hboot Hg) as [Hmap Hsrc].
  assert (Hm : forall j before, at_moment j before -> ss_over before = None ->
            mirror_enrolled (ss_verifier before) (li_sources (ss_proxy before))).
  { intros j before He Ho. eapply exec_enrolled; [exact He|exact Ho|]. intros ip a. cbn. by rewrite Hsrc. }
  split.
  - intros j i src source now Hj. edestruct exec_moment as (a & before & after & _ & He & Ht); [exact Hexec|exact Hj|].
    exists before. split; [exact He|]. assert (Ho : ss_over before = None) by (by eapply turn_running).
    apply turn_admission in Ht as [Hs _]. exact (Hm j before He Ho src source Hs).
  - intros j pkt act src now Hj Hclock. edestruct exec_moment as (a & before & after & Ha & He & Ht); [exact Hexec|exact Hj|].
    assert (Ho : ss_over before = None) by (by eapply turn_running).
    pose proof (Forall_lookup_1 _ _ _ _ Hok Ha) as Haok. apply turn_frame in Ht as (xenv & data & maps & -> & Hx & Hev).
    destruct Haok as (Hd & Hend & Hwf & Hsz).
    destruct (frame_passes en xenv (ss_maps before) data pkt maps act src now) as (Hnow & e & Hl & Hlt); [done..|].
    exists before, e. split_and!; [exact He|exact Hl|exact Hlt|].
    edestruct exec_gate as (h' & Hrun & Hsh); [by apply Forall_take, Hok|exact He|exact Ho|].
    assert (Hmir : mirrors now (runtime_of (gate_of before))).
    { eapply sys_run_mirrors; [exact Hrun|exact Hmap|]. eapply Forall_impl; [exact Hsh|].
      intros ev (a' & ev' & Hin & _ & Hshow). destruct ev as [| |t|]; try done. destruct Hshow as (io & i & -> & Hmono).
      exact (Hclock io i t Hin Hmono). }
    destruct (Hmir src e Hl Hlt) as (a' & Hs & <-). exact (Hm j before He Ho src a' Hs).
Qed.

End served.
