(* ===== verification/Stealth.v ===== *)
(** What the server shows to those who have not knocked: frames are dropped or
    passed as by a closed port, requests are answered as by a web server, and a
    connection gets not a byte. *)

From S2P Require Import Prelude Text NetAddr Protocol Crypto Keys Seal SpaPacket Fs AuthKeys Verifier VerifierFacts Replay.
From S2P Require Import Xdp XdpFacts Runtime RuntimeFacts Tunnel Decoy DecoyFacts System RelayWire RelayEngine Config Startup StartupFacts.
From S2P Require Import RelayTunnel ProxyListener ProxyListenerFacts Schedule ScheduleFacts ServerMain ServerFacts ServerGate.

(** What becomes of a frame from a source that is not admitted: the ports of the
    proxy and of the knocks do not answer. *)
Definition stranger_verdict (config : BpfConfig) (pkt : bytes) : xdp_action :=
  match classify pkt with
  | FOther => XDP_PASS
  | FTcp _ dport => if dport =? proxy_port config then XDP_DROP else XDP_PASS
  | FUdp _ _ dport _ _ =>
      if negb (Z.land (spa_mode config) SPA_MODE_UDP =? 0) && (dport =? spa_port config) then XDP_DROP else XDP_PASS
  end.

Lemma xdp_spec_stranger en env s pkt :
  (forall src dport e, classify pkt = FTcp src dport -> ALLOW_MAP s !! src = Some e -> expiry_ns e <= now_allow env) ->
  (xdp_spec en env s pkt).2 = stranger_verdict (load_config s) pkt.
Proof.
  intros Hno. unfold xdp_spec, stranger_verdict. destruct (classify pkt) as [|src dport|src sport dport len off] eqn:Hc; [done| |].
  - destruct (dport =? _); cbn [negb]; [|done]. destruct (ALLOW_MAP s !! src) as [e|] eqn:He; [|done].
    rewrite (proj2 (Z.ltb_ge _ _)); [done|]. by eapply Hno.
  - destruct (Z.land _ _ =? 0); [done|]. destruct (dport =? _); [|done]. cbn [orb andb negb]. destruct (_ && _ && _); [|done].
    destruct (rate_limit_allows _ _ _ _) as [s1 []]; [|done]. cbn [negb].
    destruct (global_rate_limit_allows _ _ _) as [s2 []]; [|done]. by destruct (reserve env).
Qed.

Section stealth.
Context `{C : Crypto} {T : CounterToml} `{HL : HttpLib} `{U : UrlLib} {RT : RelayToml} `{N : Noise} {NH : NoiseHandshake}.
Context {S5 : Socks5Lib}.
Context (en : endian) (toml_config : string -> option ServerConfig) (toml_keys : string -> option (list AuthorizedClientConfig)).

(** The answer to a request does not depend on the channel. *)
Lemma serve_oblivious refused app env ch ch' rq : (serve refused app env ch rq).2 = (serve refused app env ch' rq).2.
Proof. destruct app as [[routes fb] state]. unfold serve. by destruct (axum_dispatch _ _ _ _). Qed.

(** The filter's configuration stays as it was loaded. *)
Lemma turn_config refused max_open static_key g app st a ev st' :
  server_act_ok a -> server_turn en toml_keys refused max_open static_key g app st a = Some (ev, st') ->
  CONFIG (ss_maps st') = CONFIG (ss_maps st).
Proof.
  assert (Hspa : forall item ring ch sev st1 ev1 st2, spa_turn item ring ch sev st1 = (ev1, st2) -> CONFIG (ss_maps st2) = CONFIG (ss_maps st1)).
  { intros item ring ch sev st1 ev1 st2 H. unfold spa_turn in H. by destruct (item _) as [sl []]; injection H as <- <-. }
  unfold server_turn. intros Hok H. destruct (ss_over st); [done|].
  destruct a as [env data pkt|io|io|contents|timespec|env rq|[[peer input]|]|io j|rl|]; cbn [server_act_ok] in Hok.
  - destruct Hok as (Hd & He & Hwf & Hsz). rewrite ghostbro_xdp_eq in H by done. cbn [mbind option_bind] in H.
    pose proof (xdp_spec_config en env (ss_maps st) pkt) as Hc. destruct (xdp_spec _ _ _ _) as [maps act]. by injection H as <- <-.
  - destruct (SPA_RING _); [done|]. apply (inj Some) in H. by eapply Hspa.
  - destruct (ch_queue _); [done|]. apply (inj Some) in H. by eapply Hspa.
  - apply (inj Some) in H. by eapply Hspa.
  - apply (inj Some) in H. by eapply Hspa.
  - destruct (serve _ _ _ _ _). by injection H as <- <-.
  - by destruct (_ <? _)%nat; injection H as <- <-.
  - by injection H as <- <-.
  - destruct (conn_turn _ _ _ _ _) as [l|]; [|done]. by injection H as <- <-.
  - by injection H as <- <-.
  - by injection H as <- <-.
Qed.

Lemma exec_config refused max_open static_key g app acts : forall st h st',
  Forall server_act_ok acts -> server_exec en toml_keys refused max_open static_key g app st acts = Some (h, st') ->
  CONFIG (ss_maps st') = CONFIG (ss_maps st).
Proof.
  induction acts as [|a acts IH]; intros st h st' Hok; cbn [server_exec]; [by intros [= _ <-]|].
  apply Forall_cons in Hok as [Ha Hok]. destruct (server_turn _ _ _ _ _ _ _ st a) as [[ev st1]|] eqn:E; [|done]. cbn.
  destruct (server_exec _ _ _ _ _ _ _ st1 acts) as [[h1 st2]|] eqn:E1; [|done]. cbn. intros [= _ <-].
  rewrite (IH _ _ _ Hok E1). by eapply turn_config.
Qed.

(** C3: strangers see a web server.  In any run of the server from its start, and
    whatever others do in it: a frame from a source none of whose knocks has been
    accepted and is still in time meets the verdict that its ports alone decide -
    the proxy's port and the knocks' port never answer; every request to the web
    server gets the answer it would get if nothing else had ever happened; and a
    connection to the proxy, from an address without an accepted knock, gets not
    a single byte and no session. *)
Theorem strangers_see_a_web_server refused max_open env cli effects srv g static_key relay acts h st :
  boot toml_config toml_keys env cli = (effects, Ok srv) -> sr_gate srv = Some g -> Z.of_nat max_open < 2 ^ 32 - 1 ->
  Forall server_act_ok acts ->
  server_exec en toml_keys refused max_open static_key g (sr_decoy srv) (server_start g relay) acts = Some (h, st) ->
  (forall j xenv data pkt, acts !! j = Some (SaFrame xenv data pkt) ->
     (forall src dport payload accept opened_at, classify pkt = FTcp src dport ->
        SvGate (EvKnock src payload accept opened_at) ∈ take j h -> knock_expiry (gt_allow_ttl g) opened_at <= now_allow xenv) ->
     exists ev, h !! j = Some (SvFrame pkt (stranger_verdict (gt_bpf g) pkt) ev)) /\
  (forall j wenv rq, acts !! j = Some (SaRequest wenv rq) ->
     h !! j = Some (SvRequest rq (serve refused (sr_decoy srv) wenv {| ch_queue := []; ch_closed := false |} rq).2)) /\
  (forall i c, li_conns (ss_proxy st) !! i = Some c ->
     (forall src payload accept opened_at, cn_peer c = Some src -> SvGate (EvKnock src payload accept opened_at) ∉ h) ->
     cn_sent c = [] /\ holding c = None).
Proof.
  intros Hboot Hg Hmax Hok Hexec. destruct (boot_gate_empty _ _ _ _ _ _ _ Hboot Hg) as [Hmap Hsrc]. split_and!.
  - intros j xenv data pkt Hj Hno. edestruct exec_at as (ev & before & after & Hh & He & Ht); [exact Hexec|exact Hj|].
    pose proof (Forall_lookup_1 _ _ _ _ Hok Hj) as (Hd & Hend & Hwf & Hsz).
    assert (Ho : ss_over before = None) by (by eapply turn_running).
    assert (Hcfg : load_config (ss_maps before) = gt_bpf g).
    { unfold load_config. by rewrite (exec_config _ _ _ _ _ _ _ _ _ (Forall_take _ _ _ Hok) He). }
    edestruct exec_gate as (h' & Hrun & Hsh); [by apply Forall_take, Hok|exact He|exact Ho|].
    destruct (sys_run_justified _ _ _ _ _ _ Hrun Hmap) as (Hjust & _ & _).
    unfold server_turn in Ht. rewrite Ho, ghostbro_xdp_eq in Ht by done. cbn [mbind option_bind] in Ht.
    pose proof (xdp_spec_stranger en xenv (ss_maps before) pkt) as Hv. rewrite Hcfg in Hv.
    destruct (xdp_spec _ _ _ _) as [maps act]. cbn [snd] in Hv. injection Ht as <- _. rewrite <-Hv; [by eexists|].
    intros src dport e Hc Hl. destruct (Hjust src e Hl) as (payload & accept & now & Hin & ->).
    apply (Hno src dport payload accept now Hc). rewrite Forall_forall in Hsh.
    destruct (Hsh _ Hin) as (a & ev & _ & Hev & Hshow). cbn in Hshow. by subst ev.
  - intros j wenv rq Hj. edestruct exec_at as (ev & before & after & Hh & _ & Ht); [exact Hexec|exact Hj|].
    unfold server_turn in Ht. destruct (ss_over before); [done|].
    rewrite (serve_oblivious refused (sr_decoy srv) wenv _ (ss_channel before) rq).
    destruct (serve _ _ _ _ _) as [ch rsp]. by injection Ht as <- _.
  - intros i c Hi Hno. apply exec_listens in Hexec as Hl.
    destruct (unadmitted_silent _ _ _ _ _ _ _ _ _ _ _ Hl Hi) as [Hs Hp].
    + intros src source now Hpeer Hin. edestruct admission_after_knock as (payload & accept & opened & Hk);
        [exact Hsrc|exact Hok|exact Hexec|exact Hin|]. by apply (Hno src payload accept opened Hpeer).
    + split; [done|]. unfold holding. by destruct Hp as [->|[r ->]].
Qed.

End stealth.
