(* ===== verification/HttpsKnock.v ===== *)
(** A knock over HTTPS from end to end: the client of
    [ghostbro-client/src/main.rs], the decoy of [decoy.rs], the event loop of
    [ebpf.rs] and the tunnel's admission in [noise.rs]. *)

From S2P Require Import Prelude Text NetAddr Protocol Crypto Keys Seal SpaPacket Fs AuthKeys Verifier Replay Xdp Runtime.
From S2P Require Import Tunnel Decoy DecoyFacts RelayWire Client ClientFacts ClientSetup ClientTunnel.

(** The path the client posts to, the default of the server's configuration. *)
Definition TELEMETRY : string := "/api/v1/telemetry".

(** A POST to the telemetry path enqueues its body, for the peer's address. *)
Lemma serve_telemetry `{HL : HttpLib} {HW : HttpLaws HL} refused status cidrs webroot app env ch rq src :
  router true TELEMETRY status cidrs webroot = Ok app ->
  trusted (dc_trusted_proxy_cidrs app.2) (V4 src) = false ->
  ch_closed ch = false -> (length (ch_queue ch) < SPA_CHANNEL_CAPACITY)%nat ->
  rq_method rq = POST -> rq_path rq = TELEMETRY -> rq_peer rq = V4 src ->
  let '(ch', resp) := serve refused app env ch rq in
  ch_queue ch' = ch_queue ch ++ [{| cand_src_ip := src; cand_payload := rq_body rq |}] /\ rsp_status resp = status.
Proof.
  unfold router. intros Hr Ht Hc Hl Hm Hp Hpeer. apply bind_Ok_inv in Hr as (s & Hs & Hr). apply ok_or_Ok in Hs.
  apply status_range in Hs as [-> _]. apply bind_Ok_inv in Hr as (nets & _ & Hr). apply bind_Ok_inv in Hr as (root & _ & Hr).
  injection Hr as <-. cbn [snd dc_trusted_proxy_cidrs] in Ht. unfold serve. rewrite Hm, Hp.
  rewrite (dispatch_route _ _ _ _ HTelemetry).
  - unfold telemetry. cbn [dc_spa_tx dc_trusted_proxy_cidrs dc_response_status]. rewrite Hpeer, source_of_untrusted by done.
    split; [|done]. unfold try_send. rewrite Hc. cbn [orb]. destruct (Nat.leb_spec SPA_CHANNEL_CAPACITY (length (ch_queue ch))); [lia|done].
  - intros r Hin. assert (Hlit : literal_path "/"%string /\ literal_path TELEMETRY).
    { split; unfold literal_path; cbn; repeat constructor; done. }
    set_unfold in Hin. destruct Hin as [->|[->|[]]]; apply Hlit.
  - set_solver.
  - intros h' Hin. set_unfold in Hin. destruct Hin as [?|[?|[]]]; by simplify_eq.
Qed.

Section https_knock.
Context `{C : Crypto} {L : CryptoLaws C} `{I : IdentityLib} {T : CounterToml} `{HL : HttpLib} {HW : HttpLaws HL}.

(** An accepted knock admits its source to the filter and to the tunnel. *)
Lemma handle_knock_accepted ttl sl io src payload now_ms now_ns v ops acc :
  wall_clock_now_ms (kn_wall io) = Ok now_ms ->
  verify (sl_verifier sl) (kn_save io) payload src now_ms = (v, ops, Ok acc) ->
  monotonic_now_ns (kn_mono io) = Ok now_ns -> upd_ok (kn_update io) = true ->
  exists sl', handle_knock ttl io payload src sl = (sl', Ok tt) /\
    is_Some (allow_map (sl_runtime sl') !! src) /\
    allowed_sources (sl_runtime sl') !! src = Some {| as_entry := {| expiry_ns := sat_add 64 now_ns (sat_mul 64 ttl 1000000000);
        ae_key_id := acc_key_id acc; ae_client_id := acc_client_id acc |}; as_noise_public_key := acc_noise_public_key acc;
        as_max_concurrent_sessions := acc_max_concurrent_sessions acc |}.
Proof.
  intros Hwall Hv Hmono Hupd. unfold handle_knock. rewrite Hwall, Hv.
  unfold allow_source. rewrite Hmono. unfold bpf_update. rewrite Hupd. eexists. split; [done|].
  cbn [sl_runtime allow_map allowed_sources]. rewrite !lookup_insert_eq. by split; [eexists|].
Qed.

(** C14: a knock over HTTPS, from the client to an open tunnel.  The payload the
    client posts is taken by the decoy's telemetry route with the peer's address
    and handled by the event loop; whatever status the server is configured to
    answer with, the client's address is then admitted to the tunnel with the
    client's own Noise key until the time to live has elapsed.  The client
    itself reports success exactly if that status is 204. *)
Theorem https_knock_end_to_end ttl v sk c i n cpath url io now_ms now_ns ts ops
    refused status cidrs webroot app env ch rq src sl effects r ch' resp date :
  sl_verifier sl = v -> honest_setup v sk c -> in_sync v sk (ki_counter i) ->
  read_signing_key (ki_identity i) (ki_prompt i) = Ok sk ->
  ki_clock i = Some ts -> 0 <= ts <= i64_max -> ki_write i = WrDone -> (forall k, length (ki_fill i k) = k) ->
  wall_clock_now_ms (kn_wall io) = Ok now_ms -> Z.abs (now_ms - ts) <= time_window_ms v ->
  (forall ctr, 0 <= ctr <= i64_max ->
     persist_counters (with_counter v (key_id_for_public_key (ed_verifying_key sk)) ctr) (kn_save io) = (ops ctr, Ok tt)) ->
  monotonic_now_ns (kn_mono io) = Ok now_ns -> upd_ok (kn_update io) = true ->
  router true TELEMETRY status cidrs webroot = Ok app ->
  trusted (dc_trusted_proxy_cidrs app.2) (V4 src) = false ->
  ch_closed ch = false -> (length (ch_queue ch) < SPA_CHANNEL_CAPACITY)%nat ->
  send_https_spa i n cpath (server_static_pubkey v) url = (effects, r) ->
  EffPost url (rq_body rq) ∈ effects ->
  rq_method rq = POST -> rq_path rq = TELEMETRY -> rq_peer rq = V4 src ->
  serve refused app env ch rq = (ch', resp) ->
  ni_http n = Some (rsp_status resp, date) -> check_clock_drift date (ni_now n) = Ok tt ->
  exists cand sl' ctr,
    ch_queue ch' = ch_queue ch ++ [cand] /\ handle_https_item ttl sl (io, cand) = (sl', Ok tt) /\
    r = (if status =? 204 then Ok ctr else Err (NeStatus status)) /\
    forall timespec now handshake message,
      monotonic_now_ns timespec = Ok now ->
      now < sat_add 64 now_ns (sat_mul 64 ttl 1000000000) ->
      handshake (key_id_for_public_key (ed_verifying_key sk)) = Some (Some (ac_noise_public_key c), Ok message) ->
      (handle_connection (Some src) timespec handshake (allowed_sources (sl_runtime sl')) ∅).2
      = Ok (select_service (key_id_for_public_key (ed_verifying_key sk)) message).
Proof.
  intros <- Hs Hsync Hsk Hclk Hts Hw Hfill Hwall Hwin Hp Hmono Hupd Hr Ht Hc Hl Hsend Hpost Hm Hpath Hpeer Hserve Hhttp Hdrift.
  pose proof (serve_telemetry refused status cidrs webroot app env ch rq src Hr Ht Hc Hl Hm Hpath Hpeer) as Htel.
  rewrite Hserve in Htel. destruct Htel as [Hq Hst].
  destruct (client_knock_ok (sl_verifier sl) sk c i (kn_save io) src now_ms ts Https ops Hs Hsync Hsk Hclk Hts Hw Hfill Hwin Hp)
    as (written & payload & ctr & v' & acc & Hpay & Hv & _ & (Hk & Hn & Hmax) & _).
  unfold send_https_spa in Hsend. rewrite Hpay, Hhttp, Hst in Hsend. cbn [ok_or mbind result_bind counter_effect Datatypes.app] in Hsend.
  rewrite Hdrift in Hsend. cbn [map_err mbind result_bind] in Hsend. injection Hsend as <- <-.
  assert (Hbody : rq_body rq = payload) by (set_unfold in Hpost; destruct Hpost as [?|[?|[]]]; by simplify_eq).
  rewrite <-Hbody in Hv.
  destruct (handle_knock_accepted ttl sl io src (rq_body rq) now_ms now_ns v' (ops ctr) acc Hwall Hv Hmono Hupd) as (sl' & Hh & _ & Hsrc).
  exists {| cand_src_ip := src; cand_payload := rq_body rq |}, sl', ctr.
  split; [done|]. split; [done|]. split; [change NO_CONTENT with 204; by destruct (status =? 204)|].
  intros timespec now handshake message Hnow Hlt Hhs. unfold handle_connection, admit_source. rewrite Hsrc, Hnow. cbn [as_entry expiry_ns].
  rewrite (proj2 (Z.leb_gt _ _)) by done. cbn [ae_key_id as_entry]. rewrite Hk, Hhs. cbn [as_noise_public_key]. rewrite Hn.
  unfold verify_client_noise_static. cbn [ok_or mbind result_bind]. rewrite Nat.eqb_refl, bool_decide_eq_true_2 by done. cbn [andb negb].
  unfold acquire_session. rewrite lookup_empty. cbn [default as_max_concurrent_sessions].
  destruct (acc_max_concurrent_sessions acc) as [mx|]; [|done].
  destruct (Z.ltb_spec 0 mx), (Z.leb_spec mx 0); try done; lia.
Qed.

End https_knock.

(** * Revocation notices *)

Lemma router_parts `{HL : HttpLib} tx path status cidrs webroot app :
  router tx path status cidrs webroot = Ok app ->
  app.1 = ([("/"%string, GET, HDecoyContent); (path, POST, HTelemetry)], HDecoyContent).
Proof.
  unfold router. intros H. apply bind_Ok_inv in H as (s & _ & H). apply bind_Ok_inv in H as (nets & _ & H).
  apply bind_Ok_inv in H as (root & _ & H). by injection H as <-.
Qed.

Lemma decoy_content_ok `{HL : HttpLib} fs date state uri : rsp_status (decoy_content fs date state uri) = 200.
Proof.
  unfold decoy_content. destruct (dc_webroot state) as [root|]; [|done]. cbn [mbind option_bind].
  destruct (static_response fs date root uri) as [r|] eqn:E; [|done]. unfold static_response in E.
  apply bind_Some in E as (p & _ & E). apply bind_Some in E as (res & _ & E). case_bool_decide; [|done]. cbn [negb] in E.
  by apply bind_Some in E as (body & _ & [= <-]).
Qed.

(** The client's revocation notice meets no handler: the decoy answers with a
    page and status 200, changes nothing, and the client reports it as sent. *)
Lemma revoke_notice_ignored `{HL : HttpLib} {HW : HttpLaws HL} refused tx status cidrs webroot app env ch rq server body :
  router tx TELEMETRY status cidrs webroot = Ok app -> rq_path rq = "/api/v1/revoke"%string ->
  se_spa_mode server = TransportHttps ->
  let '(ch', resp) := serve refused app env ch rq in
  ch' = ch /\ exists url, revoke_server (fun _ _ => Some (rsp_status resp)) body server = Some (RevokeSent url 200).
Proof.
  intros Hr Hp Hm. destruct app as [[routes fb] state]. apply router_parts in Hr. cbn in Hr. injection Hr as -> ->. unfold serve. rewrite Hp.
  rewrite dispatch_fallback.
  - split; [done|]. rewrite decoy_content_ok. unfold revoke_server, revoke_url_for. rewrite bool_decide_eq_true_2 by done. by eexists.
  - intros r Hin. assert (Hlit : literal_path "/"%string /\ literal_path TELEMETRY).
    { split; unfold literal_path; cbn; repeat constructor; done. }
    set_unfold in Hin. destruct Hin as [->|[->|[]]]; (split; [apply Hlit|done]).
Qed.
