(* ===== verification/RelaySession.v ===== *)
(** A session of client and server: the handshake of [ghostbro-client/src/main.rs]
    with that of [ghostbro-server/src/noise.rs], and a relay request from the
    client's command to the relay engine and back. *)

From S2P Require Import Prelude Text NetAddr Protocol Crypto Keys Seal SpaPacket Fs AuthKeys Verifier Replay Runtime Tunnel TunnelFacts.
From S2P Require Import RelayWire RelayEngine RelayTunnel ProxyListener ProxyListenerFacts.
From S2P Require Import Client ClientFacts ClientSetup ClientTunnel ClientTunnelFacts HttpsKnock.

(** Documented behaviour of [snow]: an initiator and a responder who know their
    keys and share the prologue complete Noise XK in three messages of at most 96
    bytes, after which the responder knows the initiator's static key and the two
    transports read each other.  A fresh transport, one that has not used up its
    2^64 nonces, writes every message that fits. *)
Class NoiseXKLaws (C : Crypto) (N : Noise) (L : NoiseLaws N) (NH : NoiseHandshake) := {
  fresh : TransportState -> Prop;
  xk_completes : forall si sr prologue n,
    length si = 32%nat -> length sr = 32%nat -> (96 <= n)%nat ->
    exists i0 r0 i1 m1 r1 p1 r2 m2 i2 p2 i3 m3 r3 p3 ti tr,
      build_initiator si (derive_noise_public_from_private sr) prologue = Some i0 /\ build_responder sr prologue = Some r0 /\
      (hs_write i0 [] n = Some (i1, m1) /\ hs_read r0 m1 n = Some (r1, p1) /\ (length m1 <= 96)%nat) /\
      (hs_write r1 [] n = Some (r2, m2) /\ hs_read i1 m2 n = Some (i2, p2) /\ (length m2 <= 96)%nat) /\
      (hs_write i2 [] n = Some (i3, m3) /\ hs_read r2 m3 n = Some (r3, p3) /\ (length m3 <= 96)%nat) /\
      get_remote_static r3 = Some (derive_noise_public_from_private si) /\
      into_transport_mode i3 = Some ti /\ into_transport_mode r3 = Some tr /\ paired ti tr /\ paired tr ti /\ fresh ti /\ fresh tr;
  fresh_read : forall t c n t' m, fresh t -> read_message t c n = Some (t', m) -> fresh t';
  fresh_writes : forall t m n, fresh t -> (length m + 16 <= n)%nat -> Z.of_nat n <= 65535 -> is_Some (write_message t m n)
}.

(** * Frames on a socket that takes everything *)

Definition open_socket (l : list rd_event) (out : bytes) : TcpStream := {| rd_script := l; wr_script := []; sent := out |}.

Lemma stream_write_all_open l out data : stream_write_all (open_socket l out) data = (open_socket l (out ++ data), Ok tt).
Proof.
  unfold stream_write_all, with_wr. cbn [wr_script open_socket rd_script sent write_all]. case_bool_decide as Hd; [|done].
  by rewrite Hd.
Qed.

Lemma client_write_frame_open l out f w :
  write_frame f = Ok w -> client_write_frame (open_socket l out) f = (open_socket l (out ++ w), Ok tt).
Proof.
  unfold write_frame, client_write_frame. destruct (try_from 16 (blen f)) as [len|]; [|done]. cbn [ok_or mbind result_bind].
  intros [= <-]. rewrite !stream_write_all_open. by rewrite <-app_assoc.
Qed.

Lemma write_frame_short f : (length f <= MAX_FRAME_LEN)%nat -> exists w, write_frame f = Ok w.
Proof.
  intros Hl. unfold write_frame, try_from. change MAX_FRAME_LEN with (Z.to_nat 16384) in Hl. change (umax 16) with 65535.
  assert (H : (0 <=? blen f) && (blen f <=? 65535) = true) by (unfold blen; lia). rewrite H. by eexists.
Qed.

Lemma client_read_frame_open l out f w more :
  write_frame f = Ok w -> (length f <= MAX_FRAME_LEN)%nat -> clean l -> script_bytes l = w ++ more ->
  exists l', client_read_frame (open_socket l out) = (open_socket l' out, Ok f) /\ clean l' /\ script_bytes l' = more.
Proof.
  intros Hw Hl Hc Hs. unfold client_read_frame.
  destruct (client_read_frame_clean (open_socket l out) f more Hc) as (l' & -> & Hc' & Hs').
  { cbn [rd_script open_socket]. rewrite Hs. by apply read_frame_write. }
  by exists l'.
Qed.

Section session.
Context `{C : Crypto} {L : CryptoLaws C} `{N : Noise} {NL : NoiseLaws N} {ND : NoiseDuplex N NL}.
Context {NH : NoiseHandshake} {XK : NoiseXKLaws C N NL NH}.

(** * The handshake *)

(** Both ends of the handshake: what each sends, and the transports. *)
Lemma xk_session si static_key prologue :
  length si = 32%nat -> length static_key = 32%nat ->
  exists i0 hello answer final ti tr noise,
    build_initiator si (derive_noise_public_from_private static_key) prologue = Some i0 /\ (paired ti tr /\ paired tr ti /\ fresh ti /\ fresh tr) /\
    (forall l out more, clean l -> script_bytes l = answer ++ more ->
       exists l', noise_xk i0 (open_socket l out) = Ok (open_socket l' (out ++ hello ++ final), ti) /\ clean l' /\ script_bytes l' = more) /\
    (forall rest, connection_handshake static_key prologue (hello ++ final ++ rest) = (answer, Some (noise, rest))) /\
    get_remote_static noise = Some (derive_noise_public_from_private si) /\ into_transport_mode noise = Some tr.
Proof.
  intros Hsi Hsr.
  destruct (xk_completes si static_key prologue MAX_FRAME_LEN Hsi Hsr) as (i0 & r0 & i1 & m1 & r1 & p1 & r2 & m2 & i2 & p2 & i3 & m3 &
    r3 & p3 & ti & tr & Hi0 & Hr0 & (Hw1 & Hr1 & Hl1) & (Hw2 & Hr2 & Hl2) & (Hw3 & Hr3 & Hl3) & Hst & Hti & Htr & Hp & Hp' & Hfi & Hfr).
  { change MAX_FRAME_LEN with (Z.to_nat 16384). lia. }
  assert (Hfit : forall m : bytes, (length m <= 96)%nat -> (length m <= MAX_FRAME_LEN)%nat).
  { intros m Hm. change MAX_FRAME_LEN with (Z.to_nat 16384). lia. }
  destruct (write_frame_short m1 (Hfit _ Hl1)) as [w1 Hf1]. destruct (write_frame_short m2 (Hfit _ Hl2)) as [w2 Hf2].
  destruct (write_frame_short m3 (Hfit _ Hl3)) as [w3 Hf3].
  exists i0, w1, w2, w3, ti, tr, r3. split_and!; try done.
  - intros l out more Hc Hs. unfold noise_xk. change BUF_LEN with MAX_FRAME_LEN. rewrite Hw1. cbn [ok_or mbind result_bind].
    rewrite (client_write_frame_open _ _ _ _ Hf1).
    destruct (client_read_frame_open l (out ++ w1) m2 w2 more Hf2 (Hfit _ Hl2) Hc Hs) as (l' & -> & Hc' & Hs').
    rewrite Hr2. cbn [ok_or mbind result_bind]. rewrite Hw3. cbn [ok_or mbind result_bind].
    rewrite (client_write_frame_open _ _ _ _ Hf3), Hti. exists l'. by rewrite <-app_assoc.
  - intros rest. unfold connection_handshake, respond_xk, respond_hello. rewrite Hr0.
    rewrite (read_frame_write m1 w1 _ Hf1) by auto. cbn [mbind result_bind]. rewrite Hr1. cbn [ok_or mbind result_bind].
    rewrite Hw2. cbn [ok_or mbind result_bind]. rewrite Hf2. cbn [mbind result_bind].
    rewrite (read_frame_write m3 w3 _ Hf3) by auto. cbn [mbind result_bind]. rewrite Hr3. done.
Qed.

(** * A request and its response *)

Lemma write_encrypted_short t m :
  fresh t -> (length m <= max_plaintext_len)%nat -> exists t' w, write_encrypted_frame t m = Ok (t', w).
Proof.
  intros Hfr Hm. assert (Hl : (length m + 16 <= MAX_FRAME_LEN)%nat).
  { change MAX_FRAME_LEN with (Z.to_nat 16384). change max_plaintext_len with (Z.to_nat 16368) in Hm. lia. }
  destruct (fresh_writes t m MAX_FRAME_LEN Hfr) as [[t' c] Hc].
  { done. }
  { change MAX_FRAME_LEN with (Z.to_nat 16384). lia. }
  unfold write_encrypted_frame. rewrite Hc. cbn [ok_or mbind result_bind].
  destruct (write_frame_short c) as [w ->]; [|by exists t', w]. by rewrite (write_message_length _ _ _ _ _ Hc).
Qed.

(** What the client sends, what the server makes of it, and what the client makes
    of the answer. *)
Lemma exchange ti tr request response :
  paired ti tr -> paired tr ti -> fresh ti -> fresh tr -> (length request <= max_plaintext_len)%nat -> (length response <= max_plaintext_len)%nat ->
  exists asked tr' answered tr2,
    (forall rest, read_encrypted_frame tr (asked ++ rest) = Ok (tr', request, rest)) /\
    write_encrypted_frame tr' response = Ok (tr2, answered) /\
    (forall l out more, clean l -> script_bytes l = answered ++ more ->
       exists l' ti', round_trip (open_socket l out) ti request = (open_socket l' (out ++ asked), ti', Ok response) /\
         clean l' /\ script_bytes l' = more).
Proof.
  intros Hp Hp' Hfi Hfr Hq Hr.
  destruct (write_encrypted_short ti request Hfi Hq) as (ti1 & asked & Hask).
  destruct (encrypted_frame_arrives _ _ _ _ _ Hp Hask) as (tr1 & Hp1 & Harr).
  assert (Hback : paired tr1 ti1 /\ fresh tr1).
  { pose proof (Harr []) as H. unfold read_encrypted_frame in H. apply bind_Ok_inv in H as ([f r] & _ & H).
    apply bind_Ok_inv in H as ([t3 p] & Hm & H). injection H as -> _ _. apply ok_or_Ok in Hm.
    split; [|by eapply fresh_read]. eapply read_keeps_outbound; [|exact Hm]. by eapply write_encrypted_keeps. }
  destruct Hback as [Hback Hfr1]. destruct (write_encrypted_short tr1 response Hfr1 Hr) as (tr2 & answered & Hans).
  destruct (encrypted_frame_arrives _ _ _ _ _ Hback Hans) as (ti2 & _ & Hread).
  exists asked, tr1, answered, tr2. split; [exact Harr|]. split; [exact Hans|].
  intros l out more Hc Hs. unfold round_trip, client_write_encrypted_frame. change BUF_LEN with MAX_FRAME_LEN.
  unfold write_encrypted_frame in Hask. apply bind_Ok_inv in Hask as ([t c] & Hc1 & Hask). apply ok_or_Ok in Hc1. rewrite Hc1.
  apply bind_Ok_inv in Hask as (w & Hw & Hask). injection Hask as <- <-. rewrite (client_write_frame_open _ _ _ _ Hw).
  unfold client_read_encrypted_frame, client_read_frame. specialize (Hread more). unfold read_encrypted_frame in Hread.
  apply bind_Ok_inv in Hread as ([f rest] & Hf & Hread). apply bind_Ok_inv in Hread as ([t4 p] & Hm & Hread).
  injection Hread as -> -> ->. apply ok_or_Ok in Hm.
  destruct (client_read_frame_clean (open_socket l (out ++ w)) f more Hc) as (l' & -> & Hc' & Hs').
  { cbn [rd_script open_socket]. by rewrite Hs. }
  cbn [mbind result_bind ok_or]. change BUF_LEN with MAX_FRAME_LEN. rewrite Hm. by exists l', ti2.
Qed.

End session.

(** * From the client's command to the engine *)

Section end_to_end.
Context `{C : Crypto} {L : CryptoLaws C} `{I : IdentityLib} {CT : CounterToml} `{U : UrlLib} {T : RelayToml}.
Context `{N : Noise} {NL : NoiseLaws N} {ND : NoiseDuplex N NL} {NH : NoiseHandshake} {XK : NoiseXKLaws C N NL NH} {S5 : Socks5Lib}.
Context (config : RelayConfig) (static_key : bytes).

(** A slot that is taken and given back. *)
Lemma session_returned counts counts' kid cap n k :
  default 0 (counts !! kid) = Z.of_nat n -> Z.of_nat n < 2 ^ 32 - 1 -> acquire_session counts kid cap = (counts', true) ->
  default 0 (drop_session counts' kid !! k) = default 0 (counts !! k).
Proof.
  intros Hn Hb Ha. assert (Hk : default 0 (counts' !! kid) = Z.of_nat n + 1).
  { rewrite (acquire_session_count _ _ _ _ _ kid Ha), decide_True, Hn by done. unfold wrap. rewrite Z.mod_small; lia. }
  rewrite drop_session_count by (rewrite Hk; lia). rewrite Hk, (acquire_session_count _ _ _ _ _ k Ha).
  case_decide; [subst; rewrite Hn; lia|done].
Qed.

(** A task alone, from its acceptance on: an admitted peer, its handshake, a
    relay request and its response. *)
Lemma conn_run_relay lis src source hello answer asked answered noise tr tr' tr2 request n0 now io1 io2 io3 io4 st' response :
  let kid := ae_key_id (as_entry source) in
  li_sources lis !! src = Some source -> monotonic_now_ns (tu_timespec io1) = Ok now -> now < expiry_ns (as_entry source) ->
  (forall rest, connection_handshake static_key kid (hello ++ rest) = (answer, Some (noise, rest))) ->
  get_remote_static noise = Some (as_noise_public_key source) -> into_transport_mode noise = Some tr ->
  default 0 (li_sessions lis !! kid) = Z.of_nat n0 -> below_cap (as_max_concurrent_sessions source) n0 = true ->
  (forall m, as_max_concurrent_sessions source = Some m -> 0 <= m) -> Z.of_nat n0 < 2 ^ 32 - 1 ->
  (forall rest, read_encrypted_frame tr (asked ++ rest) = Ok (tr', request, rest)) ->
  select_service kid request = ServeRelay kid request ->
  dispatch config (tu_relay io4) (li_relay lis) kid request = (st', response) ->
  write_encrypted_frame tr' response = Ok (tr2, answered) ->
  exists lis', conn_run config static_key [io1; io2; io3; io4] (listener_accept lis (Some src) (hello ++ asked)) (length (li_conns lis)) = Some lis' /\
    (exists cn, li_conns lis' !! length (li_conns lis) = Some cn /\ cn_sent cn = answer ++ answered /\ cn_phase cn = CnClosed (Ok tt)) /\
    li_relay lis' = st' /\ (forall k, default 0 (li_sessions lis' !! k) = default 0 (li_sessions lis !! k)).
Proof.
  intros kid Hsrc Hnow Hlt Hx Hst Htr Hn Hcap Hm Hb Hask Hsel Hd Hans.
  set (i := length (li_conns lis)).
  set (lis_with := fun (sessions : SessionCounts) (relay : relay_state) (c : conn) => {| li_sources := li_sources lis; li_sessions := sessions; li_relay := relay;
         li_conns := li_conns lis ++ [c] |}).
  assert (Hat : forall c, (li_conns lis ++ [c]) !! i = Some c) by (intros; unfold i; by rewrite lookup_app_r, Nat.sub_diag by lia).
  assert (Hput : forall c c', <[i := c']> (li_conns lis ++ [c]) = li_conns lis ++ [c'])
    by (intros; unfold i; by rewrite insert_app_r_alt, Nat.sub_diag by lia).
  set (c0 := {| cn_peer := Some src; cn_input := hello ++ asked; cn_sent := []; cn_phase := CnNew |}).
  set (c1 := to_phase c0 (hello ++ asked) [] (CnHandshake source)).
  set (c2 := to_phase c1 asked answer (CnAccepted kid noise)).
  set (c3 := to_phase c2 [] [] (CnServing kid (ServeRelay kid request) tr')).
  pose proof (acquire_granted _ _ _ _ Hn Hm) as Hg. rewrite Hcap in Hg.
  destruct (acquire_session (li_sessions lis) kid (as_max_concurrent_sessions source)) as [s1 granted] eqn:Ha.
  cbn [snd] in Hg. subst granted.
  assert (E1 : conn_turn config static_key io1 (lis_with (li_sessions lis) (li_relay lis) c0) i
               = Some (lis_with (li_sessions lis) (li_relay lis) c1)).
  { unfold conn_turn. cbn [li_conns lis_with]. rewrite Hat. cbn [mbind option_bind cn_phase c0].
    unfold turn_admit, admit_source. cbn [cn_peer li_sources lis_with c0]. rewrite Hsrc, Hnow, (proj2 (Z.leb_gt _ _) Hlt).
    unfold after_turn. cbn [li_conns lis_with]. by rewrite Hput. }
  assert (E2 : conn_turn config static_key io2 (lis_with (li_sessions lis) (li_relay lis) c1) i
               = Some (lis_with s1 (li_relay lis) c2)).
  { unfold conn_turn. cbn [li_conns lis_with]. rewrite Hat. cbn [mbind option_bind cn_phase c1 to_phase].
    unfold turn_handshake. fold kid. cbn [cn_input to_phase c1]. rewrite Hx, Hst.
    unfold verify_client_noise_static. cbn [ok_or mbind result_bind]. rewrite Nat.eqb_refl, bool_decide_eq_true_2 by done.
    cbn [andb negb li_sessions lis_with]. rewrite Ha. unfold after_turn. cbn [li_conns lis_with]. by rewrite Hput. }
  assert (E3 : conn_turn config static_key io3 (lis_with s1 (li_relay lis) c2) i = Some (lis_with s1 (li_relay lis) c3)).
  { unfold conn_turn. cbn [li_conns lis_with]. rewrite Hat. cbn [mbind option_bind cn_phase c2 to_phase].
    unfold turn_first, first_message. cbn [cn_input to_phase c2]. rewrite Htr. cbn [ok_or mbind result_bind].
    specialize (Hask []). rewrite app_nil_r in Hask. rewrite Hask, Hsel. unfold after_turn. cbn [li_conns lis_with]. by rewrite Hput. }
  assert (E4 : conn_turn config static_key io4 (lis_with s1 (li_relay lis) c3) i
               = Some (lis_with (drop_session s1 kid) st' (close c3 answered (Ok tt)))).
  { unfold conn_turn. cbn [li_conns lis_with]. rewrite Hat. cbn [mbind option_bind cn_phase c3 to_phase].
    unfold turn_serve, serve_once, handle_ghost_relay. cbn [li_relay lis_with]. rewrite Hd, Hans.
    unfold after_turn. cbn [li_conns lis_with]. by rewrite Hput. }
  cbn [conn_run]. change (listener_accept lis (Some src) (hello ++ asked)) with (lis_with (li_sessions lis) (li_relay lis) c0).
  rewrite E1. cbn [mbind option_bind]. rewrite E2. cbn [mbind option_bind]. rewrite E3. cbn [mbind option_bind]. rewrite E4.
  eexists. split; [done|]. split; [|split; [done|]].
  - eexists. split; [apply Hat|]. split; [|done]. cbn [close to_phase cn_sent c3 c2 c1 c0 app]. by rewrite app_nil_r.
  - intros k. by apply (session_returned (li_sessions lis) s1 kid (as_max_concurrent_sessions source) n0).
Qed.

(** [run_relay_request] with what the client sends on its connection. *)
Definition relay_request_sent (i : knock_input) (n : net_input) (path : string) (server_key : read_outcome)
    (spa_endpoint proxy_endpoint : SocketAddr) (spa_mode : SpaTransport) (https_spa_url : option string) (request : bytes)
    : list client_effect * result NetError (bytes * bytes) :=
  one_shot i n path server_key spa_endpoint proxy_endpoint spa_mode https_spa_url
    (fun s t => let '(s, _, r) := round_trip s t request in response ← r; Ok (sent s, response)).

Lemma relay_request_sent_eq i n path server_key spa proxy mode url request effects out response :
  relay_request_sent i n path server_key spa proxy mode url request = (effects, Ok (out, response)) ->
  run_relay_request i n path server_key spa proxy mode url request = (effects, Ok response).
Proof.
  unfold relay_request_sent, run_relay_request, one_shot. destruct (read_noise_public_key server_key) as [key|]; [|done].
  destruct (connect_noise _ _ _ _) as [fx [[[s t] kid]|e]]; [|done]. cbn [mbind result_bind].
  destruct (round_trip s t request) as [[s' t'] [r|e]]; [|done]. cbn. by intros [= -> <- <-].
Qed.

(** A datagram can be sent, and the server's port accepts a connection. *)
Definition reachable (s : TcpStream) : net_input := {| ni_udp := true; ni_http := None; ni_now := 0; ni_connect := Some s |}.

(** A client in step with a server that enrolled it, and the server's clock and
    disk at its knock. *)
Record ready_to_knock (v : SpaVerifier) (sk : bytes) (c : AuthorizedClient) (i : knock_input) (kio : knock_io)
    (now_ms now_ns : Z) : Prop := {
  rk_honest : honest_setup v sk c;
  rk_noise : ac_noise_public_key c = derive_noise_static_public_key sk;
  rk_static : length (server_static_private v) = 32%nat;
  rk_sync : in_sync v sk (ki_counter i);
  rk_identity : read_signing_key (ki_identity i) (ki_prompt i) = Ok sk;
  rk_clock : exists ts, ki_clock i = Some ts /\ 0 <= ts <= i64_max /\ Z.abs (now_ms - ts) <= time_window_ms v;
  rk_write : ki_write i = WrDone;
  rk_fill : forall k, length (ki_fill i k) = k;
  rk_wall : wall_clock_now_ms (kn_wall kio) = Ok now_ms;
  rk_persist : forall ctr, 0 <= ctr <= i64_max -> exists ops,
    persist_counters (with_counter v (key_id_for_public_key (ed_verifying_key sk)) ctr) (kn_save kio) = (ops, Ok tt);
  rk_mono : monotonic_now_ns (kn_mono kio) = Ok now_ns;
  rk_update : upd_ok (kn_update kio) = true
}.

(** The client's payload opens the gate for its key. *)
Lemma ready_knock ttl sl sk c i kio now_ms now_ns src :
  ready_to_knock (sl_verifier sl) sk c i kio now_ms now_ns ->
  exists written payload ctr sl' source,
    spa_payload Udp i (server_static_pubkey (sl_verifier sl)) = (Some written, Ok (payload, ctr)) /\
    handle_knock ttl kio payload src sl = (sl', Ok tt) /\ allowed_sources (sl_runtime sl') !! src = Some source /\
    expiry_ns (as_entry source) = sat_add 64 now_ns (sat_mul 64 ttl 1000000000) /\
    ae_key_id (as_entry source) = key_id_for_public_key (ed_verifying_key sk) /\
    as_noise_public_key source = ac_noise_public_key c /\ as_max_concurrent_sessions source = ac_max_concurrent_sessions c.
Proof.
  intros [Hs Hno Hst Hsync Hsk (ts & Hclk & Hts & Hwin) Hw Hfill Hwall Hp Hmono Hupd].
  destruct (client_knock_ok (sl_verifier sl) sk c i (kn_save kio) src now_ms ts Udp
    (fun ctr => (persist_counters (with_counter (sl_verifier sl) (key_id_for_public_key (ed_verifying_key sk)) ctr) (kn_save kio)).1)
    Hs Hsync Hsk Hclk Hts Hw Hfill Hwin) as (written & payload & ctr & v' & acc & Hpay & Hv & _ & (Hk & Hn & Hmax) & _).
  { intros ctr Hctr. destruct (Hp ctr Hctr) as [ops ->]. done. }
  destruct (handle_knock_accepted ttl sl kio src payload now_ms now_ns v' _ acc Hwall Hv Hmono Hupd) as (sl' & Hh & _ & Hsrc).
  exists written, payload, ctr, sl'. eexists. split; [exact Hpay|]. split; [exact Hh|]. split; [exact Hsrc|]. done.
Qed.

(** The connection the client makes after its knock. *)
Lemma client_asks i path server_key spa_endpoint proxy_endpoint url sk written payload ctr key i0 ti hello answer asked answered request response :
  read_noise_public_key server_key = Ok key -> length key = 32%nat ->
  spa_payload Udp i key = (Some written, Ok (payload, ctr)) -> read_signing_key (ki_identity i) (ki_prompt i) = Ok sk ->
  build_initiator (derive_noise_static_private_key sk) key (key_id_for_public_key (ed_verifying_key sk)) = Some i0 ->
  (forall l out more, clean l -> script_bytes l = answer ++ more ->
     exists l', noise_xk i0 (open_socket l out) = Ok (open_socket l' (out ++ hello), ti) /\ clean l' /\ script_bytes l' = more) ->
  (forall l out more, clean l -> script_bytes l = answered ++ more ->
     exists l' ti', round_trip (open_socket l out) ti request = (open_socket l' (out ++ asked), ti', Ok response) /\
       clean l' /\ script_bytes l' = more) ->
  forall l, clean l -> script_bytes l = answer ++ answered ->
    relay_request_sent i (reachable (open_socket l [])) path server_key spa_endpoint proxy_endpoint TransportUdp url request
    = ([EffCounter path written; EffUdp spa_endpoint payload; EffTcp proxy_endpoint], Ok (hello ++ asked, response)).
Proof.
  intros Hkey Hlen Hpay Hsk Hb Hxk Hrt l Hc Hl. unfold relay_request_sent, one_shot. rewrite Hkey.
  unfold connect_noise, connect_open. cbn [rc_server_public_key rc_spa_endpoint rc_spa_mode rc_https_spa_url rc_proxy_endpoint].
  rewrite Hlen. cbn [Nat.eqb negb]. unfold send_spa, send_udp_spa. rewrite Hpay. cbn [ni_udp reachable]. rewrite Hsk, Hb.
  cbn [ni_connect reachable counter_effect app mbind result_bind]. destruct (Hxk l [] answered Hc Hl) as (l1 & -> & Hc1 & Hl1).
  cbn [mbind result_bind]. destruct (Hrt l1 ([] ++ hello) [] Hc1) as (l2 & ti' & -> & _); [by rewrite app_nil_r|]. done.
Qed.

End end_to_end.

Section relay_request.
Context `{C : Crypto} {L : CryptoLaws C} `{I : IdentityLib} {CT : CounterToml} `{U : UrlLib} {T : RelayToml}.
Context `{N : Noise} {NL : NoiseLaws N} {ND : NoiseDuplex N NL} {NH : NoiseHandshake} {XK : NoiseXKLaws C N NL NH} {S5 : Socks5Lib}.
Context (config : RelayConfig).

(** C13: a relay request from the client's command to the engine and back.  The
    knock of a client in step with its server, handled by the event loop, admits
    the client; on the connection it then makes, client and server complete the
    handshake, and whatever pieces the network delivers in, the server's engine
    handles exactly the client's request under the client's key id, and the
    client's command returns exactly the engine's response.  Each side sends what
    the other is given, and the session slot is free again. *)
Theorem relay_request_end_to_end ttl sl sk c i kio now_ms now_ns src path server_key spa_endpoint proxy_endpoint url request :
  let kid := key_id_for_public_key (ed_verifying_key sk) in
  ready_to_knock (sl_verifier sl) sk c i kio now_ms now_ns ->
  read_noise_public_key server_key = Ok (server_static_pubkey (sl_verifier sl)) ->
  (exists rest, request = z2b PROTOCOL_GHOST_RELAY :: rest) -> (length request <= max_plaintext_len)%nat ->
  exists written payload sl',
    handle_knock ttl kio payload src sl = (sl', Ok tt) /\
    forall lis n0 now io1 io2 io3 io4 st' response,
      li_sources lis = allowed_sources (sl_runtime sl') ->
      default 0 (li_sessions lis !! kid) = Z.of_nat n0 -> Z.of_nat n0 < 2 ^ 32 - 1 ->
      (forall m, ac_max_concurrent_sessions c = Some m -> 0 <= m) -> below_cap (ac_max_concurrent_sessions c) n0 = true ->
      monotonic_now_ns (tu_timespec io1) = Ok now -> now < sat_add 64 now_ns (sat_mul 64 ttl 1000000000) ->
      dispatch config (tu_relay io4) (li_relay lis) kid request = (st', response) -> (length response <= max_plaintext_len)%nat ->
      exists c2s s2c lis',
        conn_run config (server_static_private (sl_verifier sl)) [io1; io2; io3; io4]
          (listener_accept lis (Some src) c2s) (length (li_conns lis)) = Some lis' /\
        (exists cn, li_conns lis' !! length (li_conns lis) = Some cn /\ cn_sent cn = s2c /\ cn_phase cn = CnClosed (Ok tt)) /\
        li_relay lis' = st' /\ (forall k, default 0 (li_sessions lis' !! k) = default 0 (li_sessions lis !! k)) /\
        forall l, clean l -> script_bytes l = s2c ->
          relay_request_sent i (reachable (open_socket l [])) path server_key spa_endpoint proxy_endpoint TransportUdp url request
          = ([EffCounter path written; EffUdp spa_endpoint payload; EffTcp proxy_endpoint], Ok (c2s, response)) /\
          run_relay_request i (reachable (open_socket l [])) path server_key spa_endpoint proxy_endpoint TransportUdp url request
          = ([EffCounter path written; EffUdp spa_endpoint payload; EffTcp proxy_endpoint], Ok response).
Proof.
  intros kid Hready Hkey [rest Hreq] Hq.
  destruct (ready_knock ttl sl sk c i kio now_ms now_ns src Hready) as (written & payload & ctr & sl' & source & Hpay & Hh & Hsrc & Hexp & Hk & Hno & Hmax).
  exists written, payload, sl'. split; [exact Hh|].
  intros lis n0 now io1 io2 io3 io4 st' response Hlis Hn Hb Hcapm Hcap Hnow Hlt Hd Hr.
  destruct Hready as [Hhon Hnp Hstat _ Hsk _ _ _ _ _ _ _]. pose proof (hs_server _ _ _ Hhon) as Hpub.
  assert (Hsi : length (derive_noise_static_private_key sk) = 32%nat) by apply sha256_length.
  destruct (xk_session (derive_noise_static_private_key sk) (server_static_private (sl_verifier sl)) kid Hsi Hstat)
    as (i0 & hello & answer & final & ti & tr & noise & Hi0 & (Hp & Hp' & Hfi & Hfr) & Hxk & Hconn & Hst & Htr).
  destruct (exchange ti tr request response Hp Hp' Hfi Hfr Hq Hr) as (asked & tr' & answered & tr2 & Hask & Hans & Hrt).
  assert (Hsel : select_service kid request = ServeRelay kid request) by by rewrite Hreq.
  destruct (conn_run_relay config (server_static_private (sl_verifier sl)) lis src source (hello ++ final) answer asked answered noise tr tr' tr2
    request n0 now io1 io2 io3 io4 st' response) as (lis' & Hrun & Hcn & Hrel & Hsess); rewrite ?Hk, ?Hmax; try done.
  - by rewrite Hlis.
  - by rewrite Hexp.
  - intros more. rewrite <-app_assoc. apply Hconn.
  - by rewrite Hno, Hnp.
  - exists ((hello ++ final) ++ asked), (answer ++ answered), lis'. split; [exact Hrun|]. split; [exact Hcn|]. split; [exact Hrel|].
    split; [exact Hsess|]. intros l Hc Hl.
    assert (Hsent : relay_request_sent i (reachable (open_socket l [])) path server_key spa_endpoint proxy_endpoint TransportUdp url request
      = ([EffCounter path written; EffUdp spa_endpoint payload; EffTcp proxy_endpoint], Ok ((hello ++ final) ++ asked, response))).
    { eapply (client_asks i path server_key spa_endpoint proxy_endpoint url sk written payload ctr _ i0 ti (hello ++ final)); try done.
      - rewrite Hpub. apply x25519_base_length.
      - by rewrite Hpub. }
    split; [exact Hsent|]. by eapply relay_request_sent_eq.
Qed.

End relay_request.
