(* ===== verification/Examples.v ===== *)
(** Worked instances: one server, one enrolled client and the frames it sends,
    with the concrete primitives of [Crypto] and [Verifier].  They run the model
    from a knock to the open gate, and show that the hypotheses of the theorems
    can be met. *)

From S2P Require Import Prelude Protocol Crypto Keys Seal SpaPacket Fs AuthKeys Verifier VerifierFacts.
From S2P Require Import Replay Xdp XdpFacts XdpLimits Runtime RuntimeFacts Tunnel System Watch Revocation.
From S2P Require Import Schedule ScheduleFacts.

#[local] Existing Instance toy_crypto.
#[local] Existing Instance toy_crypto_laws.
#[local] Existing Instance toy_toml.
#[local] Existing Instance toy_toml_laws.

(** * The scenario *)

Definition ex_sk : bytes := repeat x01 32.
Definition ex_private : bytes := repeat x02 32.
Definition ex_eph : bytes := repeat x03 32.
Definition ex_src : Z := 0xC0A80107.
Definition ex_ts : Z := 1700000000000.
Definition ex_path : string := "state/counters.toml".
Definition ex_fill (n : nat) : bytes := repeat x00 n.

Definition ex_config : AuthorizedClientConfig := {|
  cfg_name := "laptop"; cfg_public_key := encode_public_key (ed_verifying_key ex_sk);
  cfg_noise_public_key := encode_noise_public_key (derive_noise_static_public_key ex_sk);
  cfg_tier := Full; cfg_max_concurrent_sessions := Some 2 |}.

Definition ex_client : AuthorizedClient := {|
  ac_name := "laptop"; ac_public_key := ed_verifying_key ex_sk;
  ac_noise_public_key := derive_noise_static_public_key ex_sk;
  ac_key_id := key_id_for_public_key (ed_verifying_key ex_sk);
  ac_client_id := 1; ac_tier := Full; ac_max_concurrent_sessions := Some 2 |}.

Definition ex_verifier : SpaVerifier := from_counters [ex_client] 300 ∅ (Some ex_path) ex_private.

Definition ex_wire : bytes :=
  build 7 ex_fill ex_eph ex_sk Udp ex_ts 1 (Explicit ex_src) (server_static_pubkey ex_verifier).

(** Ethernet, IPv4 without options, and a transport segment. *)
Definition ex_frame (proto : Z) (segment : bytes) : bytes :=
  repeat x00 12 ++ [x08; x00] ++ [x45] ++ repeat x00 8 ++ [z2b proto] ++ repeat x00 2
  ++ be_bytes 4 ex_src ++ repeat x00 4 ++ segment.

Definition ex_udp : bytes :=
  ex_frame 17 (be_bytes 2 40000 ++ be_bytes 2 53 ++ be_bytes 2 (8 + blen ex_wire) ++ [x00; x00] ++ ex_wire).
Definition ex_tcp : bytes := ex_frame 6 (be_bytes 2 40001 ++ be_bytes 2 8443 ++ repeat x00 16).

(** A kernel that behaves as documented, at time [now]. *)
Definition ex_env (pkt : bytes) (now : Z) : xdp_env := {|
  now_allow := now; now_rate := now; now_global := now; insert_ok := true; evicted := [];
  reserve := Some (repeat xff 184);
  xdp_load_bytes := fun off len =>
    if (0 <=? off) && (0 <? len) && (off + len <=? blen pkt)
    then Some (slice (Z.to_nat off) (Z.to_nat (off + len)) pkt) else None |}.

Lemma ex_env_wf pkt now : env_wf (ex_env pkt now) pkt.
Proof.
  split.
  - by intros b [= <-].
  - intros off len H1 H2 H3. simpl. rewrite (proj2 (Z.leb_le _ _) H1), (proj2 (Z.ltb_lt _ _) H2),
      (proj2 (Z.leb_le _ _) H3). done.
  - intros off len b. simpl. destruct (_ && _ && _) eqn:E; [|discriminate]. bool_props.
    intros [= <-]. unfold blen in *. rewrite length_slice; lia.
Qed.

Definition ex_maps : xdp_maps := {|
  CONFIG := Some {| spa_port := 53; proxy_port := 8443; rate_limit_per_minute := 5; spa_mode := 1 |};
  ALLOW_MAP := ∅; RATE_LIMIT := ∅; GLOBAL_RATE := Some {| tokens := 0; last_ns := 0 |}; SPA_RING := [] |}.

Definition ex_io : knock_io := {|
  kn_wall := Some (ex_ts + 5); kn_save := io_ok; kn_mono := Some (100, 0);
  kn_update := {| upd_ok := true; upd_evicted := [] |} |}.

Definition ex_loop : spa_loop := {|
  sl_runtime := {| allow_map := ∅; allowed_sources := ∅ |}; sl_verifier := ex_verifier; sl_files := ∅ |}.

Definition ex_ttl : Z := DEFAULT_ALLOW_TTL_SECONDS.

(** The maps after the datagram, the loop after its event. *)
Definition ex_maps1 : xdp_maps :=
  match ghostbro_xdp LittleEndian (ex_env ex_udp 99000000000) ex_maps 4096 ex_udp with
  | Some (s, _) => s | None => ex_maps end.
Definition ex_item : bytes := default [] (head (SPA_RING ex_maps1)).
Definition ex_loop1 : spa_loop := (handle_ring_item LittleEndian ex_ttl ex_loop (ex_io, ex_item)).1.

Definition ex_keys (_ : string) : option (list AuthorizedClientConfig) := Some [ex_config].

(** An equation between closed terms, checked by evaluation in the kernel. *)
Ltac vm_done := match goal with |- _ = ?b => let x := constr:(eq_refl b) in vm_cast_no_check x end.
Ltac range_done := vm_compute; intuition congruence.

(** A run that is known to come to an end, by its result. *)
Lemma some_default {A} (d : A) (o : option A) : match o with Some _ => true | None => false end = true -> o = Some (default d o).
Proof. by destruct o. Qed.

Lemma run_result {A B} (d : A) (o : option (A * B)) b : snd <$> o = Some b -> o = Some (default d (fst <$> o), b).
Proof. destruct o as [[? ?]|]; [|done]. by intros [= ->]. Qed.

(** The whole path evaluates: the knock is dropped but opens the gate, and the
    TCP frame then passes until the entry expires. *)
Example ex_end_to_end :
  match ghostbro_xdp LittleEndian (ex_env ex_udp 99000000000) ex_maps 4096 ex_udp with
  | Some (s1, XDP_DROP) =>
      let s2 := set_allow (fun _ => allow_map (sl_runtime ex_loop1)) s1 in
      option_map snd (ghostbro_xdp LittleEndian (ex_env ex_tcp 101000000000) s2 4096 ex_tcp) = Some XDP_PASS /\
      option_map snd (ghostbro_xdp LittleEndian (ex_env ex_tcp 14500000000000) s2 4096 ex_tcp) = Some XDP_DROP
  | _ => False
  end.
Proof. vm_compute. split; reflexivity. Qed.

(** * Frames and packets *)

Lemma ex_frames_ok :
  4096 + blen ex_udp < umax 64 /\ blen ex_udp < 2 ^ 32 /\ 4096 + blen ex_tcp < umax 64 /\ blen ex_tcp < 2 ^ 32.
Proof. vm_compute. intuition congruence. Qed.

Lemma spa_build_open_verify_witness :
  let server_pub := x25519_public_from_private ex_private in
  exists p, spa_open (build 7 ex_fill ex_eph ex_sk Udp ex_ts 1 (Explicit ex_src) server_pub) ex_private = Ok p /\
    counter p = 1 /\ spa_verify p (ed_verifying_key ex_sk) server_pub = Ok tt.
Proof.
  destruct (spa_build_open_verify 7 ex_fill ex_eph ex_sk Udp ex_ts 1 (Explicit ex_src) ex_private)
    as (_ & p & Ho & _ & _ & Hc & _ & _ & _ & Hv).
  - range_done.
  - range_done.
  - intros ip [= <-]. range_done.
  - intros n. apply repeat_length.
  - exists p. auto.
Defined.

(** The packet [ex_wire] carries. *)
Definition ex_packet : SpaPacket :=
  built_packet ex_sk Udp ex_ts 1 (Explicit ex_src) (server_static_pubkey ex_verifier) ex_eph.

Lemma spa_verify_covers_wire_witness :
  packet_wf ex_packet /\ exists opened, seal_open (take SPA_SEALED_CORE_LEN ex_wire) ex_private = Some opened.
Proof.
  destruct (spa_verify_covers_wire ex_wire ex_private ex_packet (ed_verifying_key ex_sk)
    (server_static_pubkey ex_verifier)) as (Hwf & o & Ho & _).
  - vm_done.
  - eauto.
Defined.

Lemma ex_packet_wf : packet_wf ex_packet.
Proof. apply (open_wf ex_wire ex_private). vm_done. Qed.

Lemma spa_signed_message_binds_witness :
  counter ex_packet = counter ex_packet /\ server_static_pubkey ex_verifier = server_static_pubkey ex_verifier.
Proof.
  destruct (spa_signed_message_binds ex_packet ex_packet (server_static_pubkey ex_verifier)
    (server_static_pubkey ex_verifier) ex_packet_wf ex_packet_wf eq_refl) as (_ & _ & _ & _ & Hc & _ & _ & Hs).
  auto.
Defined.

Lemma into_clients_spec_witness :
  into_clients [ex_config] = Ok [ex_client] /\ length [ex_client] = length [ex_config].
Proof.
  assert (H : into_clients [ex_config] = Ok [ex_client]) by vm_done.
  split; [exact H|]. apply (into_clients_spec [ex_config] [ex_client] H).
Defined.

(** * The verifier *)

Definition ex_accepted : SpaVerifier * list fs_op * result SpaVerifyError SpaAccept :=
  verify ex_verifier io_ok ex_wire ex_src (ex_ts + 5).

Definition ex_accept : SpaAccept := accept_of ex_packet ex_client.

Lemma ex_accepts : ex_accepted.2 = Ok ex_accept.
Proof. vm_done. Qed.

Lemma verify_accept_sound_witness :
  exists c, clients ex_verifier !! acc_key_id ex_accept = Some c /\ ac_tier c = Full.
Proof.
  destruct (verify_accept_sound ex_verifier io_ok ex_wire ex_src (ex_ts + 5) ex_accepted.1.1 ex_accepted.1.2 ex_accept)
    as (p & c & o & _ & _ & Hc & _ & _ & Ht & _).
  - vm_done.
  - eauto.
Defined.

(** Saving fails at the rename. *)
Definition ex_io_fail : save_io :=
  {| io_mkdir := true; io_create := true; io_write := None; io_sync := true; io_rename := false |}.
Definition ex_unsaved : SpaVerifier * list fs_op * result SpaVerifyError SpaAccept :=
  verify ex_verifier ex_io_fail ex_wire ex_src (ex_ts + 5).

Lemma verify_reject_state_witness :
  ex_unsaved.2 = Err (Persist PRename) /\
  forall io' src' now' a, (verify ex_unsaved.1.1 io' ex_wire src' now').2 <> Ok a.
Proof.
  assert (H : verify ex_verifier ex_io_fail ex_wire ex_src (ex_ts + 5)
              = (ex_unsaved.1.1, ex_unsaved.1.2, Err (Persist PRename))) by vm_done.
  split; [vm_done|].
  destruct (verify_reject_state _ _ _ _ _ _ _ _ H) as [(_ & _ & Hne)|(_ & _ & _ & Hno)].
  - exfalso. by apply (Hne PRename).
  - exact Hno.
Defined.

(** The same key enrolled in the decoy tier, and a wire with a broken signature. *)
Definition ex_decoy_client : AuthorizedClient := {|
  ac_name := "decoy"; ac_public_key := ed_verifying_key ex_sk;
  ac_noise_public_key := derive_noise_static_public_key ex_sk;
  ac_key_id := key_id_for_public_key (ed_verifying_key ex_sk);
  ac_client_id := 9; ac_tier := AuthKeys.Decoy; ac_max_concurrent_sessions := None |}.
Definition ex_verifier_decoy : SpaVerifier := from_counters [ex_decoy_client] 1 ∅ None ex_private.
Definition ex_forged : bytes :=
  seal (build_signed_region ex_sk Udp ex_ts 1 (Explicit ex_src) ++ repeat x00 64)
    (server_static_pubkey ex_verifier) ex_eph.

Lemma verify_no_oracle_witness :
  (verify ex_verifier io_ok ex_forged 1 2).2 = (verify ex_verifier_decoy io_ok ex_forged 3 4).2.
Proof.
  refine (proj1 (verify_no_oracle ex_verifier ex_verifier_decoy io_ok io_ok ex_forged 1 3 2 4 _ _ _ _)).
  - reflexivity.
  - reflexivity.
  - intros k. cbn [clients from_counters ex_verifier ex_verifier_decoy].
    unfold clients_by_key_id. cbn [foldl].
    destruct (decide (k = key_id_for_public_key (ed_verifying_key ex_sk))) as [->|Hne].
    + by rewrite !lookup_insert_eq.
    + by rewrite !lookup_insert_ne.
  - intros p c Ho Hc.
    assert (Hp : spa_open ex_forged (server_static_private ex_verifier) = Ok {|
      mode := Udp; use_packet_source := false;
      key_id := key_id_for_public_key (ed_verifying_key ex_sk); timestamp_ms := ex_ts; counter := 1;
      allow_ip := ex_src; signature := repeat x00 64; ephemeral_pub := ephemeral_public ex_eph |})
      by vm_done.
    rewrite Hp in Ho. injection Ho as <-.
    assert (Hcl : Some c = Some ex_client) by (rewrite <- Hc; vm_done).
    injection Hcl as ->. vm_compute. discriminate.
Defined.

Lemma ex_honest : honest_setup ex_verifier ex_sk ex_client.
Proof. split; vm_done. Qed.

Lemma verify_accepts_honest_witness :
  exists v' acc ops, verify ex_verifier io_ok ex_wire ex_src (ex_ts + 5) = (v', ops, Ok acc) /\ acc_counter acc = 1.
Proof.
  destruct (verify_accepts_honest ex_verifier io_ok 7 ex_fill ex_eph ex_sk Udp ex_ts 1 (Explicit ex_src)
    ex_client ex_src (ex_ts + 5) ex_accepted.1.2) as (v' & acc & Hv & _ & _ & _ & Hc & _).
  - exact ex_honest.
  - range_done.
  - range_done.
  - intros n. apply repeat_length.
  - range_done.
  - range_done.
  - range_done.
  - vm_done.
  - exists v', acc, ex_accepted.1.2. auto.
Defined.

(** * Replay, restarts and the counter file *)

Lemma ex_tmp : with_extension ex_path "tmp" <> ex_path.
Proof. vm_compute. discriminate. Qed.

Definition ex_counters : gmap bytes Z := {[ key_id_for_public_key (ed_verifying_key ex_sk) := 41 ]}.

Lemma ex_counters_keys : counter_keys ex_counters.
Proof. apply map_Forall_singleton. vm_done. Qed.

Definition ex_save : list fs_op * result PersistError unit := save_counter_state io_ok ex_path ex_counters.

Lemma ex_save_ok : save_counter_state io_ok ex_path ex_counters = (ex_save.1, Ok tt).
Proof. vm_done. Qed.

Lemma counter_state_roundtrip_witness :
  load_counter_state (read_file (fs_run ex_save.1 ∅) ex_path) false = Ok ex_counters.
Proof. exact (counter_state_roundtrip io_ok ex_path ex_counters ex_save.1 ∅ ex_tmp ex_counters_keys ex_save_ok). Defined.

(** The save of these counters over an older file: the power fails before the
    temporary file is synced, and its contents are torn; or at the end. *)
Definition ex_temp : string := with_extension ex_path "tmp".
Definition ex_saved : string := default ""%string (toml_counters_encode (kmap key_id_hex ex_counters)).
Definition ex_before : store := {[ ex_path := "old"%string ]}.
Definition ex_torn : store := <[ex_temp := "to"%string]> ex_before.
Definition ex_after : store := <[ex_path := ex_saved]> (delete ex_temp (<[ex_temp := ex_saved]> ex_before)).

Lemma ex_save_ops :
  ex_save.1 = [OpMkdirAll ex_path; OpCreate ex_temp; OpWrite ex_temp ex_saved; OpSync ex_temp; OpRename ex_temp ex_path].
Proof. vm_done. Qed.

Lemma ex_torn_image : crash_images (take 3 ex_save.1) ex_before (eq ex_before) ex_torn.
Proof. rewrite ex_save_ops. cbn [take crash_images crash_step]. right. exists ex_before, "to"%string. split; [by left|done]. Qed.

Lemma ex_after_image : crash_images ex_save.1 ex_before (eq ex_before) ex_after.
Proof.
  rewrite ex_save_ops. cbn [crash_images crash_step fs_apply]. right.
  exists (<[ex_temp := ex_saved]> ex_before), ex_saved. split; [|split; [apply lookup_insert_eq|done]].
  exists ex_before. split; [left; by left|]. right. exists ex_saved. split; [|done].
  rewrite !lookup_insert_eq. done.
Qed.

Lemma save_crash_atomic_witness :
  (ex_torn !! ex_temp = Some "to"%string /\ ex_torn !! ex_path = Some "old"%string) /\
  (exists contents, toml_counters_encode (kmap key_id_hex ex_counters) = Some contents /\ ex_after !! ex_path = Some contents /\
     contents <> "old"%string).
Proof.
  assert (Hp : take 3 ex_save.1 `prefix_of` ex_save.1) by (exists (drop 3 ex_save.1); symmetry; apply take_drop).
  split.
  - split; [apply lookup_insert_eq|].
    destruct (save_crash_atomic io_ok ex_path ex_counters ex_save.1 (Ok tt) (take 3 ex_save.1) ex_before ex_torn
      ex_tmp ex_save_ok Hp ex_torn_image) as [H|(_ & contents & Henc & H)]; [rewrite H; vm_done|].
    exfalso. assert (E : bool_decide (ex_torn !! ex_path = Some ex_saved) = false) by vm_done.
    apply bool_decide_eq_false_1 in E. apply E. unfold ex_saved. by rewrite Henc.
  - destruct (save_crash_atomic io_ok ex_path ex_counters ex_save.1 (Ok tt) ex_save.1 ex_before ex_after
      ex_tmp ex_save_ok (reflexivity _) ex_after_image) as [H|(_ & contents & Henc & H)].
    + exfalso. assert (E : ex_after !! ex_path = Some ex_saved) by vm_done. rewrite E in H.
      assert (E' : bool_decide (Some ex_saved = ex_before !! ex_path) = false) by vm_done.
      apply bool_decide_eq_false_1 in E'. by apply E'.
    + exists contents. split; [exact Henc|]. split; [exact H|]. intros ->.
      assert (E' : bool_decide (ex_after !! ex_path = Some "old"%string) = false) by vm_done.
      apply bool_decide_eq_false_1 in E'. by apply E'.
Defined.

Lemma save_may_lose_rename_witness :
  exists i, crash_images ex_save.1 ∅ (eq ∅) i /\ i !! ex_path = None.
Proof. exact (save_may_lose_rename io_ok ex_path ex_counters ex_save.1 ∅ ex_tmp ex_save_ok). Defined.

(** The server accepts counter 1, restarts, and accepts counter 2. *)
Definition ex_wire2 : bytes :=
  build 9 ex_fill (repeat x04 32) ex_sk Udp (ex_ts + 9) 2 (Explicit ex_src) (server_static_pubkey ex_verifier).
Definition ex_files1 : store := fs_run ex_accepted.1.2 ∅.
Definition ex_restarted : SpaVerifier :=
  unwrap_or ex_verifier (load [ex_client] 300 ex_path (read_file ex_files1 ex_path) ex_private false).
Definition ex_accepted2 : SpaVerifier * list fs_op * result SpaVerifyError SpaAccept :=
  verify ex_restarted io_ok ex_wire2 ex_src (ex_ts + 12).
Definition ex_accept2 : SpaAccept :=
  accept_of (built_packet ex_sk Udp (ex_ts + 9) 2 (Explicit ex_src) (server_static_pubkey ex_verifier) (repeat x04 32))
    ex_client.

Lemma ex_knock v s io payload src now v' ops a :
  verify v io payload src now = (v', ops, Ok a) -> life ex_path (v, s) (Some a) (v', fs_run ops s).
Proof. apply (life_knock ex_path v s io payload src now v' ops (Ok a)). Qed.

Lemma ex_life1 : life ex_path (ex_verifier, ∅) (Some ex_accept) (ex_accepted.1.1, ex_files1).
Proof. refine (ex_knock ex_verifier ∅ io_ok ex_wire ex_src (ex_ts + 5) _ _ ex_accept _). vm_done. Qed.

Lemma ex_life2 : life ex_path (ex_accepted.1.1, ex_files1) None (ex_restarted, ex_files1).
Proof. refine (life_restart ex_path _ _ [ex_client] 300 ex_private false _ _). vm_done. Qed.

Definition ex_files2 : store := fs_run ex_accepted2.1.2 ex_files1.

Lemma ex_life3 : life ex_path (ex_restarted, ex_files1) (Some ex_accept2) (ex_accepted2.1.1, ex_files2).
Proof. refine (ex_knock ex_restarted ex_files1 io_ok ex_wire2 ex_src (ex_ts + 12) _ _ ex_accept2 _). vm_done. Qed.

Lemma ex_lives : lives ex_path (ex_verifier, ∅) [ex_accept; ex_accept2] (ex_accepted2.1.1, ex_files2).
Proof.
  pose proof (lives_snoc _ _ _ _ _ _ (lives_nil ex_path (ex_verifier, ∅)) ex_life1) as H1.
  pose proof (lives_snoc _ _ _ _ _ _ H1 ex_life2) as H2.
  exact (lives_snoc _ _ _ _ _ _ H2 ex_life3).
Qed.

Lemma no_replay_witness : acc_counter ex_accept < acc_counter ex_accept2.
Proof.
  apply (no_replay ex_path (ex_verifier, ∅) [ex_accept; ex_accept2]
    (ex_accepted2.1.1, ex_files2) 0 1 ex_accept ex_accept2 ex_tmp).
  - reflexivity.
  - apply map_Forall_empty.
  - exact ex_lives.
  - lia.
  - reflexivity.
  - reflexivity.
  - vm_done.
Defined.

Lemma reload_revokes_witness :
  verify (reload_clients ex_verifier []).1 io_ok ex_wire ex_src (ex_ts + 5)
  = ((reload_clients ex_verifier []).1, [],
     Err (UnknownKey (key_id_hex (key_id_for_public_key (ed_verifying_key ex_sk))))).
Proof.
  destruct (reload_revokes ex_verifier [] (reload_clients ex_verifier []).1 (reload_clients ex_verifier []).2
    (key_id_for_public_key (ed_verifying_key ex_sk)) eq_refl) as (_ & _ & H).
  apply (H ltac:(by intros (c & Hin & _); apply not_elem_of_nil in Hin) io_ok ex_wire ex_src (ex_ts + 5) ex_packet).
  - vm_done.
  - vm_done.
Defined.

Definition ex_poisoned : SpaVerifier :=
  from_counters [ex_client] 300 {[ repeat x77 8 := 2 ^ 63 ]} (Some ex_path) ex_private.

Lemma oversized_counter_blocks_all_witness :
  forall a, (verify ex_poisoned io_ok ex_wire ex_src (ex_ts + 5)).2 <> Ok a.
Proof.
  destruct (oversized_counter_blocks_all ex_poisoned io_ok ex_wire ex_src (ex_ts + 5) ex_path (repeat x77 8) (2 ^ 63))
    as [H _].
  - reflexivity.
  - vm_done.
  - range_done.
  - exact H.
Defined.

(** * The filter *)

Definition ex_env1 : xdp_env := ex_env ex_udp 99000000000.

Lemma xdp_refines_spec_witness :
  ghostbro_xdp LittleEndian ex_env1 ex_maps 4096 ex_udp = Some (xdp_spec LittleEndian ex_env1 ex_maps ex_udp).
Proof.
  destruct ex_frames_ok as (H1 & H2 & _).
  exact (xdp_refines_spec LittleEndian ex_env1 ex_maps 4096 ex_udp ltac:(lia) H1 (ex_env_wf _ _) H2).
Defined.

Lemma xdp_gate_witness :
  exists s' act, ghostbro_xdp LittleEndian (ex_env ex_tcp 5) ex_maps 4096 ex_tcp = Some (s', act).
Proof.
  destruct ex_frames_ok as (_ & _ & H1 & H2).
  destruct (xdp_gate LittleEndian (ex_env ex_tcp 5) ex_maps 4096 ex_tcp ltac:(lia) H1 (ex_env_wf _ _) H2)
    as (s' & act & H & _). eauto.
Defined.

Lemma ex_maps_boot : maps_at_boot ex_maps.
Proof. split_and!; [range_done|reflexivity|reflexivity]. Qed.

Definition ex_window : list kstep := [KFrame ex_env1 4096 ex_udp; KUser ∅ []; KFrame ex_env1 4096 ex_udp].

Lemma ex_window_all (P : kstep -> Prop) :
  P (KFrame ex_env1 4096 ex_udp) -> P (KUser ∅ []) -> Forall P ex_window.
Proof. intros. by repeat apply Forall_cons_2; [..|apply Forall_nil_2]. Qed.

Lemma ex_window_ok : Forall kstep_ok ex_window.
Proof.
  destruct ex_frames_ok as (H1 & H2 & _). apply ex_window_all; [|exact I].
  split_and!; [lia|exact H1|apply ex_env_wf|exact H2].
Qed.

Lemma ex_window_time : Forall (kstep_window 99000000000 99000000000) ex_window.
Proof. apply ex_window_all; [|exact I]. range_done. Qed.

Lemma global_flood_bound_witness :
  exists s1 log1 s2 log2, krun LittleEndian [] ex_maps = Some (s1, log1) /\
    krun LittleEndian ex_window s1 = Some (s2, log2) /\
    blen log2 <= 2 * global_limit (load_config ex_maps) <= 2000000.
Proof.
  exact (global_flood_bound LittleEndian ex_maps [] ex_window 99000000000 ex_maps_boot ltac:(lia)
           ex_window_ok (Forall_nil_2 _) ex_window_time).
Defined.

Lemma ex_window_keeps : Forall (kstep_keeps ex_src) ex_window.
Proof. apply ex_window_all; [|exact I]. split; [reflexivity|apply not_elem_of_nil]. Qed.

Lemma source_rate_bound_witness :
  exists s1 log1 s2 log2, krun LittleEndian [] ex_maps = Some (s1, log1) /\
    krun LittleEndian ex_window s1 = Some (s2, log2) /\ events_from ex_src log2 <= 10.
Proof.
  destruct (source_rate_bound LittleEndian ex_maps [] ex_window 99000000000 ex_src ex_maps_boot ltac:(lia)
           ex_window_ok (Forall_nil_2 _) ex_window_time ex_window_keeps)
    as (s1 & log1 & s2 & log2 & E1 & E2 & H & _).
  exists s1, log1, s2, log2. split_and!; [exact E1|exact E2|exact H].
Defined.

(** The filter really lets both knocks through, and the bounds are not vacuous. *)
Example ex_two_knocks : option_map snd (krun LittleEndian ex_window ex_maps) = Some [ex_src; ex_src].
Proof. vm_done. Qed.

(** * The runtime *)

Definition ex_entry : AllowEntry := entry_for ex_ttl ex_accept 100000000000.
Definition ex_source : AllowedSource :=
  {| as_entry := ex_entry; as_noise_public_key := derive_noise_static_public_key ex_sk;
     as_max_concurrent_sessions := Some 2 |}.
Definition ex_runtime : EbpfRuntime :=
  {| allow_map := {[ ex_src := ex_entry ]}; allowed_sources := {[ ex_src := ex_source ]} |}.

(** It is the runtime the knock produced. *)
Example ex_loop1_runtime : sl_runtime ex_loop1 = ex_runtime.
Proof. vm_done. Qed.

Lemma ex_mirrors t : mirrors t ex_runtime.
Proof.
  intros ip e. cbn [ex_runtime allow_map allowed_sources]. intros [<- <-]%lookup_singleton_Some _.
  exists ex_source. by rewrite lookup_singleton_eq.
Qed.

(** The enrolment file is emptied: the key's entries are gone after the reload. *)
Definition ex_reloaded : spa_loop * result RunError unit := handle_reload (fun _ => Some []) ex_loop1 (Some ""%string).

Lemma revocation_takes_effect_witness :
  allowed_sources (sl_runtime ex_reloaded.1) !! ex_src <> Some ex_source.
Proof.
  destruct (revocation_takes_effect LittleEndian (fun _ => Some []) (EventKind := unit) (NotifyError := unit) "/etc/ghostbro/keys.toml" tt
    0 ex_loop1 ""%string [] [] ex_reloaded.1 (acc_key_id ex_accept)) as (_ & _ & H & _).
  - rewrite ex_loop1_runtime. apply ex_mirrors.
  - reflexivity.
  - reflexivity.
  - vm_compute. eauto.
  - intros (c & Hc & _). by apply elem_of_nil in Hc.
  - vm_done.
  - intros Ha. exact (H ex_src ex_source Ha eq_refl).
Defined.

Lemma purge_closes_key_witness :
  mirrors 0 (purge_key_id ex_runtime (acc_key_id ex_accept)).1 /\
  (allow_map (purge_key_id ex_runtime (acc_key_id ex_accept)).1 !! ex_src = Some ex_entry <->
   allow_map ex_runtime !! ex_src = Some ex_entry /\ ae_key_id ex_entry <> acc_key_id ex_accept).
Proof.
  destruct (purge_closes_key 0 ex_runtime (acc_key_id ex_accept) (purge_key_id ex_runtime (acc_key_id ex_accept)).1
    (ex_mirrors 0)) as (Hm & Hk & _).
  - vm_done.
  - split; [exact Hm|]. apply (Hk ex_src ex_entry). vm_compute; reflexivity.
Defined.

Lemma reap_exact_witness :
  exists rt', reap_expired_sources (Some (20000, 0)) ex_runtime = (rt', Ok tt).
Proof.
  destruct (reap_exact (Some (20000, 0)) ex_runtime 20000000000000 eq_refl) as [[_ H] _].
  apply H. intros ip a. cbn [ex_runtime allow_map allowed_sources]. intros [<- <-]%lookup_singleton_Some _.
  rewrite lookup_singleton_eq. by eexists.
Defined.

Definition ex_maps_open : xdp_maps := set_allow (fun _ => allow_map ex_runtime) ex_maps.

Lemma expired_probe_stops_server_witness :
  exists s', ghostbro_xdp LittleEndian (ex_env ex_tcp 15000000000000) ex_maps_open 4096 ex_tcp = Some (s', XDP_DROP).
Proof.
  destruct ex_frames_ok as (_ & _ & H1 & H2).
  destruct (expired_probe_stops_server LittleEndian (ex_env ex_tcp 15000000000000) ex_maps_open 4096 ex_tcp ex_src
    ex_entry ex_runtime ex_source (Some (15001, 0)) 15001000000000) as (s' & H & _).
  - lia.
  - exact H1.
  - apply ex_env_wf.
  - exact H2.
  - vm_done.
  - vm_done.
  - range_done.
  - vm_done.
  - reflexivity.
  - vm_done.
  - range_done.
  - eauto.
Defined.

Lemma ring_event_roundtrip_witness :
  exists ev, parse_spa_event LittleEndian (event_bytes LittleEndian ex_src 40000 ex_wire (repeat xff 184)) = Some ev /\
    ev_src_ip ev = ex_src.
Proof.
  destruct (ring_event_roundtrip LittleEndian ex_src 40000 ex_wire (repeat xff 184)) as (ev & H & Hs & _).
  - range_done.
  - range_done.
  - apply Nat.leb_le. vm_done.
  - reflexivity.
  - eauto.
Defined.

(** * The system *)

Lemma ex_admitted : admitted_knock ex_env1 ex_maps ex_udp ex_wire ex_src 40000 (repeat xff 184).
Proof.
  split.
  - exists 42. split_and!; [vm_done|range_done|vm_done].
  - range_done.
  - exists (rate_limit_allows ex_env1 ex_maps ex_src 5).1,
      (global_rate_limit_allows ex_env1 (rate_limit_allows ex_env1 ex_maps ex_src 5).1 5).1.
    split; vm_done.
  - reflexivity.
Qed.

Lemma knock_opens_gate_witness :
  exists s' item sl', ghostbro_xdp LittleEndian ex_env1 ex_maps 4096 ex_udp = Some (s', XDP_DROP) /\
    handle_ring_item LittleEndian ex_ttl ex_loop (ex_io, item) = (sl', Ok tt).
Proof.
  destruct ex_frames_ok as (H1 & H2 & _).
  destruct (knock_opens_gate LittleEndian ex_ttl ex_env1 ex_maps 4096 ex_udp ex_src 40000 (repeat xff 184) ex_loop ex_io
    ex_sk ex_client 7 ex_fill ex_eph ex_ts 1 (Explicit ex_src) ex_accepted.1.2 (ex_ts + 5) 100000000000)
    as (s' & item & sl' & E1 & _ & E2 & _).
  - lia.
  - exact H1.
  - apply ex_env_wf.
  - exact H2.
  - exact ex_admitted.
  - reflexivity.
  - exact ex_honest.
  - range_done.
  - range_done.
  - intros n. apply repeat_length.
  - range_done.
  - vm_done.
  - range_done.
  - range_done.
  - vm_done.
  - vm_done.
  - reflexivity.
  - eauto.
Defined.

(** The run of [ex_end_to_end] as steps of the system. *)
Definition ex_sys0 : system :=
  {| sy_maps := ex_maps; sy_mirror := ∅; sy_verifier := ex_verifier; sy_files := ∅ |}.
Definition ex_sys1 : system :=
  {| sy_maps := ex_maps1; sy_mirror := ∅; sy_verifier := ex_verifier; sy_files := ∅ |}.
Definition ex_sys2 : system := loop_put [] ex_loop1 ex_sys1.
Definition ex_env2 : xdp_env := ex_env ex_tcp 101000000000.

Lemma ex_step1 : sys_step LittleEndian ex_ttl ex_keys ex_sys0 (frame_event ex_env1 ex_maps ex_udp XDP_DROP) ex_sys1.
Proof.
  destruct ex_frames_ok as (H1 & H2 & _).
  refine (step_frame LittleEndian ex_ttl ex_keys ex_sys0 ex_env1 4096 ex_udp ex_maps1 XDP_DROP
    ltac:(lia) H1 (ex_env_wf _ _) H2 _). vm_done.
Qed.

Lemma ex_step2 :
  sys_step LittleEndian ex_ttl ex_keys ex_sys1 (EvKnock ex_src ex_wire ex_accept 100000000000) ex_sys2.
Proof. refine (step_ring LittleEndian ex_ttl ex_keys ex_sys1 ex_io ex_item [] ex_loop1 _ _ _ _); vm_done. Qed.

Lemma ex_event3 : frame_event ex_env2 (sy_maps ex_sys2) ex_tcp XDP_PASS = EvPass ex_src 101000000000.
Proof. vm_done. Qed.

Lemma ex_step3 :
  sys_step LittleEndian ex_ttl ex_keys ex_sys2 (EvPass ex_src 101000000000) ex_sys2.
Proof.
  destruct ex_frames_ok as (_ & _ & H1 & H2). rewrite <- ex_event3.
  refine (step_frame LittleEndian ex_ttl ex_keys ex_sys2 ex_env2 4096 ex_tcp (sy_maps ex_sys2) XDP_PASS
    ltac:(lia) H1 (ex_env_wf _ _) H2 _). vm_done.
Qed.

Lemma ex_run :
  sys_run LittleEndian ex_ttl ex_keys ex_sys0
    [frame_event ex_env1 ex_maps ex_udp XDP_DROP; EvKnock ex_src ex_wire ex_accept 100000000000;
     EvPass ex_src 101000000000] ex_sys2.
Proof.
  pose proof (run_snoc _ _ _ _ _ _ _ _ (run_nil _ _ _ ex_sys0) ex_step1) as R1.
  pose proof (run_snoc _ _ _ _ _ _ _ _ R1 ex_step2) as R2.
  exact (run_snoc _ _ _ _ _ _ _ _ R2 ex_step3).
Qed.

Lemma gate_requires_recent_knock_witness :
  exists j payload accept opened_at, (j < 2)%nat /\ 101000000000 < opened_at + ex_ttl * 1000000000 /\
    [frame_event ex_env1 ex_maps ex_udp XDP_DROP; EvKnock ex_src ex_wire ex_accept 100000000000;
     EvPass ex_src 101000000000] !! j = Some (EvKnock ex_src payload accept opened_at).
Proof.
  destruct (gate_requires_recent_knock LittleEndian ex_ttl ex_keys ex_sys0 _ ex_sys2 2 ex_src 101000000000 ex_run
    eq_refl eq_refl) as (j & payload & accept & opened_at & H1 & H2 & H3 & _).
  exists j, payload, accept, opened_at. auto.
Defined.

(** The same run as a schedule. *)
Definition ex_acts : list sys_act :=
  [ActFrame ex_env1 4096 ex_udp; ActRing ex_io; ActFrame ex_env2 4096 ex_tcp].
Definition ex_history : list sys_event :=
  [EvQuiet; EvKnock ex_src ex_wire ex_accept 100000000000; EvPass ex_src 101000000000].

Lemma ex_exec : sys_exec LittleEndian ex_ttl ex_keys ex_sys0 ex_acts = Some (ex_history, ex_sys2).
Proof. vm_done. Qed.

Lemma ex_acts_ok : Forall act_ok ex_acts.
Proof.
  destruct ex_frames_ok as (H1 & H2 & H3 & H4). repeat apply Forall_cons_2; [| | |apply Forall_nil_2].
  - split_and!; [lia|exact H1|apply ex_env_wf|exact H2].
  - exact I.
  - split_and!; [lia|exact H3|apply ex_env_wf|exact H4].
Qed.

Lemma ex_spared : spared LittleEndian ex_ttl ex_keys ex_src ex_sys0 ex_acts.
Proof.
  assert (H : forall sy, spares ex_keys ex_src sy (ActRing ex_io)) by (intros sy; apply not_elem_of_nil).
  cbn [spared ex_acts]. split; [exact I|]. destruct (sys_do _ _ _ _ _) as [[? ?]|]; [|exact I].
  split; [apply H|]. destruct (sys_do _ _ _ _ _) as [[? ?]|]; [|exact I].
  split; [exact I|]. destruct (sys_do _ _ _ _ _) as [[? ?]|]; exact I.
Qed.

Lemma gate_open_exactly_witness :
  EvPass ex_src 101000000000 ∈ ex_history /\ recently ex_ttl ex_src (take 2 ex_history) 101000000000.
Proof.
  split; [apply list_elem_of_lookup; exists 2%nat; reflexivity|].
  refine (proj1 (gate_open_exactly LittleEndian ex_ttl ex_keys ex_src ex_sys0 ex_acts ex_history ex_sys2 0 2
    ex_env2 4096 ex_tcp eq_refl eq_refl ex_acts_ok _ ex_spared ex_exec eq_refl _) eq_refl).
  - range_done.
  - vm_done.
Defined.
