(* ===== verification/TunnelExamples.v ===== *)
(** Worked instances for the tunnel: a concrete transport and a session. *)

From S2P Require Import Prelude Protocol Crypto Keys Fs AuthKeys Verifier Xdp Runtime RuntimeFacts Tunnel TunnelFacts System Examples.

#[local] Existing Instance toy_crypto.
#[local] Existing Instance toy_crypto_laws.
#[local] Existing Instance toy_toml.

(** A transport that appends its message number as a tag. *)
Definition toy_tag (n : Z) : bytes := be_bytes 16 n.

Definition toy_noise : Noise := {|
  TransportState := Z;
  write_message := fun t m n => if (n <? length m + 16)%nat then None else Some (t + 1, m ++ toy_tag t);
  read_message := fun t c k =>
    let m := take (length c - 16) c in
    if bool_decide (c = m ++ toy_tag t) && (length m <=? k)%nat then Some (t + 1, m) else None |}.

Lemma toy_tag_length n : length (toy_tag n) = 16%nat.
Proof. apply length_be_bytes. Qed.

Definition toy_noise_laws : NoiseLaws toy_noise.
Proof.
  refine {| paired := fun a b : TransportState (Noise := toy_noise) => a = b |};
    cbn [TransportState write_message read_message toy_noise].
  - intros t m n t' c. case_test; [done|]. intros [= _ <-]. by rewrite length_app, toy_tag_length.
  - intros t m n H. by rewrite (proj2 (Nat.ltb_lt _ _) H).
  - intros a b m n a' c k ->. case_test; [done|]. intros [= <- <-] Hk. exists (b + 1). split; [|done].
    rewrite length_app, toy_tag_length, Nat.add_sub, take_app_length. rewrite bool_decide_eq_true_2 by done.
    by rewrite (proj2 (Nat.leb_le _ _) Hk).
Defined.

#[local] Existing Instance toy_noise.
#[local] Existing Instance toy_noise_laws.

(** * Sessions *)

Definition ex_kid : bytes := key_id_for_public_key (ed_verifying_key ex_sk).

Lemma ex_sessions : sess_run 1 (∅, []) ({[ ex_kid := 1 ]}, [ex_kid]).
Proof.
  refine (sess_snoc 0 _ (∅, []) _ (sess_nil _) (sess_granted ∅ [] ex_kid (Some 2) _ _)).
  vm_done.
Qed.

Lemma session_cap_exact_witness :
  let '(counts', granted) := acquire_session {[ ex_kid := 1 ]} ex_kid (Some 1) in
  granted = false /\ default 0 (counts' !! ex_kid) = 1.
Proof.
  pose proof (session_cap_exact 1 {[ ex_kid := 1 ]} [ex_kid] ex_kid (Some 1) ex_sessions ltac:(lia)
    ltac:(intros m [= <-]; lia)) as H.
  destruct (acquire_session _ ex_kid (Some 1)) as [counts' granted] eqn:E.
  destruct H as ((H1 & _) & _ & H3). destruct granted.
  - exfalso. destruct (H1 eq_refl) as [H|H]; [done|]. revert H. vm_compute. done.
  - split; [done|]. apply H3. done.
Defined.

(** * The framed stream *)

Definition ex_message : bytes := str_bytes "hello".

(** A frame with one message, cut after three bytes. *)
Definition ex_frame_bytes : bytes := be_bytes 2 21 ++ ex_message ++ toy_tag 0.
Definition ex_socket : TcpStream := {|
  rd_script := [RdPending; RdData (take 3 ex_frame_bytes); RdPending; RdData (drop 3 ex_frame_bytes)];
  wr_script := [WrPending; WrAccept 4; WrPending; WrAccept 30]; sent := [] |}.
Definition ex_framed : NoiseFramedStream := framed_new ex_socket 0 [].

Lemma ex_framed_wf : framed_wf ex_framed.
Proof. split; [vm_compute; repeat constructor; done|done|cbn; lia|by left|by right]. Qed.

Lemma ex_pending_wf : pending_wf ex_framed.
Proof. unfold pending_wf. cbn. lia. Qed.

Lemma poll_read_delivers_witness :
  exists this' r, poll_read ex_framed 3 = Some (this', r) /\ framed_wf this' /\
    (r = Pending -> undelivered this' = undelivered ex_framed).
Proof.
  destruct (poll_read_delivers ex_framed 3 ex_framed_wf ex_pending_wf) as (this' & r & H & Hw & Hr).
  exists this', r. split; [exact H|]. split; [exact Hw|]. intros ->. exact Hr.
Defined.

(** The third poll delivers the first three bytes of the message. *)
Definition ex_next (s : option (NoiseFramedStream * poll bytes)) : option (NoiseFramedStream * poll bytes) :=
  match s with Some (t, Pending) => poll_read t 3 | _ => None end.

Example ex_reads : option_map snd (ex_next (ex_next (poll_read ex_framed 3))) = Some (Ready (Ok (str_bytes "hel"))).
Proof. vm_done. Qed.

Definition ex_written : NoiseFramedStream := (poll_write ex_framed ex_message).1.

(** The socket takes the frame in two pieces; the second poll is still pending. *)
Definition ex_retried : NoiseFramedStream := (poll_shutdown (Ready (Ok tt)) ex_written).1.

Lemma ex_write_run : write_run ex_framed [ex_message] ex_retried.
Proof.
  refine (write_flushed ex_framed [ex_message] ex_written ex_retried Pending
    (write_accepted ex_framed [] ex_framed ex_message ex_written 4 (write_nil _) _) _); vm_done.
Qed.

Lemma writes_arrive_witness :
  exists w, outgoing ex_retried = outgoing ex_framed ++ w /\
    (exists b', receive_n 1 (0 : TransportState) (w ++ []) = Ok (b', [ex_message], [])) /\
    sent (stream (poll_shutdown (Ready (Ok tt)) ex_retried).1) = outgoing ex_framed ++ w.
Proof.
  destruct (writes_arrive (N := toy_noise) (L := toy_noise_laws) ex_framed [ex_message] ex_retried (0 : TransportState (Noise := toy_noise))
    [] ex_pending_wf eq_refl ex_write_run) as (w & Ho & Hr & Hs).
  exists w. split; [exact Ho|]. split; [exact Hr|]. apply (Hs (Ready (Ok tt))). vm_done.
Defined.

(** * Connections *)

Definition ex_hello : bytes := [x05; x01; x00].
Definition ex_handshake (kid : KeyId) : option (option bytes * result FrameError bytes) :=
  if bool_decide (kid = ex_kid) then Some (Some (derive_noise_static_public_key ex_sk), Ok ex_hello) else None.

Definition ex_conn := handle_connection (Some ex_src) (Some (101, 0)) ex_handshake (allowed_sources ex_runtime) ∅.

Lemma handle_connection_gate_witness :
  ex_conn.2 = Ok (select_service ex_kid ex_hello) /\
  exists source, allowed_sources ex_runtime !! ex_src = Some source /\
    101 * 1000000000 < expiry_ns (as_entry source).
Proof.
  assert (Hc : ex_conn = (ex_conn.1.1, ex_conn.1.2, Ok (select_service ex_kid ex_hello))) by vm_done.
  split; [by rewrite Hc|].
  destruct (handle_connection_gate (Some ex_src) (Some (101, 0)) ex_handshake (allowed_sources ex_runtime) ∅ _ _ _
    ltac:(intros k; rewrite lookup_empty; cbn; lia) Hc) as (ip & source & now & message & Hip & Hs & _ & Hn & He & _).
  injection Hip as <-. exists source. split; [exact Hs|].
  assert (Hnow : now = 101 * 1000000000) by (vm_compute in Hn; injection Hn as <-; reflexivity). rewrite <- Hnow. exact He.
Defined.

Lemma identity_stable_witness :
  let '(ops, r) := load_or_generate_static_key "server.key" (Some None) true (ex_private, ex_private) (true, true) in
  r = Ok ex_private /\
  load_or_generate_static_key "server.key" (Some (fs_run ops ∅ !! "server.key"%string)) false (ex_sk, ex_sk) (true, true)
    = ([], Ok ex_private).
Proof.
  pose proof (identity_stable "server.key" ex_private ex_private ∅ false (ex_sk, ex_sk) (true, true)
    eq_refl ltac:(intros H; vm_compute in H; discriminate H)) as H.
  destruct (load_or_generate_static_key _ _ true _ _) as [ops r]. destruct H as (H1 & H2 & _). split; [exact H1|exact H2].
Defined.

(** * The mirror *)

Lemma live_sources_mirrored_witness :
  exists a, sy_mirror ex_sys2 !! ex_src = Some a /\ as_entry a = ex_entry.
Proof.
  apply (live_sources_mirrored LittleEndian ex_ttl ex_keys ex_sys0 _ ex_sys2 101000000000 ex_run).
  - vm_done.
  - repeat constructor.
  - vm_done.
  - vm_compute. done.
Defined.
