(* ===== verification/RelayExamples.v ===== *)
(** Worked instances for the relay and the client: concrete file formats, a
    small web, and a job from its submission to its download. *)

From stdpp Require Import relations.
From S2P Require Import Prelude Text NetAddr Normalize Protocol Crypto Keys SpaPacket Fs AuthKeys Verifier Replay.
From S2P Require Import RelayWire RelayEngine RelayJobs RelayWireFacts RelayFacts RelayJobFacts RelayPool RelayPoolFacts Client ClientFacts ClientRelay Examples.
Import ToyToml.

#[local] Existing Instance toy_crypto.
#[local] Existing Instance toy_crypto_laws.
#[local] Existing Instance toy_toml.
#[local] Existing Instance toy_toml_laws.

(** * Concrete file formats *)

Definition meta_put (m : RelayJobMetadata) : string :=
  put_key (job_id m) (put_key (kind m) (put_key (status m) (put_key (source m)
  (put_pos (encode (normalize m)) (put_pos (encode (http_status m)) (put_pos (encode (content_type m))
  (put_pos (encode (body_len m)) (put_pos (encode (normalized_len m)) (put_pos (encode (sha256_hex m))
  (put_pos (encode (error m)) (put_pos (encode (created_at_ms m)) (put_pos (encode (updated_at_ms m))
  (put_pos (encode (expires_at_ms m)) ""))))))))))))).

Definition get_val {A} `{Countable A} (s : string) : option (A * string) :=
  '(p, s) ← get_pos s; a ← decode p; Some (a, s).

Lemma get_put_val {A} `{Countable A} (a : A) s : get_val (put_pos (encode a) s) = Some (a, s).
Proof. unfold get_val. rewrite get_put_pos. cbn. by rewrite decode_encode. Qed.

Definition meta_get (s : string) : option RelayJobMetadata :=
  '(id, s) ← get_key s; '(k, s) ← get_key s; '(st, s) ← get_key s; '(src, s) ← get_key s;
  '(norm, s) ← get_val (A := bool) s; '(http, s) ← get_val (A := option Z) s;
  '(ctype, s) ← get_val (A := option string) s; '(len, s) ← get_val (A := Z) s;
  '(nlen, s) ← get_val (A := option Z) s; '(sha, s) ← get_val (A := option string) s;
  '(err, s) ← get_val (A := option string) s; '(created, s) ← get_val (A := Z) s;
  '(updated, s) ← get_val (A := Z) s; '(expires, _) ← get_val (A := Z) s;
  Some {| job_id := id; kind := k; status := st; source := src; normalize := norm; http_status := http;
          content_type := ctype; body_len := len; normalized_len := nlen; sha256_hex := sha; error := err;
          created_at_ms := created; updated_at_ms := updated; expires_at_ms := expires |}.

Definition toy_relay_toml : RelayToml := {|
  toml_meta_encode := fun m => if bool_decide (meta_fits m) then Some (meta_put m) else None;
  toml_meta_decode := fun s => m ← meta_get s; if bool_decide (meta_fits m) then Some m else None |}.

Lemma toy_relay_toml_laws : RelayTomlLaws toy_relay_toml.
Proof.
  split.
  - intros m s. cbn [toml_meta_encode toml_meta_decode toy_relay_toml]. case_bool_decide as Hf; [|done]. intros [= <-].
    assert (meta_get (meta_put m) = Some m) as ->; [|cbn; by rewrite bool_decide_eq_true_2].
    unfold meta_get, meta_put.
    rewrite !get_put_key; cbn [mbind option_bind]. do 3 (rewrite get_put_key; cbn [mbind option_bind]).
    do 10 (rewrite get_put_val; cbn [mbind option_bind]). by destruct m.
  - intros m Hf. cbn [toml_meta_encode toy_relay_toml]. rewrite bool_decide_eq_true_2 by done. by eexists.
  - intros m s. cbn [toml_meta_decode toy_relay_toml]. destruct (meta_get s) as [m'|]; [|done]. cbn.
    case_bool_decide; [|done]. by intros [= <-].
Qed.

Definition identity_put (k : EncryptedIdentityKey) : string :=
  String (Ascii.ascii_of_byte x23) (put_pos (encode (ei_version k)) (put_key (ei_kdf k) (put_key (ei_aead k)
  (put_pos (encode (memory_kib (ei_params k))) (put_pos (encode (iterations (ei_params k)))
  (put_pos (encode (parallelism (ei_params k))) (put_key (ei_salt k) (put_key (ei_nonce k)
  (put_key (ei_ciphertext k) ""))))))))).

Definition identity_get (s : string) : option EncryptedIdentityKey :=
  match s with
  | String c s =>
      if negb (bool_decide (c = Ascii.ascii_of_byte x23)) then None
      else
        '(v, s) ← get_val (A := Z) s; '(kdf, s) ← get_key s; '(aead, s) ← get_key s;
        '(mem, s) ← get_val (A := Z) s; '(it, s) ← get_val (A := Z) s; '(par, s) ← get_val (A := Z) s;
        '(salt, s) ← get_key s; '(nonce, s) ← get_key s; '(ct, _) ← get_key s;
        Some {| ei_version := v; ei_kdf := kdf; ei_aead := aead;
                ei_params := {| memory_kib := mem; iterations := it; parallelism := par |};
                ei_salt := salt; ei_nonce := nonce; ei_ciphertext := ct |}
  | EmptyString => None
  end.

Definition toy_identity : IdentityLib := {|
  argon2id := fun p s => Some (sha256 (p ++ s));
  toml_identity_encode := fun k => Some (identity_put k);
  toml_identity_decode := identity_get |}.

Lemma letters_head k : match Toy.letters k with b :: _ => b <> x23 | [] => True end.
Proof.
  destruct k as [|b k]; [done|]. cbn. intros H. apply (f_equal b2z) in H.
  destruct (nibbles b) as [Hn _]. rewrite b2z_z2b in H by lia. change (b2z x23) with 35 in H. lia.
Qed.

Lemma toy_identity_laws : IdentityLaws toy_crypto toy_identity.
Proof.
  split.
  - intros k s [= <-]. unfold toml_identity_decode, toy_identity, identity_get, identity_put.
    rewrite bool_decide_eq_true_2 by done. cbn [negb]. rewrite get_put_val; cbn [mbind option_bind].
    do 2 (rewrite get_put_key; cbn [mbind option_bind]). do 3 (rewrite get_put_val; cbn [mbind option_bind]).
    do 3 (rewrite get_put_key; cbn [mbind option_bind]). destruct k as [? ? ? [] ? ? ?]. done.
  - intros key. cbn -[Toy.b64_enc]. pose proof (letters_head key) as Hl. unfold Toy.b64_enc.
    destruct (Toy.letters key) as [|b l]; [done|].
    change (identity_get (String (Ascii.ascii_of_byte b) (bytes_str l +:+ bytes_str [x0a])) = None).
    cbn [identity_get]. rewrite bool_decide_eq_false_2; [done|]. intros H. apply Hl.
    apply (f_equal Ascii.byte_of_ascii) in H. by rewrite !Ascii.byte_of_ascii_of_byte in H.
Qed.

#[local] Existing Instance toy_relay_toml.
#[local] Existing Instance toy_relay_toml_laws.
#[local] Existing Instance toy_identity.
#[local] Existing Instance toy_identity_laws.

(** * A small web *)

(** URLs as scheme and host; only [localhost] resolves to a loopback address. *)
Definition toy_host (rest : bytes) : string := bytes_str (take_until slash (drop 2 rest)).
Definition toy_parse (s : string) : option (string * string * string) :=
  '(scheme, rest) ← split_once x3a (str_bytes s); Some (bytes_str scheme, toy_host rest, s).

Definition toy_url : UrlLib := {|
  Url := string * string * string;
  url_parse := toy_parse;
  url_join := fun base path => Some (base.1.1, base.1.2, "https://" +:+ base.1.2 +:+ path);
  url_scheme := fun u => u.1.1;
  url_host_str := fun u => Some u.1.2;
  url_port_or_known_default := fun _ => Some 443;
  url_string := fun u => u.2;
  to_socket_addrs := fun host _ =>
    if bool_decide (host = "localhost"%string) then Some [V4 0x7f000001] else Some [V4 0x5db8d822; V6 (0x2606 * 2 ^ 112)] |}.

#[local] Existing Instance toy_url.

Definition ex_page : bytes := str_bytes "<html>hi</html>".
Definition ex_registry : json :=
  JObject [("urls"%string, JArray [JObject [
    ("packagetype"%string, JString "bdist_wheel"); ("url"%string, JString "https://files.example/p.whl");
    ("digests"%string, JObject [("sha256"%string, JString (hex_string (sha256 ex_page)))])]])].

(** The files of the package index are on a mirror. *)
Definition toy_world : RelayWorld := {|
  http_hop := fun url _ =>
    if bool_decide (url = "https://files.example/p.whl"%string) then Some (HttpRedirect "https://mirror.example/p.whl")
    else Some (HttpResponse {| hr_status := 200; hr_content_type := Some "text/html"%string;
                               hr_content_length := None; hr_body := Some ex_page |});
  http_hop_json := fun _ _ => Some (HttpResponse {| hr_status := 200; hr_content_type := None; hr_content_length := None;
                                                    hr_body := Some [] |});
  git_bundle := fun _ => None;
  json_parse := fun _ => Some ex_registry;
  error_text := fun _ => "error"%string |}.

#[local] Existing Instance toy_world.

Definition ex_kid2 : bytes := key_id_for_public_key (ed_verifying_key ex_sk).
Definition ex_dir : string := key_id_hex ex_kid2.
Definition ex_url : string := "https://example.org/page".
Definition ex_now : Z := 1700000000000.

Definition ex_disk (t : Z) : relay_io := {|
  rio_now_usage := Some t; rio_now := Some t; rio_read := true; rio_dirs := true; rio_write := true; rio_normalized := true;
  rio_rename := true; rio_remove := true |}.

Definition ex_empty : relay_state := {| rs_spool := ∅; rs_outside := ∅; rs_queue := [] |}.

(** The request of the client, its submission, the job and its processing. *)
Definition ex_request : bytes := unwrap_or [] (submit_url_request ex_url true).
Definition ex_submitted : relay_state * bytes := dispatch relay_config_default (ex_disk ex_now) ex_empty ex_kid2 ex_request.
Definition ex_job_id : string := relay_job_id ex_kid2 ex_url ex_now.
Definition ex_job : JobRef := {| jr_key_id_hex := ex_dir; jr_job_id := ex_job_id |}.
Definition ex_done : relay_state :=
  process_job relay_config_default (ex_disk (ex_now + 1)) (ex_disk (ex_now + 2)) (ex_disk (ex_now + 3))
    (ex_disk (ex_now + 4)) ex_submitted.1 ex_job.

Definition ex_meta (st : relay_state) : option RelayJobMetadata :=
  to_option (read_metadata (client_files st ex_dir) (metadata_file ex_job_id)).

(** The job is queued by the submission, complete after the worker, and the
    client downloads the page and its normalized form. *)
Example ex_relay_run :
  (status <$> ex_meta ex_submitted.1) = Some JOB_STATUS_QUEUED /\
  rs_queue ex_submitted.1 = [ex_job] /\
  (status <$> ex_meta ex_done) = Some JOB_STATUS_COMPLETE /\
  option_map snd (client_relay_download (relay_tunnel relay_config_default (fun _ => ex_disk (ex_now + 5)) ex_kid2)
    2 (0%nat, ex_done) ex_job_id ArtifactPrimary 0 []) = Some (Ok ex_page) /\
  option_map snd (client_relay_download (relay_tunnel relay_config_default (fun _ => ex_disk (ex_now + 5)) ex_kid2)
    2 (0%nat, ex_done) ex_job_id ArtifactMarkdown 0 []) = Some (Ok (str_bytes "hi")).
Proof. repeat split; vm_done. Qed.

Lemma ex_disk_ok t : toml_int t -> disk_ok (ex_disk t) t.
Proof. by split. Qed.

(** * Relay witnesses *)

Lemma spec_roundtrip_witness :
  exists s, spec_parse "npm" "@scope/pkg" "" = Ok s /\ spec_decode (spec_encode s) = Ok s.
Proof.
  eexists. split; [vm_compute; reflexivity|].
  refine (spec_roundtrip "npm" "@scope/pkg" "" _ _ _); [vm_done|]. right.
  unfold scope_only. apply (bool_decide_unpack _). vm_compute. exact Logic.I.
Defined.

Lemma pinned_addresses_public_witness :
  exists addrs parsed, validate_and_pin ex_url false = Ok (addrs, parsed) /\ addrs <> [] /\
    Forall (fun ip => ip_in_range ip -> mapped_v4 ip = None -> ~ internal_address false ip) addrs.
Proof.
  assert (H : validate_and_pin ex_url false =
    Ok ([V4 0x5db8d822; V6 (0x2606 * 2 ^ 112)], ("https", "example.org", ex_url)%string)) by vm_done.
  do 2 eexists. split; [exact H|]. destruct (pinned_addresses_public ex_url false _ _ H) as (Hne & HF & _).
  split; [exact Hne|exact HF].
Defined.

(** Another client asks for the deletion of a job of the first by its path. *)
Definition ex_other : KeyId := repeat x07 8.
Definition ex_traversal : bytes :=
  client_relay_request GHOST_RELAY_OP_DELETE ++ field ("../../" +:+ ex_dir +:+ "/jobs/" +:+ ex_job_id).

Lemma relay_isolation_witness :
  (dispatch relay_config_default (ex_disk (ex_now + 5))
     (serve relay_config_default ex_done [RvRequest (ex_disk ex_now) ex_other ex_traversal]) ex_kid2
     (client_relay_request GHOST_RELAY_OP_LIST)).2
  = (dispatch relay_config_default (ex_disk (ex_now + 5)) ex_done ex_kid2 (client_relay_request GHOST_RELAY_OP_LIST)).2.
Proof.
  refine (proj1 (relay_isolation relay_config_default (ex_disk (ex_now + 5)) ex_done ex_kid2
    (client_relay_request GHOST_RELAY_OP_LIST) [RvRequest (ex_disk ex_now) ex_other ex_traversal] _ _)); [vm_done|].
  constructor; [|constructor]. split; [exact (eq_refl KEY_ID_LEN)|]. cbn [event_dir]. intros H%key_id_hex_inj. vm_compute in H. discriminate H.
Defined.

(** Without the check of the id, the path would lead to the other's file. *)
Example ex_traversal_place :
  metadata_path relay_config_default (client_dir relay_config_default ex_other) ("../../" +:+ ex_dir +:+ "/jobs/" +:+ ex_job_id)
  = InJobs ex_dir (metadata_file ex_job_id).
Proof. vm_done. Qed.

Lemma enqueue_quota_witness :
  (usage_at (client_files (enqueue relay_config_default (ex_disk ex_now) ex_empty ex_kid2 "web_fetch" ex_url true).1 ex_dir) ex_now).1
    <= max_jobs_per_client relay_config_default.
Proof.
  pose proof (enqueue_quota relay_config_default (ex_disk ex_now) ex_empty ex_kid2 "web_fetch" ex_url true ex_now
    eq_refl ltac:(range_done)) as H.
  assert (Hr : (enqueue relay_config_default (ex_disk ex_now) ex_empty ex_kid2 "web_fetch" ex_url true).2
    = Ok (relay_bytes_response GHOST_RELAY_STATUS_OK (str_bytes ex_job_id))) by vm_done.
  destruct (enqueue _ _ _ _ _ _ _) as [st' r]. cbn [snd] in Hr. exact (proj1 (proj2 (proj2 (proj2 H ex_job_id Hr)))).
Defined.

Definition ex_queued : RelayJobMetadata :=
  {| job_id := ex_job_id; kind := "web_fetch"; status := JOB_STATUS_QUEUED; source := ex_url; normalize := true;
     http_status := None; content_type := None; body_len := 0; normalized_len := None; sha256_hex := None; error := None;
     created_at_ms := ex_now; updated_at_ms := ex_now; expires_at_ms := ex_now + 86400000 |}.

Lemma ex_queued_read : read_metadata (client_files ex_submitted.1 ex_dir) (metadata_file ex_job_id) = Ok ex_queued.
Proof. vm_done. Qed.

Lemma process_job_settles_witness :
  exists m', read_metadata (client_files ex_done ex_dir) (metadata_file ex_job_id) = Ok m' /\
    (status m' = JOB_STATUS_COMPLETE \/ status m' = JOB_STATUS_FAILED).
Proof.
  destruct (process_job_settles relay_config_default (ex_disk (ex_now + 1)) (ex_disk (ex_now + 2)) (ex_disk (ex_now + 3))
    (ex_disk (ex_now + 4)) (ex_now + 1) (ex_now + 2) (ex_now + 3) (ex_now + 4) ex_submitted.1 ex_job ex_queued)
    as (m' & Hr & _ & H).
  1-4: apply ex_disk_ok; range_done.
  - exact ex_queued_read.
  - vm_done.
  - vm_compute. intuition congruence.
  - intros H. vm_compute in H. discriminate H.
  - range_done.
  - intros o Ho. vm_compute in Ho. injection Ho as <-. range_done.
  - exists m'. split; [exact Hr|]. destruct H as [(o & _ & Hc & _)|(e & Hf & _)]; [left; apply Hc|right; exact Hf].
Defined.

(** The engine starts on an empty spool and takes the request. *)
Definition ex_pool0 : pool := pool_start relay_config_default ex_empty.
Definition ex_pool : pool :=
  {| po_state := (dispatch relay_config_default (ex_disk ex_now) (po_state ex_pool0) ex_kid2 ex_request).1;
     po_workers := po_workers ex_pool0; po_scan := [] |}.

Lemma ex_pool_run : traced (pool_step relay_config_default) ex_pool0 ([] ++ [PeQuiet]) ex_pool.
Proof. eapply traced_snoc; [apply traced_nil|]. exact (pool_request relay_config_default ex_pool0 (ex_disk ex_now) ex_kid2 ex_request). Qed.

Lemma ex_empty_named : well_named ex_empty.
Proof. intros dir id m. unfold job_at, client_files, read_metadata. cbn. rewrite lookup_empty. cbn. by rewrite lookup_empty. Qed.

Lemma ex_not_given_up j : ~ given_up ([] ++ [PeQuiet]) j.
Proof.
  assert (Hq : forall ev, since_start ([] ++ [PeQuiet]) ev -> ev = PeQuiet).
  { intros ev ([|e before] & after & H & _); [by injection H|]. injection H as _ H. by destruct before. }
  by intros [H%Hq|[(jobs & H%Hq & _)|(dirs & H%Hq & _)]].
Qed.

Lemma no_job_forgotten_witness : tracked ex_pool ex_job.
Proof.
  destruct (no_job_forgotten relay_config_default ex_empty ([] ++ [PeQuiet]) ex_pool ex_dir ex_job_id ex_queued ex_empty_named ex_pool_run)
    as [H|H]; [vm_done|reflexivity|exact H|destruct (ex_not_given_up _ H)].
Defined.

Lemma pool_drains_witness :
  (exists p', rtc (next (worker_step relay_config_default)) ex_pool p' /\ nf (next (worker_step relay_config_default)) p') /\
  (forall tr' p', traced (worker_step relay_config_default) ex_pool tr' p' -> nf (next (worker_step relay_config_default)) p' ->
     rs_queue (po_state p') = [] /\ (settled (po_state p') ex_job \/ given_up (([] ++ [PeQuiet]) ++ tr') ex_job)).
Proof.
  destruct (pool_drains relay_config_default ex_empty ([] ++ [PeQuiet]) ex_pool ex_empty_named ex_pool_run eq_refl) as (_ & H2 & H3).
  split; [exact H2|]. intros tr' p' Hr Hn. destruct (H3 tr' p' Hr Hn) as [Hq Hs]. split; [exact Hq|exact (Hs ex_job)].
Defined.

(** A full disk: the job that failed is still running on disk, and nobody's. *)
Definition ex_full (t : Z) : relay_io := {|
  rio_now_usage := Some t; rio_now := Some t; rio_read := true; rio_dirs := true; rio_write := false; rio_normalized := true;
  rio_rename := true; rio_remove := true |}.
Example ex_failure_lost :
  let s := job_failure (ex_full ex_now) ex_submitted.1 ex_job ReQuota in
  (status <$> ex_meta s.1) = Some JOB_STATUS_QUEUED /\ is_ok s.2 = false /\
  turn_drops (ex_full ex_now) ex_submitted.1 (Failing ex_job ReQuota) = Some ex_job.
Proof. vm_compute. done. Qed.

Definition ex_package : RelayJobMetadata :=
  {| job_id := "ab"; kind := "package"; status := JOB_STATUS_RUNNING; source := "pypi:requests@2.31.0"; normalize := false;
     http_status := None; content_type := None; body_len := 0; normalized_len := None; sha256_hex := None; error := None;
     created_at_ms := ex_now; updated_at_ms := ex_now; expires_at_ms := ex_now + 1000 |}.

Lemma package_integrity_witness :
  exists o spec resolved, run_job relay_config_default ex_package = Ok o /\
    spec_resolve relay_config_default spec = Ok resolved /\ digest_matches (rp_digest resolved) (jo_body o).
Proof.
  set (o := {| jo_body := ex_page; jo_http_status := Some 200; jo_content_type := Some "text/html"%string |}).
  assert (Ho : run_job relay_config_default ex_package = Ok o) by vm_done.
  destruct (package_integrity relay_config_default ex_package o eq_refl Ho) as (spec & resolved & code & _ & Hr & Hd & _).
  exists o, spec, resolved. split; [exact Ho|]. split; [exact Hr|exact Hd].
Defined.

Definition ex_contents : string := default ""%string (cs_jobs (client_files ex_done ex_dir) !! metadata_file ex_job_id).

Definition ex_reap (t : Z) : reap_io := {| rp_now := Some t; rp_stops := fun _ => None; rp_removes := fun _ _ => true |}.

Lemma relay_reap_exact_witness :
  exists cs', rs_spool (reap_expired (ex_reap (ex_now + 5)) ex_done).1 !! ex_dir = Some cs' /\
    (cs_jobs (client_files ex_done ex_dir) !! metadata_file ex_job_id = Some ex_contents ->
     ~ expired_entry (ex_now + 5) (metadata_file ex_job_id, ex_contents) ->
     cs_jobs cs' !! metadata_file ex_job_id = Some ex_contents).
Proof.
  destruct (relay_reap_exact (ex_reap (ex_now + 5)) (ex_now + 5) ex_done ex_dir (client_files ex_done ex_dir)
    (metadata_file ex_job_id) ex_contents eq_refl) as (cs' & _ & H2 & _ & H3 & _).
  - range_done.
  - vm_done.
  - exists cs'. split; [exact H2|exact H3].
Defined.

(** * Client witnesses *)

Lemma ex_done_meta :
  exists m, read_metadata (client_files ex_done ex_dir) (metadata_file ex_job_id) = Ok m /\
    status m = JOB_STATUS_COMPLETE /\ expires_at_ms m = ex_now + 86400000.
Proof. eexists. split; [vm_compute; reflexivity|]. split; vm_done. Qed.

Lemma download_reassembles_witness :
  exists n, client_relay_download (relay_tunnel relay_config_default (fun _ => ex_disk (ex_now + 5)) ex_kid2)
    1 (0%nat, ex_done) ex_job_id ArtifactPrimary 0 [] = Some ((n, ex_done), Ok ex_page).
Proof.
  destruct ex_done_meta as (m & Hm & Hc & He).
  refine (download_reassembles relay_config_default (fun _ => ex_disk (ex_now + 5)) ex_done ex_kid2 ex_job_id
    ArtifactPrimary m ex_page 1 _ _ _).
  - split; [vm_done|vm_done|vm_compute; discriminate|exact Hm|exact Hc|vm_done|vm_compute; discriminate].
  - intros _. exists (ex_now + 5). split; [reflexivity|]. split; [range_done|]. rewrite He. reflexivity.
  - reflexivity.
Defined.

Lemma submissions_understood_witness :
  exists req, submit_url_request ex_url true = Ok req /\
    dispatch_inner relay_config_default (ex_disk ex_now) ex_empty ex_kid2 req
    = with_request ex_empty (validate_public_url ex_url false)
        (fun _ => enqueue relay_config_default (ex_disk ex_now) ex_empty ex_kid2 "web_fetch" ex_url true).
Proof.
  refine (proj1 (submissions_understood relay_config_default (ex_disk ex_now) ex_empty ex_kid2 ex_url true ex_url
    "pypi" "requests" "2.31.0" _ _ _ _ _)); (split; [vm_done|vm_compute; discriminate]).
Defined.

Definition ex_salt (i n : nat) : bytes := repeat x05 n.
Definition ex_key_file : string := unwrap_or ""%string (encrypt_signing_key ex_salt ex_sk "pass").

Lemma identity_file_roundtrip_witness :
  read_signing_key (RdOk ex_key_file) (Some "pass"%string) = Ok ex_sk /\
  read_signing_key (RdOk (encode_signing_key ex_sk +:+ bytes_str [x0a])) None = Ok ex_sk.
Proof.
  destruct (identity_file_roundtrip ex_salt ex_sk "pass" ex_key_file None eq_refl ltac:(intros i n; apply repeat_length))
    as [H1 H2].
  split; [apply H1; vm_done|exact H2].
Defined.

Definition ex_knock_input : knock_input := {|
  ki_identity := RdOk ex_key_file; ki_prompt := Some "pass"%string; ki_clock := Some ex_ts;
  ki_counter := RdOk ("41" +:+ bytes_str [x0a]); ki_write := WrDone; ki_next_u32 := 7; ki_fill := ex_fill;
  ki_ephemeral := ex_eph |}.

Lemma ex_persists ctr :
  0 <= ctr <= i64_max ->
  persist_counters (with_counter ex_verifier ex_kid2 ctr) io_ok
  = ((persist_counters (with_counter ex_verifier ex_kid2 ctr) io_ok).1, Ok tt).
Proof.
  intros [_ Hc]. unfold persist_counters. cbn [counter_state_path with_counter ex_verifier from_counters].
  unfold save_counter_state.
  assert (He : is_Some (toml_counters_encode (kmap key_id_hex (highest_counters (with_counter ex_verifier ex_kid2 ctr)) : gmap string Z))).
  { apply toml_counters_total.
    change (highest_counters (with_counter ex_verifier ex_kid2 ctr)) with (<[ex_kid2 := ctr]> (∅ : gmap bytes Z)).
    rewrite kmap_insert, kmap_empty by apply _. apply map_Forall_insert_2; [exact Hc|apply map_Forall_empty]. }
  destruct He as [s ->]. reflexivity.
Qed.

Lemma client_knock_accepted_witness :
  exists written payload ctr v' acc,
    spa_payload Udp ex_knock_input (server_static_pubkey ex_verifier) = (Some written, Ok (payload, ctr)) /\
    verify ex_verifier io_ok payload ex_src (ex_ts + 5)
      = (v', (persist_counters (with_counter ex_verifier ex_kid2 ctr) io_ok).1, Ok acc) /\
    acc_counter acc = ctr /\ ex_ts <= ctr.
Proof.
  destruct (client_knock_accepted ex_verifier ex_sk ex_client ex_knock_input io_ok ex_src (ex_ts + 5) ex_ts Udp
    (fun ctr => (persist_counters (with_counter ex_verifier ex_kid2 ctr) io_ok).1) ex_honest)
    as (written & payload & ctr & v' & acc & H1 & H2 & _ & H3 & H4 & _).
  - exists 41. split; [vm_compute; reflexivity|]. split; [range_done|]. vm_compute. discriminate.
  - vm_done.
  - reflexivity.
  - range_done.
  - reflexivity.
  - intros n. apply repeat_length.
  - vm_compute. discriminate.
  - exact ex_persists.
  - exists written, payload, ctr, v', acc. auto.
Defined.

Definition ex_server (e : string) (p : option Z) : ServerConfigEntry := {|
  se_endpoint := e; se_spa_endpoint := e; se_spa_mode := TransportUdp; se_spa_port := 53;
  se_server_public_key := ""; se_priority := p |}.

(** Three candidates of which only the last accepts, in the second round. *)
Definition ex_connect (st : nat) (i : nat) : nat * result ClientError nat :=
  (S st, if (3 <? st)%nat && (i =? 2)%nat then Ok st else Err CeConnect).
Definition ex_policy : FailoverPolicy := {| fp_strategy := Latency; fp_retry_interval_ms := 10; fp_max_retries := 2 |}.
Definition ex_order (_ : nat) (st : nat) : nat * list nat :=
  (st, order_candidates Latency 3 (fun l => l) (fun i => if (i =? 0)%nat then None else Some (Z.of_nat i))).

Example ex_failover :
  ((ex_order 0 0).2 = [1; 2; 0]%nat) /\
  (connect_noise_with_failover CeNoServers ex_connect ex_order 0%nat 3 ex_policy = (5%nat, Ok (4%nat, 2%nat))).
Proof. split; vm_done. Qed.

Lemma failover_exhaustive_witness :
  exists k st1 st2 indices before after mid, Z.of_nat k <= 2 /\ failed_rounds ex_connect ex_order 0%nat 0 k st1 /\
    ex_order k st1 = (st2, indices) /\ indices = before ++ 2%nat :: after /\ failed_run ex_connect st2 before mid.
Proof.
  pose proof (failover_exhaustive CeNoServers ex_connect ex_order 0%nat 3 ex_policy ltac:(lia) ltac:(range_done)
    ltac:(intros r s; apply order_candidates_perm; done)) as H.
  rewrite (proj2 ex_failover) in H.
  destruct H as (_ & k & st1 & st2 & indices & before & after & mid & Hk & Hf & Ho & Hi & Hr & _).
  exists k, st1, st2, indices, before, after, mid. auto.
Defined.

Definition ex_client_config : ClientConfig := {|
  cc_servers := [ex_server "a" None; ex_server "b" (Some 5); ex_server "c" (Some 1); ex_server "d" (Some 5)];
  cc_failover := None |}.

Lemma ordered_servers_spec_witness :
  exists servers, ordered_servers ex_client_config = Ok servers /\
    map se_endpoint servers = ["c"; "b"; "d"; "a"]%string /\ servers ≡ₚ cc_servers ex_client_config.
Proof.
  destruct (ordered_servers_spec ex_client_config
    [ex_server "c" (Some 1); ex_server "b" (Some 5); ex_server "d" (Some 5); ex_server "a" None]) as (H & _); [vm_done|].
  eexists. split; [vm_compute; reflexivity|]. split; [reflexivity|exact H].
Defined.
