(* ===== verification/WebExamples.v ===== *)
(** Worked instances for the decoy, the start-up, the commands of the client and
    its tunnel: a small HTTP library and a transport with two directions. *)

From S2P Require Import Prelude Text TextFacts NetAddr Normalize NormalizeFacts Protocol Crypto Keys Seal SpaPacket Fs AuthKeys Verifier Replay.
From S2P Require Import Runtime Tunnel TunnelFacts Decoy DecoyFacts RelayWire RelayEngine Config Startup StartupFacts.
From S2P Require Import Client ClientFacts ClientSetup ClientSetupFacts ClientTunnel ClientTunnelFacts HttpsKnock Examples RelayExamples.

#[local] Existing Instance toy_crypto.
#[local] Existing Instance toy_crypto_laws.
#[local] Existing Instance toy_toml.
#[local] Existing Instance toy_toml_laws.
#[local] Existing Instance toy_identity.
#[local] Existing Instance toy_identity_laws.

(** * The normalizer *)

(** A page with two elements, in mixed case, and a tag of a longer name. *)
Definition ex_marked : bytes := str_bytes "a<SCRIPT >x</script>b<scripts><script>y</Script>c".
Definition ex_script : bytes := str_bytes "script".

Definition occurs_test (n s : bytes) (i : nat) : bool := bool_decide (take (length n) (drop i s) = n).

Lemma occurs_test_ok n s i : occurs_at n s i -> occurs_test n s i = true.
Proof. intros [r Hr]. apply bool_decide_eq_true_2. by rewrite Hr, take_app_length. Qed.

Lemma occurs_test_at n s i : occurs_test n s i = true -> occurs_at n s i.
Proof. intros H%bool_decide_eq_true_1. exists (drop (length n) (drop i s)). by rewrite <-H at 1; rewrite take_drop. Qed.

Lemma ex_marked_opens i : opens ex_script ex_marked i -> i = 1%nat \/ i = 30%nat.
Proof.
  intros [H Hb]. assert (Hi : (i < 49)%nat).
  { destruct (decide (i < 49)%nat) as [?|Hge]; [done|]. destruct H as [r Hr]. rewrite drop_ge in Hr; [done|].
    assert (length (ascii_lower ex_marked) = 49%nat) as -> by vm_done. lia. }
  apply occurs_test_ok in H.
  assert (Hall : forallb (fun i => negb (occurs_test (open_tag ex_script) (ascii_lower ex_marked) i)
      || negb (is_boundary (ascii_lower ex_marked !! (i + length (open_tag ex_script))%nat)) || (i =? 1)%nat || (i =? 30)%nat)
    (seq 0 49) = true) by vm_done.
  rewrite forallb_forall in Hall. specialize (Hall i ltac:(apply in_seq; lia)). rewrite H, Hb in Hall. cbn [negb orb] in Hall.
  apply orb_true_iff in Hall as [E|E]; apply Nat.eqb_eq in E; auto.
Qed.

Lemma strip_element_exact_witness :
  strip_element ex_script ex_marked = Some (str_bytes "ab<scripts>c") /\ outside ex_script ex_marked (str_bytes "ab<scripts>c").
Proof.
  destruct (strip_element_exact ex_script ex_marked) as (out & Hs & _ & Hx).
  - unfold noise_tags. cbn [map]. left.
  - reflexivity.
  - intros i j Hij [->| ->]%ex_marked_opens [->| ->]%ex_marked_opens; [lia| |lia..].
    exists 11%nat. split; [lia|]. apply occurs_test_at. vm_done.
  - assert (E : strip_element ex_script ex_marked = Some (str_bytes "ab<scripts>c")) by vm_done.
    rewrite Hs in E. injection E as E. split; [by rewrite Hs, E|]. by apply Hx.
Defined.

Lemma plain_text_roundtrip_witness :
  html_to_markdown (str_bytes "1 &lt; 2 &amp;&amp;  3") = Some (str_bytes "1 < 2 && 3").
Proof. exact (plain_text_roundtrip (str_bytes "1 < 2 &&  3") eq_refl). Defined.

(** * A small HTTP library *)

Definition toy_dispatch (routes : list (string * Method * Handler)) (fb : Handler) (m : Method) (p : string) : Handler :=
  match List.find (fun r => bool_decide (r.1 = (p, m))) routes with
  | Some r => r.2
  | None => if existsb (fun r => bool_decide (r.1.1 = p)) routes then HMethodNotAllowed else fb
  end.

Definition toy_http : HttpLib := {|
  axum_dispatch := toy_dispatch;
  status_from_u16 := fun z => if (100 <=? z) && (z <=? 999) then Some z else None;
  IpNet := IpAddr;
  ipnet_parse := fun s => V4 <$> parse_ipv4 (str_bytes s);
  ipnet_contains := fun net ip => bool_decide (net = ip) |}.

Lemma toy_http_laws : HttpLaws toy_http.
Proof.
  split; cbn [axum_dispatch status_from_u16 toy_http].
  - intros routes fb m p H. unfold toy_dispatch. destruct (List.find _ _) as [r|] eqn:E.
    + apply List.find_some in E as [Hin Hr]. apply list_elem_of_In in Hin. apply bool_decide_eq_true in Hr.
      destruct (H r Hin) as [_ Hp]. by rewrite Hr in Hp.
    + destruct (existsb _ _) eqn:Ee; [|done]. apply existsb_exists in Ee as (r & Hin & Hr).
      apply list_elem_of_In in Hin. apply bool_decide_eq_true in Hr. by destruct (H r Hin).
  - intros routes fb m p h _ Hin Hu. unfold toy_dispatch. destruct (List.find _ _) as [r|] eqn:E.
    + apply List.find_some in E as [Hin' Hr]. apply list_elem_of_In in Hin'. apply bool_decide_eq_true in Hr.
      apply Hu. destruct r as [r h']. cbn in Hr. by subst r.
    + apply list_elem_of_In in Hin. pose proof (List.find_none _ _ E _ Hin) as Hn. by apply bool_decide_eq_false in Hn.
  - intros z s. split.
    + destruct ((100 <=? z) && (z <=? 999)) eqn:E; [|done]. bool_props. intros [= <-]. split; [done|lia].
    + intros [-> [H1 H2]]. by rewrite (proj2 (Z.leb_le _ _) H1), (proj2 (Z.leb_le _ _) H2).
Qed.

#[local] Existing Instance toy_http.
#[local] Existing Instance toy_http_laws.

Definition ex_refused : Response := {| rsp_status := 405; rsp_headers := []; rsp_body := [] |}.
Definition ex_decoy_state : DecoyState := {|
  dc_spa_tx := true; dc_response_status := 204; dc_trusted_proxy_cidrs := [V4 1]; dc_webroot := None |}.
Definition ex_app : list (string * Method * Handler) * Handler * DecoyState :=
  ([("/"%string, GET, HDecoyContent); (TELEMETRY, POST, HTelemetry)], HDecoyContent, ex_decoy_state).
Definition ex_web : serve_env := {|
  sv_fs := {| fs_canonicalize := fun _ => None; fs_read := fun _ => None |};
  sv_date := "Thu, 01 Jan 1970 00:00:00 GMT"; sv_pid := 7; sv_nanos := Some 255 |}.
Definition ex_channel : spa_channel := {| ch_queue := []; ch_closed := false |}.
Definition ex_post (body : bytes) : Request := {|
  rq_method := POST; rq_path := TELEMETRY; rq_peer := V4 ex_src; rq_forwarded_for := Some (str_bytes "10.0.0.1"); rq_body := body |}.

Lemma triple {A B R} (x : A * B * R) r : x.2 = r -> x = (x.1.1, x.1.2, r).
Proof. intros <-. by destruct x as [[? ?] ?]. Qed.

Lemma https_knock_opens_own_source_witness :
  exists sl' r, handle_https_item ex_ttl ex_loop (ex_io, {| cand_src_ip := ex_src; cand_payload := ex_wire |}) = (sl', r) /\
    is_Some (allow_map (sl_runtime sl') !! ex_src) /\ rq_peer (ex_post ex_wire) = V4 ex_src.
Proof.
  pose (verdict := verify (sl_verifier ex_loop) (kn_save ex_io) ex_wire ex_src (ex_ts + 5)).
  assert (He : ex_accepted = verdict) by exact (eq_refl verdict).
  assert (Hv : verdict = (ex_accepted.1.1, ex_accepted.1.2, Ok ex_accept)).
  { rewrite <-He. exact (triple _ _ ex_accepts). }
  destruct (handle_knock_accepted ex_ttl ex_loop ex_io ex_src ex_wire (ex_ts + 5) 100000000000 _ _ _ eq_refl Hv eq_refl eq_refl)
    as (sl' & Hh & Hs & _).
  exists sl', (Ok tt). split; [exact Hh|]. split; [exact Hs|].
  refine (https_knock_opens_own_source ex_ttl ex_refused ex_app ex_web ex_channel (ex_post ex_wire)
    {| cand_src_ip := ex_src; cand_payload := ex_wire |} ex_io ex_loop sl' (Ok tt) ex_src _ _ _ Hh Hs _).
  - reflexivity.
  - left.
  - apply not_elem_of_nil.
  - reflexivity.
Defined.

(** * A knock over HTTPS *)

Definition ex_payload : bytes :=
  match (spa_payload Https ex_knock_input (server_static_pubkey ex_verifier)).2 with Ok (p, _) => p | Err _ => [] end.
Definition ex_net : net_input := {| ni_udp := true; ni_http := Some (204, None); ni_now := 0; ni_connect := None |}.
Definition ex_spa_url : string := "https://192.0.2.1:443/api/v1/telemetry".

Definition ex_send : list client_effect * result NetError Z :=
  send_https_spa ex_knock_input ex_net "alice.counter" (server_static_pubkey ex_verifier) ex_spa_url.
Definition ex_served : spa_channel * Response := serve ex_refused ex_app ex_web ex_channel (ex_post ex_payload).

Lemma ex_posted : EffPost ex_spa_url ex_payload ∈ ex_send.1.
Proof.
  assert (H : exists w ctr, spa_payload Https ex_knock_input (server_static_pubkey ex_verifier) = (w, Ok (ex_payload, ctr))).
  { destruct (client_knock_ok ex_verifier ex_sk ex_client ex_knock_input io_ok ex_src (ex_ts + 5) ex_ts Https
      (fun ctr => (persist_counters (with_counter ex_verifier ex_kid2 ctr) io_ok).1) ex_honest)
      as (written & payload & ctr & v' & acc & H1 & _).
    - exists 41. split; [vm_compute; reflexivity|]. split; [range_done|]. vm_compute. discriminate.
    - vm_done.
    - reflexivity.
    - range_done.
    - reflexivity.
    - intros n. apply repeat_length.
    - vm_compute. discriminate.
    - exact ex_persists.
    - exists (Some written), ctr. unfold ex_payload. by rewrite H1. }
  destruct H as (w & ctr & H). unfold ex_send, send_https_spa. rewrite H. cbn [fst]. apply elem_of_app. right. left.
Qed.

Lemma https_knock_end_to_end_witness :
  exists cand sl' ctr,
    ch_queue ex_served.1 = [cand] /\
    handle_https_item ex_ttl ex_loop (ex_io, cand) = (sl', Ok tt) /\
    ex_send.2 = Ok ctr.
Proof.
  destruct (https_knock_end_to_end ex_ttl ex_verifier ex_sk ex_client ex_knock_input ex_net "alice.counter" ex_spa_url
    ex_io (ex_ts + 5) 100000000000 ex_ts (fun ctr => (persist_counters (with_counter ex_verifier ex_kid2 ctr) io_ok).1)
    ex_refused 204 ["0.0.0.1"%string] None ex_app ex_web ex_channel (ex_post ex_payload) ex_src ex_loop
    ex_send.1 ex_send.2 ex_served.1 ex_served.2 None eq_refl ex_honest) as (cand & sl' & ctr & Hq & Hh & Hr & _); cycle -1.
  { exists cand, sl', ctr. split; [exact Hq|]. split; [exact Hh|]. exact Hr. }
  - exists 41. split; [vm_compute; reflexivity|]. split; [range_done|]. vm_compute. discriminate.
  - vm_done.
  - reflexivity.
  - range_done.
  - reflexivity.
  - intros n. apply repeat_length.
  - reflexivity.
  - vm_compute. discriminate.
  - exact ex_persists.
  - reflexivity.
  - reflexivity.
  - reflexivity.
  - reflexivity.
  - reflexivity.
  - cbn. unfold SPA_CHANNEL_CAPACITY. lia.
  - apply surjective_pairing.
  - exact ex_posted.
  - reflexivity.
  - reflexivity.
  - reflexivity.
  - apply surjective_pairing.
  - reflexivity.
  - reflexivity.
Defined.

(** * A start *)

Definition ex_server_config : ServerConfig := {|
  cfg_server := {| sv_identity := "server.key" |};
  cfg_spa := {| sp_mode := ModeBoth; sp_common := Some {| sc_time_window := 300; sc_allow_ttl := 14400; sc_counter_state := "counters.toml" |};
                sp_udp := None; sp_https := None |};
  cfg_proxy := {| px_port := 8443; px_noise_pattern := "Noise_XK_25519_ChaChaPoly_BLAKE2s"; px_bind := "0.0.0.0" |};
  cfg_clients := {| cl_authorized_keys := "authorized_keys.toml" |};
  cfg_decoy := None; cfg_logging := None; cfg_relay := None |}.

Definition ex_counters : string := default ""%string (toml_counters_encode ∅).

Definition ex_boot_env : boot_env := {|
  be_files := {["server.toml" := ""; "authorized_keys.toml" := ""; "counters.toml" := ex_counters]}%string;
  be_unreadable := fun _ => false;
  be_var := fun v => if bool_decide (v = "GHOSTBRO_GENERATE_IDENTITY"%string) then Some "1"%string else None;
  be_level := fun _ => true; be_log_dirs := true; be_log_open := true; be_canonical := fun _ => None;
  be_generated := (ex_private, x25519_base ex_private); be_id_write := (true, true);
  be_ebpf := {| eb_load := true; eb_config_map := true; eb_config_set := true; eb_program := true; eb_program_load := true;
                eb_attach := true; eb_allow_map := true; eb_ring := true |} |}.

Definition ex_cli : Cli := {|
  cli_config := "server.toml"; cli_iface := "eth0"; cli_ebpf_object := Some "ghostbro.o"%string; cli_decoy_bind := None |}.

Definition ex_boot : list boot_effect * result BootError Server :=
  boot (fun _ => Some ex_server_config) ex_keys ex_boot_env ex_cli.

Lemma ex_boot_gate : match ex_boot.2 with Ok srv => bool_decide (is_Some (sr_gate srv)) | Err _ => false end = true.
Proof. vm_done. Qed.

Lemma boot_fails_closed_witness :
  match ex_boot.2 with
  | Ok srv =>
      match sr_gate srv with
      | Some g => ex_boot.1 = [EffSetConfig (gt_bpf g); EffLoadProgram; EffAttach "eth0"; EffServe] /\
                  gt_listener_key g = Ok (server_static_private (gt_verifier g))
      | None => False
      end
  | Err _ => False
  end.
Proof.
  destruct (boot_fails_closed (fun _ => Some ex_server_config) ex_keys ex_boot_env ex_cli ex_boot.1 ex_boot.2
    (surjective_pairing ex_boot)) as [_ H].
  pose proof ex_boot_gate as Hg. destruct (ex_boot.2) as [srv|e]; [|discriminate Hg].
  specialize (H srv eq_refl). destruct (sr_gate srv) as [g|]; [|discriminate Hg].
  destruct H as (He & _ & _ & _ & config & Hc & Hk & _). split; [exact He|]. apply Hk.
  injection Hc as <-. intros Heq. apply (f_equal str_bytes) in Heq. vm_compute in Heq. discriminate Heq.
Defined.
