(* ===== verification/ClientExamples.v ===== *)
(** Worked instances for the commands of the client and its tunnel: a deployment
    from key generation to the first knock, and a transport with two directions. *)

From S2P Require Import Prelude Text NetAddr Protocol Crypto Keys Seal SpaPacket Fs AuthKeys Verifier Replay.
From S2P Require Import Runtime Tunnel TunnelFacts RelayWire Client ClientFacts ClientSetup ClientSetupFacts.
From S2P Require Import ClientTunnel ClientTunnelFacts ClientMain ClientMainFacts ClientListener ClientListenerFacts Examples RelayExamples.

#[local] Existing Instance toy_crypto.
#[local] Existing Instance toy_crypto_laws.
#[local] Existing Instance toy_toml.
#[local] Existing Instance toy_toml_laws.
#[local] Existing Instance toy_identity.
#[local] Existing Instance toy_identity_laws.

(** * SOCKS5 *)

Lemma socks5_request_exact_witness :
  rfc1928_connect ([x05; x01; x00; x03; z2b 11] ++ str_bytes "example.org" ++ [x01; xbb])
    = Some (AddrDomain (str_bytes "example.org"), 443) /\
  rsplit_once x3a (str_bytes "example.org:443") = Some (str_bytes "example.org", str_bytes "443").
Proof.
  pose proof (socks5_request_exact "example.org:443" ([x05; x01; x00; x03; z2b 11] ++ str_bytes "example.org" ++ [x01; xbb]) eq_refl) as H.
  assert (E : rfc1928_connect ([x05; x01; x00; x03; z2b 11] ++ str_bytes "example.org" ++ [x01; xbb])
    = Some (AddrDomain (str_bytes "example.org"), 443)) by vm_done.
  rewrite E in H. destruct H as (_ & _ & _ & digits & Hs & Hd). split; [exact E|]. vm_done.
Defined.

(** * A transport with two directions *)

Definition dir_tag (n : Z) : bytes := be_bytes 16 n.

Lemma dir_tag_length n : length (dir_tag n) = 16%nat.
Proof. apply length_be_bytes. Qed.

(** The numbers of the next message to write and to read. *)
Definition duplex_noise : Noise := {|
  TransportState := Z * Z;
  write_message := fun t m n => if (n <? length m + 16)%nat then None else Some ((t.1 + 1, t.2), m ++ dir_tag t.1);
  read_message := fun t c k =>
    let m := take (length c - 16) c in
    if bool_decide (c = m ++ dir_tag t.2) && (length m <=? k)%nat then Some ((t.1, t.2 + 1), m) else None |}.

Definition duplex_noise_laws : NoiseLaws duplex_noise.
Proof.
  refine {| paired := fun a b : TransportState (Noise := duplex_noise) => a.1 = b.2 |};
    cbn [TransportState write_message read_message duplex_noise].
  - intros t m n t' c. case_test; [done|]. intros [= _ <-]. by rewrite length_app, dir_tag_length.
  - intros t m n H. by rewrite (proj2 (Nat.ltb_lt _ _) H).
  - intros a b m n a' c k Hp. case_test; [done|]. intros [= <- <-] Hk. exists (b.1, b.2 + 1). cbn [fst snd]. split; [|by rewrite Hp].
    rewrite length_app, dir_tag_length, Nat.add_sub, take_app_length. rewrite bool_decide_eq_true_2 by by rewrite Hp.
    by rewrite (proj2 (Nat.leb_le _ _) Hk).
Defined.

#[local] Existing Instance duplex_noise.
#[local] Existing Instance duplex_noise_laws.

Lemma duplex_laws : NoiseDuplex duplex_noise duplex_noise_laws.
Proof.
  split; cbn [paired duplex_noise_laws write_message read_message duplex_noise].
  - intros a b m n a' c Hp. case_test; [done|]. by intros [= <- _].
  - intros a b c k a' m Hp. destruct (_ && _); [|done]. by intros [= <- _].
Qed.

#[local] Existing Instance duplex_laws.

Definition ex_t0 : TransportState := (0, 0).
Definition ex_replies : list bytes := [str_bytes "HTTP/1.1"; str_bytes " 200 OK"].
Definition ex_reply_wire : bytes := default [] (to_option (snd <$> send_all ex_t0 ex_replies)).
Definition ex_local : TcpStream := {|
  rd_script := [RdPending; RdData (str_bytes "GET /"); RdData (str_bytes " HTTP/1.1")]; wr_script := [WrAccept 3]; sent := [] |}.
Definition ex_proxy : TcpStream := {|
  rd_script := [RdData (take 20 ex_reply_wire); RdPending; RdData (drop 20 ex_reply_wire)];
  wr_script := [WrAccept 1; WrPending; WrAccept 100]; sent := [] |}.
Definition ex_relayed : local_relay := relay_run [true; false; true; false; false; true] (relay_start ex_t0 ex_local ex_proxy).

Lemma tunnel_transparent_witness :
  sent (lr_local_out ex_relayed) = str_bytes "HTTP/1.1 200 OK" /\ lr_up ex_relayed = Finished /\
  (exists w, sent (lr_proxy_out ex_relayed) = w /\ decode ex_t0 w = str_bytes "GET / HTTP/1.1").
Proof.
  destruct (tunnel_transparent ex_t0 ex_t0 ex_local ex_proxy ex_replies (2, 0) [true; false; true; false; false; true])
    as (Hu & _ & Hd & _).
  - reflexivity.
  - reflexivity.
  - repeat constructor; discriminate.
  - repeat constructor; vm_compute; discriminate.
  - repeat constructor; vm_compute; discriminate.
  - vm_done.
  - fold ex_relayed in Hu, Hd.
    assert (Eu : lr_up ex_relayed = Finished) by vm_done. assert (Ed : lr_down ex_relayed = Finished) by vm_done.
    rewrite Eu in Hu. destruct Hu as (w & Hw & _ & Hf). split; [exact (Hd Ed)|]. split; [exact Eu|].
    exists w. split; [exact Hw|]. rewrite (Hf eq_refl). reflexivity.
Defined.

(** * A deployment *)

(** A file format for the one configuration written. *)
Definition ex_server_pub : string := line (b64_encode (x25519_base ex_private)).
Definition ex_enrolled : ClientConfig := enrolled_config ex_server_pub "192.0.2.1:8443" (V4 0xC0000201) TransportUdp 62201.

#[local] Instance entry_eq : EqDecision ServerConfigEntry.
Proof. solve_decision. Defined.
#[local] Instance failover_eq : EqDecision FailoverConfig.
Proof. solve_decision. Defined.
#[local] Instance client_config_eq : EqDecision ClientConfig.
Proof. solve_decision. Defined.

Definition ex_client_toml : ClientToml := {|
  toml_client_encode := fun c => if decide (c = ex_enrolled) then Some "x"%string else None;
  toml_client_decode := fun s => if bool_decide (s = "x"%string) then Some ex_enrolled else None |}.

Lemma ex_client_toml_laws : ClientTomlLaws ex_client_toml.
Proof.
  split. cbn [toml_client_encode toml_client_decode ex_client_toml]. intros c s. destruct (decide (c = ex_enrolled)) as [->|]; [|done].
  intros [= <-]. reflexivity.
Qed.

#[local] Existing Instance ex_client_toml.
#[local] Existing Instance ex_client_toml_laws.

Definition ex_keygen : list fs_op * result SetupError AuthorizedClientConfig :=
  keygen "keys/alice" false ex_sk (Some "pass"%string) (Some "pass"%string) ex_salt (fun _ => true).
Definition ex_server_keygen : list fs_op * result SetupError unit :=
  server_keygen "server" (Some (ex_private, x25519_base ex_private)) (fun _ => true).
Definition ex_enroll : list fs_op * result SetupError unit :=
  enroll ex_server_pub "192.0.2.1:8443" TransportUdp 62201 "client.toml" true true.

(** The server's clients and verifier, and the client's next knock. *)
Definition ex_alice : AuthorizedClient := {|
  ac_name := "debug-client"; ac_public_key := ed_verifying_key ex_sk;
  ac_noise_public_key := derive_noise_static_public_key ex_sk; ac_key_id := ex_kid2; ac_client_id := 1; ac_tier := Full;
  ac_max_concurrent_sessions := None |}.
Definition ex_fresh : SpaVerifier := from_counters [ex_alice] 300 ∅ (Some ex_path) ex_private.
Definition ex_first_knock : knock_input := {|
  ki_identity := read_file (fs_run ex_keygen.1 ∅) ("keys/alice" +:+ ".key"); ki_prompt := Some "pass"%string;
  ki_clock := Some ex_ts; ki_counter := read_file (fs_run ex_keygen.1 ∅) (counter_path None ("keys/alice" +:+ ".key"));
  ki_write := WrDone; ki_next_u32 := 7; ki_fill := ex_fill; ki_ephemeral := ex_eph |}.

Lemma ex_fresh_persists ctr :
  0 <= ctr <= i64_max ->
  persist_counters (with_counter ex_fresh ex_kid2 ctr) io_ok
  = ((persist_counters (with_counter ex_fresh ex_kid2 ctr) io_ok).1, Ok tt).
Proof.
  intros [_ Hc]. unfold persist_counters. cbn [counter_state_path with_counter ex_fresh from_counters].
  unfold save_counter_state.
  assert (He : is_Some (toml_counters_encode (kmap key_id_hex (highest_counters (with_counter ex_fresh ex_kid2 ctr)) : gmap string Z))).
  { apply toml_counters_total.
    change (highest_counters (with_counter ex_fresh ex_kid2 ctr)) with (<[ex_kid2 := ctr]> (∅ : gmap bytes Z)).
    rewrite kmap_insert, kmap_empty by apply _. apply map_Forall_insert_2; [exact Hc|apply map_Forall_empty]. }
  destruct He as [s ->]. reflexivity.
Qed.

Lemma deployment_admits_witness :
  exists rc policy written payload ctr v' acc ops,
    resolve_connect_configs (Some (read_file (fs_run ex_enroll.1 ∅) "client.toml")) None None None None None = Ok ([rc], policy) /\
    rc_proxy_endpoint rc = {| sa_ip := V4 0xC0000201; sa_port := 8443 |} /\
    spa_payload Udp ex_first_knock (rc_server_public_key rc) = (Some written, Ok (payload, ctr)) /\
    verify ex_fresh io_ok payload ex_src (ex_ts + 5) = (v', ops, Ok acc).
Proof.
  destruct (deployment_admits "keys/alice" false ex_sk (Some "pass"%string) (Some "pass"%string) ex_salt (fun _ => true)
    ex_keygen.1 (keygen_entry ex_sk) ∅ eq_refl ltac:(intros i n; apply repeat_length)
    ltac:(discriminate) ltac:(vm_compute; discriminate) eq_refl
    "server" ex_server_pub ex_private (fun _ => true) ex_server_keygen.1 ∅ false (ex_private, ex_private) (true, true) []
    ex_private [ex_alice] 300 ex_path RdNotFound true ex_fresh eq_refl eq_refl ltac:(vm_done) ltac:(vm_done) ltac:(vm_done)
    eq_refl eq_refl
    "client.toml" "192.0.2.1:8443" TransportUdp 62201 true true ex_enroll.1 ∅ 0xC0000201 8443 ltac:(vm_done) ltac:(vm_done)
    ltac:(range_done)
    ex_first_knock io_ok ex_src (ex_ts + 5) ex_ts Udp
    (fun ctr => (persist_counters (with_counter ex_fresh ex_kid2 ctr) io_ok).1)
    eq_refl eq_refl eq_refl eq_refl ltac:(range_done) eq_refl ltac:(intros n; apply repeat_length)
    ltac:(vm_compute; discriminate) ex_fresh_persists)
    as (rc & policy & written & payload & ctr & v' & acc & H1 & H2 & _ & _ & H3 & H4 & _).
  exists rc, policy, written, payload, ctr, v', acc, (persist_counters (with_counter ex_fresh ex_kid2 ctr) io_ok).1.
  split; [exact H1|]. split; [exact H2|]. split; [exact H3|exact H4].
Defined.

(** * Two commands in a row *)

Definition no_handshake : NoiseHandshake := {|
  HandshakeState := unit;
  build_initiator := fun _ _ _ => Some tt;
  build_responder := fun _ _ => None;
  get_remote_static := fun _ => None;
  hs_write := fun _ _ _ => None;
  hs_read := fun _ _ _ => None;
  into_transport_mode := fun _ => None |}.

#[local] Existing Instance no_handshake.

(** The clock stands still between the sessions. *)
Definition ex_sessions (n : nat) : session_io := {|
  ss_prompt := Some "pass"%string; ss_clock := Some ex_ts; ss_write := WrDone; ss_next_u32 := 7; ss_fill := ex_fill;
  ss_answers := true;
  ss_ephemeral := ex_eph;
  ss_net := {| ni_udp := true; ni_http := None; ni_now := ex_ts;
               ni_connect := Some {| rd_script := []; wr_script := []; sent := [] |} |} |}.
Definition ex_setup : setup_io := {|
  se_signing_key := ex_sk; se_first := None; se_second := None; se_fill := ex_salt; se_keypair := None;
  se_write_ok := fun _ => true; se_mkdir_ok := true; se_bind_ok := true; se_post := fun _ _ => None |}.
Definition ex_world : client_world := {|
  cw_files := fs_run ex_keygen.1 (fs_run ex_server_keygen.1 ∅); cw_sessions := 0; cw_effects := [] |}.

Definition ex_command : Command :=
  SendUdpSpa "keys/alice.key" "server.pub" {| sa_ip := V4 0xC0000201; sa_port := 62201 |} None.
Definition ex_counter_path : string := "keys/alice.counter".
Definition ex_world2 : client_world :=
  default ex_world (client_run ex_sessions ex_setup (fun _ => true) 0 ex_world [ex_command; ex_command]).

Lemma ex_uses : Forall (uses_counter ex_counter_path) [ex_command; ex_command].
Proof.
  assert (H : uses_counter ex_counter_path ex_command).
  { split; [apply not_elem_of_nil|]. intros p [= <-]. vm_done. }
  apply Forall_cons_2; [exact H|]. apply Forall_cons_2; [exact H|apply Forall_nil_2].
Qed.

(** [connect] after them: two local peers, of which the second asks for
    something else than CONNECT; the server is not reached. *)
Definition ex_connect : Command :=
  Connect None "keys/alice.key" (Some "server.pub"%string) (Some {| sa_ip := V4 0xC0000201; sa_port := 62201 |})
    (Some {| sa_ip := V4 0xC0000201; sa_port := 8443 |}) {| sa_ip := V4 0x7F000001; sa_port := 1080 |} None None 14400 None.
Definition ex_listening : list ResolvedConnectConfig * FailoverPolicy :=
  match client_main ex_sessions ex_setup (fun _ => true) 0 ex_world2 ex_connect with
  | Some (_, Ok (OutListening candidates policy _)) => (candidates, policy)
  | _ => ([], failover_policy_default)
  end.
Definition ex_peer (command : Socks5Command) : option local_peer :=
  Some {| lp_command := Some (command, Some [x01; x7f; x00; x00; x01; x00; x50]); lp_reply_ok := true;
          lp_stream := {| rd_script := []; wr_script := []; sent := [] |} |}.
Definition ex_turns : list turn :=
  [TuAccept (ex_peer TCPConnect); TuRefresh; TuLocal 0; TuAccept (ex_peer UDPAssociate); TuLocal 0; TuLocal 1]
  ++ repeat (TuLocal 0) 6.
Definition ex_listener_run (turns : list turn) : client_listener :=
  default (connect_listener_init ex_world2)
    (listener_run ex_sessions (fun _ => true) "keys/alice.key" None ex_listening.1 ex_listening.2 (fun _ _ l => l) (fun _ _ _ => None)
       turns (connect_listener_init ex_world2)).
Definition ex_listener : client_listener := ex_listener_run ex_turns.

Example ex_listener_done :
  map lc_phase (cl_locals ex_listener) = [LcDone (Err NeHandshake); LcDone (Err NeCommand)] /\ cl_lock ex_listener = None.
Proof. split; vm_done. Qed.

(** Two packets leave, and a third one in [connect], each with the next counter. *)
Lemma ex_lives_client : rtc (client_step ex_sessions (fun _ => true) ex_counter_path) ex_world (cl_world ex_listener).
Proof.
  apply (rtc_l _ _ ex_world2).
  - apply (client_commands _ _ _ ex_setup 0 [ex_command; ex_command]); [exact ex_uses|apply some_default; vm_done].
  - apply rtc_once, (client_connects ex_sessions (fun _ => true) ex_counter_path ex_setup 0 ex_world2 None "keys/alice.key"
      (Some "server.pub"%string) (Some {| sa_ip := V4 0xC0000201; sa_port := 62201 |}) (Some {| sa_ip := V4 0xC0000201; sa_port := 8443 |})
      {| sa_ip := V4 0x7F000001; sa_port := 1080 |} None None 14400 None ex_listening.1 ex_listening.2 7200
      (fun _ _ l => l) (fun _ _ _ => None) ex_turns); [vm_done|vm_done|apply some_default; vm_done].
Qed.

Lemma some_test {A} (o : option A) : match o with Some _ => true | None => false end = true -> is_Some o.
Proof. destruct o; [eauto|discriminate]. Qed.

Definition ex_effects : list client_effect := cw_effects (cl_world ex_listener).

Lemma ex_intact : intact ex_effects 0 4.
Proof.
  intros [|[|[|[|k]]]] p text Hk He; [| | | |lia].
  - assert (H : ex_effects !! 0%nat = Some (EffCounter ex_counter_path (counter_line ex_ts))) by vm_done. exists ex_ts. congruence.
  - assert (H : is_Some (ex_effects !! 1%nat ≫= packet_of)) by (by apply some_test; vm_done). rewrite He in H. by destruct H.
  - assert (H : ex_effects !! 2%nat = Some (EffCounter ex_counter_path (counter_line (ex_ts + 1)))) by vm_done.
    exists (ex_ts + 1). congruence.
  - assert (H : is_Some (ex_effects !! 3%nat ≫= packet_of)) by (by apply some_test; vm_done). rewrite He in H. by destruct H.
Qed.

(** The third packet's counter was written right before it, and is above the
    first one's. *)
Lemma client_counters_increase_witness :
  (exists payload b, ex_effects !! 5%nat ≫= packet_of = Some payload /\ carries b payload /\
    ex_effects !! 4%nat = Some (EffCounter ex_counter_path (counter_line b)) /\ (ex_ts < b \/ b = umax 64)) /\
  stored_counter (cw_files (cl_world ex_listener)) ex_counter_path = Some (ex_ts + 2).
Proof.
  destruct (client_counters_increase ex_sessions (fun _ => true) ex_counter_path ex_world (cl_world ex_listener) ex_lives_client)
    as (effects & He & Hp & Ha & _ & Hend).
  assert (Hfx : effects = ex_effects) by (unfold ex_effects; rewrite He; done). subst effects. split.
  - assert (Hk : is_Some (ex_effects !! 5%nat ≫= packet_of)) by (apply some_test; vm_done).
    destruct Hk as [payload Hk]. destruct (ex_effects !! 5%nat) as [e|] eqn:E5; [|done]. cbn [mbind option_bind] in Hk.
    destruct (Hp 5%nat e payload E5 Hk) as (j & b & Hj & H4 & Hb & Hc). injection Hj as <-.
    exists payload, b. split; [by rewrite <-Hk|]. split; [exact Hc|]. split; [exact H4|].
    apply (Ha 0%nat 4%nat ex_ts b); [lia|exact ex_intact|vm_done|range_done|exact H4|exact Hb].
  - apply (Hend 4%nat); [vm_done|range_done|]. intros p text Hin. vm_compute in Hin.
    apply list_elem_of_In in Hin. cbn in Hin. destruct Hin as [?|[?|[]]]; discriminate.
Defined.

(** The first peer's connection ended as it would have alone. *)
Definition ex_handled (l : client_listener) (i : nat) : local_conn :=
  default {| lc_command := None; lc_reply_ok := true; lc_stream := {| rd_script := []; wr_script := []; sent := [] |};
             lc_replies := []; lc_relay := None; lc_phase := LcAccepted |} (cl_locals l !! i).

Lemma local_connection_atomic_witness :
  exists w0 w1 active active' turns,
    handle_local_socks5 (connect_with_failover ex_sessions (fun _ => true) "keys/alice.key" None ex_listening.1 ex_listening.2
        (fun _ _ l => l) (fun _ _ _ => None) 0) (lc_command (ex_handled ex_listener 0)) true turns (lc_stream (ex_handled ex_listener 0))
      w0 active = (w1, active', [], Some (Err NeHandshake)).
Proof.
  pose proof (local_connection_atomic ex_sessions (fun _ => true) "keys/alice.key" None ex_listening.1 ex_listening.2
    (fun _ _ l => l) (fun _ _ _ => None) ex_world2 ex_turns ex_listener 0 (ex_handled ex_listener 0)) as H.
  assert (Hp : lc_phase (ex_handled ex_listener 0) = LcDone (Err NeHandshake)) by vm_done. rewrite Hp in H.
  destruct H as (w0 & w1 & active & active' & turns & _ & H); [|apply some_default; vm_done|apply some_default; vm_done|by exists w0, w1, active, active', turns].
  intros E. apply (f_equal length) in E. vm_compute in E. discriminate E.
Defined.

(** A torn write: of the counter that was due two digits are left, and with a
    clock that is behind the next knock goes on from there. *)
Example ex_counter_torn :
  next_counter (RdOk (counter_line 1784000000000)) 5 (WrTorn 2) = (Some "17"%string, Err CeCounterWrite) /\
  next_counter (RdOk "17") 5 WrDone = (Some (counter_line 18), Ok 18).
Proof. split; vm_done. Qed.

(** The same with servers that accept the connection and say nothing. *)
Definition ex_silent_sessions (n : nat) : session_io := {|
  ss_prompt := Some "pass"%string; ss_clock := Some ex_ts; ss_write := WrDone; ss_next_u32 := 7; ss_fill := ex_fill;
  ss_ephemeral := ex_eph; ss_net := ss_net (ex_sessions n); ss_answers := false |}.
Definition ex_silent : client_listener :=
  default (connect_listener_init ex_world2)
    (listener_run ex_silent_sessions (fun _ => true) "keys/alice.key" None ex_listening.1 ex_listening.2 (fun _ _ l => l)
       (fun _ _ _ => None) (take 9 ex_turns) (connect_listener_init ex_world2)).

(** The first peer's thread holds the lock, and gives it back; or it waits with
    the lock, and the refresh thread never gets it. *)
Lemma lock_given_back_witness :
  (exists n l', (n <= Z.to_nat (sat_add 32 (fp_max_retries ex_listening.2) 1) * turns_per_round ex_listening.1 + 1)%nat /\
    listener_run ex_sessions (fun _ => true) "keys/alice.key" None ex_listening.1 ex_listening.2 (fun _ _ l => l) (fun _ _ _ => None)
      (repeat (TuLocal 0) n) (ex_listener_run (take 6 ex_turns)) = Some l' /\ cl_lock l' = None) /\
  (forall later l', listener_run ex_silent_sessions (fun _ => true) "keys/alice.key" None ex_listening.1 ex_listening.2
      (fun _ _ l => l) (fun _ _ _ => None) later ex_silent = Some l' ->
    cl_lock l' = Some (HoldLocal 0) /\ cl_world l' = cl_world ex_silent).
Proof.
  split.
  - destruct (lock_given_back ex_sessions (fun _ => true) "keys/alice.key" None ex_listening.1 ex_listening.2
      (fun _ _ l => l) (fun _ _ _ => None) (fun _ _ l => Permutation_refl l) ex_world2 (take 6 ex_turns)
      (ex_listener_run (take 6 ex_turns)) (HoldLocal 0)) as [(n & l' & Hn & Hr & _ & Hnone) _];
      [apply some_default; vm_done|vm_done|vm_done|].
    exists n, l'. split; [exact Hn|]. split; [exact Hr|]. apply Hnone. reflexivity.
  - intros later l' Hr. destruct (lock_given_back ex_silent_sessions (fun _ => true) "keys/alice.key" None ex_listening.1 ex_listening.2
      (fun _ _ l => l) (fun _ _ _ => None) (fun _ _ l => Permutation_refl l) ex_world2 (take 9 ex_turns)
      ex_silent (HoldLocal 0)) as [_ H]; [apply some_default; vm_done|vm_done|vm_done|].
    edestruct H as (H1 & H2 & _); [|exact Hr|split; [exact H1|exact H2]].
    exists 0%nat. assert (Hc : is_Some (cl_locals ex_silent !! 0%nat)) by (apply some_test; vm_done).
    destruct Hc as [c Hc]. exists c.
    assert (Hu : match lc_phase c with LcHolding _ a => unanswered ex_silent_sessions a | _ => False end).
    { assert (Hb : (c0 ← cl_locals ex_silent !! 0%nat; match lc_phase c0 with
        LcHolding _ a => match at_trying a with TryAnswer _ _ _ _ _ _ => Some tt | _ => None end | _ => None end) = Some tt) by vm_done.
      rewrite Hc in Hb. cbn [mbind option_bind] in Hb. destruct (lc_phase c); try discriminate Hb.
      unfold unanswered. destruct (at_trying a); try discriminate Hb. reflexivity. }
    destruct (lc_phase c) as [| |address a| | | |] eqn:Hp; try destruct Hu. exists address, a.
    split; [reflexivity|]. split; [exact Hc|]. split; [reflexivity|exact Hu].
Defined.
