(* ===== verification/SessionExamples.v ===== *)
(** Worked instances for the proxy listener and a session of client and server: a
    handshake that only carries the keys, and a job list over the tunnel. *)

From S2P Require Import Prelude Text NetAddr Protocol Crypto Keys Seal SpaPacket Fs AuthKeys Verifier Replay Runtime Tunnel TunnelFacts.
From S2P Require Import RelayWire RelayEngine RelayTunnel ProxyListener ProxyListenerFacts.
From S2P Require Import Client ClientFacts ClientSetup ClientTunnel ClientTunnelFacts HttpsKnock RelaySession Examples RelayExamples ClientExamples.

#[local] Existing Instance toy_crypto.
#[local] Existing Instance toy_crypto_laws.
#[local] Existing Instance toy_toml.
#[local] Existing Instance toy_identity.
#[local] Existing Instance toy_relay_toml.
#[local] Existing Instance toy_url.
#[local] Existing Instance duplex_noise.
#[local] Existing Instance duplex_noise_laws.
#[local] Existing Instance duplex_laws.

(** * A handshake

    The state is the number of messages so far, the static public key, and the
    other side's once it is known; message 3 is the initiator's static key. *)
Definition toy_xk : NoiseHandshake := {|
  HandshakeState := nat * bytes * option bytes;
  build_initiator := fun private remote _ => Some (O, x25519_base private, Some remote);
  build_responder := fun private _ => Some (O, x25519_base private, None);
  hs_write := fun '(k, key, remote) _ _ => Some ((S k, key, remote), if (k =? 2)%nat then key else []);
  hs_read := fun '(k, key, remote) m _ => Some ((S k, key, if (k =? 2)%nat then Some m else remote), []);
  get_remote_static := snd;
  into_transport_mode := fun _ => Some (0, 0) |}.

Definition toy_xk_laws : NoiseXKLaws toy_crypto duplex_noise duplex_noise_laws toy_xk.
Proof.
  refine {| fresh := fun _ => True |}.
  - intros si sr prologue n _ _ _. do 16 eexists.
    repeat split; try reflexivity; try (cbn; lia). change (length (x25519_base si) <= 96)%nat. rewrite x25519_base_length. lia.
  - done.
  - intros t m n _ Hn _. cbn [write_message duplex_noise]. rewrite (proj2 (Nat.ltb_ge _ _)) by done. by eexists.
Defined.

#[local] Existing Instance toy_xk.
#[local] Existing Instance toy_xk_laws.

(** No SOCKS5. *)
Definition no_socks5 : Socks5Lib := {|
  accept_no_auth := fun s => (s, false);
  read_command := fun s => (s, None);
  resolve_dns := fun _ => None;
  reply_error := fun s _ => (s, false);
  run_tcp_proxy := fun s _ => (s, false) |}.

#[local] Existing Instance no_socks5.

(** * A relay request *)

Definition ex_fresh_loop : spa_loop := {|
  sl_runtime := sl_runtime ex_loop; sl_verifier := ex_fresh; sl_files := sl_files ex_loop |}.

Lemma ex_ready : ready_to_knock (sl_verifier ex_fresh_loop) ex_sk ex_alice ex_first_knock ex_io (ex_ts + 5) 100000000000.
Proof.
  split; try vm_done.
  - split; vm_done.
  - exists 0. split; [vm_compute; reflexivity|]. range_done.
  - exists ex_ts. split; [done|]. split; [range_done|]. vm_compute. discriminate.
  - intros k. apply repeat_length.
  - intros ctr Hctr. eexists. exact (ex_fresh_persists ctr Hctr).
Qed.

Definition ex_list : bytes := client_relay_request GHOST_RELAY_OP_LIST.
Definition ex_turn : turn_io := {| tu_timespec := Some (100, 5); tu_relay := ex_disk ex_now; tu_writes := [] |}.
Definition ex_spa_at : SocketAddr := {| sa_ip := V4 0xC0000201; sa_port := 62201 |}.
Definition ex_proxy_at : SocketAddr := {| sa_ip := V4 0xC0000201; sa_port := 8443 |}.

(** The job list after a submission. *)
Definition ex_listed : bytes := (dispatch relay_config_default (ex_disk ex_now) ex_submitted.1 ex_kid2 ex_list).2.

Lemma relay_request_end_to_end_witness :
  exists s2c effects, forall l, clean l -> script_bytes l = s2c ->
    run_relay_request ex_first_knock (reachable (open_socket l [])) "keys/alice.counter" (RdOk ex_server_pub) ex_spa_at ex_proxy_at
      TransportUdp None ex_list = (effects, Ok ex_listed).
Proof.
  destruct (relay_request_end_to_end relay_config_default ex_ttl ex_fresh_loop ex_sk ex_alice ex_first_knock ex_io (ex_ts + 5) 100000000000
    ex_src "keys/alice.counter" (RdOk ex_server_pub) ex_spa_at ex_proxy_at None ex_list ex_ready) as (written & payload & sl' & _ & H).
  - vm_done.
  - eexists. reflexivity.
  - apply Nat.leb_le. vm_done.
  - pose (lis := {| li_sources := allowed_sources (sl_runtime sl'); li_sessions := ∅; li_relay := ex_submitted.1; li_conns := [] |} : listener).
    destruct (H lis 0%nat 100000000005 ex_turn ex_turn ex_turn ex_turn
      (dispatch relay_config_default (ex_disk ex_now) ex_submitted.1 ex_kid2 ex_list).1 ex_listed)
      as (c2s & s2c & lis' & _ & _ & _ & _ & Hc).
    + reflexivity.
    + reflexivity.
    + range_done.
    + discriminate.
    + reflexivity.
    + vm_done.
    + vm_compute. reflexivity.
    + apply surjective_pairing.
    + apply Nat.leb_le. vm_done.
    + exists s2c. eexists. intros l Hl Hs. exact (proj2 (Hc l Hl Hs)).
Defined.

(** * Sessions *)

Definition ex_entry : AllowedSource := {|
  as_entry := {| expiry_ns := 200000000000; ae_key_id := ex_kid2; ae_client_id := 1 |};
  as_noise_public_key := derive_noise_static_public_key ex_sk; as_max_concurrent_sessions := Some 1 |}.

(** What the client sends in the handshake of [toy_xk]: an empty frame and its key. *)
Definition ex_hello : bytes := [x00; x00; x00; x20] ++ derive_noise_static_public_key ex_sk.
Definition ex_accepting : listener :=
  listener_accept (listener_start {[ex_src := ex_entry]} ex_empty) (Some ex_src) ex_hello.
Definition ex_handshaking : listener := default ex_accepting (conn_turn relay_config_default ex_private ex_turn ex_accepting 0).

(** The client's first connection is granted; it is the only one its cap allows. *)
Lemma sessions_within_cap_witness :
  exists l c, conn_turn relay_config_default ex_private ex_turn ex_handshaking 0 = Some l /\ li_conns l !! 0%nat = Some c /\
    holding c = Some ex_kid2 /\ below_cap (Some 1) (serving ex_kid2 (li_conns l)) = false.
Proof.
  assert (Hrun : listen_run relay_config_default ex_private (fun _ _ => False) (fun _ _ => False) 16
    (listener_start {[ex_src := ex_entry]} ex_empty)
    ([] ++ [LeQuiet] ++ [turn_event ex_turn ex_accepting ex_handshaking 0]) ex_handshaking).
  { rewrite app_assoc. eapply listen_snoc; [eapply listen_snoc; [apply listen_nil|]|].
    - apply listen_accept. cbn. lia.
    - apply listen_turn. reflexivity. }
  destruct (sessions_within_cap relay_config_default ex_private (fun _ _ => False) (fun _ _ => False) 16 ltac:(range_done) _ _ _ _ Hrun)
    as (_ & _ & _ & H).
  destruct (H ex_turn 0%nat (to_phase {| cn_peer := Some ex_src; cn_input := ex_hello; cn_sent := []; cn_phase := CnNew |} ex_hello []
    (CnHandshake ex_entry)) ex_entry [x00; x00] (3%nat, x25519_base ex_private, Some (derive_noise_static_public_key ex_sk)) []
    eq_refl eq_refl ltac:(vm_done) eq_refl ltac:(intros m [= <-]; done)) as (l & c & Hl & Hc & Hp).
  exists l, c. split; [exact Hl|]. split; [exact Hc|].
  assert (Hb : below_cap (as_max_concurrent_sessions ex_entry) (serving (ae_key_id (as_entry ex_entry)) (li_conns ex_handshaking)) = true) by vm_done.
  rewrite Hb in Hp. split; [unfold holding; rewrite Hp; reflexivity|].
  assert (El : l = default ex_accepting (conn_turn relay_config_default ex_private ex_turn ex_handshaking 0)) by (rewrite Hl; reflexivity).
  rewrite El. vm_done.
Defined.
