(* ===== verification/XtaskExamples.v ===== *)
(** Worked instances of the build tasks: a run of a smoke test, the server that
    the listener test leaves, the fixture as a deployment, and its page. *)

From S2P Require Import Prelude Text Protocol Crypto Keys Seal SpaPacket Fs AuthKeys Verifier Replay Runtime Tunnel Decoy RelayWire.
From S2P Require Import RelayEngine Normalize Config Startup Client ClientFacts ClientSetup ClientSetupFacts ClientTunnel.
From S2P Require Import Xtask XtaskSmoke XtaskFacts XtaskDeploy Examples RelayExamples WebExamples ClientExamples.

#[local] Existing Instance toy_crypto.
#[local] Existing Instance toy_crypto_laws.
#[local] Existing Instance toy_toml.
#[local] Existing Instance toy_toml_laws.
#[local] Existing Instance toy_identity.
#[local] Existing Instance toy_identity_laws.

(** * Runs *)

(** Each step takes a millisecond; processes print [out]; a server writes its key
    in the step [key_at]; children are started in the steps [starts]. *)
Definition ex_xt_env (out : string) (key_at : nat) (starts : nat -> bool) : xt_env := {|
  xe_tick := fun _ => millis 1;
  xe_files := fun n s => if (n =? key_at)%nat then <["/tmp/ghost-smoke-server-noise.pub" := "key"]> s else s;
  xe_output := fun _ _ => Some {| po_success := true; po_stdout := str_bytes out; po_stderr := [] |};
  xe_spawn := starts;
  xe_try_wait := fun _ => Some None;
  xe_kill := fun _ => true;
  xe_reap := fun _ => Some {| po_success := false; po_stdout := str_bytes out; po_stderr := [] |};
  xe_write := fun _ => true;
  xe_bind := fun _ => true;
  xe_connect := fun _ => None;
  xe_accept := fun _ => None;
  xe_signing_key := fun _ => ex_sk;
  xe_returns := fun _ => true |}.

Definition ex_smoke_log : string :=
  "SPA_ACCEPT ALLOW_MAP_WRITE NOISE_ACCEPT NOISE_FRAME_DECRYPTED NOISE_HANDSHAKE_COMPLETE NOISE_FRAME_ROUND_TRIP hello ghost".
Definition ex_xt_world : xt_world := {| xw_files := ∅; xw_now := 0; xw_step := 0; xw_trace := [] |}.
Definition ex_smoke : XtaskCommand :=
  let '(prefix, keys, config, key) := smoke_defaults "smoke" in
  SmokeNoiseLoopback prefix keys config key default_spa_port default_proxy_port "lo" "127.0.0.1:8080" "hello ghost" true.
Definition ex_listener_smoke : XtaskCommand :=
  let '(prefix, keys, config, key) := smoke_defaults "smoke" in
  SmokeSocks5ListenerLoopback prefix keys config key default_spa_port default_proxy_port default_socks_port default_target_port
    "lo" "127.0.0.1:8080" "hello ghost" true.

(** The result, what is left running, and whether the test passed. *)
Definition ex_result (o : option (xt_world * result XtaskError unit)) : option (list nat * bool) :=
  (fun '(w, r) => (running (xw_trace w), is_ok r)) <$> o.

Example ex_smoke_passes :
  ex_result (xtask_main (ex_xt_env ex_smoke_log 60 (fun _ => true)) 201 ex_smoke ex_xt_world) = Some ([], true).
Proof. vm_compute. reflexivity. Qed.

Example ex_smoke_gives_up :
  ex_result (xtask_main (ex_xt_env ex_smoke_log 2000 (fun _ => true)) 201 ex_smoke ex_xt_world) = Some ([], false).
Proof. vm_compute. reflexivity. Qed.

(** The client of the listener test cannot be started, and its server stays. *)
Example ex_listener_leaves_server :
  ex_result (xtask_main (ex_xt_env ex_smoke_log 40 (fun n => n <? 40)%nat) 201 ex_listener_smoke ex_xt_world) = Some ([17%nat], false).
Proof. vm_compute. reflexivity. Qed.

Lemma ex_result_left w r l b : ex_result (Some (w, r)) = Some (l, b) -> running (xw_trace w) = l.
Proof. intros H. by injection H. Qed.

(** A server that runs through [sudo] and that the test must not kill. *)
Definition ex_unkillable : xt_env := {|
  xe_tick := fun _ => millis 1; xe_files := fun _ s => s; xe_output := xe_output (ex_xt_env ex_smoke_log 2000 (fun _ => true));
  xe_spawn := fun _ => true; xe_try_wait := fun _ => Some None; xe_kill := fun _ => false; xe_reap := fun _ => None;
  xe_write := fun _ => true; xe_bind := fun _ => true; xe_connect := fun _ => None; xe_accept := fun _ => None;
  xe_signing_key := fun _ => ex_sk;
  xe_returns := fun _ => true |}.

Example ex_smoke_leaves_unkillable : exists server, ex_result (xtask_main ex_unkillable 201 ex_smoke ex_xt_world) = Some ([server], false).
Proof. eexists. vm_compute. reflexivity. Qed.

(** A test that waits for a server that never writes its key, and kills it, or
    fails to. *)
Lemma tasks_end_clean_witness :
  (exists w' r, xtask_main (ex_xt_env ex_smoke_log 2000 (fun _ => true)) 201 ex_smoke ex_xt_world = Some (w', r) /\
     Forall (lost (xw_trace w')) (running (xw_trace w'))) /\
  (exists w' r server, xtask_main ex_unkillable 201 ex_smoke ex_xt_world = Some (w', r) /\
     running (xw_trace w') = [server] /\ lost (xw_trace w') server).
Proof.
  split.
  - destruct (tasks_end_clean (ex_xt_env ex_smoke_log 2000 (fun _ => true)) 201 ex_smoke ex_xt_world (fun _ => eq_refl)
      ltac:(intros n; vm_compute; discriminate) ltac:(lia) eq_refl) as (w' & r & H & [Hr|Hr]).
    + exists w', r. by split.
    + destruct Hr as (? & ? & ? & ? & ? & ? & ? & ? & ? & ? & ? & ? & ? & ? & Hc & _). vm_compute in Hc. discriminate Hc.
  - destruct (tasks_end_clean ex_unkillable 201 ex_smoke ex_xt_world (fun _ => eq_refl)
      ltac:(intros n; vm_compute; discriminate) ltac:(lia) eq_refl) as (w' & r & H & [Hr|Hr]).
    + destruct ex_smoke_leaves_unkillable as [server Hs]. rewrite H in Hs. apply ex_result_left in Hs.
      exists w', r, server. rewrite Hs in Hr. apply Forall_cons_1 in Hr as [Hr _].
      split; [exact H|]. split; [exact Hs|exact Hr].
    + destruct Hr as (? & ? & ? & ? & ? & ? & ? & ? & ? & ? & ? & ? & ? & ? & Hc & _). vm_compute in Hc. discriminate Hc.
Defined.

(** * The fixture as a deployment *)

#[local] Existing Instance toy_http.
#[local] Existing Instance toy_http_laws.

Definition ex_xt_config (sudo : bool) : SmokeNoiseConfig := {|
  sm_identity_prefix := "/tmp/ghost-relay-debug"; sm_authorized_keys := "/tmp/ghost-relay-authorized.toml";
  sm_server_config := "/tmp/ghost-relay-server.toml"; sm_server_noise_key := "/tmp/ghost-relay-server-noise.key";
  sm_spa_port := default_spa_port; sm_proxy_port := default_proxy_port; sm_iface := "lo"; sm_decoy_bind := "127.0.0.1:8080";
  sm_message := "hello ghost relay"; sm_use_sudo := sudo |}.
Definition ex_quiet : xt_env := ex_xt_env "" 2000 (fun _ => true).
Definition ex_disk : xt_env := {|
  xe_tick := xe_tick ex_quiet; xe_files := fun _ s => s; xe_output := xe_output ex_quiet; xe_spawn := xe_spawn ex_quiet;
  xe_try_wait := xe_try_wait ex_quiet; xe_kill := xe_kill ex_quiet; xe_reap := xe_reap ex_quiet; xe_write := fun _ => true;
  xe_bind := xe_bind ex_quiet; xe_connect := xe_connect ex_quiet; xe_accept := xe_accept ex_quiet; xe_signing_key := fun _ => ex_sk;
  xe_returns := fun _ => true |}.
Abbreviation ex_cfg := (ex_xt_config true).
Abbreviation ex_fixture_run :=
  (write_loopback_fixture ex_disk (sm_identity_prefix ex_cfg) (sm_authorized_keys ex_cfg) (sm_server_config ex_cfg)
     (sm_server_noise_key ex_cfg) (sm_spa_port ex_cfg) (sm_proxy_port ex_cfg) ex_xt_world).
Definition ex_fixture_world : xt_world := default ex_xt_world (fst <$> ex_fixture_run).
Definition ex_fixture_paths : LoopbackFixture :=
  fixture_paths "/tmp/ghost-relay-debug" "/tmp/ghost-relay-authorized.toml" "/tmp/ghost-relay-server.toml" "/tmp/ghost-relay-server-noise.key".
Definition ex_fixture_counters : string := "/tmp/ghost-relay-server.counters.toml".

Definition ex_fixture_toml (s : string) : option ServerConfig :=
  if bool_decide (s = server_config_text "/tmp/ghost-relay-server-noise.key" ex_fixture_counters "/tmp/ghost-relay-authorized.toml" 5353 8443)
  then Some (fixture_config "/tmp/ghost-relay-server-noise.key" ex_fixture_counters "/tmp/ghost-relay-authorized.toml" 5353 8443) else None.
Definition ex_fixture_keys (s : string) : option (list AuthorizedClientConfig) :=
  if bool_decide (s = authorized_keys_text ex_sk) then Some [keygen_entry ex_sk] else None.

Definition ex_fixture_boot : boot_env := {|
  be_files := xw_files ex_fixture_world; be_unreadable := fun _ => false;
  be_var := process_var (server_process (ex_xt_config true) ex_fixture_paths); be_level := fun _ => true;
  be_log_dirs := true; be_log_open := true; be_canonical := fun _ => None;
  be_generated := (ex_private, x25519_base ex_private); be_id_write := (true, true);
  be_ebpf := {| eb_load := true; eb_config_map := true; eb_config_set := true; eb_program := true;
                eb_program_load := true; eb_attach := true; eb_allow_map := true; eb_ring := true |} |}.

Definition ex_fixture_knock : knock_input := {|
  ki_identity := read_file (xw_files ex_fixture_world) "/tmp/ghost-relay-debug.key"; ki_prompt := None;
  ki_clock := Some ex_ts; ki_counter := read_file (xw_files ex_fixture_world) "/tmp/ghost-relay-debug.counter";
  ki_write := WrDone; ki_next_u32 := 7; ki_fill := ex_fill; ki_ephemeral := ex_eph |}.
Definition ex_fixture_verifier : SpaVerifier := from_counters [ex_alice] 300 ∅ (Some ex_fixture_counters) ex_private.

Lemma ex_fixture_persists ctr :
  0 <= ctr <= i64_max ->
  persist_counters (with_counter ex_fixture_verifier ex_kid2 ctr) io_ok
  = ((persist_counters (with_counter ex_fixture_verifier ex_kid2 ctr) io_ok).1, Ok tt).
Proof.
  intros [_ Hc]. unfold persist_counters. cbn [counter_state_path with_counter ex_fixture_verifier from_counters].
  unfold save_counter_state.
  assert (He : is_Some (toml_counters_encode (kmap key_id_hex (highest_counters (with_counter ex_fixture_verifier ex_kid2 ctr)) : gmap string Z))).
  { apply toml_counters_total.
    change (highest_counters (with_counter ex_fixture_verifier ex_kid2 ctr)) with (<[ex_kid2 := ctr]> (∅ : gmap bytes Z)).
    rewrite kmap_insert, kmap_empty by apply _. apply map_Forall_insert_2; [exact Hc|apply map_Forall_empty]. }
  destruct He as [s ->]. reflexivity.
Qed.

Lemma ex_fixture_writes : ex_fixture_run = Some (ex_fixture_world, Ok ex_fixture_paths).
Proof.
  assert (H : snd <$> ex_fixture_run = Some (Ok ex_fixture_paths)) by vm_done. unfold ex_fixture_world. by apply run_result.
Qed.

(** The key and the files of the fixture, as the theorem names them. *)
Abbreviation ex_fixture_sk := (xe_signing_key ex_disk (xw_step ex_xt_world)).
Abbreviation ex_fixture_clients := (match into_clients [keygen_entry ex_fixture_sk] with Ok cs => cs | Err _ => [] end).
Abbreviation ex_fixture_v :=
  (from_counters ex_fixture_clients 300 ∅ (Some (server_counter_state (sm_server_config ex_cfg))) ex_private).

Lemma ex_fixture_distinct :
  NoDup ((identity_files ex_fixture_paths ex_fixture_sk).*1
         ++ [sm_server_config ex_cfg; server_counter_state (sm_server_config ex_cfg); sm_server_noise_key ex_cfg;
             public_key_path (sm_server_noise_key ex_cfg)]).
Proof. apply (bool_decide_unpack _). vm_compute. exact Logic.I. Qed.

Lemma ex_counters_path : server_counter_state (sm_server_config ex_cfg) = ex_fixture_counters.
Proof. vm_done. Qed.

Lemma ex_fixture_toml_parses :
  ex_fixture_toml (server_config_text (sm_server_noise_key ex_cfg) (server_counter_state (sm_server_config ex_cfg))
    (sm_authorized_keys ex_cfg) (sm_spa_port ex_cfg) (sm_proxy_port ex_cfg))
  = Some (fixture_config (sm_server_noise_key ex_cfg) (server_counter_state (sm_server_config ex_cfg))
      (sm_authorized_keys ex_cfg) (sm_spa_port ex_cfg) (sm_proxy_port ex_cfg)).
Proof. rewrite ex_counters_path. unfold ex_fixture_toml. by rewrite bool_decide_eq_true_2. Qed.

Lemma ex_fixture_keys_parse : ex_fixture_keys (authorized_keys_text ex_fixture_sk) = Some [keygen_entry ex_fixture_sk].
Proof. unfold ex_fixture_keys. by rewrite bool_decide_eq_true_2. Qed.

Lemma ex_fixture_v_eq : ex_fixture_v = ex_fixture_verifier.
Proof.
  assert (H : into_clients [keygen_entry ex_fixture_sk] = Ok [ex_alice]) by vm_done. rewrite H, ex_counters_path. reflexivity.
Qed.

Lemma ex_fixture_v_persists ctr :
  0 <= ctr <= i64_max ->
  persist_counters (with_counter ex_fixture_v (key_id_for_public_key (ed_verifying_key ex_fixture_sk)) ctr) io_ok
  = ((persist_counters (with_counter ex_fixture_verifier ex_kid2 ctr) io_ok).1, Ok tt).
Proof. rewrite ex_fixture_v_eq. apply ex_fixture_persists. Qed.

Lemma ex_fixture_starts :
  starts (server_process (ex_xt_config true) ex_fixture_paths) (xw_files ex_fixture_world) ex_private ex_fixture_boot.
Proof. split; [reflexivity|reflexivity|reflexivity|split; reflexivity|reflexivity|reflexivity]. Qed.

Lemma ex_fixture_identity : ki_identity ex_fixture_knock = read_file (xw_files ex_fixture_world) (fx_key_path ex_fixture_paths).
Proof. cbn [ki_identity ex_fixture_knock]. by f_equal. Qed.

Lemma ex_fixture_counter :
  ki_counter ex_fixture_knock = read_file (xw_files ex_fixture_world) (counter_path None (fx_key_path ex_fixture_paths)).
Proof. cbn [ki_counter ex_fixture_knock]. by f_equal. Qed.

Lemma fixture_deploys_witness :
  exists effects server gate written payload ctr v' acc ops,
    boot ex_fixture_toml ex_fixture_keys ex_fixture_boot (server_cli (ex_xt_config true)) = (effects, Ok server) /\
    sr_gate server = Some gate /\
    spa_payload Udp ex_fixture_knock (server_static_pubkey (gt_verifier gate)) = (Some written, Ok (payload, ctr)) /\
    verify (gt_verifier gate) io_ok payload ex_src (ex_ts + 5) = (v', ops, Ok acc).
Proof.
  destruct (fixture_deploys ex_disk ex_fixture_toml ex_fixture_keys (ex_xt_config true) ex_xt_world ex_fixture_world ex_fixture_paths
    ex_private ex_fixture_boot ex_fixture_knock io_ok ex_src (ex_ts + 5) ex_ts
    (fun ctr => (persist_counters (with_counter ex_fixture_verifier ex_kid2 ctr) io_ok).1))
    as (effects & server & gate & written & payload & ctr & v' & acc & H1 & H2 & _ & _ & Hgv & _ & H3 & H4 & _).
  - reflexivity.
  - reflexivity.
  - exact ex_fixture_writes.
  - exact ex_fixture_distinct.
  - discriminate.
  - vm_compute. discriminate.
  - reflexivity.
  - exact ex_fixture_keys_parse.
  - exact ex_fixture_toml_parses.
  - exact ex_fixture_starts.
  - exact ex_fixture_identity.
  - exact ex_fixture_counter.
  - reflexivity.
  - range_done.
  - reflexivity.
  - intros n. apply repeat_length.
  - vm_compute. discriminate.
  - exact ex_fixture_v_persists.
  - rewrite <-Hgv in H3. exists effects, server, gate, written, payload, ctr, v', acc, (persist_counters (with_counter ex_fixture_verifier ex_kid2 ctr) io_ok).1.
    split; [exact H1|]. split; [exact H2|]. split; [exact H3|exact H4].
Defined.

(** * The page *)

(** What the relay makes of the fixture's page is what the smoke test compares
    the download with; the page itself has the message. *)
Example fixture_page_expected :
  trim (normalize_html (str_bytes (fixture_page "hello ghost relay"))) = str_bytes "# hello ghost relay" /\
  contains_sub (str_bytes "hello ghost relay") (str_bytes (fixture_page "hello ghost relay")) = true.
Proof. vm_compute. done. Qed.

(** The job id and the status are found in what the client prints. *)
Example relay_output_parsed :
  parse_job_id (str_bytes ("GHOST_RELAY_JOB_SUBMITTED job_id=0123abcd" +:+ nl +:+ "done")) = Ok (str_bytes "0123abcd") /\
  listed_status (str_bytes "0123abcd") (str_bytes ("GHOST_RELAY_JOBS" +:+ nl) ++ str_bytes ("0123abce" +:+ tab +:+ "web" +:+ tab +:+ "failed" +:+ nl)
    ++ str_bytes ("0123abcd" +:+ tab +:+ "web" +:+ tab +:+ "complete" +:+ tab +:+ "200" +:+ nl)) = Some (str_bytes "complete").
Proof. vm_compute. done. Qed.
