(* ===== verification/ServerExamples.v ===== *)
(** A worked run of the whole server: it starts, takes a knock from the wire, and
    gives the knocking client's connection a session. *)

From S2P Require Import Prelude Text NetAddr Protocol Crypto Keys Seal SpaPacket Fs AuthKeys Verifier Xdp XdpFacts Runtime Tunnel Decoy System.
From S2P Require Import RelayWire RelayEngine Config Startup RelayTunnel ProxyListener ServerMain ServerFacts ServerGate Stealth.
From S2P Require Import Examples TunnelExamples RelayExamples WebExamples ClientExamples SessionExamples.

#[local] Existing Instance toy_crypto.
#[local] Existing Instance toy_toml.
#[local] Existing Instance toy_http.
#[local] Existing Instance toy_relay_toml.
#[local] Existing Instance toy_url.
#[local] Existing Instance duplex_noise.
#[local] Existing Instance toy_xk.
#[local] Existing Instance no_socks5.

Definition ex_started : option (Server * Gate * bytes) :=
  match ex_boot.2 with
  | Ok srv => g ← sr_gate srv; key ← to_option (gt_listener_key g); Some (srv, g, key)
  | Err _ => None
  end.

(** The answer to a refused method. *)
Definition ex_refused : Response := {| rsp_status := 405; rsp_headers := []; rsp_body := [] |}.

(** A knock's frame, the event loop's turn, and a connection up to its session. *)
Definition ex_server_acts : list server_act :=
  [SaFrame (ex_env ex_udp 99000000000) 4096 ex_udp; SaRing ex_io; SaAccept (Some (Some ex_src, ex_hello));
   SaTurn ex_turn 0; SaTurn ex_turn 0].

(** The same knock as a request to the decoy. *)
Definition ex_posted : Request := {|
  rq_method := POST; rq_path := "/api/v1/telemetry"; rq_peer := V4 ex_src; rq_forwarded_for := None; rq_body := ex_wire |}.
Definition ex_web : serve_env := {|
  sv_fs := {| fs_canonicalize := fun _ => None; fs_read := fun _ => None |}; sv_date := "now"; sv_pid := 7; sv_nanos := Some 1 |}.
Definition ex_server_acts_https : list server_act :=
  [SaRequest ex_web ex_posted; SaHttps ex_io; SaAccept (Some (Some ex_src, ex_hello)); SaTurn ex_turn 0; SaTurn ex_turn 0].

Definition ex_server_run (acts : list server_act) : option (list server_event * server_state) :=
  '(srv, g, key) ← ex_started;
  server_exec LittleEndian ex_keys ex_refused 1024 key g (sr_decoy srv) (server_start g ex_empty) acts.

(** Who has a session after a run. *)
Definition ex_sessions (acts : list server_act) : option (list (option KeyId)) :=
  (fun r => holding <$> li_conns (ss_proxy r.2)) <$> ex_server_run acts.

(** Either way the client has its session; without the knock, or when the server
    has stopped in between, it has none. *)
Example ex_knock_by_udp : ex_sessions ex_server_acts = Some [Some ex_kid2].
Proof. vm_done. Qed.
Example ex_knock_by_https : ex_sessions ex_server_acts_https = Some [Some ex_kid2].
Proof. vm_done. Qed.
Example ex_no_knock : ex_sessions [SaAccept (Some (Some ex_src, ex_hello)); SaTurn ex_turn 0] = Some [None].
Proof. vm_done. Qed.
Example ex_stopped : ex_sessions [SaFrame (ex_env ex_udp 99000000000) 4096 ex_udp; SaStop; SaRing ex_io] = None.
Proof. vm_done. Qed.

Lemma ex_server_acts_ok : Forall server_act_ok ex_server_acts.
Proof.
  destruct ex_frames_ok as (H1 & H2 & _ & _).
  apply Forall_cons. split; [refine (conj _ (conj H1 (conj (ex_env_wf _ _) H2))); lia|].
  by repeat (apply Forall_cons; split; [exact I|]).
Qed.

Lemma ex_started_eq :
  match ex_started with
  | Some (srv, g, key) => ex_boot.2 = Ok srv /\ sr_gate srv = Some g /\ gt_listener_key g = Ok key
  | None => False
  end.
Proof.
  assert (H : match ex_started with Some _ => true | None => false end = true) by vm_done. unfold ex_started in *.
  destruct (ex_boot.2) as [srv|] eqn:Eb; [|discriminate H]. destruct (sr_gate srv) as [g|] eqn:Eg; [|discriminate H].
  cbn in H |- *. destruct (gt_listener_key g) as [key|] eqn:Ek; [|discriminate H]. cbn. by split_and!.
Qed.

(** The session's knock is the second event of this run. *)
Lemma sessions_trace_back_witness :
  exists h st src payload accept opened_at (j : nat), ex_server_run ex_server_acts = Some (h, st) /\
    h !! j = Some (SvGate (EvKnock src payload accept opened_at)) /\ acc_key_id accept = ex_kid2.
Proof.
  pose proof ex_started_eq as Hs. pose proof ex_knock_by_udp as Hu. unfold ex_sessions in Hu.
  destruct (ex_server_run ex_server_acts) as [[h st]|] eqn:Hrun; [|discriminate Hu]. cbn in Hu.
  assert (Hc : exists c, li_conns (ss_proxy st) !! 0%nat = Some c /\ holding c = Some ex_kid2).
  { destruct (li_conns (ss_proxy st)) as [|c l]; [discriminate Hu|]. exists c. split; [reflexivity|]. cbn in Hu. injection Hu as Hu _. exact Hu. }
  destruct Hc as (c & Hi & Hh). exists h, st. unfold ex_server_run in Hrun. destruct ex_started as [[[srv g] key]|]; [|done].
  cbn [mbind option_bind] in Hrun. destruct Hs as (Hb & Hg & Hk).
  destruct (sessions_trace_back LittleEndian (fun _ => Some ex_server_config) ex_keys ex_refused 1024 ex_boot_env ex_cli ex_boot.1 srv g key
    ex_empty ex_server_acts h st 0 c ex_kid2) as (src & payload & accept & opened & _ & _ & j & _ & _ & _ & _ & Hj & _ & Hkid & _);
    [reflexivity|by rewrite <-Hb; apply surjective_pairing|exact Hg|exact Hk|exact ex_server_acts_ok|exact Hrun|exact Hi|exact Hh|].
  exists src, payload, accept, opened, j. split; [reflexivity|]. split; [exact Hj|exact Hkid].
Defined.

(** The session's connection is admitted in the fourth event, and a later frame of
    the client passes in the fifth. *)
Definition ex_passing_acts : list server_act :=
  [SaFrame (ex_env ex_udp 99000000000) 4096 ex_udp; SaRing ex_io; SaAccept (Some (Some ex_src, ex_hello));
   SaTurn ex_turn 0; SaFrame (ex_env ex_tcp 101000000000) 4096 ex_tcp].

Definition ex_admits (r : option (list server_event * server_state)) : bool :=
  match r with
  | Some (h, _) => match h !! 3%nat with Some (SvProxy (LeAdmit _ _ _ _)) => true | _ => false end
  | None => false
  end.
Definition ex_passes (r : option (list server_event * server_state)) : option (Z * Z) :=
  match r with
  | Some (h, _) => match h !! 4%nat with Some (SvFrame _ _ (EvPass src now)) => Some (src, now) | _ => None end
  | None => None
  end.

Example ex_run_admits : ex_admits (ex_server_run ex_passing_acts) = true.
Proof. vm_done. Qed.
Example ex_run_passes : ex_passes (ex_server_run ex_passing_acts) = Some (ex_src, 101000000000).
Proof. vm_done. Qed.
Example ex_turn_clock : monotonic_now_ns (tu_timespec ex_turn) = Ok 100000000005.
Proof. vm_done. Qed.

Lemma ex_passing_acts_ok : Forall server_act_ok ex_passing_acts.
Proof.
  destruct ex_frames_ok as (H1 & H2 & H3 & H4).
  apply Forall_cons. split; [refine (conj _ (conj H1 (conj (ex_env_wf _ _) H2))); lia|].
  do 3 (apply Forall_cons; split; [exact I|]). apply Forall_cons.
  split; [refine (conj _ (conj H3 (conj (ex_env_wf _ _) H4))); lia|apply Forall_nil_2].
Qed.

Lemma only_enrolled_served_witness :
  exists h st before e, ex_server_run ex_passing_acts = Some (h, st) /\
    ALLOW_MAP (ss_maps before) !! ex_src = Some e /\ 101000000000 < expiry_ns e /\ enrolled (ss_verifier before) (ae_key_id e).
Proof.
  pose proof ex_started_eq as Hs. pose proof ex_run_passes as Hp.
  destruct (ex_server_run ex_passing_acts) as [[h st]|] eqn:Hrun; [|discriminate Hp]. exists h, st.
  unfold ex_passes in Hp. destruct (h !! 4%nat) as [[pkt act ev| | | |]|] eqn:Hj; try discriminate Hp.
  destruct ev as [|src now| |]; try discriminate Hp. injection Hp as -> ->.
  unfold ex_server_run in Hrun. destruct ex_started as [[[srv g] key]|]; [|done].
  cbn [mbind option_bind] in Hrun. destruct Hs as (Hb & Hg & _).
  destruct (only_enrolled_served LittleEndian (fun _ => Some ex_server_config) ex_keys ex_refused 1024 ex_boot_env ex_cli ex_boot.1 srv g key
    ex_empty ex_passing_acts h st) as [_ Hpass]; [by rewrite <-Hb; apply surjective_pairing|exact Hg|exact ex_passing_acts_ok|exact Hrun|].
  destruct (Hpass 4%nat pkt act ex_src 101000000000 Hj) as (before & e & _ & He).
  - intros io i t Hin Ht. unfold ex_passing_acts in Hin. cbn [take] in Hin.
    apply list_elem_of_In in Hin. destruct Hin as [Hin|[Hin|[Hin|[Hin|[]]]]]; try discriminate Hin.
    injection Hin as <- _. rewrite ex_turn_clock in Ht. injection Ht as <-. lia.
  - by exists before, e.
Defined.

(** A run in which nobody knocks. *)
Definition ex_stranger_acts : list server_act :=
  [SaFrame (ex_env ex_tcp 5) 4096 ex_tcp; SaRequest ex_web ex_posted; SaAccept (Some (Some ex_src, ex_hello)); SaTurn ex_turn 0].

Definition ex_is_knock (ev : server_event) : bool := match ev with SvGate (EvKnock _ _ _ _) => true | _ => false end.
Definition ex_quiet_run (r : option (list server_event * server_state)) : bool :=
  match r with Some (h, st) => forallb (fun ev => negb (ex_is_knock ev)) h && (0 <? length (li_conns (ss_proxy st)))%nat | None => false end.

Example ex_nobody_knocks : ex_quiet_run (ex_server_run ex_stranger_acts) = true.
Proof. vm_done. Qed.

(** What the strangers of the run see. *)
Definition ex_seen : option (xdp_action * Response) :=
  (fun '(srv, g, _) => (stranger_verdict (gt_bpf g) ex_tcp,
     (serve ex_refused (sr_decoy srv) ex_web {| ch_queue := []; ch_closed := false |} ex_posted).2)) <$> ex_started.
Example ex_seen_eq : (fun p => (p.1, rsp_status p.2)) <$> ex_seen = Some (XDP_DROP, 204).
Proof. vm_done. Qed.

Lemma ex_stranger_acts_ok : Forall server_act_ok ex_stranger_acts.
Proof.
  destruct ex_frames_ok as (_ & _ & H3 & H4).
  apply Forall_cons. split; [refine (conj _ (conj H3 (conj (ex_env_wf _ _) H4))); lia|].
  by repeat (apply Forall_cons; split; [exact I|]).
Qed.

Lemma strangers_see_a_web_server_witness :
  exists h st rsp ev c, ex_server_run ex_stranger_acts = Some (h, st) /\
    h !! 0%nat = Some (SvFrame ex_tcp XDP_DROP ev) /\ h !! 1%nat = Some (SvRequest ex_posted rsp) /\ rsp_status rsp = 204 /\
    li_conns (ss_proxy st) !! 0%nat = Some c /\ cn_sent c = [] /\ holding c = None.
Proof.
  pose proof ex_started_eq as Hs. pose proof ex_nobody_knocks as Hq. pose proof ex_seen_eq as Hseen. unfold ex_seen in Hseen.
  destruct (ex_server_run ex_stranger_acts) as [[h st]|] eqn:Hrun; [|discriminate Hq].
  unfold ex_quiet_run in Hq. apply andb_true_iff in Hq as [Hq Hlen].
  assert (Hno : forall src payload accept opened_at, SvGate (EvKnock src payload accept opened_at) ∉ h).
  { intros src payload accept opened_at Hin. apply list_elem_of_In in Hin. rewrite forallb_forall in Hq. by apply Hq in Hin. }
  destruct (li_conns (ss_proxy st)) as [|c l] eqn:Hc; [discriminate Hlen|].
  unfold ex_server_run in Hrun. destruct ex_started as [[[srv g] key]|]; [|done].
  cbn [mbind option_bind] in Hrun. destruct Hs as (Hb & Hg & _).
  destruct (strangers_see_a_web_server LittleEndian (fun _ => Some ex_server_config) ex_keys ex_refused 1024 ex_boot_env ex_cli ex_boot.1 srv g key
    ex_empty ex_stranger_acts h st) as (Hf & Hw & Hl);
    [by rewrite <-Hb; apply surjective_pairing|exact Hg|reflexivity|exact ex_stranger_acts_ok|exact Hrun|].
  destruct (Hf 0%nat _ _ _ eq_refl) as [ev Hev].
  { intros src dport payload accept opened_at _ Hin. exfalso. by inversion Hin. }
  specialize (Hw 1%nat _ _ eq_refl). destruct (Hl 0%nat c) as [Hsent Hhold]; [by rewrite Hc|by intros; apply Hno|].
  cbn [fmap option_fmap option_map fst snd] in Hseen. apply (inj Some) in Hseen. injection Hseen as Hv Hst.
  rewrite Hv in Hev. eexists h, st, _, ev, c. split; [reflexivity|]. split; [exact Hev|]. split; [exact Hw|]. split; [exact Hst|]. split; [rewrite Hc; exact eq_refl|]. by split.
Defined.
